(* ===== verification/_CoqProject ===== *)
-Q . S2P
Prelude.v
GoStrings.v
GoTime.v
GoFloat.v
Base64.v
GoTimeParse.v
Sha256.v
Json.v
Apperr.v
Failpoint.v
Schema.v
SchemaFacts.v
SchemaTheorems.v
Monad.v
World.v
Metrics.v
Storage.v
Idempotency.v
Event.v
Config.v
Cache.v
Outbox.v
LedgerModel.v
Http.v
RateLimit.v
LedgerRepo.v
LedgerService.v
EntryOrder.v
LedgerFacts.v
LedgerEffects.v
Kafka.v
Consumer.v
Publisher.v
Replay.v
Reconciliation.v
Handlers.v
Server.v
ApiEffects.v
Webhook.v
Migrate.v
Writers.v
Once.v
LedgerInvariant.v
System.v
Demo.v
Sessions.v
SessionFacts.v
SessionStatements.v
LedgerTheorems.v
SessionTheorems.v
ReconcileTheorems.v
OutboxFacts.v
WorkerTheorems.v
WebhookFacts.v
LockOrder.v
LedgerSpec.v
Runs.v
LedgerProgress.v
Delivery.v
ToolTheorems.v
Tame.v
HttpFacts.v
CacheFacts.v
HttpRuns.v
ApiTheorems.v
RateTheorems.v
HistoryTheorems.v
LoopTheorems.v
MetricsTheorems.v
Receiver.v
ReceiverTheorems.v
MigrateTheorems.v
Pipeline.v
EndToEnd.v
Seed.v
SeedTheorems.v
Startup.v
Commands.v
StartupTheorems.v
CommandTheorems.v
