(* ===== verification/Prelude.v ===== *)
(** * A verified model of the fault-tolerant payment ledger

    ** The program

    A double-entry ledger over PostgreSQL.  The HTTP API runs three commands
    (open an account, transfer, reverse), each one database transaction that
    also claims an idempotency key and writes an event to an outbox table.  A
    publisher moves events from the outbox to Kafka, a webhook worker turns
    Kafka messages into delivery rows and posts them to endpoints, a replayer
    republishes recorded events, a reconciler audits the balances.  The
    processes share nothing but the database, Kafka and an optional Redis
    (a cache of answers, and the counters of a rate limiter); failpoints can
    make most steps fail, panic or pause.  Around them are the tools that
    migrate the schema, replay events and seed a demonstration, and an example
    receiver of the webhooks.

    ** How it is modelled

    Go code is translated function by function into a state, error and panic
    monad ([Monad.ST]) over one [World.World]: the database as the running
    session sees it, the failpoint registry, the clock, the locks held, the
    identifiers drawn, the Kafka log, the HTTP calls made, the metrics recorded,
    Redis, and the answer being written.  Errors are the values of
    [Apperr.error], with Go's wrapping chains.  [int64] values are [Z] with the
    wrap-around of [Prelude.wrap64] where the code computes with them; [float64]
    backoff arithmetic is exact binary64 ([GoFloat]).  Components with a state
    of their own have a monad of their own: the receiver ([Receiver]), the
    consumer's position ([Consumer]), the schema being migrated ([Migrate]), the
    metrics registry ([Metrics]).

    Everything outside the repository is an argument: the class [World.Ext]
    gives, for each call by its index, whether it fails and how (a statement, a
    BEGIN, a COMMIT that fails or succeeds without acknowledgement, a publish
    that is or is not written, an HTTP answer, a cancelled context, a random
    draw, a UUID).  [Consumer.Broker], [Migrate.Engine], [Metrics.Prometheus],
    [Server.NetHttp], [Startup.Drivers], [Commands.Waiting] and [Seed.Network] do
    the same for the parts of their files.  Theorems quantify over them, so they
    hold under every fault.  The laws they need are stated where they are used: [UuidLaw] (a
    printed [uuid] reads back as itself), [NewUuidLaw] (a drawn one is already
    printed), [PrometheusLaw] (a registry refuses only what is invalid or
    taken), permutations for the row order of UPDATE ... RETURNING, the ranges
    of random draws.

    PostgreSQL itself is not a parameter: [Schema] gives each table as a finite
    map and each statement as a partial function with the constraints and
    triggers of [migrations/0001_init.up.sql], the deferred ones at commit, and
    TRUNCATE, which fires none of them.  A text column refuses what is not UTF-8 or
    holds a zero byte, a JSONB column a document with such a text.  A transaction runs its statements on the database it began with and
    installs the result, or nothing: in [System] transactions are atomic.  That
    the code may be read so is proved in [SessionTheorems]: the statements of the
    three commands, interleaved at READ COMMITTED with each other and with those
    of workers, do what the commands do one at a time, in the order of their
    commits.

    ** Files and the code they model

    - [GoStrings], [GoTime], [GoTimeParse], [GoFloat], [Base64], [Sha256],
      [Json]: what the code uses of Go's [strings], [strconv],
      [fmt], [time], [math], [encoding/base64], [crypto/sha256] and
      [encoding/json].
    - [Apperr]: [internal/apperr].  [Failpoint]: [internal/failpoint].
      [Config]: [internal/config].  [Metrics]: [metrics.go] of
      [internal/observability]; [logging.go] is in [World] (the identifiers of a
      context) and [Startup] (the loggers).
    - [Schema]: the migration.  [SchemaFacts]: its constraints as an invariant
      of every sequence of statements.
    - [Storage]: [InTx], [runOnce], retries and error classes of
      [internal/storage/postgres.go]; [Open] is in [Startup].  [Migrate]:
      [internal/storage/migrate.go].
    - [Idempotency], [Cache]: [record.go] and [cache.go] of
      [internal/idempotency].
    - [Event], [Outbox], [Publisher], [Replay]: [internal/outbox].
    - [LedgerModel], [LedgerRepo], [LedgerService]: [internal/ledger]; their
      operations are those of [service.go] and [repo.go] by name.
    - [Http], [Handlers], [Server], [RateLimit]: [internal/api], from the
      request to the answer: the routing of paths, the strict decoding of bodies,
      the handlers, the middleware, the limiter.
    - [Kafka], [Consumer]: [internal/kafka]; [Webhook]: [internal/webhook];
      [Reconciliation]: [internal/reconciliation].
    - [Sessions]: the commands of [service.go] once more, statement by
      statement, in sessions that run side by side.  A session sees the committed
      rows under its own ([lay]); a statement whose locks or unique keys another
      session holds waits ([compatible]); [cstep] is the step relation, [perform]
      its executable form.
    - [Startup]: [internal/app], what the workers' mains start and serve, and
      [cmd/api] from its start to its exit.
      [Commands]: [cmd/replay] and [cmd/migrate].  [Seed]: [cmd/seed].
      [Receiver]: [cmd/example-webhook].
    - [System]: a step is one call of the program by some process, or a change
      of anything but the database; [reachable] states are those that any
      sequence of steps reaches from the empty database.  [EndToEnd] adds the
      receiver, and a Kafka and a network that lose, repeat and reorder.

    ** What is proved

    - The ledger ([LedgerFacts], [LedgerEffects]: what the steps of a
      transaction do; [Once]: at most once under a key; [LedgerInvariant] and
      [System]: the invariant; [LedgerTheorems]): balances are the sums of
      their entries, money is conserved, no overdraft, balanced transactions,
      one event per transaction, at most one reversal, all-or-nothing commands,
      retries that replay, append-only history.
    - [LedgerSpec]: the system refines an abstract ledger of accounts, postings
      and keys.  [Runs], [LedgerProgress]: without faults, valid commands
      succeed and invalid ones are refused with the right code.
    - [SessionTheorems]: concurrent commands are serialisable, keep the ledger's
      invariants, and agree on the answer of a key.  [SessionFacts]: the
      statements of a command, run in a row, are its transaction of
      [LedgerService]; what a session relies on in the others ([rely]).
      [SessionStatements]: that each statement does the same on the rows it will
      find at commit as on those it saw.
    - [LockOrder], with [EntryOrder]: lock waits are acyclic.
    - [SchemaTheorems]: what the schema guarantees against any writer of rows, and
      what TRUNCATE does to it.
    - [Writers], [OutboxFacts], [WorkerTheorems], [Delivery], [WebhookFacts]:
      workers never touch the ledger, events are kept and only moved along
      their life cycle, claims are exclusive while statements that skip locked
      rows run side by side ([Outbox.claim_step]), marked events were sent, marked
      deliveries were acknowledged, redelivery creates nothing.
    - The API ([ApiEffects]: what serving a request may do to the database;
      [HttpFacts], [CacheFacts], [HttpRuns], [ApiTheorems]): every
      request is answered, every endpoint is reached, a repeated request is answered from its record, the
      cache repeats the records, a replay runs once per key whatever other sessions
      do to other rows between its transactions and their attempts
      ([Storage.InTx_waiting], [Server.serve_replay_among]).  [RateTheorems]:
      the limiter.  [HistoryTheorems]: the pages of an account's history.
    - [LoopTheorems]: the publisher's, the deliveries' and the consumer's loops.
    - [Tame]: what every part of the program leaves alone, as
      classes of relations that all calls respect; [MetricsTheorems] instantiates
      them for the counters (increments are accepted, successes are
      transactions), [Pipeline] for the way of an event.
    - [EndToEnd], with [ReceiverTheorems]: the receiver processes each event of
      the ledger at most once, and no other.
    - [ReconcileTheorems]: the audit is sound, complete, and clean on every
      reachable state.
    - [MigrateTheorems]: schema and bookkeeping move together, but for the row of
      one script that ends its transaction itself, as the repository's do.
    - [StartupTheorems], [CommandTheorems], [SeedTheorems]: sessions have
      bounded waits, processes start without Redis, the exits of the tools can
      be trusted, seeding again is safe and its wait ends.
    - [ToolTheorems]: failpoints, backoff, configuration, event encoding,
      rollback, request validation.
    - [Demo]: a concrete run on which theorems are instantiated.

    ** Bounds and fuel

    [Storage.InTx_loop] takes as fuel the number of attempts left, which the
    code's own loop bound gives ([maxRetries]); no result is cut short.  The
    polling loops ([publisher_loop], [delivery_loop], [consumer_loop]) run for
    ever in the code: their fuel is the number of passes, and they say whether
    they returned; [LoopTheorems] gives the fuel that is enough once the process
    is told to stop.  The waits of [Seed] and [Commands] have sixty-one rounds,
    one more than the seconds before their deadline; they never run out of them
    ([waitForReady_ends], [waitForDB_ends]).  Every other recursion is structural
    on the data the code loops over.  The powers of two of [Kafka.backoff_exp]
    are computed up to 2^1024, beyond which the float is infinite and the cap
    applies.

    ** Simplifications

    Numbers in JSON documents are integers, and those of metadata are rounded
    as [float64]; a body is the tree the scanner gives, with times as leaves.
    Cursors hold times of the years 1 to 9999.  Entries of Redis disappear (by
    TTL or eviction) in steps of the environment, not by the clock.  An answer
    has one status; informational (1xx) ones are taken for final.  The text
    order of UUIDs is taken for their order.  The consumer reads one partition,
    with the documented behaviour of [kafka-go]: the position only moves
    forward, commits are of one offset.  The receiver's counters stay below
    2^63 in the theorems that need it.

    ** What is not modelled

    The transactions of the migrations run without other sessions, and each
    transaction of the API's external idempotency ([Handlers]) is one step, other
    sessions in between.  Of a migration's script, that it ends the transaction it
    runs in is told from its last statement alone.  A session that has
    to wait is a step that is not possible yet: deadlocks and timeouts are
    rollbacks, and no statement of a session deletes rows.

    The lines that loggers write and what the [/metrics] page says; HTTP
    listeners, signal handling and the shutdown of the API server; closing pools
    and clients.
    [cmd/webhook-worker] is modelled up to its two loops; these run side by side
    as separate steps of [System]. *)
From stdpp Require Export base gmap strings list sorting pretty.
From Stdlib Require Export ZArith Lia.
From Stdlib Require Ascii String.
Export Stdlib.Strings.Ascii (ascii(..)).
Export (notations) Stdlib.Strings.Ascii.

#[export] Set Default Goal Selector "!".

(** * Go machine integers *)

(** Go's [int] and [int64] on the supported platforms: a [Z] in
    [-2^63, 2^63), with two's-complement wrap-around on overflow. *)
Definition int64_min : Z := (-9223372036854775808)%Z.
Definition int64_max : Z := 9223372036854775807%Z.
Definition uint64_mod : Z := 18446744073709551616%Z.

Definition in_int64 (z : Z) : bool := (int64_min <=? z)%Z && (z <=? int64_max)%Z.

(** Conversion of an unbounded result back to 64 bits. *)
Definition wrap64 (z : Z) : Z :=
  ((z + 9223372036854775808) mod uint64_mod - 9223372036854775808)%Z.

(** Reduction modulo 2^64, for [uint64]. *)
Definition wrapu64 (z : Z) : Z := (z mod uint64_mod)%Z.

Declare Scope go_scope.
Delimit Scope go_scope with go.
Notation "a +64 b" := (wrap64 (a + b)) (at level 50, left associativity) : go_scope.
Notation "-64 a" := (wrap64 (- a)) (at level 35, right associativity) : go_scope.

Lemma in_int64_iff z : in_int64 z = true ↔ (int64_min ≤ z ≤ int64_max)%Z.
Proof. unfold in_int64. rewrite andb_true_iff, !Z.leb_le. done. Qed.

Lemma wrap64_range z : (int64_min ≤ wrap64 z ≤ int64_max)%Z.
Proof.
  unfold wrap64, uint64_mod, int64_min, int64_max.
  pose proof (Z.mod_pos_bound (z + 9223372036854775808) 18446744073709551616). lia.
Qed.

Lemma wrap64_id z : (int64_min ≤ z ≤ int64_max)%Z → wrap64 z = z.
Proof.
  unfold wrap64, uint64_mod, int64_min, int64_max. intros.
  rewrite Z.mod_small by lia. lia.
Qed.

Lemma wrap64_add_l a b : wrap64 (wrap64 a + b) = wrap64 (a + b).
Proof.
  unfold wrap64, uint64_mod.
  replace ((a + 9223372036854775808) mod 18446744073709551616
           - 9223372036854775808 + b + 9223372036854775808)%Z
    with ((a + 9223372036854775808) mod 18446744073709551616 + b)%Z by lia.
  rewrite Zplus_mod_idemp_l. do 2 f_equal. lia.
Qed.

(** * Sums over lists *)

Definition sum_with {A} (f : A → Z) (l : list A) : Z := foldr Z.add 0%Z (f <$> l).

Section sum_with.
Context {A : Type} (f : A → Z).
Implicit Types l : list A.

Lemma sum_with_nil : sum_with f [] = 0%Z.
Proof. done. Qed.

Lemma sum_with_cons x l : sum_with f (x :: l) = (f x + sum_with f l)%Z.
Proof. done. Qed.

Lemma sum_with_app l1 l2 : sum_with f (l1 ++ l2) = (sum_with f l1 + sum_with f l2)%Z.
Proof. induction l1 as [|x l1 IH]; [done|]. simpl. rewrite !sum_with_cons, IH. lia. Qed.

Lemma sum_with_perm l1 l2 : l1 ≡ₚ l2 → sum_with f l1 = sum_with f l2.
Proof.
  induction 1; rewrite ?sum_with_cons; lia.
Qed.

Lemma sum_with_filter_cons (P : A → Prop) `{∀ x, Decision (P x)} x l :
  sum_with f (filter P (x :: l)) =
    ((if decide (P x) then f x else 0) + sum_with f (filter P l))%Z.
Proof. rewrite filter_cons. case_decide; [by rewrite sum_with_cons|lia]. Qed.

Lemma sum_with_filter_none (P : A → Prop) `{∀ x, Decision (P x)} l :
  Forall (λ x, ¬ P x) l → sum_with f (filter P l) = 0%Z.
Proof.
  induction 1; [done|]. rewrite sum_with_filter_cons, decide_False by done. lia.
Qed.
End sum_with.

Lemma sum_with_opp {A} (f g : A → Z) (l : list A) :
  Forall (λ x, g x = (- f x)%Z) l → sum_with g l = (- sum_with f l)%Z.
Proof. induction 1; rewrite ?sum_with_cons; [done|lia]. Qed.

Create Rewrite HintDb sums.
#[export] Hint Rewrite @sum_with_nil @sum_with_cons @sum_with_app
  @sum_with_filter_cons : sums.

(** * Filtering *)

Lemma list_filter_all {A} (P : A → Prop) `{∀ x, Decision (P x)} (l : list A) :
  Forall P l → filter P l = l.
Proof. induction 1 as [|x l Hx _ IH]; [done|]. by rewrite filter_cons_True, IH. Qed.

Lemma list_filter_none {A} (P : A → Prop) `{∀ x, Decision (P x)} (l : list A) :
  Forall (λ x, ¬ P x) l → filter P l = [].
Proof. induction 1 as [|x l Hx _ IH]; [done|]. by rewrite filter_cons_False. Qed.

(** * Summing by groups *)

Lemma sum_with_ext {A} (f g : A → Z) (l : list A) :
  (∀ x, x ∈ l → f x = g x) → sum_with f l = sum_with g l.
Proof.
  induction l as [|x l IH]; intros Hfg; [done|]. rewrite !sum_with_cons, (Hfg x) by left.
  f_equal. apply IH. intros y Hy. apply Hfg. by right.
Qed.

Lemma sum_with_plus {A} (f g : A → Z) (l : list A) :
  sum_with (λ x, f x + g x)%Z l = (sum_with f l + sum_with g l)%Z.
Proof. induction l as [|x l IH]; [done|]. rewrite !sum_with_cons, IH. lia. Qed.

Lemma sum_with_zero {A} (f : A → Z) (l : list A) :
  (∀ x, x ∈ l → f x = 0%Z) → sum_with f l = 0%Z.
Proof.
  intros Hf. induction l as [|x l IH]; [done|]. rewrite sum_with_cons, (Hf x) by left.
  rewrite IH; [done|]. intros y Hy. apply Hf. by right.
Qed.

Lemma sum_with_single (k : string) (z : Z) (ks : list string) :
  NoDup ks → k ∈ ks → sum_with (λ k', if decide (k = k') then z else 0%Z) ks = z.
Proof.
  induction 1 as [|k' ks Hk _ IH]; intros Hin; [by apply not_elem_of_nil in Hin|].
  rewrite sum_with_cons. destruct (decide (k = k')) as [->|Hne].
  - rewrite sum_with_zero; [lia|]. intros x Hx. rewrite decide_False; [done|]. by intros ->.
  - apply elem_of_cons in Hin as [->|Hin]; [done|]. rewrite IH by done. lia.
Qed.

(** The sums of the groups of a partition add up to the whole. *)
Lemma sum_with_groups {A} (key : A → string) (f : A → Z) (ks : list string) (l : list A) :
  NoDup ks → Forall (λ x, key x ∈ ks) l →
  sum_with (λ k, sum_with f (filter (λ x, key x = k) l)) ks = sum_with f l.
Proof.
  intros Hks. induction 1 as [|x l Hx _ IH]; [by apply sum_with_zero|].
  rewrite sum_with_cons, <-IH, <-(sum_with_single (key x) (f x) ks) by done.
  rewrite <-sum_with_plus. apply sum_with_ext. intros k _.
  exact (sum_with_filter_cons f (λ y, key y = k) x l).
Qed.
