(* ===== verification/GoStrings.v ===== *)
(** What the source uses of Go's [strings], [strconv] and [fmt] packages,
    over byte strings ([String.string], one [ascii] per byte). *)
From S2P Require Import Prelude.


(** ** Bytes *)

Definition byte_of (c : ascii) : N := Ascii.N_of_ascii c.

Definition is_digit (c : ascii) : bool :=
  (48 <=? byte_of c)%N && (byte_of c <=? 57)%N.
Definition is_upper (c : ascii) : bool :=
  (65 <=? byte_of c)%N && (byte_of c <=? 90)%N.
Definition is_lower (c : ascii) : bool :=
  (97 <=? byte_of c)%N && (byte_of c <=? 122)%N.
Definition is_alnum (c : ascii) : bool := is_digit c || is_upper c || is_lower c.

(** The ASCII part of [unicode.IsSpace]. *)
Definition is_go_space (c : ascii) : bool :=
  let n := byte_of c in ((9 <=? n) && (n <=? 13) || (n =? 32))%N.

(** [[]byte(s)] and back. *)
Fixpoint bytes_of (s : string) : list Z :=
  match s with
  | EmptyString => []
  | String c s' => Z.of_N (byte_of c) :: bytes_of s'
  end.

Fixpoint string_of (l : list Z) : string :=
  match l with
  | [] => EmptyString
  | b :: l => String (Ascii.ascii_of_N (Z.to_N b)) (string_of l)
  end.

Lemma string_of_bytes s : string_of (bytes_of s) = s.
Proof.
  induction s as [|c s IH]; simpl; [done|]. rewrite N2Z.id, IH.
  unfold byte_of. by rewrite Ascii.ascii_N_embedding.
Qed.

Lemma bytes_of_range s : Forall (λ b, 0 ≤ b < 256)%Z (bytes_of s).
Proof.
  induction s as [|c s IH]; constructor; [|done]. unfold byte_of.
  pose proof (Ascii.N_ascii_bounded c). lia.
Qed.

(** ** [strings] *)

Fixpoint string_forallb (p : ascii → bool) (s : string) : bool :=
  match s with
  | EmptyString => true
  | String c s' => p c && string_forallb p s'
  end.

(** [strings.Cut] with a one-byte separator. *)
Fixpoint Cut (sep : ascii) (s : string) : option (string * string) :=
  match s with
  | EmptyString => None
  | String c s' =>
      if Ascii.eqb c sep then Some (EmptyString, s')
      else match Cut sep s' with
           | Some (a, b) => Some (String c a, b)
           | None => None
           end
  end.

(** [strings.Split] with a one-byte separator: never the empty list. *)
Fixpoint Split (sep : ascii) (s : string) : list string :=
  match s with
  | EmptyString => [EmptyString]
  | String c s' =>
      if Ascii.eqb c sep then EmptyString :: Split sep s'
      else match Split sep s' with
           | p :: ps => String c p :: ps
           | [] => [String c EmptyString]
           end
  end.

Fixpoint trim_left (s : string) : string :=
  match s with
  | String c s' => if is_go_space c then trim_left s' else s
  | EmptyString => EmptyString
  end.

(** [strings.TrimSpace]. *)
Definition TrimSpace (s : string) : string :=
  String.rev (trim_left (String.rev (trim_left s))).

(** [strings.Contains]. *)
Fixpoint Contains (s sub : string) : bool :=
  String.prefix sub s ||
  match s with
  | EmptyString => false
  | String _ s' => Contains s' sub
  end.

(** A prefix of at most [n] bytes: [s[:n]] for [n <= len(s)]. *)
Definition take_bytes (n : nat) (s : string) : string := String.substring 0 n s.

(** [strings.HasSuffix] and [strings.TrimSuffix]. *)
Definition HasSuffix (s suffix : string) : bool :=
  (String.length suffix <=? String.length s)%nat &&
  String.eqb (String.substring (String.length s - String.length suffix) (String.length suffix) s) suffix.

Definition TrimSuffix (s suffix : string) : string :=
  if HasSuffix s suffix then take_bytes (String.length s - String.length suffix) s else s.

(** ** [strconv] *)

(** Decimal digits, most significant first, without a sign. *)
Fixpoint digits_val (acc : Z) (s : string) : option Z :=
  match s with
  | EmptyString => Some acc
  | String c s' =>
      if is_digit c then digits_val (acc * 10 + (Z.of_N (byte_of c) - 48)) s'
      else None
  end.

(** [strconv.Atoi]: an optional sign, then at least one digit, in the range
    of [int]. *)
Definition Atoi (s : string) : option Z :=
  let '(neg, body) :=
    match s with
    | String "-" s' => (true, s')
    | String "+" s' => (false, s')
    | _ => (false, s)
    end in
  match body with
  | EmptyString => None
  | _ =>
      match digits_val 0 body with
      | Some n => let v := if neg : bool then (- n)%Z else n in
                  if in_int64 v then Some v else None
      | None => None
      end
  end.

(** The errors of [Atoi]. Digits are read until the number passes 64 bits, so what
    comes after them is not looked at. *)
Inductive num_error := ErrSyntax | ErrRange.

Fixpoint digits_error (acc : Z) (s : string) : num_error :=
  match s with
  | EmptyString => ErrRange
  | String c s' =>
      if is_digit c then
        let n := (acc * 10 + (Z.of_N (byte_of c) - 48))%Z in
        if (uint64_mod <=? n)%Z then ErrRange else digits_error n s'
      else ErrSyntax
  end.

(** For a text [Atoi] refuses. *)
Definition Atoi_error (s : string) : num_error :=
  let body :=
    match s with
    | String c s' => if Ascii.eqb c "-" || Ascii.eqb c "+" then s' else s
    | EmptyString => s
    end in
  match body with EmptyString => ErrSyntax | _ => digits_error 0 body end.

Definition num_error_text (e : num_error) : string :=
  match e with ErrSyntax => "invalid syntax" | ErrRange => "value out of range" end.

(** The [int] that comes with the error or without: the nearest one when the
    number does not fit, 0 when there is none. *)
Definition Atoi_value (s : string) : Z :=
  match Atoi s with
  | Some v => v
  | None =>
      match Atoi_error s with
      | ErrSyntax => 0%Z
      | ErrRange =>
          match s with
          | String c _ => if Ascii.eqb c "-" then int64_min else int64_max
          | EmptyString => 0%Z
          end
      end
  end.

(** [strconv.Itoa] and the [%d] verb. *)
Definition Itoa (z : Z) : string := pretty z.

Definition dquote : ascii := "034".
Definition backslash : ascii := "092".

Definition hex_digit (n : N) : ascii :=
  Ascii.ascii_of_N (if (n <? 10)%N then 48 + n else 87 + n)%N.

(** [strconv.Quote] (the [%q] verb): the escapes of the ASCII range; a byte
    above 0x7f is copied, as Go does for printable UTF-8 text. *)
Definition quote_char (c : ascii) : string :=
  let n := byte_of c in
  if Ascii.eqb c dquote || Ascii.eqb c backslash
  then String backslash (String c EmptyString)
  else if (n =? 7)%N then "\a" else if (n =? 8)%N then "\b"
  else if (n =? 12)%N then "\f" else if (n =? 10)%N then "\n"
  else if (n =? 13)%N then "\r" else if (n =? 9)%N then "\t"
  else if (n =? 11)%N then "\v"
  else if (n <? 32)%N || (n =? 127)%N
  then "\x" +:+ String (hex_digit (n / 16)) (String (hex_digit (n mod 16)) EmptyString)
  else String c EmptyString.

Fixpoint quote_body (s : string) : string :=
  match s with
  | EmptyString => String dquote EmptyString
  | String c s' => quote_char c +:+ quote_body s'
  end.

Definition Quote (s : string) : string := String dquote (quote_body s).

(** ** [fmt.Sprintf] for the verbs [%s], [%v], [%d] and [%q] *)

Inductive arg :=
  | AStr (s : string)
  | AInt (z : Z).

Definition format_verb (v : ascii) (a : arg) : string :=
  match a with
  | AStr s => if Ascii.eqb v "q" then Quote s else s
  | AInt z => Itoa z
  end.

Fixpoint Sprintf (f : string) (args : list arg) : string :=
  match f with
  | EmptyString => EmptyString
  | String "%" (String v f') =>
      match args with
      | a :: rest => format_verb v a +:+ Sprintf f' rest
      | [] => "%!" +:+ String v "(MISSING)" +:+ Sprintf f' []
      end
  | String c f' => String c (Sprintf f' args)
  end.

(** ** Facts *)

Lemma Cut_spec sep s a b : Cut sep s = Some (a, b) → s = a +:+ String sep b.
Proof.
  revert a b. induction s as [|c s IH]; intros a b; simpl; [done|].
  destruct (Ascii.eqb_spec c sep) as [->|].
  - by intros [= <- <-].
  - destruct (Cut sep s) as [[a' b']|]; [|done].
    intros [= <- <-]. by rewrite (IH a' b').
Qed.

Lemma Cut_app sep a b :
  string_forallb (λ c, negb (Ascii.eqb c sep)) a = true →
  Cut sep (a +:+ String sep b) = Some (a, b).
Proof.
  unfold String.app. induction a as [|c a IH]; simpl.
  - by rewrite Ascii.eqb_refl.
  - rewrite andb_true_iff, negb_true_iff. intros [-> Ha]. by rewrite (IH Ha).
Qed.

Lemma app_cancel_l (a b c : string) : a +:+ b = a +:+ c → b = c.
Proof. induction a as [|x a IH]; [done|]. intros [= E]. by apply IH. Qed.

Lemma length_app_string (a b : string) :
  String.length (a +:+ b) = (String.length a + String.length b)%nat.
Proof. induction a as [|x a IH]; simpl; [done|by rewrite IH]. Qed.

Lemma app_cancel_r (a b c : string) : a +:+ c = b +:+ c → a = b.
Proof.
  intros E. assert (String.length (a +:+ c) = String.length (b +:+ c)) as Hl by by rewrite E.
  rewrite !length_app_string in Hl. revert b E Hl.
  induction a as [|x a IH]; intros [|y b] E Hl; simpl in *; try lia; [done|].
  injection E as -> E. f_equal. apply IH; [done|lia].
Qed.

Lemma app_assoc_string (a b c : string) : (a +:+ b) +:+ c = a +:+ b +:+ c.
Proof. induction a as [|x a IH]; [done|]. apply (f_equal (String x)), IH. Qed.

Lemma substring_full (b : string) : String.substring 0 (String.length b) b = b.
Proof. induction b as [|x b IH]; [done|]. cbn. by rewrite IH. Qed.

Lemma substring_skip (a b : string) n :
  String.substring (String.length a) n (a +:+ b) = String.substring 0 n b.
Proof. induction a as [|x a IH]; [done|]. apply IH. Qed.

Lemma take_bytes_app (a b : string) : take_bytes (String.length a) (a +:+ b) = a.
Proof.
  unfold take_bytes. induction a as [|x a IH]; [by destruct b|]. apply (f_equal (String x)), IH.
Qed.

Lemma take_drop_bytes n (s : string) : (n <= String.length s)%nat →
  s = take_bytes n s +:+ String.substring n (String.length s - n) s.
Proof.
  unfold take_bytes. revert n. induction s as [|x s IH]; intros [|n] Hn; simpl in *; [done|lia|..].
  - by rewrite substring_full.
  - apply (f_equal (String x)), IH. lia.
Qed.

Lemma HasSuffix_app (a b : string) : HasSuffix (a +:+ b) b = true.
Proof.
  unfold HasSuffix. rewrite length_app_string. apply andb_true_iff. split; [apply Nat.leb_le; lia|].
  replace (String.length a + String.length b - String.length b)%nat with (String.length a) by lia.
  rewrite substring_skip, substring_full. apply String.eqb_refl.
Qed.

Lemma TrimSuffix_app (a b : string) : TrimSuffix (a +:+ b) b = a.
Proof.
  unfold TrimSuffix. rewrite HasSuffix_app, length_app_string.
  replace (String.length a + String.length b - String.length b)%nat with (String.length a) by lia.
  apply take_bytes_app.
Qed.

Lemma HasSuffix_spec (s suffix : string) :
  HasSuffix s suffix = true → s = TrimSuffix s suffix +:+ suffix.
Proof.
  intros Hs. unfold TrimSuffix. rewrite Hs. unfold HasSuffix in Hs.
  apply andb_true_iff in Hs as [Hl%Nat.leb_le E%String.eqb_eq].
  set (n := (String.length s - String.length suffix)%nat) in *.
  rewrite (take_drop_bytes n s) at 1 by lia. f_equal. etrans; [|exact E]. f_equal. lia.
Qed.

Example Atoi_neg : Atoi "-12" = Some (-12)%Z.
Proof. reflexivity. Qed.
Example Atoi_bad : Atoi "1x" = None.
Proof. reflexivity. Qed.
Example Sprintf_id : Sprintf "a %s b %d" [AStr "x"; AInt 7] = "a x b 7".
Proof. reflexivity. Qed.
