(* ===== verification/GoTime.v ===== *)
(** [time.Duration] and [time.ParseDuration].

    A duration is an [int64] number of nanoseconds, kept as a [Z].  The one
    floating-point step of [ParseDuration], scaling the fraction of a
    component, is computed exactly and truncated. *)
From S2P Require Import Prelude GoStrings.
Local Open Scope Z_scope.

Definition Nanosecond : Z := 1.
Definition Microsecond : Z := 1000.
Definition Millisecond : Z := 1000000.
Definition Second : Z := 1000000000.
Definition Minute : Z := 60 * Second.
Definition Hour : Z := 60 * Minute.

Definition two63 : Z := 9223372036854775808.

Definition unit_of (u : string) : option Z :=
  if String.eqb u "ns" then Some Nanosecond
  else if String.eqb u "us" then Some Microsecond
  else if String.eqb u (String "194" (String "181" "s")) then Some Microsecond
  else if String.eqb u (String "206" (String "188" "s")) then Some Microsecond
  else if String.eqb u "ms" then Some Millisecond
  else if String.eqb u "s" then Some Second
  else if String.eqb u "m" then Some Minute
  else if String.eqb u "h" then Some Hour
  else None.

Definition digit_val (c : ascii) : Z := Z.of_N (byte_of c) - 48.

(** [leadingInt]: the digits consumed, or [None] on overflow. *)
Fixpoint leadingInt (x : Z) (s : string) : option (Z * string) :=
  match s with
  | String c s' =>
      if is_digit c then
        if two63 / 10 <? x then None
        else let x' := x * 10 + digit_val c in
             if two63 <? x' then None else leadingInt x' s'
      else Some (x, s)
  | EmptyString => Some (x, s)
  end.

(** [leadingFraction]: digits past the 64-bit range are dropped. *)
Fixpoint leadingFraction (x scale : Z) (overflow : bool) (s : string) : Z * Z * string :=
  match s with
  | String c s' =>
      if is_digit c then
        if overflow then leadingFraction x scale true s'
        else if (two63 - 1) / 10 <? x then leadingFraction x scale true s'
        else let y := x * 10 + digit_val c in
             if two63 <? y then leadingFraction x scale true s'
             else leadingFraction y (scale * 10) false s'
      else (x, scale, s)
  | EmptyString => (x, scale, s)
  end.

(** The unit: everything up to the next digit or dot. *)
Fixpoint span_unit (s : string) : string * string :=
  match s with
  | String c s' =>
      if Ascii.eqb c "." || is_digit c then (EmptyString, s)
      else let '(u, rest) := span_unit s' in (String c u, rest)
  | EmptyString => (EmptyString, EmptyString)
  end.

(** One turn of the loop: a number, an optional fraction and a unit. *)
Definition duration_component (s : string) : option (Z * string) :=
  '(v, s1) ← leadingInt 0 s;
  let pre := negb (String.eqb s1 s) in
  let '(f, scale, s2, post) :=
    match s1 with
    | String "." s1' =>
        let '(f, scale, s2) := leadingFraction 0 1 false s1' in
        (f, scale, s2, negb (String.eqb s2 s1'))
    | _ => (0, 1, s1, false)
    end in
  if negb pre && negb post then None
  else
    let '(u, rest) := span_unit s2 in
    if String.eqb u "" then None
    else
      unit ← unit_of u;
      if two63 / unit <? v then None
      else
        let v := v * unit + (if 0 <? f then f * unit / scale else 0) in
        if two63 <? v then None else Some (v, rest).

(** The loop runs at most once per byte, so the length of the string is enough
    fuel. *)
Fixpoint duration_loop (fuel : nat) (d : Z) (s : string) : option Z :=
  match s with
  | EmptyString => Some d
  | String c _ =>
      match fuel with
      | O => None
      | S fuel =>
          if Ascii.eqb c "." || is_digit c then
            '(v, rest) ← duration_component s;
            if two63 <? d + v then None else duration_loop fuel (d + v) rest
          else None
      end
  end.

Definition ParseDuration (s : string) : option Z :=
  let '(neg, body) :=
    match s with
    | String "-" s' => (true, s')
    | String "+" s' => (false, s')
    | _ => (false, s)
    end in
  if String.eqb body "0" then Some 0
  else if String.eqb body "" then None
  else
    d ← duration_loop (String.length body) 0 body;
    if neg : bool then Some (- d)
    else if two63 - 1 <? d then None else Some d.

Example ParseDuration_ms : ParseDuration "250ms" = Some (250 * Millisecond).
Proof. reflexivity. Qed.
Example ParseDuration_mix : ParseDuration "-1h2.5s" = Some (- (Hour + 2500 * Millisecond)).
Proof. reflexivity. Qed.
Example ParseDuration_bad : ParseDuration "12" = None.
Proof. reflexivity. Qed.

(** ** The range of a parsed duration *)

Lemma digit_val_nonneg c : is_digit c = true → 0 ≤ digit_val c.
Proof.
  unfold is_digit, digit_val, byte_of. rewrite andb_true_iff, !N.leb_le. lia.
Qed.

Lemma leadingInt_nonneg x s v r : 0 ≤ x → leadingInt x s = Some (v, r) → 0 ≤ v.
Proof.
  revert x. induction s as [|c s IH]; intros x Hx; simpl; [by intros [= <- <-]|].
  destruct (is_digit c) eqn:Hc; [|by intros [= <- <-]].
  apply digit_val_nonneg in Hc.
  destruct (_ <? x); [done|]. destruct (two63 <? _); [done|].
  apply IH. lia.
Qed.

Lemma leadingFraction_pos x k b s f sc r :
  0 ≤ x → 0 < k → leadingFraction x k b s = (f, sc, r) → 0 ≤ f ∧ 0 < sc.
Proof.
  revert x k b. induction s as [|c s IH]; intros x k b Hx Hk; simpl; [by intros [= <- <- <-]|].
  destruct (is_digit c) eqn:Hc; [|by intros [= <- <- <-]].
  apply digit_val_nonneg in Hc.
  destruct b; [by apply IH|]. destruct (_ <? x); [by apply IH|].
  destruct (two63 <? _); apply IH; lia.
Qed.

Lemma unit_of_pos u n : unit_of u = Some n → 0 < n.
Proof. unfold unit_of. intros. by repeat (case_match; simplify_eq). Qed.

Lemma duration_component_nonneg s v r : duration_component s = Some (v, r) → 0 ≤ v.
Proof.
  unfold duration_component.
  destruct (leadingInt 0 s) as [[v0 s1]|] eqn:E1; simpl; [|done].
  apply leadingInt_nonneg in E1; [|done].
  set (t := match s1 with String "." s1' => _ | _ => _ end).
  assert (∃ f sc s2 b, t = (f, sc, s2, b) ∧ 0 ≤ f ∧ 0 < sc) as (f & sc & s2 & b & -> & Hf & Hsc).
  { subst t. destruct s1 as [|c1 s1']; [by eexists _, _, _, _|].
    destruct (leadingFraction 0 1 false s1') as [[f sc] s2] eqn:E2.
    apply leadingFraction_pos in E2; [|done..].
    destruct c1 as [[][][][][][][][]]; by eexists _, _, _, _. }
  destruct (_ && _); [done|]. destruct (span_unit s2) as [u rest'].
  destruct (String.eqb u ""); [done|].
  destruct (unit_of u) as [un|] eqn:Hu; simpl; [|done]. apply unit_of_pos in Hu.
  destruct (_ <? v0); [done|]. destruct (two63 <? _); [done|].
  intros [= <- <-].
  destruct (0 <? f); [|nia]. assert (0 ≤ f * un / sc) by (apply Z.div_pos; nia). nia.
Qed.

Lemma duration_loop_range fuel d s z :
  0 ≤ d ≤ two63 → duration_loop fuel d s = Some z → 0 ≤ z ≤ two63.
Proof.
  revert d s. induction fuel as [|fuel IH]; intros d [|c s] Hd; simpl.
  - by intros [= <-].
  - done.
  - by intros [= <-].
  - destruct (_ || _); [|done].
    destruct (duration_component _) as [[v rest]|] eqn:E; simpl; [|done].
    apply duration_component_nonneg in E.
    destruct (Z.ltb_spec two63 (d + v)); [done|]. apply IH. lia.
Qed.

(** A parsed duration always fits the [int64] it is stored in. *)
Lemma ParseDuration_range s z :
  ParseDuration s = Some z → int64_min ≤ z ≤ int64_max.
Proof.
  unfold ParseDuration, int64_min, int64_max.
  match goal with |- context [let '(_, _) := ?t in _] => destruct t as [neg body] end.
  destruct (String.eqb body "0"); [intros [= <-]; lia|].
  destruct (String.eqb body ""); [done|].
  destruct (duration_loop _ 0 body) as [d|] eqn:E; simpl; [|done].
  apply duration_loop_range in E; [|unfold two63; lia]. unfold two63 in *.
  destruct neg; [intros [= <-]; lia|].
  destruct (Z.ltb_spec (9223372036854775808 - 1) d); [done|]. intros [= <-]. lia.
Qed.

(** ** Formatting *)

(** [n] decimal digits of [v], zeros in front. *)
Fixpoint pad_digits (n : nat) (v : Z) : string :=
  match n with
  | O => ""
  | S n => pad_digits n (v / 10) +:+ String (Ascii.ascii_of_N (Z.to_N (48 + v mod 10))) ""
  end.

Fixpoint trim_zeros (s : string) : string :=
  match s with
  | EmptyString => EmptyString
  | String c s' =>
      match trim_zeros s' with
      | EmptyString => if Ascii.eqb c "0" then "" else String c ""
      | s'' => String c s''
      end
  end.

(** [v / 10^prec]'s fraction, without trailing zeros; nothing when it is zero. *)
Definition fraction_text (v : Z) (prec : nat) : string :=
  match trim_zeros (pad_digits prec (v mod 10 ^ Z.of_nat prec)) with
  | EmptyString => ""
  | s => "." +:+ s
  end.

(** [Duration.String]. *)
Definition Duration_String (d : Z) : string :=
  let u := Z.abs d in
  let sign := if d <? 0 then "-" else "" in
  if u =? 0 then "0s"
  else if u <? Microsecond then sign +:+ Itoa u +:+ "ns"
  else if u <? Millisecond then sign +:+ Itoa (u / 10 ^ 3) +:+ fraction_text u 3 +:+ "µs"
  else if u <? Second then sign +:+ Itoa (u / 10 ^ 6) +:+ fraction_text u 6 +:+ "ms"
  else
    let secs := u / Second in
    let s := Itoa (secs mod 60) +:+ fraction_text u 9 +:+ "s" in
    let mins := secs / 60 in
    if mins =? 0 then sign +:+ s
    else
      let m := Itoa (mins mod 60) +:+ "m" in
      let hours := mins / 60 in
      if hours =? 0 then sign +:+ m +:+ s else sign +:+ Itoa hours +:+ "h" +:+ m +:+ s.

(** The civil date of a day, counted from 0001-01-01: year, month, day. *)
Definition civil (days : Z) : Z * Z * Z :=
  let z := days + 306 in
  let era := z / 146097 in
  let doe := z mod 146097 in
  let yoe := (doe - doe / 1460 + doe / 36524 - doe / 146096) / 365 in
  let doy := doe - (365 * yoe + yoe / 4 - yoe / 100) in
  let mp := (5 * doy + 2) / 153 in
  let d := doy - (153 * mp + 2) / 5 + 1 in
  let m := if mp <? 10 then mp + 3 else mp - 9 in
  (yoe + era * 400 + (if m <=? 2 then 1 else 0), m, d).

(** [time.RFC3339Nano] of an instant, in UTC; instants count nanoseconds from
    0001-01-01T00:00:00Z. *)
Definition RFC3339Nano (t : Z) : string :=
  let secs := t / Second in
  let '(y, m, d) := civil (secs / 86400) in
  let s := secs mod 86400 in
  pad_digits 4 y +:+ "-" +:+ pad_digits 2 m +:+ "-" +:+ pad_digits 2 d +:+ "T" +:+
  pad_digits 2 (s / 3600) +:+ ":" +:+ pad_digits 2 (s / 60 mod 60) +:+ ":" +:+
  pad_digits 2 (s mod 60) +:+ fraction_text (t mod Second) 9 +:+ "Z".

Example Duration_String_ex : Duration_String (90 * Second + 500 * Millisecond) = "1m30.5s".
Proof. reflexivity. Qed.
Example RFC3339Nano_ex : RFC3339Nano (63863337600 * Second + 120000000) = "2024-10-01T00:00:00.12Z".
Proof. vm_compute. reflexivity. Qed.
