(* ===== verification/GoFloat.v ===== *)
(** [float64] arithmetic on the values the backoff code computes: a float is an
    integer count of 2^-54, and each operation rounds to 53 significant bits,
    ties to even.  Every value there is a multiple of 2^-54 below the overflow
    threshold, so this is binary64. *)
From S2P Require Import Prelude.
Local Open Scope Z_scope.

(** The unit: 1.0. *)
Definition one : Z := 2 ^ 54.

(** Rounding of a non-negative value to 53 bits. *)
Definition round_bits (n : Z) : Z :=
  let d := Z.max 0 (Z.log2 n - 52) in
  let q := n / 2 ^ d in
  let r := n mod 2 ^ d in
  (if (2 ^ d <? 2 * r) || ((2 * r =? 2 ^ d) && Z.odd q) then q + 1 else q) * 2 ^ d.

Definition round (n : Z) : Z := Z.sgn n * round_bits (Z.abs n).

(** [float64(z)]. *)
Definition of_int (z : Z) : Z := round (z * one).

(** [int64(f)]: truncation, or what amd64 gives when it does not fit. *)
Definition to_int64 (f : Z) : Z :=
  let z := Z.quot f one in if in_int64 z then z else int64_min.

(** * Lemmas *)

Lemma round_bits_0 : round_bits 0 = 0.
Proof. done. Qed.

Lemma round_nonneg n : 0 ≤ n → round n = round_bits n.
Proof.
  intros Hn. unfold round. rewrite Z.abs_eq by done.
  destruct (Z.eq_dec n 0) as [->|]; [done|]. rewrite Z.sgn_pos by lia. lia.
Qed.

(** A multiple of the last place is not changed. *)
Lemma round_bits_exact n k :
  0 ≤ k → 0 < n < 2 ^ 53 → round_bits (n * 2 ^ k) = n * 2 ^ k.
Proof.
  intros Hk Hn. unfold round_bits. rewrite Z.log2_mul_pow2 by lia.
  set (d := Z.max 0 (k + Z.log2 n - 52)).
  assert (Z.log2 n < 53) as Hl by (apply Z.log2_lt_pow2; lia).
  assert (0 ≤ d ≤ k) as Hd by lia.
  assert (n * 2 ^ k = n * 2 ^ (k - d) * 2 ^ d) as ->.
  { rewrite <-Z.mul_assoc, <-Z.pow_add_r by lia. do 2 f_equal. lia. }
  assert (0 < 2 ^ d) by (apply Z.pow_pos_nonneg; lia).
  rewrite Z.mod_mul, Z.div_mul by lia.
  destruct (Z.ltb_spec (2 ^ d) (2 * 0)); [lia|].
  destruct (Z.eqb_spec (2 * 0) (2 ^ d)); [lia|]. done.
Qed.

Lemma round_exact n k : 0 ≤ k → 0 ≤ n < 2 ^ 53 → round (n * 2 ^ k) = n * 2 ^ k.
Proof.
  intros Hk Hn. assert (0 < 2 ^ k) by (apply Z.pow_pos_nonneg; lia).
  rewrite round_nonneg by nia. destruct (Z.eq_dec n 0) as [->|]; [done|].
  apply round_bits_exact; lia.
Qed.

Lemma of_int_exact z : 0 ≤ z < 2 ^ 53 → of_int z = z * one.
Proof. intros Hz. unfold of_int, one. apply round_exact; lia. Qed.

(** A rounded value is the quotient by the last place, or one more. *)
Lemma round_bits_step n :
  0 < n → let d := Z.max 0 (Z.log2 n - 52) in
  n / 2 ^ d * 2 ^ d ≤ round_bits n ≤ (n / 2 ^ d + 1) * 2 ^ d.
Proof.
  intros Hn d. unfold round_bits. fold d.
  assert (0 < 2 ^ d) by (apply Z.pow_pos_nonneg; lia).
  destruct (_ || _); nia.
Qed.

(** It stays within the powers of two around the value. *)
Lemma round_bits_binade n : 0 < n → 2 ^ Z.log2 n ≤ round_bits n ≤ 2 ^ (Z.log2 n + 1).
Proof.
  intros Hn. pose proof (round_bits_step n Hn) as Hs. simpl in Hs.
  set (d := Z.max 0 (Z.log2 n - 52)) in *.
  pose proof (Z.log2_nonneg n).
  assert (0 < 2 ^ d) by (apply Z.pow_pos_nonneg; lia).
  destruct (Z.log2_spec n Hn) as [Hlo Hhi].
  assert (2 ^ Z.log2 n = 2 ^ (Z.log2 n - d) * 2 ^ d) as E1.
  { rewrite <-Z.pow_add_r by lia. f_equal. lia. }
  assert (2 ^ (Z.log2 n + 1) = 2 ^ (Z.log2 n + 1 - d) * 2 ^ d) as E2.
  { rewrite <-Z.pow_add_r by lia. f_equal. lia. }
  assert (2 ^ (Z.log2 n - d) ≤ n / 2 ^ d) by (apply Z.div_le_lower_bound; lia).
  assert (n / 2 ^ d < 2 ^ (Z.log2 n + 1 - d)) by (apply Z.div_lt_upper_bound; lia).
  rewrite E1, E2. nia.
Qed.

(** Rounding is monotone. *)
Lemma round_mono a b : 0 ≤ a ≤ b → round a ≤ round b.
Proof.
  intros [Ha Hab]. rewrite !round_nonneg by lia.
  destruct (Z.eq_dec a 0) as [->|].
  { rewrite round_bits_0. destruct (Z.eq_dec b 0) as [->|]; [done|].
    pose proof (round_bits_binade b). pose proof (Z.pow_nonneg 2 (Z.log2 b)). lia. }
  destruct (Z.eq_dec (Z.log2 a) (Z.log2 b)) as [E|E].
  - unfold round_bits. rewrite <-E. set (d := Z.max 0 (Z.log2 a - 52)).
    assert (0 < 2 ^ d) as Hd by (apply Z.pow_pos_nonneg; lia).
    pose proof (Z.div_le_mono a b (2 ^ d) Hd Hab) as Hq.
    pose proof (Z.div_mod a (2 ^ d)). pose proof (Z.div_mod b (2 ^ d)).
    apply Z.mul_le_mono_nonneg_r; [lia|].
    destruct (Z.eq_dec (a / 2 ^ d) (b / 2 ^ d)) as [Eq|].
    + rewrite Eq in *.
      destruct (Z.ltb_spec (2 ^ d) (2 * (a mod 2 ^ d)));
        destruct (Z.ltb_spec (2 ^ d) (2 * (b mod 2 ^ d)));
        destruct (Z.eqb_spec (2 * (a mod 2 ^ d)) (2 ^ d));
        destruct (Z.eqb_spec (2 * (b mod 2 ^ d)) (2 ^ d));
        destruct (Z.odd (b / 2 ^ d)); simpl; lia.
    + destruct (_ || _); destruct (_ || _); lia.
  - pose proof (Z.log2_le_mono a b Hab). pose proof (Z.log2_nonneg a).
    pose proof (round_bits_binade a). pose proof (round_bits_binade b).
    pose proof (Z.pow_le_mono_r 2 (Z.log2 a + 1) (Z.log2 b)). lia.
Qed.

Lemma round_round n : 0 ≤ n → 0 ≤ round n.
Proof. intros Hn. change 0 with (round 0) at 1. by apply round_mono. Qed.

(** A product with a fraction k/2^53 below 1 does not grow. *)
Lemma round_fraction k w :
  0 ≤ k < 2 ^ 53 → 0 ≤ w → round w = w → 0 ≤ round (k * w / 2 ^ 53) ≤ w.
Proof.
  intros Hk Hw E. assert (0 ≤ k * w / 2 ^ 53 ≤ w).
  { split; [apply Z.div_pos; nia|]. apply Z.div_le_upper_bound; nia. }
  split; [apply round_round; lia|]. rewrite <-E at 2. apply round_mono; lia.
Qed.
