(* ===== verification/Base64.v ===== *)
(** [encoding/base64]'s [RawURLEncoding]: the URL alphabet, without padding. *)
From S2P Require Import Prelude GoStrings.
Local Open Scope Z_scope.

Definition sextet_char (n : Z) : ascii :=
  Ascii.ascii_of_N (Z.to_N (if n <? 26 then 65 + n else if n <? 52 then 71 + n
    else if n <? 62 then n - 4 else if n =? 62 then 45 else 95)).

Definition char_sextet (c : ascii) : option Z :=
  let n := Z.of_N (byte_of c) in
  if is_upper c then Some (n - 65)
  else if is_lower c then Some (n - 71)
  else if is_digit c then Some (n + 4)
  else if n =? 45 then Some 62
  else if n =? 95 then Some 63
  else None.

(** Three bytes are four sextets. *)
Fixpoint to_sextets (l : list Z) : list Z :=
  match l with
  | a :: b :: c :: l =>
      a / 4 :: a mod 4 * 16 + b / 16 :: b mod 16 * 4 + c / 64 :: c mod 64 :: to_sextets l
  | [a; b] => [a / 4; a mod 4 * 16 + b / 16; b mod 16 * 4]
  | [a] => [a / 4; a mod 4 * 16]
  | [] => []
  end.

(** The bits of an incomplete byte at the end are dropped; a single sextet at the
    end is an error. *)
Fixpoint of_sextets (l : list Z) : option (list Z) :=
  match l with
  | p :: q :: r :: s :: l =>
      bs ← of_sextets l;
      Some (p * 4 + q / 16 :: q mod 16 * 16 + r / 4 :: r mod 4 * 64 + s :: bs)
  | [p; q; r] => Some [p * 4 + q / 16; q mod 16 * 16 + r / 4]
  | [p; q] => Some [p * 4 + q / 16]
  | [_] => None
  | [] => Some []
  end.

Fixpoint chars (l : list Z) : string :=
  match l with
  | [] => EmptyString
  | n :: l => String (sextet_char n) (chars l)
  end.

(** Line breaks are skipped. *)
Fixpoint sextets (s : string) : option (list Z) :=
  match s with
  | EmptyString => Some []
  | String c s =>
      if Ascii.eqb c "010" || Ascii.eqb c "013" then sextets s
      else n ← char_sextet c; l ← sextets s; Some (n :: l)
  end.

Definition EncodeToString (s : string) : string := chars (to_sextets (bytes_of s)).
Definition DecodeString (s : string) : option string :=
  l ← sextets s; bs ← of_sextets l; Some (string_of bs).

Lemma char_of_sextet n : 0 ≤ n < 64 →
  char_sextet (sextet_char n) = Some n ∧
  Ascii.eqb (sextet_char n) "010" || Ascii.eqb (sextet_char n) "013" = false.
Proof.
  intros Hn. assert (Forall (λ n, char_sextet (sextet_char n) = Some n ∧
    Ascii.eqb (sextet_char n) "010" || Ascii.eqb (sextet_char n) "013" = false) (seqZ 0 64)) as Hall.
  { apply (bool_decide_unpack _). vm_compute. exact I. }
  rewrite Forall_forall in Hall. apply Hall, elem_of_seqZ. lia.
Qed.

Lemma sextets_chars l : Forall (λ n, 0 ≤ n < 64) l → sextets (chars l) = Some l.
Proof.
  induction 1 as [|n l Hn _ IH]; simpl; [done|].
  destruct (char_of_sextet n Hn) as [E1 E2]. by rewrite E2, E1, IH.
Qed.

(** Induction three elements at a time. *)
Lemma list_ind3 {A} (P : list A → Prop) :
  P [] → (∀ a, P [a]) → (∀ a b, P [a; b]) → (∀ a b c l, P l → P (a :: b :: c :: l)) → ∀ l, P l.
Proof.
  intros H0 H1 H2 H3 l. assert (P l ∧ (∀ a, P (a :: l)) ∧ ∀ a b, P (a :: b :: l)) as [? _]; [|done].
  induction l as [|x l (IH0 & IH1 & IH2)]; split_and!; auto.
Qed.

Lemma to_sextets_range l : Forall (λ b, 0 ≤ b < 256) l → Forall (λ n, 0 ≤ n < 64) (to_sextets l).
Proof.
  induction l as [|a|a b|a b c l IH] using list_ind3; intros Hl; simpl; [constructor|..].
  - apply Forall_cons in Hl as [Ha _]. repeat constructor; Z.div_mod_to_equations; lia.
  - apply Forall_cons in Hl as [Ha [Hb _]%Forall_cons].
    repeat constructor; Z.div_mod_to_equations; lia.
  - apply Forall_cons in Hl as [Ha [Hb [Hc Hl]%Forall_cons]%Forall_cons].
    repeat (apply Forall_cons; split); try (Z.div_mod_to_equations; lia). by apply IH.
Qed.

Lemma of_to_sextets l : Forall (λ b, 0 ≤ b < 256) l → of_sextets (to_sextets l) = Some l.
Proof.
  induction l as [|a|a b|a b c l IH] using list_ind3; intros Hl; simpl; [done|..].
  - apply Forall_cons in Hl as [Ha _]. do 2 f_equal. Z.div_mod_to_equations. lia.
  - apply Forall_cons in Hl as [Ha [Hb _]%Forall_cons].
    do 2 f_equal; [|f_equal]; Z.div_mod_to_equations; lia.
  - apply Forall_cons in Hl as [Ha [Hb [Hc Hl]%Forall_cons]%Forall_cons].
    rewrite (IH Hl). simpl. do 2 f_equal; [|f_equal; [|f_equal]]; Z.div_mod_to_equations; lia.
Qed.

(** What was encoded is decoded. *)
Lemma DecodeString_EncodeToString s : DecodeString (EncodeToString s) = Some s.
Proof.
  unfold DecodeString, EncodeToString. pose proof (bytes_of_range s) as Hr.
  rewrite sextets_chars by by apply to_sextets_range. simpl. rewrite of_to_sextets by done. simpl.
  by rewrite string_of_bytes.
Qed.

Example EncodeToString_ex : EncodeToString "a|b?~" = "YXxiP34".
Proof. reflexivity. Qed.
Example DecodeString_bad : DecodeString "YXxi=" = None.
Proof. reflexivity. Qed.
