(* ===== verification/GoTimeParse.v ===== *)
(** [time.Parse(time.RFC3339Nano, s)], and that it reads back what
    [time.Format] writes. *)
From S2P Require Import Prelude GoStrings GoTime.
Local Open Scope Z_scope.

(** * Dates *)

(** The day of a civil date, counted from 0001-01-01: the inverse of [civil]. *)
Definition day_of (y m d : Z) : Z :=
  let y' := if m <=? 2 then y - 1 else y in
  let yoe := y' mod 400 in
  let doy := (153 * ((m + 9) mod 12) + 2) / 5 + d - 1 in
  y' / 400 * 146097 + (yoe * 365 + yoe / 4 - yoe / 100 + doy) - 306.

Definition is_leap (y : Z) : bool :=
  (y mod 4 =? 0) && (negb (y mod 100 =? 0) || (y mod 400 =? 0)).

Definition daysIn (m y : Z) : Z :=
  if m =? 2 then (if is_leap y then 29 else 28)
  else if existsb (Z.eqb m) [4; 6; 9; 11] then 30 else 31.

(** * Parsing *)

(** A literal byte of the layout. *)
Definition skip (c : ascii) (s : string) : option string :=
  match s with
  | String c' s => if Ascii.eqb c' c then Some s else None
  | EmptyString => None
  end.

(** [getnum]: two digits, or one where the layout allows it. *)
Definition getnum (fixed : bool) (s : string) : option (Z * string) :=
  match s with
  | String c s1 =>
      if negb (is_digit c) then None
      else
        match s1 with
        | String c2 s2 =>
            if is_digit c2 then Some (10 * digit_val c + digit_val c2, s2)
            else if fixed then None else Some (digit_val c, s1)
        | EmptyString => if fixed then None else Some (digit_val c, s1)
        end
  | EmptyString => None
  end.

Definition in_range (lo hi : Z) (o : option (Z * string)) : option (Z * string) :=
  '(n, s) ← o; if (lo <=? n) && (n <=? hi) then Some (n, s) else None.

(** Four digits. *)
Definition get_year (s : string) : option (Z * string) :=
  match s with
  | String a (String b (String c (String d s'))) =>
      if is_digit a && is_digit b && is_digit c && is_digit d
      then Some (1000 * digit_val a + 100 * digit_val b + 10 * digit_val c + digit_val d, s')
      else None
  | _ => None
  end.

Fixpoint span_digits (s : string) : string * string :=
  match s with
  | String c s' =>
      if is_digit c then let '(ds, rest) := span_digits s' in (String c ds, rest)
      else (EmptyString, s)
  | EmptyString => (EmptyString, EmptyString)
  end.

(** The first [n] digits as a fraction of [10^n]: [parseNanoseconds]. *)
Fixpoint fraction_val (n : nat) (s : string) : Z :=
  match n, s with
  | S n', String c s' => digit_val c * 10 ^ Z.of_nat n' + fraction_val n' s'
  | _, _ => 0
  end.

(** An optional fraction of the second. *)
Definition get_fraction (s : string) : Z * string :=
  match s with
  | String p (String c s' as ds) =>
      if (Ascii.eqb p "." || Ascii.eqb p ",") && is_digit c
      then let '(digits, rest) := span_digits ds in (fraction_val 9 digits, rest)
      else (0, s)
  | _ => (0, s)
  end.

(** [Z] or an offset, in seconds. *)
Definition get_zone (s : string) : option (Z * string) :=
  match s with
  | String "Z" s => Some (0, s)
  | String sign s =>
      '(hh, s) ← in_range 0 24 (getnum true s);
      s ← skip ":" s;
      '(mm, s) ← in_range 0 60 (getnum true s);
      let offset := (hh * 60 + mm) * 60 in
      if Ascii.eqb sign "+" then Some (offset, s)
      else if Ascii.eqb sign "-" then Some (- offset, s)
      else None
  | EmptyString => None
  end.

Definition Parse_RFC3339Nano (s : string) : option Z :=
  '(y, s) ← get_year s; s ← skip "-" s;
  '(m, s) ← in_range 1 12 (getnum true s); s ← skip "-" s;
  '(d, s) ← getnum true s; s ← skip "T" s;
  '(hh, s) ← in_range 0 23 (getnum false s); s ← skip ":" s;
  '(mm, s) ← in_range 0 59 (getnum true s); s ← skip ":" s;
  '(ss, s) ← in_range 0 59 (getnum true s);
  let '(ns, s) := get_fraction s in
  '(offset, s) ← get_zone s;
  if String.eqb s "" && (1 <=? d) && (d <=? daysIn m y) then
    Some ((day_of y m d * 86400 + hh * 3600 + mm * 60 + ss - offset) * Second + ns)
  else None.

Example Parse_ex : Parse_RFC3339Nano "2024-10-01T02:00:00.12+02:00" =
  Some (63863337600 * Second + 120000000).
Proof. vm_compute. reflexivity. Qed.
Example Parse_bad : Parse_RFC3339Nano "2023-02-29T00:00:00Z" = None.
Proof. vm_compute. reflexivity. Qed.

(** * What is written is read back *)

(** ** Dates *)

Fixpoint all_below (p : Z → bool) (n : nat) (z : Z) : bool :=
  match n with O => true | S n => p z && all_below p n (z + 1) end.

Lemma all_below_spec p n z : all_below p n z = true → ∀ x, z ≤ x < z + Z.of_nat n → p x = true.
Proof.
  revert z. induction n as [|n IH]; intros z; [lia|].
  cbn [all_below]. intros [H1 H2]%andb_true_iff x Hx.
  destruct (decide (x = z)) as [->|]; [done|]. eapply IH; [exact H2|lia].
Qed.

(** In a cycle of 400 years that begin in March: the day a year begins with. *)
Definition year_start (y : Z) : Z := 365 * y + y / 4 - y / 100 + y / 400.
Definition year_of_day (doe : Z) : Z := (doe - doe / 1460 + doe / 36524 - doe / 146096) / 365.

Lemma year_of_day_mono a b : 0 ≤ a ≤ b → b < 146097 → year_of_day a ≤ year_of_day b.
Proof.
  intros Hab Hb. unfold year_of_day. apply Z.div_le_mono; [lia|].
  assert (∀ n, 0 ≤ n → a + n < 146097 → a - a / 1460 + a / 36524 - a / 146096 ≤
    (a + n) - (a + n) / 1460 + (a + n) / 36524 - (a + n) / 146096) as Hn.
  { intros n Hn. pattern n. apply natlike_ind; [| |done].
    - intros _. rewrite Z.add_0_r. lia.
    - intros m Hm IH Hlt. etrans; [apply IH; lia|]. unfold Z.succ. Z.div_mod_to_equations. lia. }
  specialize (Hn (b - a) ltac:(lia) ltac:(lia)). by replace (a + (b - a)) with b in Hn by lia.
Qed.

(** The first and the last day of each year, and its length. *)
Definition year_ok (y : Z) : bool :=
  (year_of_day (year_start y) =? y) && (year_of_day (year_start (y + 1) - 1) =? y) &&
  (year_start (y + 1) - year_start y =? (if is_leap (y + 1) then 366 else 365)) &&
  (year_start y =? 365 * y + y / 4 - y / 100) && (0 <=? year_start y) &&
  (year_start (y + 1) <=? 146097).

Lemma year_ends y : 0 ≤ y < 400 → year_ok y = true.
Proof. apply (all_below_spec year_ok 400 0). vm_compute. reflexivity. Qed.

(** The month and the day of a day of the year. *)
Definition month_of (doy : Z) : Z * Z :=
  let mp := (5 * doy + 2) / 153 in
  (if mp <? 10 then mp + 3 else mp - 9, doy - (153 * mp + 2) / 5 + 1).

Definition month_ok (doy : Z) : bool :=
  let '(m, d) := month_of doy in
  (1 <=? m) && (m <=? 12) && (1 <=? d) && (d <=? (if m =? 2 then 29 else daysIn m 0)) &&
  ((153 * ((m + 9) mod 12) + 2) / 5 + d - 1 =? doy) &&
  (negb ((m =? 2) && (d =? 29)) || (doy =? 365)).

Lemma month_ends doy : 0 ≤ doy < 366 → month_ok doy = true.
Proof. apply (all_below_spec month_ok 366 0). vm_compute. reflexivity. Qed.

Lemma is_leap_cycle y e : is_leap (y + e * 400) = is_leap y.
Proof.
  unfold is_leap. replace (y + e * 400) with (y + (e * 100) * 4) at 1 by lia.
  replace (y + e * 400) with (y + (e * 4) * 100) at 1 by lia. by rewrite !Z.mod_add by lia.
Qed.

Ltac bool_split :=
  repeat match goal with
  | H : _ && _ = true |- _ => apply andb_true_iff in H as [? ?]
  | H : (_ =? _) = true |- _ => apply Z.eqb_eq in H
  | H : (_ <=? _) = true |- _ => apply Z.leb_le in H
  end.

(** The year a day of the cycle falls in. *)
Lemma year_of_day_spec doe : 0 ≤ doe < 146097 →
  let y := year_of_day doe in
  0 ≤ y < 400 ∧ year_start y ≤ doe < year_start (y + 1).
Proof.
  intros Hd y. assert (0 ≤ y < 400) as Hy.
  { pose proof (year_of_day_mono 0 doe ltac:(lia) ltac:(lia)).
    pose proof (year_of_day_mono doe 146096 ltac:(lia) ltac:(lia)).
    change (year_of_day 0) with 0 in *. change (year_of_day 146096) with 399 in *. unfold y. lia. }
  split; [done|]. split.
  - destruct (Z.le_gt_cases (year_start y) doe) as [?|Hlt]; [done|exfalso].
    assert (1 ≤ y) as Hy1.
    { destruct (decide (y = 0)) as [E|]; [|lia]. rewrite E in Hlt. change (year_start 0) with 0 in Hlt. lia. }
    pose proof (year_ends (y - 1) ltac:(lia)) as Hok. unfold year_ok in Hok. bool_split.
    replace (y - 1 + 1) with y in * by lia.
    pose proof (year_of_day_mono doe (year_start y - 1) ltac:(lia) ltac:(lia)). unfold y in *. lia.
  - destruct (Z.lt_ge_cases doe (year_start (y + 1))) as [?|Hge]; [done|exfalso].
    destruct (decide (y = 399)) as [E|].
    { rewrite E in Hge. change (year_start (399 + 1)) with 146097 in Hge. lia. }
    pose proof (year_ends (y + 1) ltac:(lia)) as Hok. unfold year_ok in Hok. bool_split.
    pose proof (year_of_day_mono (year_start (y + 1)) doe ltac:(lia) ltac:(lia)). unfold y in *. lia.
Qed.

(** [civil] gives a date of the calendar, and [day_of] its day. *)
Lemma day_of_civil days y m d :
  civil days = (y, m, d) → 1 ≤ m ≤ 12 ∧ 1 ≤ d ≤ daysIn m y ∧ day_of y m d = days.
Proof.
  unfold civil. set (z := days + 306). set (era := z / 146097). set (doe := z mod 146097).
  fold (year_of_day doe). set (yoe := year_of_day doe).
  set (doy := doe - (365 * yoe + yoe / 4 - yoe / 100)). intros [= <- Em Ed].
  assert (0 ≤ doe < 146097) as Hdoe by (apply Z.mod_pos_bound; lia).
  destruct (year_of_day_spec doe Hdoe) as [Hy Hs]. fold yoe in Hy, Hs.
  pose proof (year_ends yoe Hy) as Hok. unfold year_ok in Hok. bool_split.
  assert (0 ≤ doy < 366 ∧ (doy = 365 → is_leap (yoe + 1) = true)) as [Hdoy Hleap].
  { unfold doy. destruct (is_leap (yoe + 1)); [split; [lia|done]|split; lia]. }
  pose proof (month_ends doy Hdoy) as Hmo. unfold month_ok, month_of in Hmo. rewrite Em, Ed in Hmo.
  bool_split. split; [lia|]. split.
  - split; [lia|]. rewrite Em. destruct (Z.eqb_spec m 2) as [->|Hm2].
    + rewrite (proj2 (Z.leb_le 2 2)) by lia. unfold daysIn. simpl.
      replace (yoe + era * 400 + 1) with ((yoe + 1) + era * 400) by lia. rewrite is_leap_cycle.
      destruct (is_leap (yoe + 1)); [lia|]. destruct (Z.eqb_spec d 29); [|lia]. subst d.
      simpl in *. bool_split. discriminate Hleap. assumption.
    + unfold daysIn in *. rewrite (proj2 (Z.eqb_neq m 2) Hm2) in *. lia.
  - unfold day_of. rewrite Em.
    replace (if m <=? 2 then yoe + era * 400 + (if m <=? 2 then 1 else 0) - 1
             else yoe + era * 400 + (if m <=? 2 then 1 else 0)) with (yoe + era * 400)
      by (destruct (m <=? 2); lia).
    rewrite Z.mod_add, Z.div_add by lia. rewrite (Z.mod_small yoe), (Z.div_small yoe) by lia.
    assert (z = 146097 * era + doe) as Hz by (apply Z.div_mod; lia).
    unfold doy in *. unfold z in Hz. lia.
Qed.

Lemma civil_year days y m d : civil days = (y, m, d) → 0 ≤ days < 3652059 → 1 ≤ y ≤ 9999.
Proof.
  intros E Hd. destruct (day_of_civil _ _ _ _ E) as (Hm & Hdd & Hday). unfold day_of in Hday.
  assert (daysIn m y ≤ 31) as Hdays by (unfold daysIn; repeat case_match; lia).
  destruct (Z.leb_spec m 2); Z.div_mod_to_equations; nia.
Qed.

(** ** Text *)

Definition digit_char (d : Z) : ascii := Ascii.ascii_of_N (Z.to_N (48 + d)).

Lemma digit_char_ok d : 0 ≤ d < 10 → is_digit (digit_char d) = true ∧ digit_val (digit_char d) = d.
Proof.
  intros Hd. assert (all_below (λ d, is_digit (digit_char d) && (digit_val (digit_char d) =? d)) 10 0 = true)
    as Hall by reflexivity.
  pose proof (all_below_spec _ _ _ Hall d Hd) as Hok. cbv beta in Hok. by bool_split.
Qed.

Lemma pad_digits_S n v : pad_digits (S n) v = pad_digits n (v / 10) +:+ String (digit_char (v mod 10)) "".
Proof. done. Qed.

Lemma mod10_range v : 0 ≤ v mod 10 < 10.
Proof. apply Z.mod_pos_bound. lia. Qed.

Lemma getnum_pad b v s : 0 ≤ v < 100 → getnum b (pad_digits 2 v +:+ s) = Some (v, s).
Proof.
  intros Hv. rewrite !pad_digits_S. cbn [pad_digits].
  destruct (digit_char_ok _ (mod10_range (v / 10))) as [D1 V1].
  destruct (digit_char_ok _ (mod10_range v)) as [D0 V0].
  change (getnum b (String (digit_char (v / 10 mod 10)) (String (digit_char (v mod 10)) s)) = Some (v, s)).
  cbn [getnum]. rewrite D1, D0, V1, V0. cbn [negb]. do 2 f_equal. Z.div_mod_to_equations. lia.
Qed.

Lemma get_year_pad y s : 0 ≤ y < 10000 → get_year (pad_digits 4 y +:+ s) = Some (y, s).
Proof.
  intros Hy. rewrite !pad_digits_S. cbn [pad_digits].
  destruct (digit_char_ok _ (mod10_range y)) as [D0 V0].
  destruct (digit_char_ok _ (mod10_range (y / 10))) as [D1 V1].
  destruct (digit_char_ok _ (mod10_range (y / 10 / 10))) as [D2 V2].
  destruct (digit_char_ok _ (mod10_range (y / 10 / 10 / 10))) as [D3 V3].
  change (get_year (String (digit_char (y / 10 / 10 / 10 mod 10)) (String (digit_char (y / 10 / 10 mod 10))
    (String (digit_char (y / 10 mod 10)) (String (digit_char (y mod 10)) s)))) = Some (y, s)).
  cbn [get_year]. rewrite D0, D1, D2, D3, V0, V1, V2, V3. cbn [andb].
  do 2 f_equal. Z.div_mod_to_equations. lia.
Qed.

Lemma app_cons c a b : String c a +:+ b = String c (a +:+ b).
Proof. done. Qed.

Lemma forallb_app p a b : string_forallb p (a +:+ b) = string_forallb p a && string_forallb p b.
Proof.
  induction a as [|c a IH]; [done|]. rewrite app_cons. cbn [string_forallb]. by rewrite IH, andb_assoc.
Qed.

Lemma pad_digits_digits n v : string_forallb is_digit (pad_digits n v) = true.
Proof.
  revert v. induction n as [|n IH]; intros v; [done|]. rewrite pad_digits_S, forallb_app, IH. simpl.
  by rewrite (proj1 (digit_char_ok _ (mod10_range v))).
Qed.

Lemma pad_digits_length n v : String.length (pad_digits n v) = n.
Proof.
  revert v. induction n as [|n IH]; intros v; [done|]. rewrite pad_digits_S, length_app_string, IH.
  simpl. lia.
Qed.

Lemma span_digits_app a b :
  string_forallb is_digit a = true → span_digits b = ("", b) → span_digits (a +:+ b) = (a, b).
Proof.
  intros Ha Hb. induction a as [|c a IH]; [done|]. cbn in Ha. apply andb_true_iff in Ha as [Hc Ha].
  rewrite app_cons. cbn [span_digits]. by rewrite Hc, (IH Ha).
Qed.

Lemma fraction_val_app a b m :
  fraction_val (String.length a + m) (a +:+ b) =
  fraction_val (String.length a + m) a + fraction_val m b.
Proof.
  induction a as [|c a IH]; [by destruct m|]. rewrite app_cons. cbn [String.length Nat.add fraction_val].
  rewrite IH. lia.
Qed.

Lemma fraction_val_scale a n m :
  (String.length a ≤ n)%nat → fraction_val (n + m) a = fraction_val n a * 10 ^ Z.of_nat m.
Proof.
  revert n. induction a as [|c a IH]; intros n Hl; [by destruct n, m|].
  destruct n as [|n]; [simpl in Hl; lia|]. cbn in *. rewrite IH by lia.
  rewrite Nat2Z.inj_add, Z.pow_add_r by lia. lia.
Qed.

Lemma fraction_val_pad n v : 0 ≤ v < 10 ^ Z.of_nat n → fraction_val n (pad_digits n v) = v.
Proof.
  revert v. induction n as [|n IH]; intros v Hv; [simpl in *; lia|].
  rewrite pad_digits_S. rewrite <-(pad_digits_length n (v / 10)) at 1.
  rewrite <-Nat.add_1_r, fraction_val_app, pad_digits_length, fraction_val_scale
    by by rewrite pad_digits_length.
  rewrite Nat2Z.inj_succ, Z.pow_succ_r in Hv by lia. rewrite IH by (Z.div_mod_to_equations; lia).
  cbn. rewrite (proj2 (digit_char_ok _ (mod10_range v))). Z.div_mod_to_equations. lia.
Qed.

(** Trailing zeros do not count. *)
Lemma fraction_val_trim n s : fraction_val n (trim_zeros s) = fraction_val n s.
Proof.
  revert n. induction s as [|c s IH]; intros n; [done|]. cbn [trim_zeros]. specialize (IH (pred n)).
  destruct (trim_zeros s) as [|c' s'] eqn:E.
  - destruct n as [|n]; [by destruct (Ascii.eqb c "0")|]. simpl pred in IH. destruct (Ascii.eqb_spec c "0") as [->|].
    + cbn. rewrite <-IH. by destruct n.
    + cbn. rewrite <-IH. by destruct n.
  - destruct n as [|n]; [done|]. simpl pred in IH. cbn [fraction_val]. by rewrite <-IH.
Qed.

Lemma trim_zeros_digits s : string_forallb is_digit s = true → string_forallb is_digit (trim_zeros s) = true.
Proof.
  induction s as [|c s IH]; [done|]. cbn [string_forallb trim_zeros]. intros [Hc Hs]%andb_true_iff.
  specialize (IH Hs). destruct (trim_zeros s); [destruct (Ascii.eqb c "0"); cbn; [done|by rewrite Hc]|].
  cbn [string_forallb] in *. by rewrite Hc.
Qed.

Lemma get_fraction_text v : 0 ≤ v < Second → get_fraction (fraction_text v 9 +:+ "Z") = (v, "Z").
Proof.
  intros Hv. unfold fraction_text. change (10 ^ Z.of_nat 9) with Second. rewrite Z.mod_small by done.
  pose proof (fraction_val_pad 9 v Hv) as Hval. rewrite <-fraction_val_trim in Hval.
  pose proof (trim_zeros_digits _ (pad_digits_digits 9 v)) as Hdig.
  destruct (trim_zeros (pad_digits 9 v)) as [|c s] eqn:E.
  - by rewrite <-Hval.
  - cbn [string_forallb] in Hdig. apply andb_true_iff in Hdig as Hcs. destruct Hcs as [Hc _].
    change (get_fraction (String "." (String c s +:+ "Z")) = (v, "Z")).
    change (String c s +:+ "Z") with (String c (s +:+ "Z")). cbn [get_fraction]. rewrite Hc.
    change (String c (s +:+ "Z")) with (String c s +:+ "Z").
    rewrite (span_digits_app (String c s) "Z" Hdig eq_refl). simpl. by rewrite <-Hval.
Qed.

Lemma in_range_pad b lo hi v s :
  0 ≤ v < 100 → lo ≤ v ≤ hi → in_range lo hi (getnum b (pad_digits 2 v +:+ s)) = Some (v, s).
Proof.
  intros Hv Hr. rewrite getnum_pad by done. unfold in_range. cbn [mbind option_bind].
  by rewrite (proj2 (Z.leb_le lo v)), (proj2 (Z.leb_le v hi)) by lia.
Qed.

(** The instants of the years 1 to 9999. *)
Definition in_calendar (t : Z) : Prop := 0 ≤ t < 3652059 * 86400 * Second.

Lemma RFC3339Nano_parts t y m d :
  civil (t / Second / 86400) = (y, m, d) →
  let s := t / Second mod 86400 in
  RFC3339Nano t = pad_digits 4 y +:+ "-" +:+ pad_digits 2 m +:+ "-" +:+ pad_digits 2 d +:+ "T" +:+
    pad_digits 2 (s / 3600) +:+ ":" +:+ pad_digits 2 (s / 60 mod 60) +:+ ":" +:+
    pad_digits 2 (s mod 60) +:+ fraction_text (t mod Second) 9 +:+ "Z".
Proof. intros E s. unfold RFC3339Nano. by rewrite E. Qed.

Lemma skip_app c s : skip c (String c "" +:+ s) = Some s.
Proof. rewrite app_cons. unfold skip. by rewrite Ascii.eqb_refl. Qed.

(** What [Format] writes, [Parse] reads. *)
Lemma Parse_Format t : in_calendar t → Parse_RFC3339Nano (RFC3339Nano t) = Some t.
Proof.
  intros Ht. unfold in_calendar in Ht. destruct (civil (t / Second / 86400)) as [[y m] d] eqn:Ec.
  assert (0 ≤ t / Second / 86400 < 3652059) as Hdays by (unfold Second in *; Z.div_mod_to_equations; lia).
  destruct (day_of_civil _ _ _ _ Ec) as (Hm & Hd & Hday). pose proof (civil_year _ _ _ _ Ec Hdays) as Hy.
  assert (daysIn m y ≤ 31) as H31 by (unfold daysIn; repeat case_match; lia).
  rewrite (RFC3339Nano_parts t y m d Ec). set (s := t / Second mod 86400).
  assert (0 ≤ s < 86400) as Hs by (apply Z.mod_pos_bound; lia).
  assert (0 ≤ s / 3600 ≤ 23 ∧ 0 ≤ s / 60 mod 60 ≤ 59 ∧ 0 ≤ s mod 60 ≤ 59) as (R1 & R2 & R3)
    by (Z.div_mod_to_equations; lia).
  unfold Parse_RFC3339Nano. rewrite get_year_pad by lia. cbn [mbind option_bind].
  rewrite skip_app. cbn [mbind option_bind]. rewrite in_range_pad by lia. cbn [mbind option_bind].
  rewrite skip_app. cbn [mbind option_bind]. rewrite getnum_pad by lia. cbn [mbind option_bind].
  rewrite skip_app. cbn [mbind option_bind]. rewrite in_range_pad by lia. cbn [mbind option_bind].
  rewrite skip_app. cbn [mbind option_bind]. rewrite in_range_pad by lia. cbn [mbind option_bind].
  rewrite skip_app. cbn [mbind option_bind]. rewrite in_range_pad by lia. cbn [mbind option_bind].
  rewrite get_fraction_text by (apply Z.mod_pos_bound; done). cbn.
  rewrite (proj2 (Z.leb_le 1 d)), (proj2 (Z.leb_le d _)) by lia. cbn [andb]. f_equal.
  rewrite Hday. unfold s, Second in *. Z.div_mod_to_equations. lia.
Qed.

(** A written instant has no bar. *)
Lemma RFC3339Nano_plain t : string_forallb (λ c, negb (Ascii.eqb c "|")) (RFC3339Nano t) = true.
Proof.
  assert (∀ s, string_forallb is_digit s = true → string_forallb (λ c, negb (Ascii.eqb c "|")) s = true)
    as Hdig.
  { induction s as [|c s IH]; [done|]. cbn. intros [Hc Hs]%andb_true_iff. rewrite (IH Hs), andb_true_r.
    destruct (Ascii.eqb_spec c "|") as [->|]; done. }
  destruct (civil (t / Second / 86400)) as [[y m] d] eqn:Ec. rewrite (RFC3339Nano_parts t y m d Ec).
  rewrite !forallb_app, !(Hdig (pad_digits _ _)) by apply pad_digits_digits. cbn. rewrite andb_true_r.
  unfold fraction_text. pose proof (trim_zeros_digits _ (pad_digits_digits 9 (t mod Second mod 10 ^ Z.of_nat 9)))
    as Ht. destruct (trim_zeros _) as [|c s]; [done|].
  rewrite forallb_app, (Hdig _ Ht). done.
Qed.
