(* ===== verification/Sha256.v ===== *)
(** [crypto/sha256] and [encoding/hex], over byte strings. *)
From S2P Require Import Prelude GoStrings.
Local Open Scope Z_scope.

(** 32-bit words. *)
Definition w32 (z : Z) : Z := Z.land z 4294967295.
Definition rotr (n x : Z) : Z := w32 (Z.lor (Z.shiftr x n) (Z.shiftl x (32 - n))).

Definition big_sigma0 x := Z.lxor (rotr 2 x) (Z.lxor (rotr 13 x) (rotr 22 x)).
Definition big_sigma1 x := Z.lxor (rotr 6 x) (Z.lxor (rotr 11 x) (rotr 25 x)).
Definition small_sigma0 x := Z.lxor (rotr 7 x) (Z.lxor (rotr 18 x) (Z.shiftr x 3)).
Definition small_sigma1 x := Z.lxor (rotr 17 x) (Z.lxor (rotr 19 x) (Z.shiftr x 10)).
Definition choose x y z := Z.lxor (Z.land x y) (Z.land (4294967295 - x) z).
Definition majority x y z := Z.lxor (Z.land x y) (Z.lxor (Z.land x z) (Z.land y z)).

Definition round_constants : list Z :=
  [1116352408; 1899447441; 3049323471; 3921009573; 961987163; 1508970993; 2453635748; 2870763221;
   3624381080; 310598401; 607225278; 1426881987; 1925078388; 2162078206; 2614888103; 3248222580;
   3835390401; 4022224774; 264347078; 604807628; 770255983; 1249150122; 1555081692; 1996064986;
   2554220882; 2821834349; 2952996808; 3210313671; 3336571891; 3584528711; 113926993; 338241895;
   666307205; 773529912; 1294757372; 1396182291; 1695183700; 1986661051; 2177026350; 2456956037;
   2730485921; 2820302411; 3259730800; 3345764771; 3516065817; 3600352804; 4094571909; 275423344;
   430227734; 506948616; 659060556; 883997877; 958139571; 1322822218; 1537002063; 1747873779;
   1955562222; 2024104815; 2227730452; 2361852424; 2428436474; 2756734187; 3204031479; 3329325298].

Definition initial_state : list Z :=
  [1779033703; 3144134277; 1013904242; 2773480762; 1359893119; 2600822924; 528734635; 1541459225].

(** The message schedule, the latest word first. *)
Fixpoint extend_schedule (n : nat) (ws : list Z) : list Z :=
  match n with
  | O => ws
  | S n =>
      let at_ k := nth k ws 0 in
      extend_schedule n
        (w32 (small_sigma1 (at_ 1%nat) + at_ 6%nat + small_sigma0 (at_ 14%nat) + at_ 15%nat) :: ws)
  end.

(** One round on the working variables. *)
Definition sha_round (st : list Z) (kw : Z * Z) : list Z :=
  match st with
  | [a; b; c; d; e; f; g; h] =>
      let t1 := h + big_sigma1 e + choose e f g + kw.1 + kw.2 in
      let t2 := big_sigma0 a + majority a b c in
      [w32 (t1 + t2); a; b; c; w32 (d + t1); e; f; g]
  | _ => st
  end.

Definition compress (st : list Z) (block : list Z) : list Z :=
  let ws := rev (extend_schedule 48 (rev block)) in
  zip_with (λ x y, w32 (x + y)) st (foldl sha_round st (zip round_constants ws)).

Fixpoint big_endian (n : nat) (z : Z) : list Z :=
  match n with
  | O => []
  | S n => big_endian n (Z.shiftr z 8) ++ [Z.land z 255]
  end.

(** A one bit, zeros, and the length in bits. *)
Definition padded (msg : list Z) : list Z :=
  let n := length msg in
  msg ++ [128] ++ replicate (Z.to_nat ((55 - Z.of_nat n) mod 64)) 0 ++ big_endian 8 (8 * Z.of_nat n).

(** Groups of four bytes as words; a trailing partial group does not occur. *)
Fixpoint words_of (bs : list Z) : list Z :=
  match bs with
  | a :: b :: c :: d :: bs => (Z.shiftl a 24 + Z.shiftl b 16 + Z.shiftl c 8 + d) :: words_of bs
  | _ => []
  end.

Fixpoint blocks_of (n : nat) (ws : list Z) : list (list Z) :=
  match n with
  | O => []
  | S n => take 16 ws :: blocks_of n (drop 16 ws)
  end.

Definition Sum256 (s : string) : list Z :=
  let bs := padded (bytes_of s) in
  let ws := words_of bs in
  concat (map (big_endian 4) (foldl compress initial_state (blocks_of (length ws / 16) ws))).

(** [hex.EncodeToString]. *)
Fixpoint hex_string (bs : list Z) : string :=
  match bs with
  | [] => ""
  | b :: bs => String (hex_digit (Z.to_N (b / 16))) (String (hex_digit (Z.to_N (b mod 16))) (hex_string bs))
  end.

(** [crypto/hmac] with SHA-256: blocks of 64 bytes. *)
Definition hmac_key (key : string) : list Z :=
  let k := if (64 <? String.length key)%nat then Sum256 key else bytes_of key in
  k ++ replicate (64 - length k) 0.

Definition HMAC (key msg : string) : list Z :=
  let k := hmac_key key in
  Sum256 (string_of (map (Z.lxor 92) k ++
    Sum256 (string_of (map (Z.lxor 54) k ++ bytes_of msg)))).

Example Sum256_abc :
  hex_string (Sum256 "abc") = "ba7816bf8f01cfea414140de5dae2223b00361a396177a9cb410ff61f20015ad".
Proof. vm_compute. reflexivity. Qed.
Example Sum256_empty :
  hex_string (Sum256 "") = "e3b0c44298fc1c149afbf4c8996fb92427ae41e4649b934ca495991b7852b855".
Proof. vm_compute. reflexivity. Qed.
Example Sum256_two_blocks :
  hex_string (Sum256 "abcdbcdecdefdefgefghfghighijhijkijkljklmklmnlmnomnopnopq") =
    "248d6a61d20638b8e5c026930c3e6039a33ce45964ff2167f6ecedd419db06c1".
Proof. vm_compute. reflexivity. Qed.

(** RFC 4231, test case 2. *)
Example HMAC_rfc4231 :
  hex_string (HMAC "Jefe" "what do ya want for nothing?") =
    "5bdcc146bf60754e6a042426089575c75a003f089d2739839dec58b964ec3843".
Proof. vm_compute. reflexivity. Qed.
