(* ===== verification/Json.v ===== *)
(** JSON values as the source builds and reads them with [encoding/json], and the
    bytes it writes for them: strings escaped as [encoding/json] does (HTML
    characters and invalid UTF-8 included), times in RFC 3339.

    A value is kept as a tree: [json.Marshal] is a deterministic function of
    it, so two responses are byte-identical when their trees are equal.  A
    [time.Time] is the leaf [JTime], standing for its RFC 3339 text. *)
From S2P Require Import Prelude GoStrings GoTime.

Inductive json :=
  | JNull
  | JBool (b : bool)
  | JNum (z : Z)
  | JStr (s : string)
  | JTime (t : Z)
  | JArr (l : list json)
  | JObj (fields : list (string * json)).

(** ** Building objects *)

(** [omitempty] drops a field whose value is empty. *)
Definition omit_str (k v : string) : list (string * json) :=
  if String.eqb v "" then [] else [(k, JStr v)].
Definition omit_int (k : string) (v : Z) : list (string * json) :=
  if (v =? 0)%Z then [] else [(k, JNum v)].
Definition omit_ptr (k : string) (v : option json) : list (string * json) :=
  match v with None => [] | Some j => [(k, j)] end.

(** ** Reading objects *)

Definition to_lower (c : ascii) : ascii :=
  if is_upper c then Ascii.ascii_of_N (byte_of c + 32)%N else c.

Fixpoint lower (s : string) : string :=
  match s with
  | EmptyString => EmptyString
  | String c s' => String (to_lower c) (lower s')
  end.

(** A struct field is matched by its exact name or, failing that, ignoring
    case. *)
Definition fold_eq (a b : string) : bool := String.eqb (lower a) (lower b).

Fixpoint field (k : string) (fields : list (string * json)) : list json :=
  match fields with
  | [] => []
  | (k', v) :: fields => if fold_eq k k' then v :: field k fields else field k fields
  end.

(** [json.Unmarshal] scans the object in order: each match overwrites the
    field, a null leaves it as it is, and a value of another type makes the
    whole call fail. *)
Definition get_with {A} (conv : json → option A) (zero : A)
    (k : string) (o : list (string * json)) : option A :=
  foldl (λ acc j, cur ← acc;
                  match j with JNull => Some cur | _ => conv j end)
        (Some zero) (field k o).

Definition get_str := get_with (λ j, match j with JStr s => Some s | _ => None end) "".
Definition get_int :=
  get_with (λ j, match j with
                 | JNum z => if in_int64 z then Some z else None
                 | _ => None
                 end) 0%Z.
Definition get_bool := get_with (λ j, match j with JBool b => Some b | _ => None end) false.
(** The zero [time.Time] is instant 0 of the model's clock. *)
Definition get_time := get_with (λ j, match j with JTime t => Some t | _ => None end) 0%Z.
(** A [json.RawMessage] field keeps the value as it is ([JNull] when it is
    missing, which [json.Marshal] writes as null). *)
Definition get_raw (k : string) (o : list (string * json)) : json :=
  default JNull (last (field k o)).

(** ** Codecs *)

(** What one component promises to another about its wire format: decoding an
    encoded value gives it back. [valid] is the set of values the fields'
    Go types can hold. *)
Class Codec (A : Type) := {
  encode : A → json;
  decode : json → option A;
  codec_valid : A → Prop;
  decode_encode : ∀ a, codec_valid a → decode (encode a) = Some a;
}.

(** * The text of a value *)

Local Open Scope Z_scope.

(** ** UTF-8 *)

Definition byte_between (lo hi : N) (c : ascii) : bool := (lo <=? byte_of c)%N && (byte_of c <=? hi)%N.
Definition is_continuation : ascii → bool := byte_between 128 191.

(** The second byte a leading byte allows. *)
Definition second_ok (c d : ascii) : bool :=
  let n := byte_of c in
  if (n =? 224)%N then byte_between 160 191 d
  else if (n =? 237)%N then byte_between 128 159 d
  else if (n =? 240)%N then byte_between 144 191 d
  else if (n =? 244)%N then byte_between 128 143 d
  else is_continuation d.

(** The size [utf8.DecodeRune] reports for a valid encoding at the head of a
    string that starts with a byte above 0x7f; 1 when it is invalid. *)
Definition rune_size (s : string) : nat :=
  match s with
  | String c s1 =>
      if byte_between 194 223 c then
        match s1 with String d _ => if is_continuation d then 2 else 1 | _ => 1 end
      else if byte_between 224 239 c then
        match s1 with
        | String d (String e _) => if second_ok c d && is_continuation e then 3 else 1
        | _ => 1
        end
      else if byte_between 240 244 c then
        match s1 with
        | String d (String e (String f _)) =>
            if second_ok c d && is_continuation e && is_continuation f then 4 else 1
        | _ => 1
        end
      else 1
  | EmptyString => 1
  end.

(** ** Strings *)

Definition hex2 (n : N) : string :=
  String (hex_digit (n / 16)) (String (hex_digit (n mod 16)) "").

(** A byte of the ASCII range. *)
Definition escape_ascii (c : ascii) : string :=
  let n := byte_of c in
  if Ascii.eqb c dquote || Ascii.eqb c backslash then String backslash (String c "")
  else if (n =? 8)%N then "\b" else if (n =? 12)%N then "\f" else if (n =? 10)%N then "\n"
  else if (n =? 13)%N then "\r" else if (n =? 9)%N then "\t"
  else if (n <? 32)%N || Ascii.eqb c "<" || Ascii.eqb c ">" || Ascii.eqb c "&"
       then "\u00" +:+ hex2 n
  else String c "".

(** U+2028 and U+2029, whose last bytes are 0xa8 and 0xa9. *)
Definition is_line_separator (c d e : ascii) : bool :=
  (byte_of c =? 226)%N && (byte_of d =? 128)%N && byte_between 168 169 e.

Fixpoint escape (s : string) : string :=
  match s with
  | EmptyString => ""
  | String c s1 =>
      if (byte_of c <? 128)%N then escape_ascii c +:+ escape s1
      else match rune_size s, s1 with
           | 2%nat, String d s2 => String c (String d (escape s2))
           | 3%nat, String d (String e s3) =>
               if is_line_separator c d e
               then "\u202" +:+ String (hex_digit (byte_of e mod 16)) (escape s3)
               else String c (String d (String e (escape s3)))
           | 4%nat, String d (String e (String f s4)) =>
               String c (String d (String e (String f (escape s4))))
           | _, _ => "\ufffd" +:+ escape s1
           end
  end.

Definition json_string (s : string) : string := String dquote (escape s +:+ String dquote "").

(** ** Values *)

Fixpoint join (sep : string) (l : list string) : string :=
  match l with
  | [] => ""
  | [x] => x
  | x :: l => x +:+ sep +:+ join sep l
  end.

Fixpoint json_text (j : json) : string :=
  match j with
  | JNull => "null"
  | JBool true => "true"
  | JBool false => "false"
  | JNum z => Itoa z
  | JStr s => json_string s
  | JTime t => String dquote (RFC3339Nano t +:+ String dquote "")
  | JArr l => "[" +:+ join "," (List.map json_text l) +:+ "]"
  | JObj fields =>
      "{" +:+ join "," (List.map (λ p, json_string p.1 +:+ ":" +:+ json_text p.2) fields) +:+ "}"
  end.

Example json_text_ex :
  json_text (JObj [("a", JStr "x<y"); ("b", JArr [JNum (-3); JNull]); ("t", JTime 0)]) =
    "{" +:+ json_string "a" +:+ ":" +:+ String dquote ("x\u003cy" +:+ String dquote "") +:+ ","
    +:+ json_string "b" +:+ ":[-3,null]," +:+ json_string "t" +:+ ":"
    +:+ String dquote ("0001-01-01T00:00:00Z" +:+ String dquote "") +:+ "}".
Proof. vm_compute. reflexivity. Qed.
