(* ===== verification/Apperr.v ===== *)
(** Errors: [internal/apperr] and the Go error values the other packages pass
    around, with [errors.As] and [errors.Is] over wrapped chains. *)
From S2P Require Import Prelude GoStrings Json.

(** * Codes *)

Inductive Code :=
  | CodeInvalidRequest
  | CodeUnknownAccount
  | CodeCurrencyMismatch
  | CodeInsufficientFunds
  | CodeIdempotencyConflict
  | CodeIdempotencyInProgress
  | CodeTransactionAlreadyReversed
  | CodeTransactionNotFound
  | CodeAccountExists
  | CodeRateLimited
  | CodeDependencyUnavailable
  | CodeInternal.

#[export] Instance Code_eq_dec : EqDecision Code.
Proof. solve_decision. Defined.

Definition code_string (c : Code) : string :=
  match c with
  | CodeInvalidRequest => "invalid_request"
  | CodeUnknownAccount => "unknown_account"
  | CodeCurrencyMismatch => "currency_mismatch"
  | CodeInsufficientFunds => "insufficient_funds"
  | CodeIdempotencyConflict => "idempotency_conflict"
  | CodeIdempotencyInProgress => "idempotency_in_progress"
  | CodeTransactionAlreadyReversed => "transaction_already_reversed"
  | CodeTransactionNotFound => "transaction_not_found"
  | CodeAccountExists => "account_exists"
  | CodeRateLimited => "rate_limited"
  | CodeDependencyUnavailable => "dependency_unavailable"
  | CodeInternal => "internal_error"
  end.

(** * Error values *)

(** [*pgconn.PgError]: the fields the source reads. *)
Record PgError := mkPgError {
  PgCode : string;
  ConstraintName : string;
  PgMessage : string;
}.

(** [Error] is [apperr.Error].  Among the error values, [EApp] is an
    [*apperr.Error]; [EFmt pre inner post] is a [fmt.Errorf] whose format reads
    [pre %w post] once its other verbs are expanded ([None] is a nil operand);
    the others are the sentinels and opaque errors of the libraries. *)
Inductive Error :=
  | mkError (ErrCode : Code) (Message : string) (Details : gmap string json)
            (cause : option error)
with error :=
  | EApp (e : Error)
  | EPg (e : PgError)
  | EFmt (pre : string) (inner : option error) (post : string)
  | ENoRows          (* pgx.ErrNoRows *)
  | ERecordNotFound  (* idempotency.ErrNotFound *)
  | EInjected        (* failpoint.ErrInjected *)
  | ECanceled        (* context.Canceled *)
  | EDeadline        (* context.DeadlineExceeded *)
  | EText (s : string).

Definition ErrCode (e : Error) : Code := let 'mkError c _ _ _ := e in c.
Definition Message (e : Error) : string := let 'mkError _ m _ _ := e in m.
Definition Details (e : Error) : gmap string json := let 'mkError _ _ d _ := e in d.
Definition cause (e : Error) : option error := let 'mkError _ _ _ c := e in c.

Definition Unwrap (e : Error) : option error := cause e.

Definition WithCause (e : Error) (err : error) : Error :=
  mkError (ErrCode e) (Message e) (Details e) (Some err).

Definition WithDetail (e : Error) (key : string) (value : json) : Error :=
  mkError (ErrCode e) (Message e) (<[key := value]> (Details e)) (cause e).

Definition New (code : Code) (format : string) (args : list arg) : Error :=
  mkError code (Sprintf format args) ∅ None.

Definition HTTPStatus (e : Error) : Z :=
  match ErrCode e with
  | CodeInvalidRequest | CodeCurrencyMismatch => 400
  | CodeUnknownAccount | CodeTransactionNotFound => 404
  | CodeInsufficientFunds => 422
  | CodeIdempotencyConflict | CodeTransactionAlreadyReversed | CodeAccountExists => 409
  | CodeIdempotencyInProgress => 409
  | CodeRateLimited => 429
  | CodeDependencyUnavailable => 503
  | CodeInternal => 500
  end.

(** * [errors.As] *)

(** The first [*apperr.Error] of the chain; it is the outermost one, so its own
    cause is not searched. *)
Fixpoint as_app (err : error) : option Error :=
  match err with
  | EApp e => Some e
  | EFmt _ (Some inner) _ => as_app inner
  | _ => None
  end.

(** The first [*pgconn.PgError] of the chain, looking through the causes of
    application errors. *)
Fixpoint as_pg (err : error) : option PgError :=
  match err with
  | EPg e => Some e
  | EFmt _ (Some inner) _ => as_pg inner
  | EApp (mkError _ _ _ (Some inner)) => as_pg inner
  | _ => None
  end.

(** [errors.Is] for a sentinel, given as a test on one link of the chain. *)
Fixpoint errors_Is (sentinel : error → bool) (err : error) : bool :=
  sentinel err ||
  match err with
  | EFmt _ (Some inner) _ => errors_Is sentinel inner
  | EApp (mkError _ _ _ (Some inner)) => errors_Is sentinel inner
  | _ => false
  end.

Definition is_ENoRows (e : error) : bool := match e with ENoRows => true | _ => false end.
Definition is_EInjected (e : error) : bool := match e with EInjected => true | _ => false end.
Definition is_ECanceled (e : error) : bool := match e with ECanceled => true | _ => false end.

(** [apperr.From]: a nil error stays nil. *)
Definition From (err : option error) : option Error :=
  match err with
  | None => None
  | Some err =>
      match as_app err with
      | Some appErr => Some appErr
      | None => Some (WithCause (mkError CodeInternal "internal error" ∅ None) err)
      end
  end.

(** The code [apperr.From] reports for a non-nil error. *)
Definition code_of (err : error) : Code := from_option ErrCode CodeInternal (From (Some err)).

(** [apperr.Is]. *)
Definition Is (err : error) (code : Code) : bool :=
  match as_app err with
  | Some appErr => bool_decide (ErrCode appErr = code)
  | None => false
  end.

(** * Constructors used across packages *)

Definition InvalidRequest (format : string) (args : list arg) : Error :=
  New CodeInvalidRequest format args.
Definition UnknownAccount (id : string) : Error :=
  WithDetail (New CodeUnknownAccount "account %q does not exist" [AStr id])
             "account_id" (JStr id).
Definition CurrencyMismatch (format : string) (args : list arg) : Error :=
  New CodeCurrencyMismatch format args.
Definition InsufficientFunds (accountID : string) : Error :=
  WithDetail (New CodeInsufficientFunds "account %q has insufficient funds" [AStr accountID])
             "account_id" (JStr accountID).
Definition DependencyUnavailable (dep : string) (c : error) : Error :=
  WithCause (WithDetail (New CodeDependencyUnavailable "dependency %q is unavailable" [AStr dep])
                        "dependency" (JStr dep)) c.
Definition Internal (c : error) : Error :=
  WithCause (New CodeInternal "internal error" []) c.
