(* ===== verification/Failpoint.v ===== *)
(** [internal/failpoint]: the registry of named injection points, its
    configuration language, and the per-request overrides. *)
From S2P Require Import Prelude GoStrings GoTime Json Apperr.

Definition BeforeTxBegin := "before_tx_begin".
Definition AfterAccountsLocked := "after_accounts_locked".
Definition AfterEntriesWritten := "after_entries_written".
Definition AfterBalancesUpdated := "after_balances_updated".
Definition AfterOutboxWritten := "after_outbox_written".
Definition BeforeCommit := "before_commit".
Definition AfterCommit := "after_commit".
Definition BeforeKafkaPublish := "before_kafka_publish".
Definition AfterKafkaPublish := "after_kafka_publish".
Definition BeforeWebhookPersist := "before_webhook_persist".
Definition BeforeWebhookSend := "before_webhook_send".

Definition All : list string :=
  [ BeforeTxBegin; AfterAccountsLocked; AfterEntriesWritten; AfterBalancesUpdated;
    AfterOutboxWritten; BeforeCommit; AfterCommit; BeforeKafkaPublish;
    AfterKafkaPublish; BeforeWebhookPersist; BeforeWebhookSend ].

(** The [kind] of an action is one of three strings. *)
Inductive action_kind := actionError | actionPanic | actionSleep.

#[export] Instance action_kind_eq_dec : EqDecision action_kind.
Proof. solve_decision. Defined.

(** [remaining = -1] means "always". *)
Record action := mkAction {
  kind : action_kind;
  duration : Z;
  remaining : Z;
}.

#[export] Instance action_eq_dec : EqDecision action.
Proof. solve_decision. Defined.

Record Registry := mkRegistry {
  enabled : bool;
  actions : gmap string action;
}.

(** A method's receiver is a [*Registry], which may be nil. *)
Definition registry_ptr := option Registry.

Definition NewRegistry (en : bool) : registry_ptr := Some (mkRegistry en ∅).

Definition Enabled (r : registry_ptr) : bool :=
  match r with Some r => enabled r | None => false end.

Fixpoint isKnown_in (name : string) (l : list string) : bool :=
  match l with
  | [] => false
  | n :: l => if String.eqb n name then true else isKnown_in name l
  end.
Definition isKnown (name : string) : bool := isKnown_in name All.

Definition Disarm (r : registry_ptr) (name : string) : registry_ptr :=
  (λ r, mkRegistry (enabled r) (delete name (actions r))) <$> r.

Definition Reset (r : registry_ptr) : registry_ptr :=
  (λ r, mkRegistry (enabled r) ∅) <$> r.

Definition put_action (r : registry_ptr) (name : string) (a : action) : registry_ptr :=
  (λ r, mkRegistry (enabled r) (<[name := a]> (actions r))) <$> r.

(** [strings.Cut] when the caller ignores [found]: the whole string comes
    first. *)
Definition Cut_or (sep : ascii) (s : string) : string * string :=
  default (s, "") (Cut sep s).

Definition Arm (r : registry_ptr) (name spec : string) : option error * registry_ptr :=
  if negb (Enabled r) then (Some (EText "failpoint: injection is disabled"), r)
  else if negb (isKnown name) then
    (Some (EText (Sprintf "failpoint: unknown failpoint %q" [AStr name])), r)
  else
    let '(k, rest) := Cut_or ":" spec in
    let counted act :=
      if String.eqb rest "" then (None, put_action r name (mkAction act 0 (-1)))
      else match Atoi rest with
           | Some n =>
               if (n <? 0)%Z
               then (Some (EText (Sprintf "failpoint: bad count %q for %s" [AStr rest; AStr name])), r)
               else (None, put_action r name (mkAction act 0 n))
           | None =>
               (Some (EText (Sprintf "failpoint: bad count %q for %s" [AStr rest; AStr name])), r)
           end in
    if String.eqb k "error" then counted actionError
    else if String.eqb k "panic" then counted actionPanic
    else if String.eqb k "sleep" then
      match ParseDuration rest with
      | Some d => (None, put_action r name (mkAction actionSleep d (-1)))
      | None => (Some (EText (Sprintf "failpoint: bad duration %q for %s" [AStr rest; AStr name])), r)
      end
    else if String.eqb k "off" || String.eqb k "" then (None, Disarm r name)
    else (Some (EText (Sprintf "failpoint: unknown action %q" [AStr k])), r).

Fixpoint Parse_parts (r : registry_ptr) (parts : list string) : option error * registry_ptr :=
  match parts with
  | [] => (None, r)
  | part :: parts =>
      let part := TrimSpace part in
      if String.eqb part "" then Parse_parts r parts
      else match Cut "=" part with
           | None => (Some (EText (Sprintf "failpoint: malformed spec %q" [AStr part])), r)
           | Some (name, rhs) =>
               match Arm r (TrimSpace name) (TrimSpace rhs) with
               | (Some err, r') => (Some err, r')
               | (None, r') => Parse_parts r' parts
               end
           end
  end.

Definition Parse (r : registry_ptr) (spec : string) : option error * registry_ptr :=
  match r with
  | None => (None, r)
  | Some _ =>
      if String.eqb (TrimSpace spec) "" then (None, r)
      else Parse_parts r (Split "," spec)
  end.

(** ** Per-request overrides *)

Definition overrides := option (gmap string action).

Fixpoint overrides_parts (acc : gmap string action) (parts : list string)
    : error + gmap string action :=
  match parts with
  | [] => inr acc
  | part :: parts =>
      let part := TrimSpace part in
      if String.eqb part "" then overrides_parts acc parts
      else match Cut "=" part with
           | None => inl (EText (Sprintf "failpoint: malformed override %q" [AStr part]))
           | Some (name, rhs) =>
               let name := TrimSpace name in
               if negb (isKnown name) then
                 inl (EText (Sprintf "failpoint: unknown failpoint %q" [AStr name]))
               else
                 let '(k, rest) := Cut_or ":" (TrimSpace rhs) in
                 if String.eqb k "sleep" then
                   match ParseDuration rest with
                   | Some d => overrides_parts (<[name := mkAction actionSleep d (-1)]> acc) parts
                   | None => inl (EText (Sprintf "failpoint: bad duration %q" [AStr rest]))
                   end
                 else if String.eqb k "error" then
                   overrides_parts (<[name := mkAction actionError 0 (-1)]> acc) parts
                 else if String.eqb k "panic" then
                   overrides_parts (<[name := mkAction actionPanic 0 (-1)]> acc) parts
                 else inl (EText (Sprintf "failpoint: unknown action %q" [AStr k]))
           end
  end.

(** The context value it returns; a spec without overrides leaves the context
    as it was. *)
Definition WithRequestFailpoints (ctx : overrides) (spec : string) : error + overrides :=
  match overrides_parts ∅ (Split "," spec) with
  | inl err => inl err
  | inr m => if decide (m = ∅) then inr ctx else inr (Some m)
  end.

Definition fromContext (ctx : overrides) (name : string) : option action :=
  m ← ctx; m !! name.

(** ** Evaluation *)

(** What a failpoint does to the caller. *)
Inductive fp_effect :=
  | FpNone
  | FpError (err : error)
  | FpPanic (msg : string)
  | FpSleep (d : Z).

Definition apply (name : string) (act : action) : fp_effect :=
  match kind act with
  | actionError => FpError (EFmt "" (Some EInjected) (" at " +:+ name))
  | actionPanic => FpPanic ("failpoint: injected panic at " +:+ name)
  | actionSleep => FpSleep (duration act)
  end.

Definition Eval (r : registry_ptr) (ctx : overrides) (name : string)
    : fp_effect * registry_ptr :=
  if negb (Enabled r) then (FpNone, r)
  else match fromContext ctx name with
  | Some act => (apply name act, r)
  | None =>
      match r ≫= λ r, actions r !! name with
      | None => (FpNone, r)
      | Some act =>
          if (0 <? remaining act)%Z then
            let act' := mkAction (kind act) (duration act) (remaining act - 1) in
            if (remaining act' =? 0)%Z
            then (apply name act', Disarm r name)
            else (apply name act', put_action r name act')
          else if (remaining act =? 0)%Z then (FpNone, Disarm r name)
          else (apply name act, r)
      end
  end.

(** The armed failpoints, as they are configured. *)
Definition describe (act : action) : string :=
  let desc := match kind act with
              | actionError => "error" | actionPanic => "panic" | actionSleep => "sleep" end in
  if decide (kind act = actionSleep) then desc +:+ ":" +:+ Duration_String (duration act)
  else if (0 <=? remaining act)%Z then desc +:+ ":" +:+ Itoa (remaining act)
  else desc.

Definition Active (r : registry_ptr) : gmap string string :=
  match r with
  | None => ∅
  | Some r => describe <$> actions r
  end.

(** * Facts *)

Definition is_injected (e : fp_effect) : bool :=
  match e with FpError err => errors_Is is_EInjected err | _ => false end.

(** [n] consecutive evaluations of the same failpoint. *)
Fixpoint Eval_n (r : registry_ptr) (ctx : overrides) (name : string) (n : nat)
    : list fp_effect * registry_ptr :=
  match n with
  | O => ([], r)
  | S n =>
      let '(e, r') := Eval r ctx name in
      let '(es, r'') := Eval_n r' ctx name n in (e :: es, r'')
  end.

Lemma isKnown_iff name : isKnown name = true ↔ name ∈ All.
Proof.
  unfold isKnown. induction All as [|n l IH]; simpl; [set_solver|].
  destruct (String.eqb_spec n name); set_solver.
Qed.

Lemma put_action_put r name a b :
  put_action (put_action r name a) name b = put_action r name b.
Proof. destruct r as [[]|]; simpl; [|done]. by rewrite insert_insert_eq. Qed.

Lemma Disarm_put r name a : Disarm (put_action r name a) name = Disarm r name.
Proof. destruct r as [[]|]; simpl; [|done]. by rewrite delete_insert_eq. Qed.

Lemma Enabled_put r name a : Enabled (put_action r name a) = Enabled r.
Proof. by destruct r as [[]|]. Qed.

Lemma Enabled_disarm r name : Enabled (Disarm r name) = Enabled r.
Proof. by destruct r as [[]|]. Qed.

Lemma Eval_enabled r ctx name : Enabled (Eval r ctx name).2 = Enabled r.
Proof.
  unfold Eval. repeat (case_match; simpl); rewrite ?Enabled_disarm, ?Enabled_put; done.
Qed.

Lemma Eval_disarmed r name : Eval (Disarm r name) None name = (FpNone, Disarm r name).
Proof.
  unfold Eval, Disarm. destruct r as [[[] m]|]; simpl; [|done..].
  by rewrite lookup_delete_eq.
Qed.

Lemma Eval_put r name k d n :
  Enabled r = true → (0 < n)%Z →
  Eval (put_action r name (mkAction k d n)) None name =
    (apply name (mkAction k d (n - 1)),
     if (n - 1 =? 0)%Z then Disarm r name
     else put_action r name (mkAction k d (n - 1))).
Proof.
  intros Hen Hn. unfold Eval. rewrite Enabled_put, Hen. simpl.
  destruct r as [[en m]|]; simpl in *; [|done]. rewrite lookup_insert_eq. simpl.
  assert ((0 <? n)%Z = true) as -> by lia.
  destruct (n - 1 =? 0)%Z; simpl; by rewrite ?delete_insert_eq, ?insert_insert_eq.
Qed.

Lemma Eval_n_disarmed r name m :
  Eval_n (Disarm r name) None name m = (replicate m FpNone, Disarm r name).
Proof. induction m as [|m IH]; simpl; [done|]. by rewrite Eval_disarmed, IH. Qed.

(** A count armed with [n] fires exactly [n] times, then the failpoint is gone. *)
Lemma Eval_n_counted r name k d (n m : nat) :
  Enabled r = true → (0 < n)%nat →
  Eval_n (put_action r name (mkAction k d (Z.of_nat n))) None name (n + m) =
    (replicate n (apply name (mkAction k d 0)) ++ replicate m FpNone, Disarm r name).
Proof.
  intros Hen. induction n as [|n IH]; [lia|]. intros _.
  cbn [Nat.add Eval_n]. rewrite Eval_put by (done || lia).
  replace (Z.of_nat (S n) - 1)%Z with (Z.of_nat n) by lia.
  destruct n as [|n].
  - simpl. by rewrite Eval_n_disarmed.
  - rewrite (proj2 (Z.eqb_neq _ _)) by lia.
    rewrite IH by lia. done.
Qed.
