(* ===== verification/Schema.v ===== *)
(** The PostgreSQL schema of [migrations/0001_init.up.sql]: its tables as finite
    maps, and every statement that changes rows with the constraints and triggers
    that guard it: INSERT, UPDATE and DELETE of a row, and TRUNCATE.

    A statement either fails with the SQLSTATE and constraint name PostgreSQL
    reports, or gives the new database.  The deferred zero-sum trigger runs at
    commit ([commit_check]).  Timestamps are nanoseconds of the model's clock. *)
From S2P Require Import Prelude GoStrings Json Apperr.
Local Open Scope Z_scope.

(** * Rows *)

Record account_row := AccountRow {
  a_currency : string;
  a_kind : string;
  a_allow_overdraft : bool;
  a_metadata : gmap string json;
  a_created_at : Z;
}.

Record balance_row := BalanceRow {
  b_amount : Z;
  b_allow_overdraft : bool;
  b_version : Z;
  b_updated_at : Z;
}.

Record tx_row := TxRow {
  t_kind : string;
  t_currency : string;
  t_description : string;
  t_external_reference : option string;
  t_reverses : option string;
  t_created_at : Z;
}.

Record entry_row := EntryRow {
  e_id : string;
  e_transaction_id : string;
  e_account_id : string;
  e_amount : Z;
  e_currency : string;
  e_seq : Z;
  e_created_at : Z;
}.

Record reversal_row := ReversalRow {
  r_original : string;
  r_reversal : string;
  r_reason : string;
  r_created_at : Z;
}.

Inductive idem_state := InProgressState | CompletedState.

#[export] Instance idem_state_eq_dec : EqDecision idem_state.
Proof. solve_decision. Defined.

Record idem_row := IdemRow {
  i_request_hash : string;
  i_state : idem_state;
  i_response_status : option Z;
  i_response_body : option json;
  i_transaction_id : option string;
  i_created_at : Z;
  i_updated_at : Z;
}.

Inductive outbox_status := OPending | OPublishing | OPublished | ODeadLetter.

#[export] Instance outbox_status_eq_dec : EqDecision outbox_status.
Proof. solve_decision. Defined.

Record outbox_row := OutboxRow {
  o_topic : string;
  o_event_type : string;
  o_aggregate_id : string;
  o_partition_key : string;
  o_payload : json;
  o_headers : gmap string string;
  o_status : outbox_status;
  o_attempts : Z;
  o_last_error : option string;
  o_claimed_by : option string;
  o_claimed_at : option Z;
  o_next_attempt_at : Z;
  o_published_at : option Z;
  o_created_at : Z;
}.

Inductive delivery_status := DPending | DDelivered | DDeadLetter.

#[export] Instance delivery_status_eq_dec : EqDecision delivery_status.
Proof. solve_decision. Defined.

Record delivery_row := DeliveryRow {
  d_event_id : string;
  d_endpoint : string;
  d_event_type : string;
  d_transaction_id : string;
  d_payload : json;
  d_status : delivery_status;
  d_attempts : Z;
  d_last_error : option string;
  d_last_status_code : option Z;
  d_next_attempt_at : Z;
  d_delivered_at : option Z;
  d_created_at : Z;
  d_updated_at : Z;
}.

(** * The database *)

(** [ledger_entries] is a list in insertion order; the other tables are keyed
    by their primary key. *)
Record DB := mkDB {
  accounts : gmap string account_row;
  balances : gmap string balance_row;
  ledger_transactions : gmap string tx_row;
  ledger_entries : list entry_row;
  reversals : gmap string reversal_row;
  idempotency_records : gmap (string * string) idem_row;
  outbox_events : gmap string outbox_row;
  webhook_deliveries : gmap string delivery_row;
}.

Definition empty_db : DB := mkDB ∅ ∅ ∅ [] ∅ ∅ ∅ ∅.

Definition set_accounts v (d : DB) := mkDB v (balances d) (ledger_transactions d)
  (ledger_entries d) (reversals d) (idempotency_records d) (outbox_events d) (webhook_deliveries d).
Definition set_balances v (d : DB) := mkDB (accounts d) v (ledger_transactions d)
  (ledger_entries d) (reversals d) (idempotency_records d) (outbox_events d) (webhook_deliveries d).
Definition set_transactions v (d : DB) := mkDB (accounts d) (balances d) v
  (ledger_entries d) (reversals d) (idempotency_records d) (outbox_events d) (webhook_deliveries d).
Definition set_entries v (d : DB) := mkDB (accounts d) (balances d) (ledger_transactions d)
  v (reversals d) (idempotency_records d) (outbox_events d) (webhook_deliveries d).
Definition set_reversals v (d : DB) := mkDB (accounts d) (balances d) (ledger_transactions d)
  (ledger_entries d) v (idempotency_records d) (outbox_events d) (webhook_deliveries d).
Definition set_idem v (d : DB) := mkDB (accounts d) (balances d) (ledger_transactions d)
  (ledger_entries d) (reversals d) v (outbox_events d) (webhook_deliveries d).
Definition set_outbox v (d : DB) := mkDB (accounts d) (balances d) (ledger_transactions d)
  (ledger_entries d) (reversals d) (idempotency_records d) v (webhook_deliveries d).
Definition set_deliveries v (d : DB) := mkDB (accounts d) (balances d) (ledger_transactions d)
  (ledger_entries d) (reversals d) (idempotency_records d) (outbox_events d) v.

(** * Statement results *)

Inductive pg (A : Type) := PgOk (a : A) | PgErr (e : PgError).
Arguments PgOk {_} a.
Arguments PgErr {_} e.

#[export] Instance pg_ret : MRet pg := λ A a, PgOk a.
#[export] Instance pg_bind : MBind pg := λ A B f m,
  match m with PgOk a => f a | PgErr e => PgErr e end.

Definition unique_violation (c : string) : PgError :=
  mkPgError "23505" c ("duplicate key value violates unique constraint " +:+ Quote c).
Definition check_violation (c : string) : PgError :=
  mkPgError "23514" c ("new row violates check constraint " +:+ Quote c).
Definition fk_violation (c : string) : PgError :=
  mkPgError "23503" c ("violates foreign key constraint " +:+ Quote c).
Definition restrict_violation : PgError :=
  mkPgError "23001" "" "relation is append-only: it is not permitted".
Definition out_of_range : PgError := mkPgError "22003" "" "bigint out of range".
Definition invalid_text : PgError :=
  mkPgError "22021" "" "invalid byte sequence for encoding UTF8".
Definition untranslatable : PgError :=
  mkPgError "22P05" "" "unsupported Unicode escape sequence".
Definition balance_violation (msg : string) : PgError := mkPgError "23514" "" msg.

Definition guard_pg (ok : bool) (e : PgError) : pg unit :=
  if ok then PgOk tt else PgErr e.

(** * Values that PostgreSQL can hold *)

Definition continues (c : ascii) : bool :=
  let n := byte_of c in ((128 <=? n) && (n <=? 191))%N.

(** Well-formed UTF-8 without a zero byte: what a TEXT value can be. *)
Fixpoint text_ok (s : string) : bool :=
  match s with
  | EmptyString => true
  | String a s1 =>
      let n := byte_of a in
      if (n <? 128)%N then negb (n =? 0)%N && text_ok s1
      else match s1 with
      | EmptyString => false
      | String b s2 =>
          if ((194 <=? n) && (n <=? 223))%N then continues b && text_ok s2
          else match s2 with
          | EmptyString => false
          | String c s3 =>
              if ((224 <=? n) && (n <=? 239))%N then
                continues b && continues c && text_ok s3 &&
                (if (n =? 224)%N then (160 <=? byte_of b)%N else true) &&
                (if (n =? 237)%N then (byte_of b <=? 159)%N else true)
              else match s3 with
              | EmptyString => false
              | String d s4 =>
                  ((240 <=? n) && (n <=? 244))%N &&
                  continues b && continues c && continues d && text_ok s4 &&
                  (if (n =? 240)%N then (144 <=? byte_of b)%N else true) &&
                  (if (n =? 244)%N then (byte_of b <=? 143)%N else true)
              end
          end
      end
  end.

Definition opt_text_ok (s : option string) : bool :=
  match s with Some s => text_ok s | None => true end.

Fixpoint no_nul (s : string) : bool :=
  match s with EmptyString => true | String c s => negb (byte_of c =? 0)%N && no_nul s end.

(** A JSONB value has no escaped NUL, which is how [encoding/json] writes the byte;
    bytes that are not UTF-8 it writes as U+FFFD. *)
Fixpoint json_ok (j : json) : bool :=
  match j with
  | JStr s => no_nul s
  | JArr l => forallb json_ok l
  | JObj fs => forallb (λ p, no_nul p.1 && json_ok p.2) fs
  | _ => true
  end.

Definition json_map_ok (m : gmap string json) : bool :=
  bool_decide (map_Forall (λ k v, no_nul k && json_ok v = true) m).
Definition text_map_ok (m : gmap string string) : bool :=
  bool_decide (map_Forall (λ k v, no_nul k && no_nul v = true) m).

(** * Constraints *)

(** [currency ~ '^[A-Z]{3}$']. *)
Definition currency_check (c : string) : bool :=
  match c with
  | String a (String b (String c EmptyString)) => is_upper a && is_upper b && is_upper c
  | _ => false
  end.

Definition account_kind_check (k : string) : bool :=
  String.eqb k "user" || String.eqb k "system".

Definition tx_kind_check (k : string) : bool :=
  String.eqb k "transfer" || String.eqb k "funding" || String.eqb k "reversal".

(** [reversal_points_at_original]. *)
Definition reversal_points_check (t : tx_row) : bool :=
  Bool.eqb (String.eqb (t_kind t) "reversal") (bool_decide (is_Some (t_reverses t))).

(** [balances_non_negative]. *)
Definition balances_non_negative (b : balance_row) : bool :=
  b_allow_overdraft b || (0 <=? b_amount b).

(** [completed_has_response]. *)
Definition completed_has_response (i : idem_row) : bool :=
  negb (bool_decide (i_state i = CompletedState)) ||
  (bool_decide (is_Some (i_response_status i)) && bool_decide (is_Some (i_response_body i))).

(** [published_has_timestamp]. *)
Definition published_has_timestamp (o : outbox_row) : bool :=
  Bool.eqb (bool_decide (o_status o = OPublished)) (bool_decide (is_Some (o_published_at o))).

Definition exists_in {A} (o : option A) : bool := match o with Some _ => true | None => false end.

(** The rows of [ledger_transactions] that reverse [o]. *)
Definition reversals_of (txs : gmap string tx_row) (o : string) : list string :=
  (map_to_list (filter (λ p, t_reverses p.2 = Some o) txs)).*1.

(** The index [ledger_transactions_one_reversal]. *)
Definition one_reversal_check (txs : gmap string tx_row) (t : tx_row) : bool :=
  match t_reverses t with
  | Some o => bool_decide (reversals_of txs o = [])
  | None => true
  end.

Definition fk_tx (txs : gmap string tx_row) (o : option string) : bool :=
  match o with Some id => exists_in (txs !! id) | None => true end.

(** The composite foreign keys of [ledger_entries]. *)
Definition fk_tx_currency (db : DB) (e : entry_row) : bool :=
  match ledger_transactions db !! e_transaction_id e with
  | Some t => String.eqb (t_currency t) (e_currency e)
  | None => false
  end.
Definition fk_account_currency (db : DB) (e : entry_row) : bool :=
  match accounts db !! e_account_id e with
  | Some a => String.eqb (a_currency a) (e_currency e)
  | None => false
  end.

(** * Statements *)

(** One row-level statement. [Update] statements replace the row of a key that
    exists and do nothing otherwise; an UPDATE of [accounts] names the overdraft
    column or leaves it alone. The texts that are checked are those that requests
    and errors fill in; names, currencies, hashes and identifiers that the code
    makes or validates hold nothing else. *)
Inductive dml :=
  | InsertAccount (id : string) (a : account_row)
  | UpdateAccount (id : string) (names_overdraft : bool) (a : account_row)
  | DeleteAccount (id : string)
  | InsertBalance (id : string) (b : balance_row)
  | UpdateBalance (id : string) (b : balance_row)
  | DeleteBalance (id : string)
  | InsertTransaction (id : string) (t : tx_row)
  | UpdateTransaction (id : string) (t : tx_row)
  | DeleteTransaction (id : string)
  | InsertEntry (e : entry_row)
  | UpdateEntry (id : string) (e : entry_row)
  | DeleteEntry (id : string)
  | InsertReversal (id : string) (r : reversal_row)
  | UpdateReversal (id : string) (r : reversal_row)
  | DeleteReversal (id : string)
  | InsertIdem (k : string * string) (i : idem_row)
  | UpdateIdem (k : string * string) (i : idem_row)
  | DeleteIdem (k : string * string)
  | InsertOutbox (id : string) (o : outbox_row)
  | UpdateOutbox (id : string) (o : outbox_row)
  | DeleteOutbox (id : string)
  | InsertDelivery (id : string) (d : delivery_row)
  | UpdateDelivery (id : string) (d : delivery_row)
  | DeleteDelivery (id : string).

(** The range of an INT column. *)
Definition int4_ok (z : Z) : bool := (-2147483648 <=? z) && (z <=? 2147483647).

Definition check_account (id : string) (a : account_row) : pg unit :=
  guard_pg (text_ok id) invalid_text;;
  guard_pg (json_map_ok (a_metadata a)) untranslatable.

Definition insert_account (id : string) (a : account_row) (db : DB) : pg DB :=
  check_account id a;;
  guard_pg (currency_check (a_currency a)) (check_violation "accounts_currency_check");;
  guard_pg (account_kind_check (a_kind a)) (check_violation "accounts_kind_check");;
  guard_pg (negb (exists_in (accounts db !! id))) (unique_violation "accounts_pkey");;
  mret (set_accounts (<[id := a]> (accounts db)) db).

Definition check_balance (b : balance_row) : pg unit :=
  guard_pg (in_int64 (b_amount b) && in_int64 (b_version b)) out_of_range;;
  guard_pg (balances_non_negative b) (check_violation "balances_non_negative").

(** [sync_balance_overdraft], run by [accounts_sync_overdraft]. *)
Definition sync_balance_overdraft (id : string) (overdraft : bool) (db : DB) : pg DB :=
  match balances db !! id with
  | None => mret db
  | Some b =>
      let b' := BalanceRow (b_amount b) overdraft (b_version b) (b_updated_at b) in
      check_balance b';;
      mret (set_balances (<[id := b']> (balances db)) db)
  end.

Definition set_overdraft (b : bool) (a : account_row) : account_row :=
  AccountRow (a_currency a) (a_kind a) b (a_metadata a) (a_created_at a).

(** The trigger fires when the UPDATE names the column. *)
Definition update_account (id : string) (names_overdraft : bool) (a : account_row) (db : DB)
    : pg DB :=
  match accounts db !! id with
  | None => mret db
  | Some old =>
      check_account id a;;
      guard_pg (currency_check (a_currency a)) (check_violation "accounts_currency_check");;
      guard_pg (account_kind_check (a_kind a)) (check_violation "accounts_kind_check");;
      guard_pg (String.eqb (a_currency old) (a_currency a) ||
                forallb (λ e, negb (String.eqb (e_account_id e) id)) (ledger_entries db))
               (fk_violation "ledger_entries_account_currency_fk");;
      if names_overdraft then
        sync_balance_overdraft id (a_allow_overdraft a)
          (set_accounts (<[id := a]> (accounts db)) db)
      else mret (set_accounts (<[id := set_overdraft (a_allow_overdraft old) a]> (accounts db)) db)
  end.

(** Entries restrict the deletion; the balance row goes with the account. *)
Definition delete_account (id : string) (db : DB) : pg DB :=
  guard_pg (forallb (λ e, negb (String.eqb (e_account_id e) id)) (ledger_entries db))
           (fk_violation "ledger_entries_account_id_fkey");;
  mret (set_balances (delete id (balances db)) (set_accounts (delete id (accounts db)) db)).

Definition insert_balance (id : string) (b : balance_row) (db : DB) : pg DB :=
  check_balance b;;
  guard_pg (negb (exists_in (balances db !! id))) (unique_violation "balances_pkey");;
  guard_pg (exists_in (accounts db !! id)) (fk_violation "balances_account_id_fkey");;
  mret (set_balances (<[id := b]> (balances db)) db).

Definition update_balance (id : string) (b : balance_row) (db : DB) : pg DB :=
  match balances db !! id with
  | None => mret db
  | Some _ =>
      check_balance b;;
      mret (set_balances (<[id := b]> (balances db)) db)
  end.

Definition delete_balance (id : string) (db : DB) : pg DB :=
  mret (set_balances (delete id (balances db)) db).

Definition insert_transaction (id : string) (t : tx_row) (db : DB) : pg DB :=
  guard_pg (text_ok (t_description t) && opt_text_ok (t_external_reference t)) invalid_text;;
  guard_pg (tx_kind_check (t_kind t)) (check_violation "ledger_transactions_kind_check");;
  guard_pg (currency_check (t_currency t)) (check_violation "ledger_transactions_currency_check");;
  guard_pg (reversal_points_check t) (check_violation "reversal_points_at_original");;
  guard_pg (negb (exists_in (ledger_transactions db !! id)))
           (unique_violation "ledger_transactions_pkey");;
  guard_pg (one_reversal_check (ledger_transactions db) t)
           (unique_violation "ledger_transactions_one_reversal");;
  guard_pg (fk_tx (<[id := t]> (ledger_transactions db)) (t_reverses t))
           (fk_violation "ledger_transactions_reverses_transaction_id_fkey");;
  mret (set_transactions (<[id := t]> (ledger_transactions db)) db).

(** [reject_mutation]: it fires for each row an UPDATE or DELETE touches. *)
Definition reject_mutation (touched : bool) (db : DB) : pg DB :=
  if touched then PgErr restrict_violation else mret db.

Definition has_entry (id : string) (db : DB) : bool :=
  existsb (λ e, String.eqb (e_id e) id) (ledger_entries db).

Definition insert_entry (e : entry_row) (db : DB) : pg DB :=
  guard_pg (in_int64 (e_amount e) && int4_ok (e_seq e)) out_of_range;;
  guard_pg (negb (e_amount e =? 0)) (check_violation "ledger_entries_amount_check");;
  guard_pg (0 <=? e_seq e) (check_violation "ledger_entries_seq_check");;
  guard_pg (negb (has_entry (e_id e) db)) (unique_violation "ledger_entries_pkey");;
  guard_pg (forallb (λ x, negb (String.eqb (e_transaction_id x) (e_transaction_id e) &&
                                (e_seq x =? e_seq e))) (ledger_entries db))
           (unique_violation "ledger_entries_tx_seq_key");;
  guard_pg (exists_in (ledger_transactions db !! e_transaction_id e))
           (fk_violation "ledger_entries_transaction_id_fkey");;
  guard_pg (exists_in (accounts db !! e_account_id e))
           (fk_violation "ledger_entries_account_id_fkey");;
  guard_pg (fk_tx_currency db e) (fk_violation "ledger_entries_tx_currency_fk");;
  guard_pg (fk_account_currency db e) (fk_violation "ledger_entries_account_currency_fk");;
  mret (set_entries (ledger_entries db ++ [e]) db).

(** The constraints of a reversal against the other rows. *)
Definition check_reversal (r : reversal_row) (others : gmap string reversal_row) (db : DB)
    : pg unit :=
  guard_pg (bool_decide (map_Forall (λ _ x, r_original x ≠ r_original r) others))
           (unique_violation "reversals_original_transaction_id_key");;
  guard_pg (bool_decide (map_Forall (λ _ x, r_reversal x ≠ r_reversal r) others))
           (unique_violation "reversals_reversal_transaction_id_key");;
  guard_pg (exists_in (ledger_transactions db !! r_original r))
           (fk_violation "reversals_original_transaction_id_fkey");;
  guard_pg (exists_in (ledger_transactions db !! r_reversal r))
           (fk_violation "reversals_reversal_transaction_id_fkey").

Definition insert_reversal (id : string) (r : reversal_row) (db : DB) : pg DB :=
  guard_pg (text_ok (r_reason r)) invalid_text;;
  guard_pg (negb (String.eqb (r_original r) (r_reversal r))) (check_violation "reversal_is_not_self");;
  guard_pg (negb (exists_in (reversals db !! id))) (unique_violation "reversals_pkey");;
  check_reversal r (reversals db) db;;
  mret (set_reversals (<[id := r]> (reversals db)) db).

Definition update_reversal (id : string) (r : reversal_row) (db : DB) : pg DB :=
  match reversals db !! id with
  | None => mret db
  | Some _ =>
      guard_pg (text_ok (r_reason r)) invalid_text;;
      guard_pg (negb (String.eqb (r_original r) (r_reversal r))) (check_violation "reversal_is_not_self");;
      check_reversal r (delete id (reversals db)) db;;
      mret (set_reversals (<[id := r]> (reversals db)) db)
  end.

Definition delete_reversal (id : string) (db : DB) : pg DB :=
  mret (set_reversals (delete id (reversals db)) db).

(** A response body only repeats texts that other columns have accepted. *)
Definition check_idem (i : idem_row) (db : DB) : pg unit :=
  guard_pg (completed_has_response i) (check_violation "completed_has_response");;
  guard_pg (fk_tx (ledger_transactions db) (i_transaction_id i))
           (fk_violation "idempotency_records_transaction_id_fkey").

Definition insert_idem (k : string * string) (i : idem_row) (db : DB) : pg DB :=
  guard_pg (text_ok k.1 && text_ok k.2) invalid_text;;
  guard_pg (negb (exists_in (idempotency_records db !! k)))
           (unique_violation "idempotency_records_pkey");;
  check_idem i db;;
  mret (set_idem (<[k := i]> (idempotency_records db)) db).

Definition update_idem (k : string * string) (i : idem_row) (db : DB) : pg DB :=
  match idempotency_records db !! k with
  | None => mret db
  | Some _ => check_idem i db;; mret (set_idem (<[k := i]> (idempotency_records db)) db)
  end.

Definition delete_idem (k : string * string) (db : DB) : pg DB :=
  mret (set_idem (delete k (idempotency_records db)) db).

Definition check_outbox (o : outbox_row) : pg unit :=
  guard_pg (opt_text_ok (o_last_error o)) invalid_text;;
  guard_pg (json_ok (o_payload o) && text_map_ok (o_headers o)) untranslatable;;
  guard_pg (int4_ok (o_attempts o)) out_of_range;;
  guard_pg (0 <=? o_attempts o) (check_violation "outbox_events_attempts_check");;
  guard_pg (published_has_timestamp o) (check_violation "published_has_timestamp").

Definition insert_outbox (id : string) (o : outbox_row) (db : DB) : pg DB :=
  check_outbox o;;
  guard_pg (negb (exists_in (outbox_events db !! id))) (unique_violation "outbox_events_pkey");;
  mret (set_outbox (<[id := o]> (outbox_events db)) db).

Definition update_outbox (id : string) (o : outbox_row) (db : DB) : pg DB :=
  match outbox_events db !! id with
  | None => mret db
  | Some _ => check_outbox o;; mret (set_outbox (<[id := o]> (outbox_events db)) db)
  end.

Definition delete_outbox (id : string) (db : DB) : pg DB :=
  mret (set_outbox (delete id (outbox_events db)) db).

Definition check_delivery (d : delivery_row) : pg unit :=
  guard_pg (text_ok (d_event_type d) && text_ok (d_transaction_id d) &&
            opt_text_ok (d_last_error d)) invalid_text;;
  guard_pg (json_ok (d_payload d)) untranslatable;;
  guard_pg (int4_ok (d_attempts d)) out_of_range;;
  guard_pg (0 <=? d_attempts d) (check_violation "webhook_deliveries_attempts_check").

(** The key [webhook_deliveries_event_endpoint_key] taken by another row. *)
Definition event_endpoint_taken (id : string) (d : delivery_row) (db : DB) : bool :=
  bool_decide (map_Exists (λ k x, k ≠ id ∧ d_event_id x = d_event_id d ∧
                                  d_endpoint x = d_endpoint d) (webhook_deliveries db)).

Definition insert_delivery (id : string) (d : delivery_row) (db : DB) : pg DB :=
  check_delivery d;;
  guard_pg (negb (exists_in (webhook_deliveries db !! id)))
           (unique_violation "webhook_deliveries_pkey");;
  guard_pg (negb (event_endpoint_taken id d db))
           (unique_violation "webhook_deliveries_event_endpoint_key");;
  mret (set_deliveries (<[id := d]> (webhook_deliveries db)) db).

Definition update_delivery (id : string) (d : delivery_row) (db : DB) : pg DB :=
  match webhook_deliveries db !! id with
  | None => mret db
  | Some _ =>
      check_delivery d;;
      guard_pg (negb (event_endpoint_taken id d db))
               (unique_violation "webhook_deliveries_event_endpoint_key");;
      mret (set_deliveries (<[id := d]> (webhook_deliveries db)) db)
  end.

Definition delete_delivery (id : string) (db : DB) : pg DB :=
  mret (set_deliveries (delete id (webhook_deliveries db)) db).

Definition exec_dml (s : dml) (db : DB) : pg DB :=
  match s with
  | InsertAccount id a => insert_account id a db
  | UpdateAccount id names_overdraft a => update_account id names_overdraft a db
  | DeleteAccount id => delete_account id db
  | InsertBalance id b => insert_balance id b db
  | UpdateBalance id b => update_balance id b db
  | DeleteBalance id => delete_balance id db
  | InsertTransaction id t => insert_transaction id t db
  | UpdateTransaction id t => reject_mutation (exists_in (ledger_transactions db !! id)) db
  | DeleteTransaction id => reject_mutation (exists_in (ledger_transactions db !! id)) db
  | InsertEntry e => insert_entry e db
  | UpdateEntry id e => reject_mutation (has_entry id db) db
  | DeleteEntry id => reject_mutation (has_entry id db) db
  | InsertReversal id r => insert_reversal id r db
  | UpdateReversal id r => update_reversal id r db
  | DeleteReversal id => delete_reversal id db
  | InsertIdem k i => insert_idem k i db
  | UpdateIdem k i => update_idem k i db
  | DeleteIdem k => delete_idem k db
  | InsertOutbox id o => insert_outbox id o db
  | UpdateOutbox id o => update_outbox id o db
  | DeleteOutbox id => delete_outbox id db
  | InsertDelivery id d => insert_delivery id d db
  | UpdateDelivery id d => update_delivery id d db
  | DeleteDelivery id => delete_delivery id db
  end.

(** TRUNCATE fires no row trigger. It is refused when a table that is not listed
    refers to one that is. *)
Inductive table :=
  | Accounts | Balances | LedgerTransactions | LedgerEntries | Reversals
  | IdempotencyRecords | OutboxEvents | WebhookDeliveries.

#[export] Instance table_eq_dec : EqDecision table.
Proof. solve_decision. Defined.

Definition references (t : table) : list table :=
  match t with
  | Balances => [Accounts]
  | LedgerEntries => [LedgerTransactions; Accounts]
  | Reversals | IdempotencyRecords => [LedgerTransactions]
  | _ => []
  end.

Definition all_tables : list table :=
  [Accounts; Balances; LedgerTransactions; LedgerEntries; Reversals; IdempotencyRecords;
   OutboxEvents; WebhookDeliveries].

(** No table outside [ts] refers to one in [ts]. *)
Definition closed_tables (ts : list table) : bool :=
  forallb (λ t, bool_decide (t ∈ ts) || forallb (λ u, bool_decide (u ∉ ts)) (references t))
    all_tables.

Definition emptied {A} `{Empty A} (ts : list table) (t : table) (v : A) : A :=
  if decide (t ∈ ts) then ∅ else v.

Definition feature_not_supported : PgError :=
  mkPgError "0A000" "" "cannot truncate a table referenced in a foreign key constraint".
Definition object_in_use : PgError :=
  mkPgError "55006" "" "cannot TRUNCATE because it has pending trigger events".

Definition truncate_tables (ts : list table) (db : DB) : pg DB :=
  guard_pg (closed_tables ts) feature_not_supported;;
  mret (mkDB (emptied ts Accounts (accounts db)) (emptied ts Balances (balances db))
    (emptied ts LedgerTransactions (ledger_transactions db))
    (if decide (LedgerEntries ∈ ts) then [] else ledger_entries db)
    (emptied ts Reversals (reversals db))
    (emptied ts IdempotencyRecords (idempotency_records db))
    (emptied ts OutboxEvents (outbox_events db))
    (emptied ts WebhookDeliveries (webhook_deliveries db))).

(** * Commit *)

Definition entries_of (id : string) (es : list entry_row) : list entry_row :=
  filter (λ e, e_transaction_id e = id) es.

(** [assert_transaction_balanced], for the transaction of one inserted row. *)
Definition assert_transaction_balanced (db : DB) (id : string) : pg unit :=
  let es := entries_of id (ledger_entries db) in
  let entry_sum := sum_with e_amount es in
  guard_pg (in_int64 entry_sum) out_of_range;;
  guard_pg (2 <=? Z.of_nat (length es)) (balance_violation "need at least 2 entries");;
  guard_pg (entry_sum =? 0) (balance_violation "does not balance").

Fixpoint run_deferred (db : DB) (inserted : list entry_row) : pg unit :=
  match inserted with
  | [] => mret tt
  | e :: rest => assert_transaction_balanced db (e_transaction_id e);; run_deferred db rest
  end.

(** [ledger_entries_balanced] fires at COMMIT for each row the transaction
    inserted, that is for the entries past those present at BEGIN. *)
Definition commit_check (old new : DB) : pg unit :=
  run_deferred new (drop (length (ledger_entries old)) (ledger_entries new)).

(** Row-level statements, one after the other. *)
Fixpoint exec_all (ss : list dml) (db : DB) : pg DB :=
  match ss with
  | [] => mret db
  | s :: ss => db' ← exec_dml s db; exec_all ss db'
  end.

Inductive statement := Row (s : dml) | Truncate (ts : list table).

(** The statements of a transaction of any writer. Of the entries, the first [kept]
    were there before it began; while there are others their triggers are pending,
    which TRUNCATE of their table refuses. *)
Fixpoint exec_statements (ss : list statement) (kept : nat) (db : DB) : pg (nat * DB) :=
  match ss with
  | [] => mret (kept, db)
  | Row s :: ss => db' ← exec_dml s db; exec_statements ss kept db'
  | Truncate ts :: ss =>
      guard_pg (bool_decide (LedgerEntries ∉ ts) || (length (ledger_entries db) =? kept)%nat)
        object_in_use;;
      db' ← truncate_tables ts db;
      exec_statements ss (if decide (LedgerEntries ∈ ts) then 0%nat else kept) db'
  end.

(** A raw transaction: its statements, then COMMIT, where [ledger_entries_balanced]
    fires for the entries inserted.  It gives the committed database, or the error
    it was rolled back with. *)
Definition raw_transaction (ss : list statement) (db : DB) : pg DB :=
  '(kept, db') ← exec_statements ss (length (ledger_entries db)) db;
  run_deferred db' (drop kept (ledger_entries db'));;
  mret db'.
