(* ===== verification/SchemaFacts.v ===== *)
(** What the schema guarantees whoever writes to it: the table constraints as an
    invariant that every accepted statement keeps, and the properties of
    committed transactions that follow. *)
From S2P Require Import Prelude GoStrings Json Apperr Schema.
Local Open Scope Z_scope.

(** * Inverting a statement *)

Lemma guard_bind {A} b e (k : pg A) x :
  (guard_pg b e;; k) = PgOk x → b = true ∧ k = PgOk x.
Proof. destruct b; simpl; [done|discriminate]. Qed.

Lemma pg_bind_Ok {A B} (m : pg A) (f : A → pg B) b :
  (m ≫= f) = PgOk b → ∃ a, m = PgOk a ∧ f a = PgOk b.
Proof. destruct m; simpl; [eauto|discriminate]. Qed.

Lemma guard_Ok b e : guard_pg b e = PgOk tt ↔ b = true.
Proof. by destruct b. Qed.

Lemma pg_ret_Ok {A} (a b : A) : (mret a : pg A) = PgOk b → a = b.
Proof. by intros [= ->]. Qed.

Lemma exists_in_true {A} (o : option A) : exists_in o = true ↔ is_Some o.
Proof. destruct o; simpl; split; [eauto|done|done|by intros [? [=]]]. Qed.

Lemma not_exists_in {A} (o : option A) : negb (exists_in o) = true → o = None.
Proof. by destruct o. Qed.

Lemma bool_eq_iff (P Q : Prop) `{Decision P} `{Decision Q} :
  Bool.eqb (bool_decide P) (bool_decide Q) = true ↔ (P ↔ Q).
Proof. repeat case_bool_decide; simpl; naive_solver. Qed.

(** Break a successful statement into the guards that passed and its effect. *)
Ltac pg_inv :=
  repeat match goal with
  | H : (guard_pg _ _;; _) = PgOk _ |- _ => apply guard_bind in H as [? H]
  | H : guard_pg _ _ = PgOk _ |- _ => apply guard_Ok in H
  | H : (_ ≫= _) = PgOk _ |- _ =>
      let a := fresh "r" in let E := fresh "E" in apply pg_bind_Ok in H as (a & E & H)
  | H : mret _ = PgOk _ |- _ => apply pg_ret_Ok in H; subst
  | H : PgErr _ = PgOk _ |- _ => discriminate H
  | H : PgOk _ = PgOk _ |- _ => injection H as ?; subst
  | H : negb (exists_in _) = true |- _ => apply not_exists_in in H
  | H : exists_in _ = true |- _ => apply exists_in_true in H
  end.

Lemma map_Forall_smaller {K A} `{Countable K} (P : K → A → Prop) (m1 m2 : gmap K A) :
  m1 ⊆ m2 → map_Forall P m2 → map_Forall P m1.
Proof. intros Hsub HP k x Hx. apply HP. by eapply lookup_weaken. Qed.

(** * The constraints *)

Definition entry_ok (db : DB) (e : entry_row) : Prop :=
  e_amount e ≠ 0 ∧ in_int64 (e_amount e) = true ∧ 0 ≤ e_seq e ∧
  fk_tx_currency db e = true ∧ fk_account_currency db e = true.

Definition tx_ok (t : tx_row) : Prop :=
  tx_kind_check (t_kind t) = true ∧ currency_check (t_currency t) = true ∧
  reversal_points_check t = true.

Definition balance_ok (b : balance_row) : Prop :=
  in_int64 (b_amount b) = true ∧ in_int64 (b_version b) = true ∧
  balances_non_negative b = true.

Definition tx_seq (e : entry_row) : string * Z := (e_transaction_id e, e_seq e).

Record wf (db : DB) : Prop := {
  wf_accounts : map_Forall (λ _ a, currency_check (a_currency a) = true ∧
                                   account_kind_check (a_kind a) = true) (accounts db);
  wf_balances : map_Forall (λ id b, balance_ok b ∧ is_Some (accounts db !! id)) (balances db);
  wf_txs : map_Forall (λ _ t, tx_ok t) (ledger_transactions db);
  wf_reverses : map_Forall (λ _ t, fk_tx (ledger_transactions db) (t_reverses t) = true)
                  (ledger_transactions db);
  wf_one_reversal : ∀ i j t u o,
    ledger_transactions db !! i = Some t → ledger_transactions db !! j = Some u →
    t_reverses t = Some o → t_reverses u = Some o → i = j;
  wf_entries : Forall (entry_ok db) (ledger_entries db);
  wf_entry_ids : NoDup (e_id <$> ledger_entries db);
  wf_entry_seqs : NoDup (tx_seq <$> ledger_entries db);
  wf_idem : map_Forall (λ _ i, check_idem i db = PgOk tt) (idempotency_records db);
  wf_outbox : map_Forall (λ _ o, check_outbox o = PgOk tt) (outbox_events db);
  wf_deliveries : map_Forall (λ id d, check_delivery d = PgOk tt ∧
                                      event_endpoint_taken id d db = false)
                    (webhook_deliveries db);
}.

(** A transaction that is not a reversal reverses nothing. *)
Lemma wf_not_reversal db id t :
  wf db → ledger_transactions db !! id = Some t → t_kind t ≠ "reversal" → t_reverses t = None.
Proof.
  intros Hwf Ht Hk. destruct (wf_txs _ Hwf id t Ht) as (_ & _ & Hp). revert Hp.
  unfold reversal_points_check. destruct (String.eqb_spec (t_kind t) "reversal"); [done|].
  destruct (t_reverses t); [|done]. by rewrite bool_decide_true by eauto.
Qed.

Lemma wf_empty : wf empty_db.
Proof. split; try apply map_Forall_empty; try apply NoDup_nil_2; [done|apply Forall_nil_2]. Qed.

(** * Statements keep the constraints *)

Lemma check_balance_ok b : check_balance b = PgOk tt ↔ balance_ok b.
Proof.
  unfold check_balance, balance_ok. destruct (in_int64 (b_amount b)), (in_int64 (b_version b)),
    (balances_non_negative b); simpl; naive_solver.
Qed.

Lemma check_idem_ok i db :
  check_idem i db = PgOk tt ↔
    completed_has_response i = true ∧ fk_tx (ledger_transactions db) (i_transaction_id i) = true.
Proof.
  unfold check_idem. destruct (completed_has_response i), (fk_tx _ _); simpl; naive_solver.
Qed.

Lemma fk_tx_mono txs id t o :
  txs !! id = None → fk_tx txs o = true → fk_tx (<[id := t]> txs) o = true.
Proof.
  intros Hid. destruct o as [o|]; [|done]. simpl. rewrite !exists_in_true.
  intros [x Hx]. rewrite lookup_insert_ne; [eauto|]. intros ->. congruence.
Qed.

Lemma one_reversal_fresh txs t o i u :
  one_reversal_check txs t = true → t_reverses t = Some o → txs !! i = Some u →
  t_reverses u ≠ Some o.
Proof.
  unfold one_reversal_check, reversals_of. intros Hc Ht Hi Hu. rewrite Ht in Hc.
  apply bool_decide_eq_true in Hc. apply fmap_nil_inv in Hc.
  assert ((i, u) ∈ map_to_list (filter (λ p, t_reverses p.2 = Some o) txs)) as Hin.
  { rewrite elem_of_map_to_list, map_lookup_filter_Some. done. }
  rewrite Hc in Hin. by apply not_elem_of_nil in Hin.
Qed.

Lemma has_entry_false id db :
  has_entry id db = false → id ∉ e_id <$> ledger_entries db.
Proof.
  unfold has_entry. intros Hf (e & -> & He)%list_elem_of_fmap.
  apply not_true_iff_false in Hf. apply Hf. rewrite existsb_exists. exists e.
  split; [by apply list_elem_of_In|apply String.eqb_refl].
Qed.

(** What an accepted insertion of an entry has passed. *)
Lemma insert_entry_Ok e db db' :
  insert_entry e db = PgOk db' →
  in_int64 (e_amount e) = true ∧ e_amount e ≠ 0 ∧ 0 ≤ e_seq e ∧
  e_id e ∉ e_id <$> ledger_entries db ∧ tx_seq e ∉ tx_seq <$> ledger_entries db ∧
  fk_tx_currency db e = true ∧ fk_account_currency db e = true ∧
  is_Some (ledger_transactions db !! e_transaction_id e) ∧
  is_Some (accounts db !! e_account_id e) ∧
  db' = set_entries (ledger_entries db ++ [e]) db.
Proof.
  unfold insert_entry. intros. pg_inv. rewrite andb_true_iff, negb_true_iff, Z.eqb_neq,
    Z.leb_le in *. split_and!; try (by auto); [naive_solver|by apply has_entry_false|].
  intros (x & Heq & Hx)%list_elem_of_fmap. injection Heq as E1 E2.
  match goal with H : forallb _ _ = true |- _ => rewrite forallb_forall in H;
    specialize (H x (proj1 (list_elem_of_In _ _) Hx)) end.
  by rewrite E1, E2, String.eqb_refl, Z.eqb_refl in H4.
Qed.

Lemma no_entries_at id es :
  forallb (λ e, negb (String.eqb (e_account_id e) id)) es = true ↔
  Forall (λ e, e_account_id e ≠ id) es.
Proof.
  rewrite forallb_forall, Forall_forall. setoid_rewrite list_elem_of_In.
  setoid_rewrite negb_true_iff. by setoid_rewrite String.eqb_neq.
Qed.

Section preservation.
Context (db : DB) (Hwf : wf db).

(** The constraints on entries only look at two columns of other tables. *)
Lemma wf_set_accounts id a :
  currency_check (a_currency a) = true → account_kind_check (a_kind a) = true →
  (∀ old, accounts db !! id = Some old → a_currency old = a_currency a ∨
          Forall (λ e, e_account_id e ≠ id) (ledger_entries db)) →
  wf (set_accounts (<[id := a]> (accounts db)) db).
Proof.
  intros Hc Hk Hold. destruct Hwf. split; try done; simpl.
  - by apply map_Forall_insert_2.
  - intros i b Hb. destruct (wf_balances0 i b Hb) as [? [x Hx]]. split; [done|].
    destruct (decide (i = id)) as [->|];
      [rewrite lookup_insert|rewrite lookup_insert_ne by done]; eauto.
    rewrite decide_True by done. eauto.
  - apply Forall_forall. intros e He. rewrite Forall_forall in wf_entries0.
    destruct (wf_entries0 e He) as (? & ? & ? & ? & Hfk). split_and!; try done.
    unfold fk_account_currency in *. simpl.
    destruct (decide (e_account_id e = id)) as [<-|];
      [rewrite lookup_insert_eq|by rewrite lookup_insert_ne].
    destruct (accounts db !! e_account_id e) as [old|] eqn:Eo; [|done].
    destruct (Hold old eq_refl) as [<-|Hall]; [done|].
    rewrite Forall_forall in Hall. by destruct (Hall e He).
Qed.

Lemma wf_set_balances id b :
  balance_ok b → is_Some (accounts db !! id) →
  wf (set_balances (<[id := b]> (balances db)) db).
Proof.
  intros Hb Ha. destruct Hwf. split; try done; simpl. by apply map_Forall_insert_2.
Qed.

Lemma wf_insert_transaction id t db' : insert_transaction id t db = PgOk db' → wf db'.
Proof.
  unfold insert_transaction. intros. pg_inv.
  assert (ledger_transactions db !! id = None) as Hn by done.
  assert (one_reversal_check (ledger_transactions db) t = true) as Hone by done.
  destruct Hwf. split; try done; simpl.
  - by apply map_Forall_insert_2.
  - apply map_Forall_insert_2; [done|]. intros i u Hu. apply fk_tx_mono; [done|].
    by apply (wf_reverses0 i).
  - intros i j u v o Hi Hj Hu Hv.
    apply lookup_insert_Some in Hi as [[<- <-]|[? Hi]];
      apply lookup_insert_Some in Hj as [[<- <-]|[? Hj]]; eauto.
    + by destruct (one_reversal_fresh _ _ _ _ _ Hone Hu Hj).
    + by destruct (one_reversal_fresh _ _ _ _ _ Hone Hv Hi).
  - eapply Forall_impl; [exact wf_entries0|]. intros e (? & ? & ? & Hfk & ?).
    split_and!; try done. unfold fk_tx_currency in *. simpl.
    rewrite lookup_insert_ne; [done|]. intros ->. by rewrite Hn in Hfk.
  - eapply map_Forall_impl; [exact wf_idem0|]. intros k i. rewrite !check_idem_ok. intros [? Hi].
    split; [done|]. simpl. by apply fk_tx_mono.
Qed.

Lemma wf_insert_entry e db' : insert_entry e db = PgOk db' → wf db'.
Proof.
  intros (? & ? & ? & ? & ? & ? & ? & ? & ? & ->)%insert_entry_Ok.
  destruct Hwf. split; try done; simpl.
  - apply Forall_app_2; [done|]. by apply Forall_singleton.
  - rewrite fmap_app. apply NoDup_app. split_and!; [done| |apply NoDup_singleton].
    intros i Hi ->%list_elem_of_singleton. done.
  - rewrite fmap_app. apply NoDup_app. split_and!; [done| |apply NoDup_singleton].
    intros p Hp ->%list_elem_of_singleton. done.
Qed.

Lemma wf_insert_account id a db' : insert_account id a db = PgOk db' → wf db'.
Proof.
  unfold insert_account. intros. pg_inv. apply wf_set_accounts; [done..|]. naive_solver.
Qed.

Lemma wf_insert_balance id b db' : insert_balance id b db = PgOk db' → wf db'.
Proof.
  unfold insert_balance. intros. pg_inv. apply wf_set_balances; [|done].
  apply check_balance_ok. by destruct r.
Qed.

Lemma wf_update_balance id b db' : update_balance id b db = PgOk db' → wf db'.
Proof.
  unfold update_balance. destruct (balances db !! id) eqn:Eb; intros; pg_inv; [|done].
  apply wf_set_balances.
  - apply check_balance_ok. by destruct r.
  - by apply (wf_balances _ Hwf id _ Eb).
Qed.

Lemma wf_delete_account id db' : delete_account id db = PgOk db' → wf db'.
Proof.
  unfold delete_account. intros. pg_inv.
  assert (Forall (λ e, e_account_id e ≠ id) (ledger_entries db)) as Hall
    by by apply no_entries_at.
  destruct Hwf. split; try done; simpl.
  - by apply map_Forall_delete.
  - intros i b [? Hb]%lookup_delete_Some. destruct (wf_balances0 i b Hb).
    rewrite lookup_delete_ne by done. done.
  - rewrite !Forall_forall in *. intros e He. destruct (wf_entries0 e He) as (? & ? & ? & ? & Hfk).
    split_and!; try done. unfold fk_account_currency in *. simpl.
    rewrite lookup_delete_ne; [done|]. intros Heq. by destruct (Hall e He).
Qed.

Lemma wf_set_idem k i :
  check_idem i db = PgOk tt → wf (set_idem (<[k := i]> (idempotency_records db)) db).
Proof. intros Hi. destruct Hwf. split; try done; simpl. by apply map_Forall_insert_2. Qed.

Lemma wf_delete_idem k db' : delete_idem k db = PgOk db' → wf db'.
Proof.
  unfold delete_idem. intros. pg_inv. destruct Hwf. split; try done; simpl.
  by apply map_Forall_delete.
Qed.

(** The other constraints do not look at reversals, nor at rows that are gone. *)
Lemma wf_set_reversals v : wf (set_reversals v db).
Proof. by destruct Hwf. Qed.

Lemma wf_fewer_balances v : v ⊆ balances db → wf (set_balances v db).
Proof.
  intros Hsub. destruct Hwf. split; try done; simpl. by eapply map_Forall_smaller.
Qed.

Lemma wf_fewer_outbox v : v ⊆ outbox_events db → wf (set_outbox v db).
Proof. intros Hsub. destruct Hwf. split; try done; simpl. by eapply map_Forall_smaller. Qed.

Lemma wf_fewer_deliveries v : v ⊆ webhook_deliveries db → wf (set_deliveries v db).
Proof.
  intros Hsub. destruct Hwf. split; try done; simpl. intros i x Hx.
  destruct (wf_deliveries0 i x) as [Hc Ht]; [by eapply lookup_weaken|]. split; [done|].
  unfold event_endpoint_taken in *. rewrite bool_decide_eq_false in *. simpl.
  intros (j & y & Hy & Hj). apply Ht. exists j, y. split; [by eapply lookup_weaken|done].
Qed.

Lemma wf_fewer_idem v : v ⊆ idempotency_records db → wf (set_idem v db).
Proof. intros Hsub. destruct Hwf. split; try done; simpl. by eapply map_Forall_smaller. Qed.

Lemma wf_no_entries : wf (set_entries [] db).
Proof. destruct Hwf. split; try done; simpl; constructor. Qed.

Lemma wf_set_outbox id o :
  check_outbox o = PgOk tt → wf (set_outbox (<[id := o]> (outbox_events db)) db).
Proof. intros Ho. destruct Hwf. split; try done; simpl. by apply map_Forall_insert_2. Qed.

Lemma event_endpoint_free id d j x :
  event_endpoint_taken id d db = false → webhook_deliveries db !! j = Some x → j ≠ id →
  ¬ (d_event_id x = d_event_id d ∧ d_endpoint x = d_endpoint d).
Proof.
  unfold event_endpoint_taken. rewrite bool_decide_eq_false. intros Hn Hx Hj [??].
  apply Hn. exists j, x. done.
Qed.

Lemma wf_set_deliveries id d :
  check_delivery d = PgOk tt → event_endpoint_taken id d db = false →
  wf (set_deliveries (<[id := d]> (webhook_deliveries db)) db).
Proof.
  intros Hd Hfree. destruct Hwf. split; try done; simpl.
  intros i x Hx. unfold event_endpoint_taken. rewrite bool_decide_eq_false. simpl.
  apply lookup_insert_Some in Hx as [[<- <-]|[Hi Hx]].
  - split; [done|]. intros (j & y & Hy & Hj & ? & ?).
    rewrite lookup_insert_ne in Hy by done.
    by destruct (event_endpoint_free _ _ _ _ Hfree Hy Hj).
  - destruct (wf_deliveries0 i x Hx) as [Hc Ht]. split; [done|].
    intros (j & y & Hy & Hj & E1 & E2).
    apply lookup_insert_Some in Hy as [[<- <-]|[_ Hy]].
    + by destruct (event_endpoint_free _ _ _ _ Hfree Hx (not_eq_sym Hi)).
    + by destruct (event_endpoint_free _ _ _ _ Ht Hy Hj).
Qed.
End preservation.

Lemma wf_update_account id names a db db' :
  wf db → update_account id names a db = PgOk db' → wf db'.
Proof.
  intros Hwf. unfold update_account. destruct (accounts db !! id) as [old|] eqn:Eo; intros; pg_inv;
    [|done].
  assert (∀ a', a_currency a' = a_currency a → a_kind a' = a_kind a →
    wf (set_accounts (<[id:=a']> (accounts db)) db)) as Hset.
  { intros a' Ec Ek. apply wf_set_accounts; [done|congruence|congruence|]. intros old' Ho. simplify_eq.
    match goal with H : _ || _ = true |- _ => apply orb_true_iff in H as [H|H] end.
    - left. transitivity (a_currency a); [by apply String.eqb_eq|done].
    - right. by apply no_entries_at. }
  destruct names; [|pg_inv; by apply Hset].
  assert (wf (set_accounts (<[id:=a]> (accounts db)) db)) as Hwf' by by apply Hset.
  unfold sync_balance_overdraft in H.
  destruct (balances _ !! id) as [b|] eqn:Eb; pg_inv; [|done].
  apply wf_set_balances; [done| |].
  - apply check_balance_ok. by destruct r0.
  - by apply (wf_balances _ Hwf' id _ Eb).
Qed.

(** Every accepted statement keeps the constraints. *)
Lemma exec_dml_wf s db db' : wf db → exec_dml s db = PgOk db' → wf db'.
Proof.
  intros Hwf. destruct s; simpl; intros Hs;
    try (unfold reject_mutation in Hs; destruct (_ : bool); pg_inv; done).
  - by eapply wf_insert_account.
  - by eapply wf_update_account.
  - by eapply wf_delete_account.
  - by eapply wf_insert_balance.
  - by eapply wf_update_balance.
  - unfold delete_balance in Hs. pg_inv. by apply wf_fewer_balances, delete_subseteq.
  - by eapply wf_insert_transaction.
  - by eapply wf_insert_entry.
  - unfold insert_reversal in Hs. pg_inv. by apply wf_set_reversals.
  - unfold update_reversal in Hs. destruct (_ !! _); pg_inv; [|done]. by apply wf_set_reversals.
  - unfold delete_reversal in Hs. pg_inv. by apply wf_set_reversals.
  - unfold insert_idem in Hs. pg_inv. apply wf_set_idem; [done|]. by destruct r.
  - unfold update_idem in Hs. destruct (_ !! _); pg_inv; [|done].
    apply wf_set_idem; [done|]. by destruct r.
  - by eapply wf_delete_idem.
  - unfold insert_outbox in Hs. pg_inv. apply wf_set_outbox; [done|]. by destruct r.
  - unfold update_outbox in Hs. destruct (_ !! _); pg_inv; [|done].
    apply wf_set_outbox; [done|]. by destruct r.
  - unfold delete_outbox in Hs. pg_inv. by apply wf_fewer_outbox, delete_subseteq.
  - unfold insert_delivery in Hs. pg_inv. apply wf_set_deliveries; [done| |].
    + by destruct r.
    + by apply negb_true_iff.
  - unfold update_delivery in Hs. destruct (_ !! _); pg_inv; [|done].
    apply wf_set_deliveries; [done| |].
    + by destruct r.
    + by apply negb_true_iff.
  - unfold delete_delivery in Hs. pg_inv. by apply wf_fewer_deliveries, delete_subseteq.
Qed.

(** * History is append-only *)

(** Entries are only added at the end, headers only added. *)
Definition extends (d d' : DB) : Prop :=
  (∃ l, ledger_entries d' = ledger_entries d ++ l) ∧
  ledger_transactions d ⊆ ledger_transactions d'.

#[export] Instance extends_preorder : PreOrder extends.
Proof.
  split.
  - intros d. split; [exists []; by rewrite app_nil_r|done].
  - intros d1 d2 d3 [[l1 E1] S1] [[l2 E2] S2]. split; [|by etrans].
    exists (l1 ++ l2). by rewrite E2, E1, <-app_assoc.
Qed.

Lemma extends_same d d' :
  ledger_entries d' = ledger_entries d → ledger_transactions d' = ledger_transactions d →
  extends d d'.
Proof. intros E1 E2. split; [exists []; by rewrite app_nil_r|by rewrite E2]. Qed.

Lemma exec_dml_extends s db db' : exec_dml s db = PgOk db' → extends db db'.
Proof.
  destruct s; simpl; intros Hs;
    try (unfold reject_mutation in Hs; destruct (_ : bool); pg_inv; done).
  - unfold insert_account in Hs. pg_inv. by apply extends_same.
  - unfold update_account, sync_balance_overdraft in Hs.
    repeat case_match; pg_inv; by apply extends_same.
  - unfold delete_account in Hs. pg_inv. by apply extends_same.
  - unfold insert_balance in Hs. pg_inv. by apply extends_same.
  - unfold update_balance in Hs. case_match; pg_inv; by apply extends_same.
  - unfold delete_balance in Hs. pg_inv. by apply extends_same.
  - unfold insert_transaction in Hs. pg_inv. split; simpl.
    + exists []. by rewrite app_nil_r.
    + by apply insert_subseteq.
  - apply insert_entry_Ok in Hs as (_ & _ & _ & _ & _ & _ & _ & _ & _ & ->).
    split; simpl; [by eexists|done].
  - unfold insert_reversal in Hs. pg_inv. by apply extends_same.
  - unfold update_reversal in Hs. case_match; pg_inv; by apply extends_same.
  - unfold delete_reversal in Hs. pg_inv. by apply extends_same.
  - unfold insert_idem in Hs. pg_inv. by apply extends_same.
  - unfold update_idem in Hs. case_match; pg_inv; by apply extends_same.
  - unfold delete_idem in Hs. pg_inv. by apply extends_same.
  - unfold insert_outbox in Hs. pg_inv. by apply extends_same.
  - unfold update_outbox in Hs. case_match; pg_inv; by apply extends_same.
  - unfold delete_outbox in Hs. pg_inv. by apply extends_same.
  - unfold insert_delivery in Hs. pg_inv. by apply extends_same.
  - unfold update_delivery in Hs. case_match; pg_inv; by apply extends_same.
  - unfold delete_delivery in Hs. pg_inv. by apply extends_same.
Qed.

Lemma exec_all_safe ss db db' :
  wf db → exec_all ss db = PgOk db' → wf db' ∧ extends db db'.
Proof.
  revert db. induction ss as [|s ss IH]; intros db Hwf Hs; simpl in Hs; pg_inv.
  { split; [done|reflexivity]. }
  destruct (IH r) as [? ?]; [by eapply exec_dml_wf|done|].
  split; [done|]. etrans; [by eapply exec_dml_extends|done].
Qed.

(** * Transactions with entries balance *)

(** What [assert_transaction_balanced] demands. *)
Definition balanced_tx (db : DB) (id : string) : Prop :=
  2 ≤ Z.of_nat (length (entries_of id (ledger_entries db))) ∧
  sum_with e_amount (entries_of id (ledger_entries db)) = 0.

Definition balanced (db : DB) : Prop :=
  ∀ id, entries_of id (ledger_entries db) ≠ [] → balanced_tx db id.

Lemma assert_balanced_Ok db id :
  assert_transaction_balanced db id = PgOk tt → balanced_tx db id.
Proof.
  unfold assert_transaction_balanced, balanced_tx. intros. pg_inv.
  rewrite Z.leb_le, Z.eqb_eq in *. done.
Qed.

Lemma run_deferred_Ok db l :
  run_deferred db l = PgOk tt → Forall (λ e, balanced_tx db (e_transaction_id e)) l.
Proof.
  induction l as [|e l IH]; simpl; [constructor|]. intros. pg_inv. destruct r.
  constructor; [by apply assert_balanced_Ok|by apply IH].
Qed.

Lemma entries_of_app id l1 l2 : entries_of id (l1 ++ l2) = entries_of id l1 ++ entries_of id l2.
Proof. apply filter_app. Qed.

(** The transactions a commit adds entries to balance. *)
Lemma commit_check_Ok old new l :
  commit_check old new = PgOk tt → ledger_entries new = ledger_entries old ++ l →
  Forall (λ e, balanced_tx new (e_transaction_id e)) l.
Proof.
  unfold commit_check. intros Hc El. rewrite El, drop_app_length in Hc.
  by apply run_deferred_Ok.
Qed.

Lemma balanced_commit old new :
  balanced old → extends old new → commit_check old new = PgOk tt → balanced new.
Proof.
  intros Hb [[l El] _] Hc id Hid. apply (commit_check_Ok _ _ _ Hc) in El as Hl.
  destruct (entries_of id l) as [|e es] eqn:E.
  - unfold balanced_tx in *. rewrite El, entries_of_app, E, app_nil_r in *. by apply Hb.
  - assert (e ∈ entries_of id l) as He by (rewrite E; left).
    apply list_elem_of_filter in He as [<- He]. rewrite Forall_forall in Hl. by apply Hl.
Qed.

(** * Any writer *)

(** The databases writers of any kind can reach, each by committed transactions
    of arbitrary statements. *)
Inductive written : DB → Prop :=
  | written_empty : written empty_db
  | written_commit db ss db' :
      written db → raw_transaction ss db = PgOk db' → written db'.

Lemma emptied_subseteq {K V} `{Countable K} ts t (v : gmap K V) : emptied ts t v ⊆ v.
Proof. unfold emptied. case_decide; [apply map_empty_subseteq|done]. Qed.

(** Foreign keys only point at tables that stay, or go together. *)
Lemma closed_spec ts t u : closed_tables ts = true → u ∈ references t → u ∈ ts → t ∈ ts.
Proof.
  unfold closed_tables. rewrite forallb_forall. intros Hc Hu Hin.
  assert (In t all_tables) as Ht by (destruct t; simpl; tauto).
  apply Hc in Ht. apply orb_true_iff in Ht as [Ht|Ht]; [by apply bool_decide_eq_true in Ht|].
  rewrite forallb_forall in Ht. apply list_elem_of_In in Hu. apply Ht in Hu.
  by apply bool_decide_eq_true in Hu.
Qed.

Lemma wf_truncate ts db db' : wf db → truncate_tables ts db = PgOk db' → wf db'.
Proof.
  intros Hwf. unfold truncate_tables. intros. pg_inv.
  assert (∀ t u, u ∈ references t → u ∈ ts → t ∈ ts) as Hc by (intros; by eapply closed_spec).
  assert (∀ o, IdempotencyRecords ∉ ts → fk_tx (ledger_transactions db) o = true →
    fk_tx (emptied ts LedgerTransactions (ledger_transactions db)) o = true) as Hfk.
  { intros o Hn Ho. unfold emptied. case_decide as Hd; [|done]. destruct Hn.
    eapply Hc; [|exact Hd]. simpl. set_solver. }
  destruct Hwf. split; simpl.
  - eapply map_Forall_smaller; [apply emptied_subseteq|done].
  - intros id b Hb. unfold emptied in *. case_decide as Hd; [done|].
    rewrite decide_False; [by apply wf_balances0|]. intros Ha. apply Hd.
    eapply Hc; [|exact Ha]. simpl. set_solver.
  - eapply map_Forall_smaller; [apply emptied_subseteq|done].
  - unfold emptied. case_decide; [apply map_Forall_empty|done].
  - intros i j t u o Hi Hj. eapply lookup_weaken in Hi, Hj; [|apply emptied_subseteq..]. eauto.
  - apply Forall_forall. intros e He. case_decide as Hn; [by apply not_elem_of_nil in He|].
    rewrite Forall_forall in wf_entries0. destruct (wf_entries0 e He) as (? & ? & ? & ? & ?).
    split_and!; try done; unfold fk_tx_currency, fk_account_currency, emptied in *; simpl;
      (rewrite decide_False; [done|]); intros Hd; apply Hn; eapply Hc; [|exact Hd| |exact Hd];
      simpl; set_solver.
  - case_decide; [constructor|done].
  - case_decide; [constructor|done].
  - intros k i Hi. apply check_idem_ok. unfold emptied in Hi. case_decide as Hd; [done|].
    apply wf_idem0, check_idem_ok in Hi as [??]. split; [done|]. simpl. by apply Hfk.
  - eapply map_Forall_smaller; [apply emptied_subseteq|done].
  - intros id d Hd. unfold event_endpoint_taken. simpl. unfold emptied in *.
    case_decide; [done|]. by apply wf_deliveries0.
Qed.

(** The entries that were there before, while no statement empties the table. *)
Lemma exec_statements_safe ss kept db kept' db' :
  wf db → (kept ≤ length (ledger_entries db))%nat →
  exec_statements ss kept db = PgOk (kept', db') →
  wf db' ∧ (kept' ≤ length (ledger_entries db'))%nat ∧
  (take kept' (ledger_entries db') = take kept (ledger_entries db) ∧ kept' = kept ∨
   kept' = 0%nat).
Proof.
  revert kept db. induction ss as [|[s|ts] ss IH]; intros kept db Hwf Hk Hs; simpl in Hs; pg_inv.
  - injection Hs as <- <-. auto.
  - pose proof (exec_dml_extends _ _ _ E) as [[l El] _].
    edestruct (IH kept r) as (? & ? & Hrest); [by eapply exec_dml_wf|rewrite El, length_app; lia|done|].
    split_and!; [done..|]. rewrite El, take_app_le in Hrest by done. exact Hrest.
  - assert (wf r) as Hr by by eapply wf_truncate.
    unfold truncate_tables in E. pg_inv. simpl in *.
    case_decide.
    + edestruct (IH 0%nat _ Hr) as (? & ? & [[_ ->]| ->]); [simpl; lia|done|auto..].
    + edestruct (IH kept _ Hr) as (? & ? & Hrest); [done|done|].
      done.
Qed.

Lemma raw_transaction_safe ss db db' :
  wf db → balanced db → raw_transaction ss db = PgOk db' → wf db' ∧ balanced db'.
Proof.
  unfold raw_transaction. intros Hwf Hb Hs. pg_inv. destruct r as [kept db2]. pg_inv. destruct r.
  destruct (exec_statements_safe _ _ _ _ _ Hwf (le_n _) E) as (Hwf' & _ & Hkept).
  split; [done|]. apply run_deferred_Ok in E0. rewrite firstn_all in Hkept.
  intros id Hid. destruct (entries_of id (drop kept (ledger_entries db'))) as [|e es] eqn:Ed.
  - destruct Hkept as [[Et ->]| ->]; [|by rewrite drop_0 in Ed].
    assert (entries_of id (ledger_entries db') = entries_of id (ledger_entries db)) as Esame.
    { rewrite <-(take_drop (length (ledger_entries db)) (ledger_entries db')), entries_of_app, Ed.
      by rewrite Et, app_nil_r. }
    unfold balanced_tx in *. rewrite Esame in *. by apply Hb.
  - assert (e ∈ entries_of id (drop kept (ledger_entries db'))) as He by (rewrite Ed; left).
    apply list_elem_of_filter in He as [<- He]. rewrite Forall_forall in E0. by apply E0.
Qed.

Lemma written_safe db : written db → wf db ∧ balanced db.
Proof.
  induction 1 as [|db ss db' _ [Hwf Hb] Hs].
  - split; [apply wf_empty|]. intros id Hid. by destruct Hid.
  - by eapply raw_transaction_safe.
Qed.

(** ** Transactions of row-level statements *)

Lemma exec_statements_rows ss kept db :
  exec_statements (map Row ss) kept db = (db' ← exec_all ss db; mret (kept, db')).
Proof.
  revert db. induction ss as [|s ss IH]; intros db; [done|]. simpl.
  destruct (exec_dml s db); [apply IH|done].
Qed.

Lemma raw_transaction_rows ss db db' :
  raw_transaction (map Row ss) db = PgOk db' ↔
  exec_all ss db = PgOk db' ∧ commit_check db db' = PgOk tt.
Proof.
  unfold raw_transaction, commit_check. rewrite exec_statements_rows.
  destruct (exec_all ss db) as [d|e]; simpl; [|naive_solver].
  destruct (run_deferred _ _) as [[]|e] eqn:E; simpl; split.
  - by intros [= <-].
  - by intros [[= ->] _].
  - done.
  - intros [[= <-] Hr]. congruence.
Qed.
