(* ===== verification/SchemaTheorems.v ===== *)
(** What the migration's constraints and triggers guarantee against any writer,
    with concrete instances. *)
From S2P Require Import Prelude GoStrings Json Apperr Schema SchemaFacts.
Local Open Scope Z_scope.

(** C21. Whatever statements writers commit, correct or not, from an empty database:
    every transaction that has entries has at least two, summing to zero, each in
    the currency of the transaction and of its account; no transaction has two
    reversals; no balance without the overdraft flag is negative. *)
Theorem any_writer_keeps_the_ledger_sound db :
  written db →
  (∀ id, entries_of id (ledger_entries db) ≠ [] → balanced_tx db id) ∧
  Forall (λ e, fk_tx_currency db e = true ∧ fk_account_currency db e = true) (ledger_entries db) ∧
  (∀ c c' t t' o, ledger_transactions db !! c = Some t → ledger_transactions db !! c' = Some t' →
     t_reverses t = Some o → t_reverses t' = Some o → c = c') ∧
  (∀ a b, balances db !! a = Some b → b_allow_overdraft b = false → 0 ≤ b_amount b).
Proof.
  intros [Hwf Hb]%written_safe. split_and!.
  - exact Hb.
  - eapply Forall_impl; [apply (wf_entries _ Hwf)|]. by intros e (_ & _ & _ & ? & ?).
  - apply (wf_one_reversal _ Hwf).
  - intros a b Hab Ho. destruct (wf_balances _ Hwf a b Hab) as [(_ & _ & Hn) _].
    unfold balances_non_negative in Hn. rewrite Ho in Hn. by apply Z.leb_le in Hn.
Qed.

(** A header, two entries and no balances: what a careless writer may commit. *)
Definition raw_writes : list dml :=
  [InsertAccount "a" (AccountRow "USD" "user" false ∅ 0);
   InsertAccount "b" (AccountRow "USD" "user" false ∅ 0);
   InsertTransaction "t" (TxRow "transfer" "USD" "" None None 0);
   InsertEntry (EntryRow "e0" "t" "a" (-5) "USD" 0 0);
   InsertEntry (EntryRow "e1" "t" "b" 5 "USD" 1 0)].

Definition raw_db : DB :=
  match raw_transaction (map Row raw_writes) empty_db with PgOk db => db | PgErr _ => empty_db end.

Lemma any_writer_keeps_the_ledger_sound_witness :
  length (ledger_entries raw_db) = 2%nat ∧ balanced_tx raw_db "t".
Proof.
  split; [vm_compute; reflexivity|].
  apply (any_writer_keeps_the_ledger_sound raw_db).
  - eapply (written_commit empty_db (map Row raw_writes)); [apply written_empty|]. vm_compute. reflexivity.
  - vm_compute. discriminate.
Defined.

(** C22. Row by row the ledger is append-only for every writer: a committed
    transaction of INSERT, UPDATE and DELETE statements keeps every header and every
    entry that was there, in place and unchanged, and an UPDATE or DELETE that
    touches one fails.  TRUNCATE, which no trigger stops, is not among these
    statements ([truncate_erases_the_ledger]). *)
Theorem any_writer_only_appends ss db db' :
  written db → raw_transaction (map Row ss) db = PgOk db' →
  (∃ new, ledger_entries db' = ledger_entries db ++ new) ∧
  (∀ id t, ledger_transactions db !! id = Some t → ledger_transactions db' !! id = Some t) ∧
  (∀ e r, e ∈ ledger_entries db → ∃ err,
     exec_dml (UpdateEntry (e_id e) r) db = PgErr err ∧ exec_dml (DeleteEntry (e_id e)) db = PgErr err) ∧
  (∀ id r, is_Some (ledger_transactions db !! id) → ∃ err,
     exec_dml (UpdateTransaction id r) db = PgErr err ∧ exec_dml (DeleteTransaction id) db = PgErr err).
Proof.
  intros [Hwf Hb]%written_safe [Hs _]%raw_transaction_rows.
  apply exec_all_safe in Hs as [_ [Hl Hsub]]; [|done]. split_and!.
  - exact Hl.
  - intros id t Ht. by eapply lookup_weaken.
  - intros e r He. exists restrict_violation. simpl.
    assert (has_entry (e_id e) db = true) as ->; [|done].
    unfold has_entry. apply existsb_exists. exists e.
    split; [by apply list_elem_of_In|apply String.eqb_refl].
  - intros id r [t Ht]. exists restrict_violation. simpl. by rewrite Ht.
Qed.

Lemma any_writer_only_appends_witness :
  ∃ new, ledger_entries raw_db = [] ++ new.
Proof.
  apply (any_writer_only_appends raw_writes empty_db raw_db);
    [apply written_empty|vm_compute; reflexivity].
Defined.

(** The triggers fire for rows: TRUNCATE empties the ledger. *)
Lemma truncate_erases_the_ledger :
  ledger_entries raw_db ≠ [] ∧
  raw_transaction [Truncate [LedgerTransactions; LedgerEntries; Reversals; IdempotencyRecords]] raw_db =
    PgOk (set_entries [] (set_transactions ∅ raw_db)).
Proof. split; vm_compute; [discriminate|reflexivity]. Qed.

(** The trigger is on [ledger_entries]: a header without entries commits. *)
Lemma header_without_entries_commits :
  ∃ db, raw_transaction [Row (InsertTransaction "t" (TxRow "transfer" "USD" "" None None 0))] empty_db
          = PgOk db ∧ ledger_transactions db !! "t" ≠ None ∧ ledger_entries db = [].
Proof. eexists. split; [vm_compute; reflexivity|]. by vm_compute. Qed.

(** [balances.allow_overdraft] is only kept in step when [accounts] is updated: a
    writer that sets it on [balances] makes an account negative. *)
Lemma overdraft_flag_can_be_bypassed :
  ∃ ss db a b, raw_transaction ss empty_db = PgOk db ∧ accounts db !! "a" = Some a ∧
    a_allow_overdraft a = false ∧ balances db !! "a" = Some b ∧ b_amount b < 0.
Proof.
  exists [Row (InsertAccount "a" (AccountRow "USD" "user" false ∅ 0));
          Row (InsertBalance "a" (BalanceRow 0 false 0 0));
          Row (UpdateBalance "a" (BalanceRow (-5) true 1 0))].
  eexists _, _, _. split; [vm_compute; reflexivity|]. by vm_compute.
Qed.
