(* ===== verification/Monad.v ===== *)
(** Go functions that change state, return an error or panic: a state and
    error monad, with the inversion lemmas and the preservation rules the
    components use to reason about it. *)
From S2P Require Import Prelude Apperr.

(** How a call ends. *)
Inductive outcome (A : Type) :=
  | Ok (a : A)
  | Err (e : error)
  | Panic (msg : string).
Arguments Ok {_} a.
Arguments Err {_} e.
Arguments Panic {_} msg.

Definition ST (S A : Type) : Type := S → outcome A * S.

#[export] Instance ST_ret {S} : MRet (ST S) := λ A a s, (Ok a, s).
#[export] Instance ST_bind {S} : MBind (ST S) := λ A B f m s,
  match m s with
  | (Ok a, s') => f a s'
  | (Err e, s') => (Err e, s')
  | (Panic p, s') => (Panic p, s')
  end.

Section ops.
Context {S : Type}.

(** [return nil, err]. *)
Definition throw {A} (e : error) : ST S A := λ s, (Err e, s).
Definition panic {A} (msg : string) : ST S A := λ s, (Panic msg, s).
Definition gets {A} (f : S → A) : ST S A := λ s, (Ok (f s), s).
Definition modify (f : S → S) : ST S unit := λ s, (Ok tt, f s).

(** [v, err := m]: the error as a value; a panic still unwinds. *)
Definition try {A} (m : ST S A) : ST S (error + A) := λ s,
  match m s with
  | (Ok a, s') => (Ok (inr a), s')
  | (Err e, s') => (Ok (inl e), s')
  | (Panic p, s') => (Panic p, s')
  end.

(** [if err != nil { return f(err) }]. *)
Definition map_err {A} (f : error → error) (m : ST S A) : ST S A := λ s,
  match m s with
  | (Err e, s') => (Err (f e), s')
  | r => r
  end.

(** A value that is present or a returned error. *)
Definition or_throw {A} (e : error) (o : option A) : ST S A :=
  match o with Some a => mret a | None => throw e end.

Fixpoint for_each {A} (f : A → ST S unit) (l : list A) : ST S unit :=
  match l with
  | [] => mret tt
  | x :: l => f x;; for_each f l
  end.
End ops.

(** * Inversion of successful runs *)

Section inversion.
Context {S : Type}.
Implicit Types s : S.

Lemma bind_Ok {A B} (m : ST S A) (f : A → ST S B) s b s' :
  (m ≫= f) s = (Ok b, s') → ∃ a s1, m s = (Ok a, s1) ∧ f a s1 = (Ok b, s').
Proof.
  unfold mbind, ST_bind. destruct (m s) as [[a|e|p] s1] eqn:E; naive_solver.
Qed.

Lemma bind_run {A B} (m : ST S A) (f : A → ST S B) s a s1 :
  m s = (Ok a, s1) → (m ≫= f) s = f a s1.
Proof. unfold mbind, ST_bind. by intros ->. Qed.

Lemma bind_run_Err {A B} (m : ST S A) (f : A → ST S B) s e s1 :
  m s = (Err e, s1) → (m ≫= f) s = (Err e, s1).
Proof. unfold mbind, ST_bind. by intros ->. Qed.

Lemma ret_Ok {A} (a b : A) s s' : (mret a : ST S A) s = (Ok b, s') → a = b ∧ s = s'.
Proof. unfold mret, ST_ret. naive_solver. Qed.

Lemma gets_Ok {A} (f : S → A) s b s' : gets f s = (Ok b, s') → b = f s ∧ s = s'.
Proof. unfold gets. naive_solver. Qed.

Lemma throw_Ok {A} e s (b : A) s' : (throw e : ST S A) s = (Ok b, s') → False.
Proof. done. Qed.

Lemma map_err_Ok {A} f (m : ST S A) s a s' :
  map_err f m s = (Ok a, s') → m s = (Ok a, s').
Proof. unfold map_err. destruct (m s) as [[]]; naive_solver. Qed.

Lemma map_err_state {A} f (m : ST S A) s : (map_err f m s).2 = (m s).2.
Proof. unfold map_err. by destruct (m s) as [[]]. Qed.

Lemma try_state {A} (m : ST S A) s : (try m s).2 = (m s).2.
Proof. unfold try. by destruct (m s) as [[]]. Qed.

Lemma try_Ok_inr {A} (m : ST S A) s a s' :
  try m s = (Ok (inr a), s') → m s = (Ok a, s').
Proof. unfold try. destruct (m s) as [[]]; naive_solver. Qed.

Lemma try_Ok_inl {A} (m : ST S A) s e s' :
  try m s = (Ok (inl e), s') → m s = (Err e, s').
Proof. unfold try. destruct (m s) as [[]]; naive_solver. Qed.

Lemma or_throw_Ok {A} e (o : option A) s a s' :
  or_throw e o s = (Ok a, s') → o = Some a ∧ s = s'.
Proof. destruct o; simpl; [intros []%ret_Ok; naive_solver|done]. Qed.
End inversion.

(** Decompose a successful run into the successful runs of its parts. *)
Ltac ok_inv :=
  repeat match goal with
  | H : (_ ≫= _) _ = (Ok _, _) |- _ =>
      let a := fresh "a" in let s := fresh "s" in
      let E := fresh "E" in apply bind_Ok in H as (a & s & E & H)
  | H : @mret _ _ _ _ _ = (Ok _, _) |- _ => apply ret_Ok in H as [? ?]; simplify_eq
  | H : gets _ _ = (Ok _, _) |- _ => apply gets_Ok in H as [? ?]; simplify_eq
  | H : throw _ _ = (Ok _, _) |- _ => by apply throw_Ok in H
  | H : or_throw _ _ _ = (Ok _, _) |- _ => apply or_throw_Ok in H as [? ?]; simplify_eq
  end.

(** * Relations every run respects *)

(** [respects R m]: whatever the outcome of [m], the states before and after are
    related by [R].  It is closed under the combinators when [R] is a
    preorder, so it is proved by instance search along the code. *)
Class Respects {S A} (R : S → S → Prop) (m : ST S A) : Prop :=
  respects s : R s (m s).2.

Section respects.
Context {S : Type} (R : S → S → Prop) `{!PreOrder R}.

#[export] Instance respects_ret {A} (a : A) : Respects R (mret a).
Proof. intros s. simpl. reflexivity. Qed.
#[export] Instance respects_throw {A} e : Respects R (throw (A:=A) e).
Proof. intros s. simpl. reflexivity. Qed.
#[export] Instance respects_panic {A} p : Respects R (panic (A:=A) p).
Proof. intros s. simpl. reflexivity. Qed.
#[export] Instance respects_gets {A} (f : S → A) : Respects R (gets f).
Proof. intros s. simpl. reflexivity. Qed.
#[export] Instance respects_bind {A B} (m : ST S A) (f : A → ST S B) :
  Respects R m → (∀ a, Respects R (f a)) → Respects R (m ≫= f).
Proof.
  intros Hm Hf s. unfold mbind, ST_bind. specialize (Hm s).
  destruct (m s) as [[a|e|p] s1]; simpl in *; [|done..].
  etrans; [exact Hm|apply Hf].
Qed.
(** The continuation only has to respect the relation from where it starts. *)
Lemma respects_bind_at {A B} (m : ST S A) (f : A → ST S B) s :
  R s (m s).2 → (∀ a s1, m s = (Ok a, s1) → R s1 (f a s1).2) → R s ((m ≫= f) s).2.
Proof.
  intros Hm Hf. unfold mbind, ST_bind. destruct (m s) as [[a|e|p] s1] eqn:E; simpl in *; [|done..].
  etrans; [exact Hm|by apply Hf].
Qed.
#[export] Instance respects_map_err {A} f (m : ST S A) :
  Respects R m → Respects R (map_err f m).
Proof. intros Hm s. by rewrite map_err_state. Qed.
#[export] Instance respects_try {A} (m : ST S A) : Respects R m → Respects R (try m).
Proof. intros Hm s. by rewrite try_state. Qed.
#[export] Instance respects_or_throw {A} e (o : option A) : Respects R (or_throw e o).
Proof. destruct o; apply _. Qed.
#[export] Instance respects_for_each {A} (f : A → ST S unit) l :
  (∀ x, Respects R (f x)) → Respects R (for_each f l).
Proof. intros Hf. induction l; simpl; apply _. Qed.
End respects.

Lemma respects_modify {S} (R : S → S → Prop) (f : S → S) :
  (∀ s, R s (f s)) → Respects R (modify f).
Proof. intros Hf s. apply Hf. Qed.

(** Walk through the branches of the code, leaving each call to the instances. *)
Ltac respects_tac :=
  repeat (intros; first
    [ solve [apply _]
    | apply respects_bind
    | apply respects_map_err
    | apply respects_try
    | apply respects_for_each
    | case_match ]).

(** The same for a run from a given state. *)
Ltac respects_here :=
  cbv beta; match goal with
  | |- ?R ?s (?m ?s).2 =>
      let H := fresh in assert (Respects R m) as H; [respects_tac|exact (H s)]
  end.
