(* ===== verification/World.v ===== *)
(** The state the Go processes act on, what they rely on outside the
    repository, and the primitive effects: SQL statements, failpoints, metrics,
    fresh UUIDs, Kafka, HTTP and Redis calls. *)
From S2P Require Import Prelude GoStrings Json Apperr Failpoint Schema Monad.
Local Open Scope Z_scope.

(** * Outside the repository *)

(** A [kafka.Message]; the value is the JSON document it carries, [None] for
    bytes that are not JSON. *)
Record KafkaMessage := mkMessage {
  Topic : string;
  Key : string;
  Value : option json;
  Headers : gmap string string;
}.

(** An outbound webhook call, with the headers that identify the delivery. *)
Record HttpPost := mkPost {
  post_endpoint : string;
  post_event_id : string;
  post_event_type : string;
  post_transaction_id : string;
  post_attempt : Z;
  post_payload : json;
  post_signature : option string;
}.

(** The [http.ResponseWriter] of the request being served, and the error code
    [statusRecorder] keeps beside it. *)
Record ResponseWriter := mkResponse {
  rw_header : gmap string string;
  rw_status : option Z;      (* [None] until the header is written *)
  rw_body : list json;       (* what was written to the body *)
  rw_code : string;
}.

Definition new_response : ResponseWriter := mkResponse ∅ None [] "".

(** The services and third-party packages, as an oracle.  The [nat] argument of
    a fault is the index of the call, so any call may fail in any way: a
    deadlock, a lock timeout, a lost connection, a cancelled context.  For
    calls with an effect, [Some (true, e)] reports the error [e] although the
    effect took place (the acknowledgement was lost). *)
Class Ext := {
  (** the n-th UUID of [uuid.NewString] *)
  NewString_nth : nat → string;
  (** PostgreSQL's input conversion to [uuid]: the canonical text, or [None] *)
  uuid_in : string → option string;
  (** the [Error] method of [pgconn.PgError] *)
  PgError_Error : PgError → string;
  stmt_fault : nat → option error;
  begin_fault : nat → option error;
  commit_fault : nat → option (bool * error);
  sleep_fault : nat → option error;
  (** [ctx.Err()] *)
  ctx_fault : nat → option error;
  publish_fault : nat → option (bool * error);
  (** the error, and whether a command took effect all the same *)
  redis_fault : nat → option (bool * error);
  (** the status code of an HTTP call, or its error *)
  http_result : nat → error + Z;
  (** the text of [time.Time.UnmarshalJSON]'s error for a value that is not a time *)
  time_error_text : json → string;
  (** [http.NewRequestWithContext] refuses an endpoint that is not a URL *)
  NewRequest_err : string → option error;
  (** the text in which PostgreSQL returns a [jsonb] value *)
  jsonb_text : json → string;
  (** [rand.Int63n], and the 53 random bits of [rand.Float64] *)
  Int63n_nth : nat → Z → Z;
  Float64_bits : nat → Z;
  (** the order in which UPDATE ... RETURNING gives its rows *)
  returning_order : nat → list string → list string;
}.

(** PostgreSQL prints a [uuid] in the canonical form, which it reads back as
    itself. *)
Class UuidLaw `{Ext} : Prop :=
  uuid_canonical : ∀ s c, uuid_in s = Some c → uuid_in c = Some c.

(** * Errors as text *)

Section err_text.
Context `{Ext}.

(** The [Error] method along a chain. *)
Fixpoint err_text (err : error) : string :=
  match err with
  | EApp (mkError c m _ None) => code_string c +:+ ": " +:+ m
  | EApp (mkError c m _ (Some inner)) =>
      code_string c +:+ ": " +:+ m +:+ ": " +:+ err_text inner
  | EPg e => PgError_Error e
  | EFmt pre None post => pre +:+ "%!w(<nil>)" +:+ post
  | EFmt pre (Some inner) post => pre +:+ err_text inner +:+ post
  | ENoRows => "no rows in result set"
  | ERecordNotFound => "idempotency: record not found"
  | EInjected => "failpoint: injected failure"
  | ECanceled => "context canceled"
  | EDeadline => "context deadline exceeded"
  | EText s => s
  end.
End err_text.

(** * State *)

(** Locks a transaction holds until it ends. *)
Inductive lock :=
  | AdvisoryLock (key : Z)
  | RowLock (account : string).

#[export] Instance lock_eq_dec : EqDecision lock.
Proof. solve_decision. Defined.

(** A counter increment: the collector and its label values. *)
Definition metric : Type := string * list string.

Record World := mkWorld {
  w_db : DB;               (* the database, as the running session sees it *)
  w_fp : registry_ptr;     (* process-wide failpoints *)
  w_uuid : nat;            (* UUIDs drawn *)
  w_tick : nat;            (* calls to the outside made, indexing the oracle *)
  w_clock : Z;             (* wall clock *)
  w_txnow : Z;             (* now() of the running transaction: its start *)
  w_locks : list lock;     (* locks held, in order of acquisition *)
  w_metrics : list metric; (* increments, oldest first *)
  w_kafka : list KafkaMessage; (* the topics' logs *)
  w_posts : list HttpPost;     (* calls made to webhook endpoints *)
  w_redis : gmap string json;
  w_resp : ResponseWriter; (* the HTTP response being written *)
}.

Definition set_db d (w : World) := mkWorld d (w_fp w) (w_uuid w) (w_tick w) (w_clock w)
  (w_txnow w) (w_locks w) (w_metrics w) (w_kafka w) (w_posts w) (w_redis w) (w_resp w).
Definition set_fp f (w : World) := mkWorld (w_db w) f (w_uuid w) (w_tick w) (w_clock w)
  (w_txnow w) (w_locks w) (w_metrics w) (w_kafka w) (w_posts w) (w_redis w) (w_resp w).
Definition set_uuid n (w : World) := mkWorld (w_db w) (w_fp w) n (w_tick w) (w_clock w)
  (w_txnow w) (w_locks w) (w_metrics w) (w_kafka w) (w_posts w) (w_redis w) (w_resp w).
Definition set_tick n (w : World) := mkWorld (w_db w) (w_fp w) (w_uuid w) n (w_clock w)
  (w_txnow w) (w_locks w) (w_metrics w) (w_kafka w) (w_posts w) (w_redis w) (w_resp w).
Definition set_clock t (w : World) := mkWorld (w_db w) (w_fp w) (w_uuid w) (w_tick w) t
  (w_txnow w) (w_locks w) (w_metrics w) (w_kafka w) (w_posts w) (w_redis w) (w_resp w).
Definition set_txnow t (w : World) := mkWorld (w_db w) (w_fp w) (w_uuid w) (w_tick w) (w_clock w)
  t (w_locks w) (w_metrics w) (w_kafka w) (w_posts w) (w_redis w) (w_resp w).
Definition set_locks l (w : World) := mkWorld (w_db w) (w_fp w) (w_uuid w) (w_tick w) (w_clock w)
  (w_txnow w) l (w_metrics w) (w_kafka w) (w_posts w) (w_redis w) (w_resp w).
Definition set_metrics m (w : World) := mkWorld (w_db w) (w_fp w) (w_uuid w) (w_tick w) (w_clock w)
  (w_txnow w) (w_locks w) m (w_kafka w) (w_posts w) (w_redis w) (w_resp w).
Definition set_kafka k (w : World) := mkWorld (w_db w) (w_fp w) (w_uuid w) (w_tick w) (w_clock w)
  (w_txnow w) (w_locks w) (w_metrics w) k (w_posts w) (w_redis w) (w_resp w).
Definition set_posts p (w : World) := mkWorld (w_db w) (w_fp w) (w_uuid w) (w_tick w) (w_clock w)
  (w_txnow w) (w_locks w) (w_metrics w) (w_kafka w) p (w_redis w) (w_resp w).
Definition set_redis r (w : World) := mkWorld (w_db w) (w_fp w) (w_uuid w) (w_tick w) (w_clock w)
  (w_txnow w) (w_locks w) (w_metrics w) (w_kafka w) (w_posts w) r (w_resp w).
Definition set_resp r (w : World) := mkWorld (w_db w) (w_fp w) (w_uuid w) (w_tick w) (w_clock w)
  (w_txnow w) (w_locks w) (w_metrics w) (w_kafka w) (w_posts w) (w_redis w) r.

Abbreviation M := (ST World).

(** A [context.Context]: the values the source puts on it. *)
Record Ctx := mkCtx {
  ctx_overrides : overrides;
  ctx_request_id : string;
  ctx_correlation_id : string;
  ctx_transaction_id : string;
}.

Definition Background : Ctx := mkCtx None "" "" "".

Definition WithTransactionID (ctx : Ctx) (id : string) : Ctx :=
  mkCtx (ctx_overrides ctx) (ctx_request_id ctx) (ctx_correlation_id ctx) id.
Definition WithCorrelationID (ctx : Ctx) (id : string) : Ctx :=
  mkCtx (ctx_overrides ctx) (ctx_request_id ctx) id (ctx_transaction_id ctx).
Definition WithRequestID (ctx : Ctx) (id : string) : Ctx :=
  mkCtx (ctx_overrides ctx) id (ctx_correlation_id ctx) (ctx_transaction_id ctx).
Definition RequestID (ctx : Ctx) : string := ctx_request_id ctx.
Definition CorrelationID (ctx : Ctx) : string := ctx_correlation_id ctx.
Definition TransactionID (ctx : Ctx) : string := ctx_transaction_id ctx.

(** * Primitive effects *)

Section effects.
Context `{Ext}.

(** The index of the next call to the outside. *)
Definition next_tick : M nat := λ w, (Ok (w_tick w), set_tick (S (w_tick w)) w).

Definition Inc (name : string) (labels : list string) : M unit :=
  modify (λ w, set_metrics (w_metrics w ++ [(name, labels)]) w).

(** [uuid.NewString()]. *)
Definition NewString : M string :=
  λ w, (Ok (NewString_nth (w_uuid w)), set_uuid (S (w_uuid w)) w).

(** [time.Now()]. *)
Definition Now : M Z := gets w_clock.

Definition Sleep (d : Z) : M unit := modify (λ w, set_clock (w_clock w + Z.max 0 d) w).

(** [s.fp.Eval(ctx, name)]: an error to return, a panic, a pause, or nothing. *)
Definition EvalFailpoint (ctx : Ctx) (name : string) : M (option error) := λ w,
  let '(eff, r') := Eval (w_fp w) (ctx_overrides ctx) name in
  let w' := set_fp r' w in
  match eff with
  | FpNone => (Ok None, w')
  | FpError err => (Ok (Some err), w')
  | FpPanic msg => (Panic msg, w')
  | FpSleep d => (Ok None, set_clock (w_clock w + Z.max 0 d) w')
  end.

(** [if err := s.fp.Eval(ctx, name); err != nil { return f(err) }]. *)
Definition failpoint (ctx : Ctx) (name : string) (f : error → error) : M unit :=
  o ← EvalFailpoint ctx name;
  match o with Some err => throw (f err) | None => mret tt end.

(** [ctx.Err()]. *)
Definition ctx_Err : M (option error) := n ← next_tick; mret (ctx_fault n).

(** [gauge.Set(v)]. *)
Definition SetGauge (name : string) (v : Z) : M unit :=
  modify (λ w, set_metrics (w_metrics w ++ [(name, [Itoa v])]) w).

(** A statement of the running transaction. *)
Definition sql {A} (f : Z → DB → pg (A * DB)) : M A :=
  n ← next_tick;
  match stmt_fault n with
  | Some err => throw err
  | None => λ w,
      match f (w_txnow w) (w_db w) with
      | PgErr e => (Err (EPg e), w)
      | PgOk (a, db') => (Ok a, set_db db' w)
      end
  end.

(** A read, inside a transaction or on the pool. *)
Definition query {A} (f : DB → pg A) : M A :=
  sql (λ _ db, a ← f db; mret (a, db)).

(** A single statement on the pool, which commits by itself. *)
Definition pool_sql {A} (f : Z → DB → pg (A * DB)) : M A :=
  n ← next_tick;
  match stmt_fault n with
  | Some err => throw err
  | None => λ w,
      match f (w_clock w) (w_db w) with
      | PgErr e => (Err (EPg e), w)
      | PgOk (a, db') =>
          match commit_fault n with
          | None => (Ok a, set_db db' w)
          | Some (true, err) => (Err err, set_db db' w)
          | Some (false, err) => (Err err, w)
          end
      end
  end.

(** A row or advisory lock; one that is already held is not taken again. *)
Definition acquire (l : lock) : M unit :=
  modify (λ w, if decide (l ∈ w_locks w) then w else set_locks (w_locks w ++ [l]) w).
End effects.

(** * The parts of the state an effect leaves alone *)

(** The database is unchanged, or only the tables [keep] does not look at. *)
Definition keeps {K} (view : DB → K) (w w' : World) : Prop := view (w_db w') = view (w_db w).

#[export] Instance keeps_preorder {K} (view : DB → K) : PreOrder (keeps view).
Proof. split; [done|]. intros ??? E1 E2. unfold keeps in *. congruence. Qed.

Section keeps.
Context `{Ext} {K : Type} (view : DB → K).

#[export] Instance keeps_next_tick : Respects (keeps view) next_tick.
Proof. done. Qed.
#[export] Instance keeps_Inc name labels : Respects (keeps view) (Inc name labels).
Proof. done. Qed.
#[export] Instance keeps_ctx_Err : Respects (keeps view) ctx_Err.
Proof. done. Qed.
#[export] Instance keeps_SetGauge name v : Respects (keeps view) (SetGauge name v).
Proof. done. Qed.
#[export] Instance keeps_NewString : Respects (keeps view) NewString.
Proof. done. Qed.
#[export] Instance keeps_Now : Respects (keeps view) Now.
Proof. done. Qed.
#[export] Instance keeps_Sleep d : Respects (keeps view) (Sleep d).
Proof. done. Qed.
#[export] Instance keeps_acquire l : Respects (keeps view) (acquire l).
Proof. intros w. unfold acquire, modify. simpl. by case_decide. Qed.
#[export] Instance keeps_EvalFailpoint ctx name : Respects (keeps view) (EvalFailpoint ctx name).
Proof. intros w. unfold EvalFailpoint. destruct (Eval _ _ _) as [[] ?]; done. Qed.
#[export] Instance keeps_failpoint ctx name f : Respects (keeps view) (failpoint ctx name f).
Proof. unfold failpoint. respects_tac. Qed.

Lemma keeps_sql {A} (f : Z → DB → pg (A * DB)) :
  (∀ now db a db', f now db = PgOk (a, db') → view db' = view db) →
  Respects (keeps view) (sql f).
Proof.
  intros Hf. unfold sql. apply respects_bind; [apply _..|]. intros n.
  destruct (stmt_fault n); [apply _|]. intros w. simpl.
  destruct (f _ _) as [[a db']|] eqn:E; [|done]. simpl. eapply Hf, E.
Qed.

Lemma keeps_pool_sql {A} (f : Z → DB → pg (A * DB)) :
  (∀ now db a db', f now db = PgOk (a, db') → view db' = view db) →
  Respects (keeps view) (pool_sql f).
Proof.
  intros Hf. unfold pool_sql. apply respects_bind; [apply _..|]. intros n.
  destruct (stmt_fault n); [apply _|]. intros w. simpl.
  destruct (f _ _) as [[a db']|] eqn:E; [|done].
  destruct (commit_fault n) as [[[] ?]|]; [|done|]; simpl; eapply Hf, E.
Qed.

#[export] Instance keeps_query {A} (f : DB → pg A) : Respects (keeps view) (query f).
Proof.
  apply keeps_sql. intros now db a db'. unfold mbind, pg_bind, mret, pg_ret.
  by destruct (f db); intros [= -> ->].
Qed.
End keeps.

(** A successful statement is its SQL effect. *)
Lemma sql_Ok `{Ext} {A} (f : Z → DB → pg (A * DB)) w a w' :
  sql f w = (Ok a, w') →
  ∃ db', f (w_txnow w) (w_db w) = PgOk (a, db') ∧ w' = set_db db' (set_tick (S (w_tick w)) w).
Proof.
  unfold sql. intros Hr. ok_inv. unfold next_tick in E. simplify_eq.
  destruct (stmt_fault _); [done|]. simpl in *.
  destruct (f _ _) as [[a' db']|]; simplify_eq. eauto.
Qed.

Lemma query_Ok `{Ext} {A} (f : DB → pg A) w a w' :
  query f w = (Ok a, w') → f (w_db w) = PgOk a ∧ w' = set_tick (S (w_tick w)) w.
Proof.
  intros (db' & E & ->)%sql_Ok. unfold mbind, pg_bind, mret, pg_ret in E.
  destruct (f _); simplify_eq. split; [done|]. by destruct w.
Qed.

(** Without a fault, a statement does what it says. *)
Lemma sql_run `{Ext} {A} (f : Z → DB → pg (A * DB)) w a db' :
  stmt_fault (w_tick w) = None →
  f (w_txnow w) (w_db w) = PgOk (a, db') →
  sql f w = (Ok a, set_db db' (set_tick (S (w_tick w)) w)).
Proof.
  intros Hn Hf. unfold sql. erewrite bind_run by done. rewrite Hn. simpl. by rewrite Hf.
Qed.

Lemma sql_run_Err `{Ext} {A} (f : Z → DB → pg (A * DB)) w e :
  stmt_fault (w_tick w) = None →
  f (w_txnow w) (w_db w) = PgErr e →
  sql f w = (Err (EPg e), set_tick (S (w_tick w)) w).
Proof.
  intros Hn Hf. unfold sql. erewrite bind_run by done. rewrite Hn. simpl. by rewrite Hf.
Qed.

(** * Steps that leave the transaction's view alone *)

(** The database and the transaction's clock are unchanged. *)
Definition stable (w w' : World) : Prop := w_db w' = w_db w ∧ w_txnow w' = w_txnow w.

#[export] Instance stable_preorder : PreOrder stable.
Proof. split; [done|]. intros ??? [??] [??]. split; congruence. Qed.

Section stable.
Context `{Ext}.

#[export] Instance stable_next_tick : Respects stable next_tick.
Proof. done. Qed.
#[export] Instance stable_Inc name labels : Respects stable (Inc name labels).
Proof. done. Qed.
#[export] Instance stable_NewString : Respects stable NewString.
Proof. done. Qed.
#[export] Instance stable_Now : Respects stable Now.
Proof. done. Qed.
#[export] Instance stable_acquire l : Respects stable (acquire l).
Proof. intros w. unfold acquire, modify. simpl. by case_decide. Qed.
#[export] Instance stable_EvalFailpoint ctx name : Respects stable (EvalFailpoint ctx name).
Proof. intros w. unfold EvalFailpoint. destruct (Eval _ _ _) as [[] ?]; done. Qed.
#[export] Instance stable_failpoint ctx name f : Respects stable (failpoint ctx name f).
Proof. unfold failpoint. respects_tac. Qed.

Lemma stable_sql {A} (f : Z → DB → pg (A * DB)) :
  (∀ now db a db', f now db = PgOk (a, db') → db' = db) → Respects stable (sql f).
Proof.
  intros Hf. unfold sql. apply respects_bind; [apply _..|]. intros n.
  destruct (stmt_fault n); [apply _|]. intros w. simpl.
  destruct (f _ _) as [[a db']|] eqn:E; [|done]. simpl. by apply Hf in E as ->.
Qed.

#[export] Instance stable_query {A} (f : DB → pg A) : Respects stable (query f).
Proof.
  apply stable_sql. intros now db a db'. unfold mbind, pg_bind, mret, pg_ret.
  by destruct (f db); intros [= -> ->].
Qed.
End stable.

Lemma stable_run {A} (m : M A) `{!Respects stable m} w o w' :
  m w = (o, w') → w_db w' = w_db w ∧ w_txnow w' = w_txnow w.
Proof. intros E. pose proof (respects (R:=stable) w) as Hs. by rewrite E in Hs. Qed.

(** Record that a run of a stable step changed nothing. *)
Ltac stable_inv :=
  repeat match goal with
  | H : ?m ?w = (_, ?w') |- _ =>
      lazymatch type of w with World => idtac end;
      let Hd := fresh "Hdb" in let Ht := fresh "Hnow" in
      destruct (stable_run m w _ w' H) as [Hd Ht]; clear H
  end.

Lemma query_run `{Ext} {A} (f : DB → pg A) w a :
  stmt_fault (w_tick w) = None → f (w_db w) = PgOk a →
  query f w = (Ok a, set_tick (S (w_tick w)) w).
Proof.
  intros Hn Hf. unfold query. erewrite sql_run; [|done|by rewrite Hf]. by destruct w.
Qed.

(** A statement on the pool that succeeded was committed. *)
Lemma pool_sql_Ok `{Ext} {A} (f : Z → DB → pg (A * DB)) w a w' :
  pool_sql f w = (Ok a, w') →
  ∃ db', f (w_clock w) (w_db w) = PgOk (a, db') ∧ w' = set_db db' (set_tick (S (w_tick w)) w).
Proof.
  unfold pool_sql. intros (n & w1 & [= <- <-] & Hr)%bind_Ok. destruct (stmt_fault _); [done|].
  simpl in Hr. destruct (f _ _) as [[a' db']|]; [|done].
  destruct (commit_fault _) as [[[] ?]|]; simplify_eq. eauto.
Qed.

(** However a statement on the pool ends, the database is as it was or has the
    statement's effect. *)
Lemma pool_sql_db `{Ext} {A} (f : Z → DB → pg (A * DB)) w :
  w_db (pool_sql f w).2 = w_db w ∨
  ∃ a, f (w_clock w) (w_db w) = PgOk (a, w_db (pool_sql f w).2).
Proof.
  unfold pool_sql, mbind, ST_bind. simpl. destruct (stmt_fault _); [by left|]. simpl.
  destruct (f _ _) as [[a db']|]; simpl; [|by left].
  destruct (commit_fault _) as [[[] ?]|]; simpl; eauto.
Qed.
