(* ===== verification/Metrics.v ===== *)
(** [internal/observability/metrics.go]: the collectors, their registration, and
    which increments they accept. *)
From S2P Require Import Prelude GoStrings Apperr Monad.

(** * The collectors *)

Inductive collector_kind := CounterVec | PlainCounter | Gauge | HistogramVec.

Record collector := mkCollector {
  c_kind : collector_kind;
  c_name : string;
  c_help : string;
  c_labels : list string;
}.

#[export] Instance collector_kind_eq_dec : EqDecision collector_kind.
Proof. solve_decision. Defined.
#[export] Instance collector_eq_dec : EqDecision collector.
Proof. solve_decision. Defined.

(** The closures of [NewMetrics]. *)
Definition counter (name help : string) (labels : list string) : collector :=
  mkCollector CounterVec name help labels.
Definition plainCounter (name help : string) : collector := mkCollector PlainCounter name help [].
Definition gauge (name help : string) : collector := mkCollector Gauge name help [].

Definition histogram : collector :=
  mkCollector HistogramVec "ledger_http_request_duration_seconds" "HTTP request latency."
    ["method"; "route"; "status"].

(** What a registry holds: the collectors of the Go runtime and of the process,
    which the library brings along, and the program's. *)
Inductive registration := GoCollector | ProcessCollector | Own (c : collector).

#[export] Instance registration_eq_dec : EqDecision registration.
Proof. solve_decision. Defined.

Record Metrics := mkMetrics {
  HTTPRequests : collector;
  HTTPDuration : collector;
  TransfersTotal : collector;
  ReversalsTotal : collector;
  IdempotencyTotal : collector;
  PostgresRetries : collector;
  PostgresTxTotal : collector;
  RedisOps : collector;
  KafkaPublishTotal : collector;
  KafkaRetryTotal : collector;
  KafkaConsumeTotal : collector;
  OutboxBacklog : collector;
  OutboxDeadLetters : collector;
  WebhookDeliveries : collector;
  WebhookDuplicates : collector;
  ReplayEvents : collector;
  ReconciliationMismatches : collector;
  ReconciliationRuns : collector;
  RateLimited : collector;
}.

(** [Registry.Register] of the Prometheus client: the error, if any. *)
Class Prometheus := Register_err : list registration → registration → option error.

Section registry.
Context `{Prometheus}.

(** [reg.MustRegister(c)] panics when [Register] refuses. *)
Definition MustRegister (r : registration) : ST (list registration) unit := λ reg,
  match Register_err reg r with
  | Some _ => (Panic "MustRegister", reg)
  | None => (Ok tt, reg ++ [r])
  end.

Definition registered (c : collector) : ST (list registration) collector :=
  MustRegister (Own c);; mret c.

Definition NewMetrics : ST (list registration) Metrics :=
  MustRegister GoCollector;;
  MustRegister ProcessCollector;;
  duration ← registered histogram;
  http ← registered (counter "ledger_http_requests_total" "HTTP requests served."
           ["method"; "route"; "status"; "code"]);
  transfers ← registered (counter "ledger_transfers_total" "Transfer attempts by outcome."
           ["outcome"; "reason"]);
  reversals ← registered (counter "ledger_reversals_total" "Reversal attempts by outcome."
           ["outcome"; "reason"]);
  idempotency ← registered (counter "ledger_idempotency_total" "Idempotency key outcomes."
           ["result"; "source"]);
  retries ← registered (counter "ledger_postgres_retries_total" "PostgreSQL transaction retries."
           ["reason"]);
  txs ← registered (counter "ledger_postgres_transactions_total"
           "PostgreSQL transactions by outcome." ["outcome"]);
  redis ← registered (counter "ledger_redis_operations_total" "Redis operations by result."
           ["op"; "result"]);
  publish ← registered (counter "ledger_kafka_publish_total" "Kafka publish attempts."
           ["topic"; "outcome"]);
  retry ← registered (counter "ledger_kafka_retry_total" "Kafka publish retries." ["topic"]);
  consume ← registered (counter "ledger_kafka_consume_total" "Kafka messages consumed."
           ["topic"; "outcome"]);
  backlog ← registered (gauge "ledger_outbox_backlog" "Outbox rows awaiting publication.");
  dead ← registered (plainCounter "ledger_outbox_dead_letter_total"
           "Outbox rows moved to dead letter.");
  deliveries ← registered (counter "ledger_webhook_deliveries_total" "Webhook delivery outcomes."
           ["outcome"]);
  duplicates ← registered (plainCounter "ledger_webhook_duplicate_total"
           "Duplicate webhook events suppressed.");
  replayed ← registered (counter "ledger_replay_events_total" "Replayed events by outcome."
           ["outcome"]);
  mismatches ← registered (plainCounter "ledger_reconciliation_mismatch_total"
           "Accounts whose balance disagreed with their entries.");
  runs ← registered (counter "ledger_reconciliation_runs_total"
           "Reconciliation runs by outcome." ["outcome"]);
  limited ← registered (counter "ledger_rate_limited_total" "Requests rejected by the rate limiter."
           ["route"]);
  mret (mkMetrics http duration transfers reversals idempotency retries txs redis publish retry
          consume backlog dead deliveries duplicates replayed mismatches runs limited).
End registry.

(** The program's collectors: what [NewMetrics] leaves in a registry that refuses
    nothing. *)
Definition own (reg : list registration) : list collector :=
  omap (λ r, match r with Own c => Some c | _ => None end) reg.

Definition collectors : list collector :=
  Eval vm_compute in own (NewMetrics (H:=λ _ _, None) []).2.

Definition collector_of (name : string) : option collector :=
  find (λ c, String.eqb (c_name c) name) collectors.

(** * Registration does not panic *)

(** The data model's metric and label names. *)
Definition name_char (c : ascii) : bool := is_alnum c || Ascii.eqb c "_" || Ascii.eqb c ":".
Definition label_char (c : ascii) : bool := is_alnum c || Ascii.eqb c "_".
Definition starts_with_digit (s : string) : bool :=
  match s with String c _ => is_digit c | EmptyString => true end.
Definition valid_name (s : string) : bool := negb (starts_with_digit s) && string_forallb name_char s.
Definition valid_label (s : string) : bool :=
  negb (starts_with_digit s) && string_forallb label_char s && negb (String.prefix "__" s).

Definition valid_collector (c : collector) : bool :=
  valid_name (c_name c) && forallb valid_label (c_labels c) && bool_decide (NoDup (c_labels c)).

(** [Register] accepts a collector of the library once, and a valid one whose name
    no other has; the library's names start with [go_] and [process_]. *)
Class PrometheusLaw `{Prometheus} : Prop := {
  Register_library reg r :
    r = GoCollector ∨ r = ProcessCollector → r ∉ reg →
    Forall (λ c, String.prefix "ledger_" (c_name c) = true) (own reg) → Register_err reg r = None;
  Register_own reg c :
    valid_collector c = true → String.prefix "ledger_" (c_name c) = true →
    (∀ c', c' ∈ own reg → c_name c' ≠ c_name c) → Register_err reg (Own c) = None;
}.

Section registration.
Context `{PrometheusLaw}.

Lemma registered_run reg c :
  valid_collector c = true → String.prefix "ledger_" (c_name c) = true →
  bool_decide (c_name c ∈ map c_name (own reg)) = false →
  registered c reg = (Ok c, reg ++ [Own c]).
Proof.
  intros Hv Hp Hn. unfold registered, MustRegister, mbind, ST_bind.
  rewrite (Register_own reg c Hv Hp); [done|]. intros c' Hc' E.
  apply bool_decide_eq_false in Hn. apply Hn. rewrite <-E. by apply list_elem_of_fmap_2.
Qed.

Lemma library_run reg r :
  r = GoCollector ∨ r = ProcessCollector → bool_decide (own reg = []) = true → r ∉ reg →
  MustRegister r reg = (Ok tt, reg ++ [r]).
Proof.
  intros Hr Ho Hn. unfold MustRegister. rewrite (Register_library reg r Hr Hn); [done|].
  apply bool_decide_eq_true in Ho. rewrite Ho. constructor.
Qed.
End registration.

(** * What may be recorded *)

(** The values a label takes, where they are finitely many: the outcomes, results
    and reasons the source writes. Topics, routes, methods, statuses and the
    codes of responses are left open. *)
Definition failure_reasons : list string :=
  "failpoint" :: map code_string
    [CodeInvalidRequest; CodeUnknownAccount; CodeCurrencyMismatch; CodeInsufficientFunds;
     CodeIdempotencyConflict; CodeIdempotencyInProgress; CodeTransactionAlreadyReversed;
     CodeTransactionNotFound; CodeAccountExists; CodeRateLimited; CodeDependencyUnavailable;
     CodeInternal].

Definition label_values (name label : string) : option (list string) :=
  match name, label with
  | "ledger_transfers_total", "outcome" | "ledger_reversals_total", "outcome"
  | "ledger_kafka_publish_total", "outcome" | "ledger_replay_events_total", "outcome" =>
      Some ["success"; "failure"]
  | "ledger_transfers_total", "reason" | "ledger_reversals_total", "reason" =>
      Some ("" :: failure_reasons)
  | "ledger_idempotency_total", "result" => Some ["hit"; "miss"; "conflict"]
  | "ledger_idempotency_total", "source" => Some ["postgres"; "redis"]
  | "ledger_postgres_retries_total", "reason" => Some ["deadlock"; "serialization"; "lock_timeout"]
  | "ledger_postgres_transactions_total", "outcome" => Some ["commit"; "rollback"]
  | "ledger_redis_operations_total", "op" => Some ["idem_get"; "idem_put"; "ratelimit"]
  | "ledger_redis_operations_total", "result" => Some ["hit"; "miss"; "error"; "ok"]
  | "ledger_kafka_consume_total", "outcome" => Some ["success"; "failure"; "fetch_error"]
  | "ledger_webhook_deliveries_total", "outcome" => Some ["success"; "retry"; "dead_letter"]
  | "ledger_reconciliation_runs_total", "outcome" => Some ["ok"; "mismatch"; "error"]
  | _, _ => None
  end.

Definition label_ok (name label value : string) : bool :=
  match label_values name label with
  | Some values => bool_decide (value ∈ values)
  | None => true
  end.

Fixpoint labels_ok (name : string) (labels values : list string) : bool :=
  match labels, values with
  | [], [] => true
  | l :: labels, v :: values => label_ok name l v && labels_ok name labels values
  | _, _ => false
  end.

(** An increment the client library takes: [WithLabelValues] panics unless there
    is a value for every label, [Counter.Add] when it is negative. *)
Definition recordable (m : string * list string) : Prop :=
  ∃ c, collector_of m.1 = Some c ∧
    match c_kind c with
    | CounterVec | HistogramVec => labels_ok m.1 (c_labels c) m.2 = true
    | PlainCounter => m.2 = [] ∨ ∃ n : Z, (0 ≤ n)%Z ∧ m.2 = [Itoa n]
    | Gauge => ∃ n, m.2 = [Itoa n]
    end.

Lemma labels_ok_length name labels values :
  labels_ok name labels values = true → length values = length labels.
Proof.
  revert values. induction labels as [|l labels IH]; intros [|v values]; simpl; try done.
  intros [_ ?%IH]%andb_true_iff. by f_equal.
Qed.

(** Solves [recordable] for a known collector. *)
Ltac recordable_tac :=
  eexists; split; [reflexivity|]; cbn [c_kind snd];
  first [ reflexivity | by left | right; eexists; split; [|reflexivity]; lia | by eexists ].
