(* ===== verification/Storage.v ===== *)
(** [internal/storage/postgres.go]: error classification, the retrying
    transaction helper [InTx] and its backoff. *)
From S2P Require Import Prelude GoStrings GoTime Json Apperr Failpoint Schema Monad World.
Local Open Scope Z_scope.

(** * Error classification *)

Definition retryReason (err : error) : option string :=
  match as_pg err with
  | None => None
  | Some pgErr =>
      if String.eqb (PgCode pgErr) "40P01" then Some "deadlock"
      else if String.eqb (PgCode pgErr) "40001" then Some "serialization"
      else if String.eqb (PgCode pgErr) "55P03" then Some "lock_timeout"
      else if String.eqb (PgCode pgErr) "57014" then Some "lock_timeout"
      else None
  end.

Definition is_violation (code constraint : string) (err : error) : bool :=
  match as_pg err with
  | Some pgErr =>
      String.eqb (PgCode pgErr) code &&
      (String.eqb constraint "" || String.eqb (ConstraintName pgErr) constraint)
  | None => false
  end.

Definition IsUniqueViolation (err : error) (constraint : string) : bool :=
  is_violation "23505" constraint err.
Definition IsCheckViolation (err : error) (constraint : string) : bool :=
  is_violation "23514" constraint err.
Definition IsForeignKeyViolation (err : error) : bool :=
  match as_pg err with
  | Some pgErr => String.eqb (PgCode pgErr) "23503"
  | None => false
  end.

(** * Transactions *)

Section storage.
Context `{Ext}.

(** [base << attempt] is a 64-bit shift; [rand.Int63n] panics unless its
    argument is positive. *)
Definition backoff_delay (attempt : Z) : Z :=
  let base := 5 * Millisecond in
  let maxDelay := 500 * Millisecond in
  let delay := wrap64 (Z.shiftl base attempt) in
  if maxDelay <? delay then maxDelay else delay.

Definition backoff (attempt : Z) : M Z :=
  let delay := backoff_delay attempt in
  if delay <=? 0 then panic "invalid argument to Int63n"
  else n ← next_tick; mret (wrap64 (Int63n_nth n delay + 5 * Millisecond)).

(** Interrupted when the context is done. *)
Definition sleepCtx (d : Z) : M unit :=
  n ← next_tick;
  match sleep_fault n with
  | Some err => throw err
  | None => Sleep d
  end.

(** [select] between the end of the context and a timer or ticker: did the context
    end? *)
Definition wait (d : Z) : M bool :=
  r ← try (sleepCtx d); mret (match r with inl _ => true | inr _ => false end).

(** The closure passed to [InTx]: it reads and writes variables [L] of its
    caller, which a failed attempt does not reset. *)
Definition body (L : Type) : Type := L → World → outcome unit * L * World.

(** [v, err := m; if err != nil { return err }; result = v; return nil]. *)
Definition assigning {A} (m : M A) : body (option A) := λ l w,
  match m w with
  | (Ok a, w') => (Ok tt, Some a, w')
  | (Err e, w') => (Err e, l, w')
  | (Panic p, w') => (Panic p, l, w')
  end.

(** COMMIT: the deferred triggers, then the acknowledgement. *)
Definition commit_result (n : nat) (old new : DB) : option (bool * error) :=
  match commit_check old new with
  | PgErr e => Some (false, EPg e)
  | PgOk _ => commit_fault n
  end.

(** The end of a transaction releases its locks. *)
Definition finish (db : DB) (w : World) : World := set_locks [] (set_db db w).

Definition runOnce {L} (fn : body L) : body L := λ l w,
  let w0 := set_tick (S (w_tick w)) w in
  match begin_fault (w_tick w) with
  | Some e => (Err (EFmt "storage: begin: " (Some e) ""), l, w0)
  | None =>
      match fn l (set_txnow (w_clock w) (set_locks [] w0)) with
      | (Panic p, l', w2) => (Panic p, l', finish (w_db w) w2)
      | (Err e, l', w2) => (Err e, l', finish (w_db w) w2)
      | (Ok _, l', w2) =>
          let w3 := set_tick (S (w_tick w2)) w2 in
          match commit_result (w_tick w2) (w_db w) (w_db w2) with
          | None => (Ok tt, l', finish (w_db w2) w3)
          | Some (true, e) =>
              (Err (EFmt "storage: commit: " (Some e) ""), l', finish (w_db w2) w3)
          | Some (false, e) =>
              (Err (EFmt "storage: commit: " (Some e) ""), l', finish (w_db w) w3)
          end
      end
  end.

(** Run a step that does not touch the closure's variables, then go on. *)
Definition then_body {L} {A} (m : M A) (k : A → body L) : body L := λ l w,
  match m w with
  | (Ok a, w') => k a l w'
  | (Err e, w') => (Err e, l, w')
  | (Panic p, w') => (Panic p, l, w')
  end.

(** Before every attempt but the first. *)
Definition pause (attempt : Z) : M unit :=
  if 0 <? attempt then d ← backoff attempt; sleepCtx d else mret tt.

(** The same while other sessions commit: [others n] is what they make of the
    database by the time of call [n]. *)
Definition meanwhile (others : nat → DB → DB) : M unit :=
  n ← next_tick; modify (λ w, set_db (others n (w_db w)) w).

Definition pause_among (others : nat → DB → DB) (attempt : Z) : M unit :=
  pause attempt;; meanwhile others.

(** The loop of [InTx] with [fuel] attempts left, the next being [attempt];
    [waiting] is what happens before an attempt. *)
Fixpoint InTx_loop {L} (waiting : Z → M unit) (maxRetries : Z) (fn : body L) (fuel : nat)
    (attempt : Z) (lastErr : option error) : body L :=
  match fuel with
  | O =>
      then_body (Inc "ledger_postgres_transactions_total" ["rollback"]) (λ _,
      then_body (throw (A:=unit)
        (EFmt (Sprintf "storage: transaction failed after %d attempts: " [AInt maxRetries])
              lastErr "")) (λ _ l w, (Ok tt, l, w)))
  | S fuel =>
      then_body (waiting attempt) (λ _ l w,
        match runOnce fn l w with
        | (Panic p, l', w') => (Panic p, l', w')
        | (Ok _, l', w') =>
            then_body (Inc "ledger_postgres_transactions_total" ["commit"])
                      (λ _ l w, (Ok tt, l, w)) l' w'
        | (Err err, l', w') =>
            match retryReason err with
            | None =>
                then_body (Inc "ledger_postgres_transactions_total" ["rollback"])
                          (λ _ l w, (Err err, l, w)) l' w'
            | Some reason =>
                then_body (Inc "ledger_postgres_retries_total" [reason])
                          (λ _, InTx_loop waiting maxRetries fn fuel (attempt + 1) (Some err)) l' w'
            end
        end)
  end.

(** [for attempt := 0; attempt < db.maxRetries; attempt++]: the loop runs at
    most [maxRetries] times, so that many attempts are enough fuel. *)
Definition InTx_waiting {L} (waiting : Z → M unit) (maxRetries : Z) (fn : body L) : body L :=
  InTx_loop waiting maxRetries fn (Z.to_nat maxRetries) 0 None.

Definition InTx {L} (maxRetries : Z) (fn : body L) : body L := InTx_waiting pause maxRetries fn.

(** [InTx] whose closure only assigns its result. *)
Definition InTx_result_waiting {A} (waiting : Z → M unit) (maxRetries : Z) (m : M A)
    : M (option A) := λ w,
  match InTx_waiting waiting maxRetries (assigning m) None w with
  | (Ok _, l, w') => (Ok l, w')
  | (Err e, _, w') => (Err e, w')
  | (Panic p, _, w') => (Panic p, w')
  end.

Definition InTx_result {A} (maxRetries : Z) (m : M A) : M (option A) :=
  InTx_result_waiting pause maxRetries m.
End storage.

(** * What a transaction does to the database *)

Section storage_facts.
Context `{Ext}.

(** A transaction either leaves the database as it was, or installs what a
    successful run of the closure produced, its deferred checks passed. *)
Lemma runOnce_db {L} (fn : body L) l w :
  w_db (runOnce fn l w).2 = w_db w ∨
  ∃ w1 l' w2, w_db w1 = w_db w ∧ w_locks w1 = [] ∧ w_txnow w1 = w_clock w ∧
    w_clock w1 = w_clock w ∧
    fn l w1 = (Ok tt, l', w2) ∧ commit_check (w_db w) (w_db w2) = PgOk tt ∧
    w_db (runOnce fn l w).2 = w_db w2 ∧ (runOnce fn l w).1.2 = l'.
Proof.
  unfold runOnce. destruct (begin_fault _); [by left|].
  destruct (fn l _) as [[[[]|e|p] l'] w2] eqn:E; [|by left..].
  unfold commit_result. destruct (commit_check _ _) as [[]|] eqn:Ec; [|by left].
  destruct (commit_fault _) as [[[] ?]|]; [|by left|]; right;
    (eexists _, _, _; split_and!; [| | | |exact E|exact Ec|done|done]; done).
Qed.

Lemma runOnce_Ok {L} (fn : body L) l w l' w' :
  runOnce fn l w = (Ok tt, l', w') →
  ∃ w1 w2, w_db w1 = w_db w ∧ w_locks w1 = [] ∧ w_txnow w1 = w_clock w ∧
    w_clock w1 = w_clock w ∧
    fn l w1 = (Ok tt, l', w2) ∧ commit_check (w_db w) (w_db w2) = PgOk tt ∧
    w_db w' = w_db w2.
Proof.
  unfold runOnce. destruct (begin_fault _); [done|].
  destruct (fn l _) as [[[[]|e|p] l1] w2] eqn:E; [|done..].
  unfold commit_result. destruct (commit_check _ _) as [[]|] eqn:Ec; [|done].
  destruct (commit_fault _) as [[[] ?]|]; [done|done|]. intros [= <- <-].
  eexists _, _. split_and!; [..|exact E|exact Ec|done]; done.
Qed.

Lemma backoff_db attempt w : w_db (backoff attempt w).2 = w_db w.
Proof. unfold backoff. by destruct (_ <=? _). Qed.

Lemma sleepCtx_db d w : w_db (sleepCtx d w).2 = w_db w.
Proof. unfold sleepCtx, mbind, ST_bind. simpl. by destruct (sleep_fault _). Qed.

Lemma pause_db attempt w :
  w_db (pause attempt w).2 = w_db w.
Proof.
  unfold pause. destruct (_ <? _); [|done]. unfold mbind, ST_bind. pose proof (backoff_db attempt w).
  destruct (backoff attempt w) as [[] w1]; simpl in *; [|done..].
  by rewrite sleepCtx_db.
Qed.

(** Every preorder on databases that the committed attempts respect relates
    the database before a call of [InTx] to the one after it, however the call
    ends and however many attempts it made. *)
Lemma InTx_rel {L} (R : DB → DB → Prop) `{!PreOrder R} (fn : body L) :
  (∀ l w l' w', fn l w = (Ok tt, l', w') → commit_check (w_db w) (w_db w') = PgOk tt →
     R (w_db w) (w_db w')) →
  ∀ maxRetries l w, R (w_db w) (w_db (InTx maxRetries fn l w).2).
Proof.
  intros Hfn maxRetries l w. unfold InTx, InTx_waiting. generalize 0 as attempt.
  generalize (None : option error) as lastErr. generalize (Z.to_nat maxRetries) as fuel.
  intros fuel. revert l w. induction fuel as [|fuel IH]; intros l w lastErr attempt; simpl.
  { reflexivity. }
  unfold then_body at 1. pose proof (pause_db attempt w) as Hp.
  destruct (pause attempt w) as [[[]|e|p] w1]; simpl in *; rewrite <-Hp;
    try reflexivity.
  assert (R (w_db w1) (w_db (runOnce fn l w1).2)) as Hone.
  { destruct (runOnce_db fn l w1) as [->|(w2 & l' & w3 & E1 & _ & _ & _ & Ef & Ec & E2 & _)];
      [reflexivity|]. rewrite E2, <-E1. eapply Hfn; [exact Ef|]. by rewrite E1. }
  destruct (runOnce fn l w1) as [[[[]|e|p] l'] w2]; simpl in *; [exact Hone| |exact Hone].
  destruct (retryReason e); [|exact Hone].
  unfold then_body. simpl. etrans; [exact Hone|]. apply (IH l' (set_metrics _ w2)).
Qed.

(** A call that succeeds ends with a committed attempt, preceded by others
    that respect the relation. *)
Lemma InTx_Ok {L} (R : DB → DB → Prop) `{!PreOrder R} (fn : body L) :
  (∀ l w l' w', fn l w = (Ok tt, l', w') → commit_check (w_db w) (w_db w') = PgOk tt →
     R (w_db w) (w_db w')) →
  ∀ maxRetries l w l' w', InTx maxRetries fn l w = (Ok tt, l', w') →
  ∃ l1 w1 w2, R (w_db w) (w_db w1) ∧ fn l1 w1 = (Ok tt, l', w2) ∧ w_locks w1 = [] ∧
    w_txnow w1 = w_clock w1 ∧
    commit_check (w_db w1) (w_db w2) = PgOk tt ∧ w_db w' = w_db w2.
Proof.
  intros Hfn maxRetries l w l' w'. unfold InTx, InTx_waiting. generalize 0 as attempt.
  generalize (None : option error) as lastErr. generalize (Z.to_nat maxRetries) as fuel.
  intros fuel. revert l w. induction fuel as [|fuel IH]; intros l w lastErr attempt; simpl.
  { done. }
  unfold then_body at 1. pose proof (pause_db attempt w) as Hp.
  destruct (pause attempt w) as [[[]|e|p] w1]; simpl in *; [|done..].
  destruct (runOnce fn l w1) as [[[[]|e|p] l2] w2] eqn:Er; [| |done].
  - unfold then_body. simpl. intros [= <- <-].
    apply runOnce_Ok in Er as (w3 & w4 & E1 & El & Et & Ecl & Ef & Ec & E2).
    exists l, w3, w4. rewrite <-Hp, E1, Et, Ecl. split_and!; done.
  - destruct (retryReason e); [|done]. unfold then_body. simpl.
    intros (l1 & w3 & w4 & HR & Hrest)%IH. exists l1, w3, w4. split; [|done].
    rewrite <-Hp. simpl in HR. etrans; [|exact HR].
    destruct (runOnce_db fn l w1) as [E|(w5 & l5 & w6 & E1 & _ & _ & _ & Ef & Ec & E2 & _)];
      rewrite Er in *; simpl in *; [by rewrite E|].
    rewrite E2, <-E1. eapply Hfn; [exact Ef|]. by rewrite E1.
Qed.

(** Attempts share the variables of the closure: an invariant of variables and
    database that every attempt keeps, committed or rolled back, holds at the
    end; and what a successful attempt establishes holds after success. *)
Lemma InTx_waiting_inv {L} (I J : L → DB → Prop) waiting (fn : body L) :
  (∀ l n w, I l (w_db w) → I l (w_db (waiting n w).2)) →
  (∀ l w l' w', I l (w_db w) → fn l w = (Ok tt, l', w') →
     I l' (w_db w) ∧ I l' (w_db w') ∧ J l' (w_db w')) →
  (∀ l w o l' w', I l (w_db w) → fn l w = (o, l', w') → o ≠ Ok tt → I l' (w_db w)) →
  ∀ maxRetries l w o l' w', I l (w_db w) → InTx_waiting waiting maxRetries fn l w = (o, l', w') →
    I l' (w_db w') ∧ (o = Ok tt → J l' (w_db w')).
Proof.
  intros Hwait Hok Hfail maxRetries l w. unfold InTx_waiting. generalize 0 as attempt.
  generalize (None : option error) as lastErr. generalize (Z.to_nat maxRetries) as fuel.
  intros fuel. revert l w. induction fuel as [|fuel IH]; intros l w lastErr attempt o l' w' HI; simpl.
  { by intros [= <- <- <-]. }
  unfold then_body at 1. apply (Hwait l attempt) in HI.
  destruct (waiting attempt w) as [[[]|e|p] w1]; simpl in HI; [|by intros [= <- <- <-]..].
  assert (∀ o2 l2 w2, runOnce fn l w1 = (o2, l2, w2) → I l2 (w_db w2) ∧ (o2 = Ok tt → J l2 (w_db w2)))
    as Hone.
  { intros o2 l2 w2. unfold runOnce. destruct (begin_fault _); [by intros [= <- <- <-]|].
    set (w0 := set_txnow _ _). assert (I l (w_db w0)) as HI0 by exact HI.
    destruct (fn l w0) as [[ox lf] wf] eqn:Ef. destruct ox as [[]|e|p].
    - destruct (Hok l w0 lf wf HI0 Ef) as (H1 & H2 & H3).
      destruct (commit_result _ _ _) as [[[] e]|]; intros [= <- <- <-]; simpl; split; done || by auto.
    - apply (Hfail l w0) in Ef; [|done..]. by intros [= <- <- <-].
    - apply (Hfail l w0) in Ef; [|done..]. by intros [= <- <- <-]. }
  destruct (runOnce fn l w1) as [[[[]|e|p] l2] w2] eqn:Er; destruct (Hone _ _ _ eq_refl) as [HI2 HJ2].
  - unfold then_body. simpl. intros [= <- <- <-]. simpl. auto.
  - destruct (retryReason e); unfold then_body; simpl.
    + intros HI3. by eapply IH in HI3.
    + intros [= <- <- <-]. simpl. done.
  - by intros [= <- <- <-].
Qed.

Lemma InTx_inv {L} (I J : L → DB → Prop) (fn : body L) :
  (∀ l w l' w', I l (w_db w) → fn l w = (Ok tt, l', w') →
     I l' (w_db w) ∧ I l' (w_db w') ∧ J l' (w_db w')) →
  (∀ l w o l' w', I l (w_db w) → fn l w = (o, l', w') → o ≠ Ok tt → I l' (w_db w)) →
  ∀ maxRetries l w o l' w', I l (w_db w) → InTx maxRetries fn l w = (o, l', w') →
    I l' (w_db w') ∧ (o = Ok tt → J l' (w_db w')).
Proof. apply InTx_waiting_inv. intros l n w. by rewrite pause_db. Qed.

(** The same for a closure that assigns its result. *)
Lemma assigning_Ok {A} (m : M A) l w l' w' :
  assigning m l w = (Ok tt, l', w') → ∃ a, l' = Some a ∧ m w = (Ok a, w').
Proof. unfold assigning. destruct (m w) as [[]]; intros [= <- <-]. eauto. Qed.

Lemma InTx_result_rel {A} (R : DB → DB → Prop) `{!PreOrder R} (m : M A) :
  (∀ w a w', m w = (Ok a, w') → commit_check (w_db w) (w_db w') = PgOk tt →
     R (w_db w) (w_db w')) →
  ∀ maxRetries w, R (w_db w) (w_db (InTx_result maxRetries m w).2).
Proof.
  intros Hm maxRetries w. unfold InTx_result, InTx_result_waiting. fold (InTx maxRetries (assigning m)).
  pose proof (InTx_rel R (assigning m)) as HR. specialize (λ Hf, HR Hf maxRetries None w).
  destruct (InTx maxRetries (assigning m) None w) as [[[]] w']; simpl in *;
    apply HR; intros ???? (? & -> & Em)%assigning_Ok; eauto.
Qed.

Lemma InTx_result_Ok {A} (R : DB → DB → Prop) `{!PreOrder R} (m : M A) :
  (∀ w a w', m w = (Ok a, w') → commit_check (w_db w) (w_db w') = PgOk tt →
     R (w_db w) (w_db w')) →
  ∀ maxRetries w o w', InTx_result maxRetries m w = (Ok o, w') →
  ∃ a w1 w2, o = Some a ∧ R (w_db w) (w_db w1) ∧ m w1 = (Ok a, w2) ∧ w_locks w1 = [] ∧
    w_txnow w1 = w_clock w1 ∧
    commit_check (w_db w1) (w_db w2) = PgOk tt ∧ w_db w' = w_db w2.
Proof.
  intros Hm maxRetries w o w' E. unfold InTx_result, InTx_result_waiting in E.
  fold (InTx maxRetries (assigning m)) in E.
  destruct (InTx maxRetries (assigning m) None w) as [[[[]|e|p] l'] w3] eqn:EI; simplify_eq.
  apply (InTx_Ok R) in EI
    as (l1 & w1 & w2 & HR & (a & -> & Em)%assigning_Ok & ? & ? & Hc & Edb).
  { eauto 10. }
  intros ???? (? & -> & Em')%assigning_Ok. eauto.
Qed.
End storage_facts.
