(* ===== verification/Idempotency.v ===== *)
(** [internal/idempotency/record.go]: the durable idempotency records and the
    advisory lock that serialises requests sharing a key. *)
From S2P Require Import Prelude GoStrings Sha256 Json Apperr Failpoint Schema Monad World Storage.
Local Open Scope Z_scope.

(** * The advisory lock key *)

Definition fnv64_offset : Z := 14695981039346656037.
Definition fnv64_prime : Z := 1099511628211.

(** FNV-1a: one byte. *)
Definition fnv64a_byte (h : Z) (c : ascii) : Z :=
  wrapu64 (Z.lxor h (Z.of_N (byte_of c)) * fnv64_prime).

Fixpoint fnv64a_write (h : Z) (s : string) : Z :=
  match s with
  | EmptyString => h
  | String c s' => fnv64a_write (fnv64a_byte h c) s'
  end.

(** [int64(h.Sum64())] over scope, a zero byte, and key. *)
Definition advisory_key (scope key : string) : Z :=
  wrap64 (fnv64a_write (fnv64a_byte (fnv64a_write fnv64_offset scope) Ascii.zero) key).

(** * The request hash *)

(** The digest, in hexadecimal, of the scope, a zero byte and the payload's
    JSON. *)
Definition HashRequest (scope : string) (payload : json) : string :=
  hex_string (Sum256 (scope +:+ String Ascii.zero (json_text payload))).

(** * Records *)

Record IdemRecord := mkIdemRecord {
  Scope : string;
  IKey : string;
  RequestHash : string;
  State : idem_state;
  ResponseStatus : Z;
  ResponseBody : option json;
  ITransactionID : option string;
  ICreatedAt : Z;
}.

Section idempotency.
Context `{Ext}.

(** What a query by a text finds: the server refuses a parameter that is not a text;
    no row has one. *)
Definition found {A} (param : string) (row : option A) : pg (option A) :=
  match row with
  | Some a => PgOk (Some a)
  | None => if text_ok param then PgOk None else PgErr invalid_text
  end.

(** A text parameter bound to a [uuid] column. *)
Definition as_uuid (s : string) : pg string :=
  match uuid_in s with
  | Some c => PgOk c
  | None =>
      PgErr (if text_ok s
             then mkPgError "22P02" "" ("invalid input syntax for type uuid: " +:+ Quote s)
             else invalid_text)
  end.

Definition as_uuid_opt (s : option string) : pg (option string) :=
  match s with
  | None => PgOk None
  | Some s => c ← as_uuid s; PgOk (Some c)
  end.

(** [SELECT pg_advisory_xact_lock($1)]. *)
Definition LockKey (scope key : string) : M unit :=
  map_err (λ err, EFmt "idempotency: advisory lock: " (Some err) "")
    (sql (λ _ db, PgOk (tt, db)));;
  acquire (AdvisoryLock (advisory_key scope key)).

Definition record_of (scope key : string) (i : idem_row) : IdemRecord :=
  mkIdemRecord scope key (i_request_hash i) (i_state i)
    (default 0 (i_response_status i)) (i_response_body i) (i_transaction_id i)
    (i_created_at i).

Definition Fetch (scope key : string) : M IdemRecord :=
  o ← map_err (λ err, EFmt "idempotency: fetch: " (Some err) "")
        (query (λ db, PgOk (idempotency_records db !! (scope, key))));
  match o with
  | None => throw ERecordNotFound
  | Some i => mret (record_of scope key i)
  end.

(** [INSERT ... ON CONFLICT (scope, key) DO NOTHING]: the rows affected. *)
Definition sql_claim (scope key requestHash : string) (now : Z) (db : DB) : pg (Z * DB) :=
  match idempotency_records db !! (scope, key) with
  | Some _ => PgOk (0, db)
  | None =>
      db' ← exec_dml (InsertIdem (scope, key)
               (IdemRow requestHash InProgressState None None None now now)) db;
      PgOk (1, db')
  end.

Definition Claim (scope key requestHash : string) : M (option IdemRecord) :=
  rows ← map_err (λ err, EFmt "idempotency: claim: " (Some err) "")
           (sql (sql_claim scope key requestHash));
  if rows =? 1 then mret None
  else rec ← Fetch scope key; mret (Some rec).

Definition sql_complete (scope key : string) (status : Z) (body : json)
    (transactionID : option string) (now : Z) (db : DB) : pg (unit * DB) :=
  tid ← as_uuid_opt transactionID;
  match idempotency_records db !! (scope, key) with
  | None => PgOk (tt, db)
  | Some i =>
      db' ← exec_dml (UpdateIdem (scope, key)
               (IdemRow (i_request_hash i) CompletedState (Some status) (Some body)
                        tid (i_created_at i) now)) db;
      PgOk (tt, db')
  end.

Definition Complete (scope key : string) (status : Z) (body : json)
    (transactionID : option string) : M unit :=
  map_err (λ err, EFmt "idempotency: complete: " (Some err) "")
    (sql (sql_complete scope key status body transactionID)).

(** Only an in-progress row is deleted. *)
Definition sql_discard (scope key : string) (now : Z) (db : DB) : pg (unit * DB) :=
  match idempotency_records db !! (scope, key) with
  | Some i =>
      if decide (i_state i = InProgressState)
      then db' ← exec_dml (DeleteIdem (scope, key)) db; PgOk (tt, db')
      else PgOk (tt, db)
  | None => PgOk (tt, db)
  end.

(** Run on the pool. *)
Definition Discard (scope key : string) : M unit :=
  map_err (λ err, EFmt "idempotency: discard: " (Some err) "")
    (pool_sql (sql_discard scope key)).

Definition Conflict (key : string) : Error :=
  WithDetail (New CodeIdempotencyConflict
    "idempotency key %q was already used with a different request payload" [AStr key])
    "idempotency_key" (JStr key).

Definition InProgress (key : string) : Error :=
  WithDetail (New CodeIdempotencyInProgress
    "a request with idempotency key %q is already in progress" [AStr key])
    "idempotency_key" (JStr key).
End idempotency.

Lemma found_Ok {A} param (row r : option A) : found param row = PgOk r → r = row.
Proof. unfold found. destruct row; [by intros [= ->]|]. destruct (text_ok param); [by intros [= ->]|done]. Qed.

Lemma as_uuid_Ok `{Ext} s c : as_uuid s = PgOk c ↔ uuid_in s = Some c.
Proof. unfold as_uuid. destruct (uuid_in s); naive_solver. Qed.

(** Turn the bound parameters of a statement that ran into UUIDs. *)
Ltac uuid_inv :=
  repeat match goal with H : as_uuid _ = PgOk _ |- _ => apply as_uuid_Ok in H end.
