(* ===== verification/Event.v ===== *)
(** [internal/outbox/event.go]: the event envelope and its payload, with their
    JSON encodings. *)
From S2P Require Import Prelude GoStrings Json Apperr.
Local Open Scope Z_scope.

Definition SchemaVersion : Z := 1.

Record ReplayMeta := mkReplayMeta {
  IsReplay : bool;
  ReplayID : string;
  ReplayedAt : Z;
  ReplayedBy : string;
  OriginalSeq : Z;
}.

Record Envelope := mkEnvelope {
  EventID : string;
  EventType : string;
  EnvSchemaVersion : Z;
  EnvTransactionID : string;
  OccurredAt : Z;
  EnvCorrelationID : string;
  Replay : option ReplayMeta;
  Data : json;
}.

Record EntryData := mkEntryData {
  EdEntryID : string;
  EdAccountID : string;
  EdAmount : Z;
  EdCurrency : string;
  EdSeq : Z;
}.

Record PaymentData := mkPaymentData {
  PdTransactionID : string;
  PdKind : string;
  PdCurrency : string;
  PdAmount : Z;
  PdSourceAccountID : string;
  PdDestinationAccountID : string;
  PdDescription : string;
  PdExternalReference : string;
  PdReversesTransactionID : string;
  PdReason : string;
  PdCreatedAt : Z;
  PdEntries : list EntryData;
}.

(** * Encoding, with the field names and [omitempty] of the struct tags *)

Definition marshal_ReplayMeta (m : ReplayMeta) : json :=
  JObj ([("is_replay", JBool (IsReplay m));
         ("replay_id", JStr (ReplayID m));
         ("replayed_at", JTime (ReplayedAt m))]
        ++ omit_str "replayed_by" (ReplayedBy m)
        ++ omit_int "original_seq" (OriginalSeq m)).

Definition marshal_Envelope (e : Envelope) : json :=
  JObj ([("event_id", JStr (EventID e));
         ("event_type", JStr (EventType e));
         ("schema_version", JNum (EnvSchemaVersion e));
         ("transaction_id", JStr (EnvTransactionID e));
         ("occurred_at", JTime (OccurredAt e))]
        ++ omit_str "correlation_id" (EnvCorrelationID e)
        ++ omit_ptr "replay" (marshal_ReplayMeta <$> Replay e)
        ++ [("data", Data e)]).

Definition marshal_EntryData (d : EntryData) : json :=
  JObj [("entry_id", JStr (EdEntryID d));
        ("account_id", JStr (EdAccountID d));
        ("amount", JNum (EdAmount d));
        ("currency", JStr (EdCurrency d));
        ("seq", JNum (EdSeq d))].

Definition marshal_PaymentData (d : PaymentData) : json :=
  JObj ([("transaction_id", JStr (PdTransactionID d));
         ("kind", JStr (PdKind d));
         ("currency", JStr (PdCurrency d));
         ("amount", JNum (PdAmount d))]
        ++ omit_str "source_account_id" (PdSourceAccountID d)
        ++ omit_str "destination_account_id" (PdDestinationAccountID d)
        ++ omit_str "description" (PdDescription d)
        ++ omit_str "external_reference" (PdExternalReference d)
        ++ omit_str "reverses_transaction_id" (PdReversesTransactionID d)
        ++ omit_str "reason" (PdReason d)
        ++ [("created_at", JTime (PdCreatedAt d));
            ("entries", JArr (marshal_EntryData <$> PdEntries d))]).

(** * Decoding *)

Definition unmarshal_ReplayMeta (j : json) : option ReplayMeta :=
  match j with
  | JObj o =>
      a ← get_bool "is_replay" o;
      b ← get_str "replay_id" o;
      c ← get_time "replayed_at" o;
      d ← get_str "replayed_by" o;
      e ← get_int "original_seq" o;
      Some (mkReplayMeta a b c d e)
  | _ => None
  end.

(** A pointer field: null makes it nil. *)
Definition get_replay (o : list (string * json)) : option (option ReplayMeta) :=
  foldl (λ acc j, _ ← acc;
                  match j with
                  | JNull => Some None
                  | _ => Some <$> unmarshal_ReplayMeta j
                  end)
        (Some None) (field "replay" o).

(** A null document leaves the zero envelope. *)
Definition unmarshal_Envelope (j : json) : option Envelope :=
  match j with
  | JNull => Some (mkEnvelope "" "" 0 "" 0 "" None JNull)
  | JObj o =>
      a ← get_str "event_id" o;
      b ← get_str "event_type" o;
      c ← get_int "schema_version" o;
      d ← get_str "transaction_id" o;
      e ← get_time "occurred_at" o;
      f ← get_str "correlation_id" o;
      r ← get_replay o;
      Some (mkEnvelope a b c d e f r (get_raw "data" o))
  | _ => None
  end.

(** * Round trips *)

(** The integers of a value fit the fields' [int] and [int64] types. *)
Definition ReplayMeta_valid (m : ReplayMeta) : Prop := in_int64 (OriginalSeq m) = true.
Definition Envelope_valid (e : Envelope) : Prop :=
  in_int64 (EnvSchemaVersion e) = true ∧
  match Replay e with Some m => ReplayMeta_valid m | None => True end.

(** Evaluate a decoder on an object whose field names are known. *)
Ltac eval_fields := cbv -[in_int64 unmarshal_ReplayMeta marshal_ReplayMeta].

Lemma unmarshal_marshal_ReplayMeta m :
  ReplayMeta_valid m → unmarshal_ReplayMeta (marshal_ReplayMeta m) = Some m.
Proof.
  destruct m as [a b c d e]. unfold ReplayMeta_valid. simpl. intros He.
  unfold unmarshal_ReplayMeta, marshal_ReplayMeta, omit_str, omit_int; simpl.
  destruct (String.eqb_spec d "") as [->|]; destruct (Z.eqb_spec e 0) as [->|];
    eval_fields; by rewrite ?He.
Qed.

Lemma unmarshal_marshal_Envelope e :
  Envelope_valid e → unmarshal_Envelope (marshal_Envelope e) = Some e.
Proof.
  destruct e as [a b c d t f r x]. unfold Envelope_valid. simpl. intros [Hc Hr].
  unfold marshal_Envelope, omit_str; simpl.
  destruct (String.eqb_spec f "") as [->|]; destruct r as [m|]; eval_fields; rewrite Hc;
    try done.
  all: pose proof (unmarshal_marshal_ReplayMeta m Hr) as E; unfold marshal_ReplayMeta in *;
    by rewrite E.
Qed.

#[export] Program Instance ReplayMeta_codec : Codec ReplayMeta := {|
  encode := marshal_ReplayMeta;
  decode := unmarshal_ReplayMeta;
  codec_valid := ReplayMeta_valid;
  decode_encode := unmarshal_marshal_ReplayMeta;
|}.

#[export] Program Instance Envelope_codec : Codec Envelope := {|
  encode := marshal_Envelope;
  decode := unmarshal_Envelope;
  codec_valid := Envelope_valid;
  decode_encode := unmarshal_marshal_Envelope;
|}.
