(* ===== verification/Cache.v ===== *)
(** [internal/idempotency/cache.go]: the optional Redis cache of completed
    responses. *)
From S2P Require Import Prelude GoStrings Json Apperr Failpoint Schema Monad World Storage Idempotency Config.
Local Open Scope Z_scope.

(** [CrBody] is a raw message: the stored bytes, [JNull] when there were none. *)
Record CachedResponse := mkCached {
  CrStatus : Z;
  CrBody : json;
  CrRequestHash : string;
  CrTransactionID : string;
}.

Definition marshal_CachedResponse (c : CachedResponse) : json :=
  JObj ([("status", JNum (CrStatus c)); ("body", CrBody c);
         ("request_hash", JStr (CrRequestHash c))]
        ++ omit_str "transaction_id" (CrTransactionID c)).

Definition unmarshal_CachedResponse (j : json) : option CachedResponse :=
  match j with
  | JNull => Some (mkCached 0 JNull "" "")
  | JObj o =>
      a ← get_int "status" o;
      b ← get_str "request_hash" o;
      c ← get_str "transaction_id" o;
      Some (mkCached a (get_raw "body" o) b c)
  | _ => None
  end.

Definition CachedResponse_valid (c : CachedResponse) : Prop := in_int64 (CrStatus c) = true.

Lemma unmarshal_marshal_CachedResponse c :
  CachedResponse_valid c → unmarshal_CachedResponse (marshal_CachedResponse c) = Some c.
Proof.
  destruct c as [st b h t]. unfold CachedResponse_valid. simpl. intros Hs.
  unfold marshal_CachedResponse, omit_str. simpl.
  destruct (String.eqb_spec t "") as [->|]; cbv -[in_int64]; by rewrite Hs.
Qed.

#[export] Program Instance CachedResponse_codec : Codec CachedResponse := {|
  encode := marshal_CachedResponse;
  decode := unmarshal_CachedResponse;
  codec_valid := CachedResponse_valid;
  decode_encode := unmarshal_marshal_CachedResponse;
|}.

Definition cacheKey (scope key : string) : string :=
  "ledger:idem:" +:+ scope +:+ ":" +:+ key.

Section cache.
Context `{Ext} (cfg : Config).

Definition redis_op (op result : string) : M unit :=
  Inc "ledger_redis_operations_total" [op; result].

(** Every failure is a miss. *)
Definition Get (scope key : string) : M (option CachedResponse) :=
  if negb (RedisEnabled cfg) then mret None
  else
    n ← next_tick;
    match redis_fault n with
    | Some _ => redis_op "idem_get" "error";; mret None
    | None =>
        found ← gets (λ w, w_redis w !! cacheKey scope key);
        match found with
        | None => redis_op "idem_get" "miss";; mret None
        | Some raw =>
            match decode (A:=CachedResponse) raw with
            | None => redis_op "idem_get" "error";; mret None
            | Some resp => redis_op "idem_get" "hit";; mret (Some resp)
            end
        end
    end.

Definition redis_set (k : string) (v : json) : M unit :=
  modify (λ w, set_redis (<[k := v]> (w_redis w)) w).

(** A failure is ignored, whether or not the value was stored. *)
Definition Put (scope key : string) (resp : CachedResponse) : M unit :=
  if negb (RedisEnabled cfg) then mret tt
  else
    n ← next_tick;
    match redis_fault n with
    | Some (stored, _) =>
        (if stored : bool then redis_set (cacheKey scope key) (encode resp) else mret tt);;
        redis_op "idem_put" "error"
    | None => redis_set (cacheKey scope key) (encode resp);; redis_op "idem_put" "ok"
    end.
End cache.

(** ** Keys *)

Definition colon_free (s : string) : bool := string_forallb (λ c, negb (Ascii.eqb c ":")) s.

(** Different requests have different cache keys, for scopes without a colon. *)
Lemma cacheKey_inj s k s' k' :
  colon_free s = true → colon_free s' = true → cacheKey s k = cacheKey s' k' → s = s' ∧ k = k'.
Proof.
  intros Hs Hs' E%app_cancel_l.
  assert (∀ a b, a +:+ ":" +:+ b = a +:+ String ":" b) as Hc by done.
  rewrite !Hc in E.
  pose proof (Cut_app ":" s k Hs) as C. rewrite E, (Cut_app ":" s' k' Hs') in C. naive_solver.
Qed.
