(* ===== verification/Outbox.v ===== *)
(** [internal/outbox/repo.go]: the rows of [outbox_events], claimed, published,
    retried and dead-lettered. *)
From S2P Require Import Prelude GoStrings Json Apperr Failpoint Schema Monad World Storage Idempotency Event.
Local Open Scope Z_scope.

(** The Go struct [outbox.Record]. *)
Record OutboxRecord := mkOutboxRecord {
  ID : string;
  RTopic : string;
  REventType : string;
  AggregateID : string;
  PartitionKey : string;
  Payload : json;
  RHeaders : gmap string string;
  Status : outbox_status;
  Attempts : Z;
  LastError : string;
  NextAttemptAt : Z;
  CreatedAt : Z;
}.

(** [truncate]: at most [n] bytes. *)
Definition truncate (s : string) (n : nat) : string :=
  if (String.length s <=? n)%nat then s else take_bytes n s.

(** [scanRecord]. *)
Definition scanRecord (id : string) (o : outbox_row) : OutboxRecord :=
  mkOutboxRecord id (o_topic o) (o_event_type o) (o_aggregate_id o) (o_partition_key o)
    (o_payload o) (o_headers o) (o_status o) (o_attempts o) (default "" (o_last_error o))
    (o_next_attempt_at o) (o_created_at o).

(** [ORDER BY created_at, id]. *)
Definition created_le (p q : string * outbox_row) : Prop :=
  o_created_at p.2 < o_created_at q.2 ∨
  (o_created_at p.2 = o_created_at q.2 ∧ String.le p.1 q.1).
#[export] Instance created_le_dec p q : Decision (created_le p q).
Proof. unfold created_le. apply _. Defined.

Definition by_created (l : list (string * outbox_row)) : list (string * outbox_row) :=
  merge_sort created_le l.

(** [LIMIT n]. *)
Definition limit {A} (n : Z) (l : list A) : pg (list A) :=
  if n <? 0 then PgErr (mkPgError "2201W" "" "LIMIT must not be negative")
  else PgOk (take (Z.to_nat n) l).

(** The WHERE clause of the claim query. *)
Definition claimable (now ttl : Z) (o : outbox_row) : bool :=
  (bool_decide (o_status o = OPending) || bool_decide (o_status o = OPublishing)) &&
  (o_next_attempt_at o <=? now) &&
  (bool_decide (o_status o = OPending) ||
   match o_claimed_at o with
   | None => true
   | Some t => t <? now - ttl
   end).

Definition claim_row (workerID : string) (now : Z) (o : outbox_row) : outbox_row :=
  OutboxRow (o_topic o) (o_event_type o) (o_aggregate_id o) (o_partition_key o) (o_payload o)
    (o_headers o) OPublishing (o_attempts o) (o_last_error o) (Some workerID) (Some now)
    (o_next_attempt_at o) (o_published_at o) (o_created_at o).

Definition publish_row (now : Z) (o : outbox_row) : outbox_row :=
  OutboxRow (o_topic o) (o_event_type o) (o_aggregate_id o) (o_partition_key o) (o_payload o)
    (o_headers o) OPublished (o_attempts o + 1) None None None
    (o_next_attempt_at o) (Some now) (o_created_at o).

Definition fail_row (cause : string) (backoff maxAttempts now : Z) (o : outbox_row) : outbox_row :=
  OutboxRow (o_topic o) (o_event_type o) (o_aggregate_id o) (o_partition_key o) (o_payload o)
    (o_headers o) (if maxAttempts <=? o_attempts o + 1 then ODeadLetter else OPending)
    (o_attempts o + 1) (Some cause) None None (now + backoff) (o_published_at o) (o_created_at o).

(** The transaction-ID and time-range filter of a replay. *)
Definition replay_match (transactionID : string) (from to : option Z) (o : outbox_row) : bool :=
  (String.eqb transactionID "" || String.eqb (o_aggregate_id o) transactionID) &&
  match from with None => true | Some t => t <=? o_created_at o end &&
  match to with None => true | Some t => o_created_at o <=? t end.

Section outbox.
Context `{Ext}.

Definition sql_insert (rec : OutboxRecord) (now : Z) (db : DB) : pg (unit * DB) :=
  id ← as_uuid (ID rec);
  db' ← exec_dml (InsertOutbox id
           (OutboxRow (RTopic rec) (REventType rec) (AggregateID rec) (PartitionKey rec)
              (Payload rec) (RHeaders rec) OPending 0 None None None now None now)) db;
  PgOk (tt, db').

(** Inside the caller's transaction. *)
Definition Insert (rec : OutboxRecord) : M unit :=
  map_err (λ err, EFmt "outbox: insert: " (Some err) "") (sql (sql_insert rec)).

(** The ids the subquery locks, in the order it finds them; SKIP LOCKED leaves out the
    rows that other sessions have locked. *)
Definition claimed_ids (locked : list string) (db : DB) (now n ttl : Z) : pg (list string) :=
  rows ← limit n (by_created (map_to_list
           (filter (λ p, p.1 ∉ locked ∧ claimable now ttl p.2 = true) (outbox_events db))));
  PgOk rows.*1.

(** UPDATE ... FROM claimed: one row after the other. *)
Fixpoint claim_all (workerID : string) (now : Z) (ids : list string) (db : DB) : pg DB :=
  match ids with
  | [] => PgOk db
  | id :: ids =>
      match outbox_events db !! id with
      | None => claim_all workerID now ids db
      | Some o =>
          db' ← exec_dml (UpdateOutbox id (claim_row workerID now o)) db;
          claim_all workerID now ids db'
      end
  end.

(** [RETURNING]: the updated rows, in an order SQL leaves open. On its own the
    statement finds no row locked; [claim_step] is what happens among others. *)
Definition sql_claim_batch (workerID : string) (n ttl : Z) (tick : nat) (now : Z) (db : DB)
    : pg (list OutboxRecord * DB) :=
  ids ← claimed_ids [] db now n ttl;
  db' ← claim_all workerID now ids db;
  PgOk (omap (λ id, scanRecord id <$> outbox_events db' !! id) (returning_order tick ids), db').

Definition ClaimBatch (workerID : string) (n ttl : Z) : M (list OutboxRecord) :=
  tick ← gets w_tick;
  map_err (λ err, EFmt "outbox: claim: " (Some err) "")
    (pool_sql (sql_claim_batch workerID n ttl tick)).

Definition sql_mark_published (id : string) (now : Z) (db : DB) : pg (unit * DB) :=
  id ← as_uuid id;
  match outbox_events db !! id with
  | None => PgOk (tt, db)
  | Some o =>
      if decide (o_status o = OPublished) then PgOk (tt, db)
      else db' ← exec_dml (UpdateOutbox id (publish_row now o)) db; PgOk (tt, db')
  end.

Definition MarkPublished (id : string) : M unit :=
  map_err (λ err, EFmt "outbox: mark published: " (Some err) "")
    (pool_sql (sql_mark_published id)).

(** [None] when no row was updated. *)
Definition sql_mark_failed (id cause : string) (backoff maxAttempts now : Z) (db : DB)
    : pg (option (Z * outbox_status) * DB) :=
  id ← as_uuid id;
  match outbox_events db !! id with
  | None => PgOk (None, db)
  | Some o =>
      let o' := fail_row cause backoff maxAttempts now o in
      db' ← exec_dml (UpdateOutbox id o') db;
      PgOk (Some (o_attempts o', o_status o'), db')
  end.

Definition MarkFailed (id cause : string) (backoff maxAttempts : Z) : M (Z * bool) :=
  map_err (λ err, EFmt "outbox: mark failed: " (Some err) "")
    (r ← pool_sql (sql_mark_failed id (truncate cause 2000) backoff maxAttempts);
     '(attempts, status) ← or_throw ENoRows r;
     mret (attempts, bool_decide (status = ODeadLetter))).

Definition Backlog : M Z :=
  map_err (λ err, EFmt "outbox: backlog: " (Some err) "")
    (query (λ db, PgOk (Z.of_nat (size
      (filter (λ p, o_status p.2 = OPending ∨ o_status p.2 = OPublishing)
         (outbox_events db)))))).

(** A missing row is the bare [pgx.ErrNoRows]. *)
Definition Get (id : string) : M OutboxRecord :=
  o ← map_err (λ err, EFmt "outbox: get: " (Some err) "")
        (query (λ db, id ← as_uuid id; PgOk (pair id <$> outbox_events db !! id)));
  '(id, row) ← or_throw ENoRows o;
  mret (scanRecord id row).

Definition ListForReplay (transactionID : string) (from to : option Z) (n : Z)
    : M (list OutboxRecord) :=
  map_err (λ err, EFmt "outbox: list for replay: " (Some err) "")
    (query (λ db,
       guard_pg (text_ok transactionID) invalid_text;;
       rows ← limit n (by_created (map_to_list
         (filter (λ p, replay_match transactionID from to p.2 = true) (outbox_events db))));
       PgOk (map (λ p, scanRecord p.1 p.2) rows))).
End outbox.

(** * Claims among other sessions *)

(** A claim statement under way: the rows of [fl_ids] are locked until it ends. *)
Record flight := mkFlight {
  fl_worker : string;
  fl_now : Z;
  fl_ttl : Z;
  fl_ids : list string;
}.

(** What is committed, the claims under way by session, and the events handed out:
    to which worker, and when it claimed them. *)
Record claims := mkClaims {
  cl_db : DB;
  cl_flights : gmap nat flight;
  cl_held : gmap string (string * Z);
}.

Definition locked_ids (s : claims) : list string :=
  concat (fl_ids <$> (map_to_list (cl_flights s)).*2).

Definition hand_out (f : flight) (held : gmap string (string * Z)) : gmap string (string * Z) :=
  foldr (λ id h, <[id := (fl_worker f, fl_now f)]> h) held (fl_ids f).

(** Since when a row is claimed. *)
Definition claimed_since (db : DB) (id : string) : option Z :=
  o ← outbox_events db !! id; if decide (o_status o = OPublishing) then o_claimed_at o else None.

(** The subquery locks its rows, then the UPDATE commits, or the statement fails. Other
    sessions may write whatever is not locked; an event is held until a write ends
    its claim, as [MarkPublished] and [MarkFailed] do. *)
Inductive claim_step : claims → claims → Prop :=
  | claim_locks s i wid n ttl now ids :
      cl_flights s !! i = None →
      claimed_ids (locked_ids s) (cl_db s) now n ttl = PgOk ids →
      claim_step s (mkClaims (cl_db s) (<[i := mkFlight wid now ttl ids]> (cl_flights s)) (cl_held s))
  | claim_commits s i f db :
      cl_flights s !! i = Some f →
      claim_all (fl_worker f) (fl_now f) (fl_ids f) (cl_db s) = PgOk db →
      claim_step s (mkClaims db (delete i (cl_flights s)) (hand_out f (cl_held s)))
  | claim_fails s i :
      claim_step s (mkClaims (cl_db s) (delete i (cl_flights s)) (cl_held s))
  | other_writes s db :
      (∀ id, id ∈ locked_ids s → outbox_events db !! id = outbox_events (cl_db s) !! id) →
      claim_step s (mkClaims db (cl_flights s)
        (filter (λ p, claimed_since db p.1 = Some p.2.2) (cl_held s))).
