(* ===== verification/LedgerModel.v ===== *)
(** [internal/ledger/model.go]: the ledger's data, its commands and their
    validation, and the JSON documents a response carries. *)
From S2P Require Import Prelude GoStrings Json Apperr.
Local Open Scope Z_scope.

Definition KindUser := "user".
Definition KindSystem := "system".
Definition TxKindTransfer := "transfer".
Definition TxKindFunding := "funding".
Definition TxKindReversal := "reversal".
Definition EventPaymentCreated := "payment.created".
Definition EventPaymentReversed := "payment.reversed".
Definition EventPaymentFailed := "payment.failed".

Record Account := mkAccount {
  AccID : string;
  AccCurrency : string;
  AccKind : string;
  AllowOverdraft : bool;
  AccMetadata : gmap string json;
  AccCreatedAt : Z;
}.

Record Balance := mkBalance {
  BalAccountID : string;
  BalAmount : Z;
  BalCurrency : string;
  BalVersion : Z;
  BalUpdatedAt : Z;
}.

Record Entry := mkEntry {
  EntID : string;
  EntTransactionID : string;
  EntAccountID : string;
  EntAmount : Z;
  EntCurrency : string;
  EntSeq : Z;
  EntCreatedAt : Z;
}.

Record Transaction := mkTransaction {
  TxID : string;
  TxKind : string;
  TxCurrency : string;
  TxDescription : string;
  ExternalReference : option string;
  ReversesTransactionID : option string;
  ReversedByTransactionID : option string;
  TxCreatedAt : Z;
  Entries : list Entry;
}.

(** [int64] addition, entry after entry. *)
Definition Sum (t : Transaction) : Z :=
  foldl (λ total e, (total +64 EntAmount e)%go) 0 (Entries t).

(** * Commands *)

(** The idempotency scope, key and request hash a command carries. *)
Record Idem := mkIdem {
  IdempotencyScope : string;
  IdempotencyKey : string;
  IdemRequestHash : string;
}.

Record CreateAccountCommand := mkCreateAccount {
  CaID : string;
  CaCurrency : string;
  CaKind : string;
  CaAllowOverdraft : bool;
  CaMetadata : option (gmap string json);
  CaIdem : Idem;
}.

Record TransferCommand := mkTransfer {
  SourceAccountID : string;
  DestinationAccountID : string;
  Amount : Z;
  Currency : string;
  Description : string;
  TrExternalReference : string;
  TrIdem : Idem;
}.

Record ReverseCommand := mkReverse {
  RvTransactionID : string;
  Reason : string;
  RvIdem : Idem;
}.

(** * Validation *)

(** [^[A-Z]{3}$]. *)
Definition currencyRe (s : string) : bool :=
  (String.length s =? 3)%nat && string_forallb is_upper s.

(** The class [[A-Za-z0-9._:-]]. *)
Definition account_id_char (c : ascii) : bool :=
  is_alnum c || existsb (Ascii.eqb c) ["."; "_"; ":"; "-"]%char.

(** [^[A-Za-z0-9][A-Za-z0-9._:-]{0,127}$]. *)
Definition accountIDRe (s : string) : bool :=
  match s with
  | EmptyString => false
  | String c s' => is_alnum c && (String.length s' <=? 127)%nat && string_forallb account_id_char s'
  end.

Definition accountIDRe_String := "^[A-Za-z0-9][A-Za-z0-9._:-]{0,127}$".

Definition currency_message := "currency must be a 3-letter uppercase ISO 4217 code".

Definition ValidateCreateAccount (c : CreateAccountCommand) : option Error :=
  if negb (accountIDRe (CaID c)) then
    Some (InvalidRequest "id must match %s" [AStr accountIDRe_String])
  else if negb (currencyRe (CaCurrency c)) then Some (InvalidRequest currency_message [])
  else if negb (String.eqb (CaKind c) KindUser) && negb (String.eqb (CaKind c) KindSystem) then
    Some (InvalidRequest "kind must be %q or %q" [AStr KindUser; AStr KindSystem])
  else if CaAllowOverdraft c && negb (String.eqb (CaKind c) KindSystem) then
    Some (InvalidRequest "only system accounts may allow overdraft" [])
  else None.

Definition ValidateTransfer (c : TransferCommand) : option Error :=
  if String.eqb (SourceAccountID c) "" || String.eqb (DestinationAccountID c) "" then
    Some (InvalidRequest "source_account_id and destination_account_id are required" [])
  else if String.eqb (SourceAccountID c) (DestinationAccountID c) then
    Some (InvalidRequest "source_account_id and destination_account_id must differ" [])
  else if Amount c <=? 0 then
    Some (InvalidRequest "amount must be a positive integer in minor units" [])
  else if negb (currencyRe (Currency c)) then Some (InvalidRequest currency_message [])
  else if (512 <? String.length (Description c))%nat then
    Some (InvalidRequest "description must be at most 512 characters" [])
  else if (256 <? String.length (TrExternalReference c))%nat then
    Some (InvalidRequest "external_reference must be at most 256 characters" [])
  else None.

(** * JSON *)

(** A Go map is encoded with its keys in order. *)
Definition key_le (p q : string * json) : Prop := String.le p.1 q.1.
#[export] Instance key_le_dec p q : Decision (key_le p q).
Proof. unfold key_le. apply _. Defined.

Definition marshal_map (m : gmap string json) : json :=
  JObj (merge_sort key_le (map_to_list m)).

Definition marshal_Account (a : Account) : json :=
  JObj [("id", JStr (AccID a));
        ("currency", JStr (AccCurrency a));
        ("kind", JStr (AccKind a));
        ("allow_overdraft", JBool (AllowOverdraft a));
        ("metadata", marshal_map (AccMetadata a));
        ("created_at", JTime (AccCreatedAt a))].

Definition marshal_Entry (e : Entry) : json :=
  JObj [("id", JStr (EntID e));
        ("transaction_id", JStr (EntTransactionID e));
        ("account_id", JStr (EntAccountID e));
        ("amount", JNum (EntAmount e));
        ("currency", JStr (EntCurrency e));
        ("seq", JNum (EntSeq e));
        ("created_at", JTime (EntCreatedAt e))].

(** A nil slice is encoded as null. *)
Definition marshal_entries (es : list Entry) : json :=
  match es with [] => JNull | _ => JArr (marshal_Entry <$> es) end.

Record EntryPage := mkEntryPage {
  PageEntries : list Entry;
  NextCursor : string;
}.

Definition marshal_EntryPage (p : EntryPage) : json :=
  JObj ([("entries", JArr (marshal_Entry <$> PageEntries p))] ++ omit_str "next_cursor" (NextCursor p)).

Definition marshal_Transaction (t : Transaction) : json :=
  JObj ([("id", JStr (TxID t));
         ("kind", JStr (TxKind t));
         ("currency", JStr (TxCurrency t));
         ("description", JStr (TxDescription t))]
        ++ omit_ptr "external_reference" (JStr <$> ExternalReference t)
        ++ omit_ptr "reverses_transaction_id" (JStr <$> ReversesTransactionID t)
        ++ omit_ptr "reversed_by_transaction_id" (JStr <$> ReversedByTransactionID t)
        ++ [("created_at", JTime (TxCreatedAt t));
            ("entries", marshal_entries (Entries t))]).

(** * Lemmas *)

(** [Sum] is the sum of the amounts, modulo 2^64. *)
Lemma foldl_sum_wrap es z :
  foldl (λ total e, (total +64 EntAmount e)%go) (wrap64 z) es
    = wrap64 (z + sum_with EntAmount es).
Proof.
  revert z. induction es as [|e es IH]; intros z; simpl.
  - rewrite sum_with_nil. f_equal. lia.
  - rewrite wrap64_add_l, IH, sum_with_cons. f_equal. lia.
Qed.

Lemma Sum_wrap t : Sum t = wrap64 (sum_with EntAmount (Entries t)).
Proof. exact (foldl_sum_wrap (Entries t) 0). Qed.

(** The checks a validated transfer has passed. *)
Lemma ValidateTransfer_None c :
  ValidateTransfer c = None ↔
    SourceAccountID c ≠ "" ∧ DestinationAccountID c ≠ "" ∧
    SourceAccountID c ≠ DestinationAccountID c ∧ 0 < Amount c ∧
    currencyRe (Currency c) = true ∧
    (String.length (Description c) ≤ 512)%nat ∧
    (String.length (TrExternalReference c) ≤ 256)%nat.
Proof.
  unfold ValidateTransfer.
  destruct (String.eqb_spec (SourceAccountID c) "");
    destruct (String.eqb_spec (DestinationAccountID c) ""); simpl; try naive_solver.
  destruct (String.eqb_spec (SourceAccountID c) (DestinationAccountID c)); [naive_solver|].
  destruct (Z.leb_spec (Amount c) 0); [naive_solver lia|].
  destruct (currencyRe (Currency c)); simpl; [|naive_solver].
  destruct (Nat.ltb_spec 512 (String.length (Description c))); [naive_solver lia|].
  destruct (Nat.ltb_spec 256 (String.length (TrExternalReference c))); naive_solver lia.
Qed.

(** Every refusal is an invalid request, with no cause. *)
Lemma ValidateTransfer_code c e :
  ValidateTransfer c = Some e → ErrCode e = CodeInvalidRequest ∧ Details e = ∅ ∧ cause e = None.
Proof. unfold ValidateTransfer. repeat case_match; naive_solver. Qed.
