(* ===== verification/Http.v ===== *)
(** HTTP requests and responses as [internal/api] reads and writes them: the
    request, the routing of [net/http], the response writer, the strict JSON decoding
    of bodies, and the error envelope of [server.go]. *)
From S2P Require Import Prelude GoStrings GoTime GoFloat Json Apperr Failpoint Schema Monad World LedgerModel.
Local Open Scope Z_scope.

(** What reading the body and scanning its first JSON value gives; the text of a
    syntax error comes from [encoding/json]. *)
Inductive request_body :=
  | BodyUnreadable
  | BodyMalformed (err : string)
  | BodyJSON (j : json).

(** Absent headers, path values and query parameters read as the empty string. *)
Record Request := mkRequest {
  Method : string;
  HeaderGet : string → string;
  PathValue : string → string;
  QueryGet : string → string;
  ContentLength : Z;
  RqBody : request_body;
  RemoteAddr : string;
  rq_ctx : Ctx;
}.

Definition WithContext (r : Request) (ctx : Ctx) : Request :=
  mkRequest (Method r) (HeaderGet r) (PathValue r) (QueryGet r) (ContentLength r) (RqBody r)
    (RemoteAddr r) ctx.

Definition HeaderRequestID := "X-Request-Id".
Definition HeaderCorrelationID := "X-Correlation-Id".
Definition HeaderIdempotencyKey := "Idempotency-Key".
Definition HeaderFailpoint := "X-Failpoint".
Definition HeaderIdempotentHit := "X-Idempotent-Replay".

(** * Routing: [http.ServeMux] *)

(** ** Patterns *)

Inductive segment := Literal (text : string) | Wildcard (name : string).

Definition slash : ascii := "/"%char.

Definition segment_of (s : string) : segment :=
  match s with
  | String "{" name => Wildcard (TrimSuffix name "}")
  | _ => Literal s
  end.

(** The method and the segments of a pattern. *)
Definition parsePattern (p : string) : string * list segment :=
  match Cut " "%char p with
  | Some (method, String _ path) => (method, map segment_of (Split slash path))
  | _ => ("", [])
  end.

(** ** Paths *)

Definition unhex (c : ascii) : option N :=
  let n := Ascii.N_of_ascii c in
  (if (48 <=? n) && (n <=? 57) then Some (n - 48)
   else if (97 <=? n) && (n <=? 102) then Some (n - 87)
   else if (65 <=? n) && (n <=? 70) then Some (n - 55)
   else None)%N.

(** [url.PathUnescape]. *)
Fixpoint PathUnescape (s : string) : option string :=
  match s with
  | EmptyString => Some ""
  | String "%" (String a (String b s)) =>
      x ← unhex a; y ← unhex b; String (Ascii.ascii_of_N (16 * x + y)) <$> PathUnescape s
  | String "%" _ => None
  | String c s => String c <$> PathUnescape s
  end.

(** A piece that cannot be decoded stands for itself. *)
Definition pathUnescape (s : string) : string := default s (PathUnescape s).

(** The segments of a path; a slash at its end is one of them. *)
Fixpoint segments (pieces : list string) : list string :=
  match pieces with
  | [] => []
  | [p] => [if String.eqb p "" then "/" else pathUnescape p]
  | p :: ps => pathUnescape p :: segments ps
  end.

Definition path_segments (path : string) : list string :=
  match path with
  | EmptyString => []
  | String _ rest => segments (Split slash rest)
  end.

(** [path.Clean] on the pieces of a rooted path; those kept so far are in reverse. *)
Fixpoint clean_pieces (kept pieces : list string) : list string :=
  match pieces with
  | [] => reverse kept
  | p :: ps =>
      if String.eqb p "" || String.eqb p "." then clean_pieces kept ps
      else if String.eqb p ".." then clean_pieces (tail kept) ps
      else clean_pieces (p :: kept) ps
  end.

Definition join (pieces : list string) : string := "/" +:+ String.concat "/" pieces.

(** [cleanPath]: a trailing slash is put back. *)
Definition cleanPath (p : string) : string :=
  let rest := match p with String "/" rest => rest | _ => p end in
  let np := join (clean_pieces [] (Split slash rest)) in
  if HasSuffix ("/" +:+ rest) "/" && negb (String.eqb np "/") then np +:+ "/" else np.

(** ** Matching *)

(** The values of the wildcards; a wildcard does not match a trailing slash. *)
Fixpoint match_segments (pattern : list segment) (path : list string)
    : option (list (string * string)) :=
  match pattern, path with
  | [], [] => Some []
  | Literal text :: pattern, s :: path =>
      if String.eqb text s then match_segments pattern path else None
  | Wildcard name :: pattern, s :: path =>
      if String.eqb s "/" then None else cons (name, s) <$> match_segments pattern path
  | _, _ => None
  end.

Definition matches (method path pattern : string) : option (list (string * string)) :=
  let '(m, segs) := parsePattern pattern in
  if String.eqb m method then match_segments segs (path_segments path) else None.

(** A table of patterns leads to targets of any type. *)
Section tables.
Context {T : Type}.

(** A table has at most one pattern that matches ([HttpFacts.one_route]). *)
Fixpoint find_route (rs : list (string * T)) (method path : string)
    : option (T * list (string * string)) :=
  match rs with
  | [] => None
  | (pattern, t) :: rs =>
      match matches method path pattern with
      | Some vals => Some (t, vals)
      | None => find_route rs method path
      end
  end.

(** GET patterns serve HEAD requests too. *)
Definition match_route (rs : list (string * T)) (method path : string)
    : option (T * list (string * string)) :=
  match find_route rs method path with
  | Some m => Some m
  | None => if String.eqb method "HEAD" then find_route rs "GET" path else None
  end.

(** The methods under which the path is served, sorted. *)
Definition allowed_methods (rs : list (string * T)) (path : string) : list string :=
  List.filter (λ m, match match_route rs m path with Some _ => true | None => false end)
    ["DELETE"; "GET"; "HEAD"; "POST"].

Inductive routed :=
  | BadRequestURI
  | MovedTo (path : string)
  | RoutedTo (t : T) (vals : list (string * string))
  | NotAllowed (methods : list string)
  | Unmatched.

(** [mux.findHandler] for an escaped path. No pattern ends in a slash, so that none
    is tried with one added. *)
Definition dispatch (rs : list (string * T)) (method escaped : string) : routed :=
  if String.eqb escaped "*" then BadRequestURI
  else
    let path := if String.eqb method "CONNECT" then escaped else cleanPath escaped in
    if negb (String.eqb path escaped) then MovedTo path
    else match match_route rs method path with
         | Some (t, vals) => RoutedTo t vals
         | None =>
             match allowed_methods rs path with
             | [] => Unmatched
             | methods => NotAllowed methods
             end
         end.

End tables.
Arguments routed : clear implicits.
Arguments BadRequestURI {_}.
Arguments MovedTo {_} path.
Arguments NotAllowed {_} methods.
Arguments Unmatched {_}.

(** ** Paths for clients *)

Definition unreserved (c : ascii) : bool :=
  is_alnum c || existsb (Ascii.eqb c) ["-"; "_"; "."; "~"; "$"; "&"; "+"; "="; ":"; "@"]%char.

Definition hex_upper (n : N) : ascii := Ascii.ascii_of_N (if (n <? 10)%N then 48 + n else 55 + n)%N.

(** [url.PathEscape]. *)
Fixpoint PathEscape (s : string) : string :=
  match s with
  | EmptyString => ""
  | String c s =>
      if unreserved c then String c (PathEscape s)
      else let n := Ascii.N_of_ascii c in
           String "%" (String (hex_upper (n / 16)) (String (hex_upper (n mod 16)) (PathEscape s)))
  end.

(** The path of a pattern with an identifier for its wildcards, and the values the
    handler then finds. *)
Definition segment_path (id : string) (s : segment) : string :=
  match s with Literal text => text | Wildcard _ => PathEscape id end.
Definition url_of (pattern id : string) : string :=
  join (map (segment_path id) (parsePattern pattern).2).
Definition path_values (segs : list segment) (id : string) : list (string * string) :=
  omap (λ s, match s with Literal _ => None | Wildcard name => Some (name, id) end) segs.

Definition set_path_values (vals : list (string * string)) (r : Request) : Request :=
  mkRequest (Method r) (HeaderGet r)
    (λ name, default "" (snd <$> find (λ v, String.eqb v.1 name) vals))
    (QueryGet r) (ContentLength r) (RqBody r) (RemoteAddr r) (rq_ctx r).

(** * Decoding with [DisallowUnknownFields] *)

(** Storing a value in a field: done, an error that is saved while decoding goes
    on, or an error that ends it. *)
Inductive stored (S : Type) :=
  | Stored (s : S)
  | Saved (err : string)
  | Fatal (err : string).
Arguments Stored {_} s.
Arguments Saved {_} err.
Arguments Fatal {_} err.

Definition struct_field (S : Type) : Type := string * (json → S → stored S).

(** The names [encoding/json] gives kinds of values. *)
Definition value_name (j : json) : string :=
  match j with
  | JNull => "null"
  | JBool _ => "bool"
  | JNum _ => "number"
  | JStr _ | JTime _ => "string"
  | JArr _ => "array"
  | JObj _ => "object"
  end.

Definition type_error (value struct key type : string) : string :=
  "json: cannot unmarshal " +:+ value +:+ " into Go struct field " +:+ struct +:+ "." +:+ key
  +:+ " of type " +:+ type.

(** A value decoded into [any] and written again: numbers are [float64], the keys
    of an object are unique and sorted. *)
Fixpoint any_value (j : json) : json :=
  match j with
  | JNum z => JNum (round z)
  | JArr l => JArr (List.map any_value l)
  | JObj o => marshal_map (list_to_map (reverse (List.map (λ p, (p.1, any_value p.2)) o)))
  | _ => j
  end.

Section fields.
Context {S : Type} (struct key : string).

Definition mismatch {A} (j : json) (type : string) : stored A :=
  Saved (type_error (value_name j) struct key type).

Definition string_field (set : string → S → S) : struct_field S :=
  (key, λ j s, match j with
               | JNull => Stored s
               | JStr v => Stored (set v s)
               | JTime t => Stored (set (RFC3339Nano t) s)
               | _ => mismatch j "string"
               end).

Definition int_field (type : string) (set : Z → S → S) : struct_field S :=
  (key, λ j s, match j with
               | JNull => Stored s
               | JNum z => if in_int64 z then Stored (set z s)
                           else Saved (type_error ("number " +:+ Itoa z) struct key type)
               | _ => mismatch j type
               end).

Definition bool_field (set : bool → S → S) : struct_field S :=
  (key, λ j s, match j with
               | JNull => Stored s
               | JBool b => Stored (set b s)
               | _ => mismatch j "bool"
               end).

(** A map that is already there is added to. *)
Definition map_field (get : S → option (gmap string json))
    (set : option (gmap string json) → S → S) : struct_field S :=
  (key, λ j s, match j with
               | JNull => Stored (set None s)
               | JObj o =>
                   Stored (set (Some (foldl (λ m p, <[p.1 := any_value p.2]> m)
                                        (default ∅ (get s)) o)) s)
               | _ => mismatch j "map[string]interface {}"
               end).

Definition time_field `{Ext} (set : option Z → S → S) : struct_field S :=
  (key, λ j s, match j with
               | JNull => Stored (set None s)
               | JTime t => Stored (set (Some t) s)
               | _ => Fatal (time_error_text j)
               end).
End fields.

Section decoding.
Context {S : Type}.

(** The exact name, or the name ignoring case. *)
Fixpoint find_field (k : string) (fs : list (struct_field S)) : option (json → S → stored S) :=
  match fs with
  | [] => None
  | (k', set) :: fs => if fold_eq k' k then Some set else find_field k fs
  end.

(** Go through the object in order; the first saved error is reported at the
    end. *)
Fixpoint decode_fields (fs : list (struct_field S)) (o : list (string * json)) (s : S)
    (saved : option string) : string + S :=
  match o with
  | [] => match saved with Some err => inl err | None => inr s end
  | (k, v) :: o =>
      match find_field k fs with
      | None =>
          decode_fields fs o s (Some (default (Sprintf "json: unknown field %q" [AStr k]) saved))
      | Some set =>
          match set v s with
          | Stored s' => decode_fields fs o s' saved
          | Saved err => decode_fields fs o s (Some (default err saved))
          | Fatal err => inl err
          end
      end
  end.

Definition decode_struct (type : string) (fs : list (struct_field S)) (zero : S) (j : json)
    : string + S :=
  match j with
  | JNull => inr zero
  | JObj o => decode_fields fs o zero None
  | _ => inl ("json: cannot unmarshal " +:+ value_name j +:+ " into Go value of type " +:+ type)
  end.

Definition decodeJSON (type : string) (fs : list (struct_field S)) (zero : S) (r : Request)
    : Error + S :=
  match RqBody r with
  | BodyUnreadable => inl (InvalidRequest "could not read request body" [])
  | BodyMalformed err => inl (InvalidRequest "malformed JSON body: %s" [AStr err])
  | BodyJSON j =>
      match decode_struct type fs zero j with
      | inl err => inl (InvalidRequest "malformed JSON body: %s" [AStr err])
      | inr s => inr s
      end
  end.
End decoding.

(** * Writing the response *)

Section writing.
Context `{Ext}.

Definition on_resp (f : ResponseWriter → ResponseWriter) : M unit :=
  modify (λ w, set_resp (f (w_resp w)) w).

(** [w.Header().Set]: later calls are lost once the header is written. *)
Definition SetHeader (name value : string) : M unit :=
  on_resp (λ rw, match rw_status rw with
                 | None => mkResponse (<[name := value]> (rw_header rw)) None (rw_body rw) (rw_code rw)
                 | Some _ => rw
                 end).

(** Only the first call counts; [net/http] panics on a code that is not one. *)
Definition WriteHeader (status : Z) : M unit := λ w,
  match rw_status (w_resp w) with
  | Some _ => (Ok tt, w)
  | None =>
      if (status <? 100) || (999 <? status)
      then (Panic ("invalid WriteHeader code " +:+ Itoa status), w)
      else on_resp (λ rw, mkResponse (rw_header rw) (Some status) (rw_body rw) (rw_code rw)) w
  end.

Definition Write (body : json) : M unit :=
  on_resp (λ rw, mkResponse (rw_header rw) (Some (default 200 (rw_status rw)))
                   (rw_body rw ++ [body]) (rw_code rw)).

Definition writeJSON (status : Z) (body : json) : M unit :=
  SetHeader "Content-Type" "application/json";; WriteHeader status;; Write body.

(** A stored body; nil writes nothing. *)
Definition writeRaw (status : Z) (body : option json) : M unit :=
  SetHeader "Content-Type" "application/json";; WriteHeader status;;
  match body with Some b => Write b | None => mret tt end.

Definition marshal_errorResponse (e : Error) (requestID : string) : json :=
  JObj [("error",
    JObj ([("code", JStr (code_string (ErrCode e))); ("message", JStr (Message e))]
          ++ (if decide (Details e = ∅) then [] else [("details", marshal_map (Details e))])
          ++ omit_str "request_id" requestID))].

(** [statusRecorder] keeps the code; where there is none, nobody reads it. *)
Definition record_code (code : string) : M unit :=
  on_resp (λ rw, mkResponse (rw_header rw) (rw_status rw) (rw_body rw) code).

Definition writeError (r : Request) (err : error) : M unit :=
  match From (Some err) with
  | None => mret tt
  | Some appErr =>
      record_code (code_string (ErrCode appErr));;
      writeJSON (HTTPStatus appErr) (marshal_errorResponse appErr (RequestID (rq_ctx r)))
  end.

(** [if err != nil { s.writeError(w, r, err); return }]. *)
Definition or_error {A} (r : Request) (m : M A) (k : A → M unit) : M unit :=
  res ← try m;
  match res with
  | inl err => writeError r err
  | inr a => k a
  end.

Definition or_refuse {A} (r : Request) (res : Error + A) (k : A → M unit) : M unit :=
  match res with
  | inl e => writeError r (EApp e)
  | inr a => k a
  end.
End writing.
