(* ===== verification/RateLimit.v ===== *)
(** [internal/api/ratelimit.go]: the fixed-window limiter in Redis, and
    [clientKey] of [middleware.go]. *)
From S2P Require Import Prelude GoStrings GoTime Json Apperr Failpoint Schema Monad World Storage Idempotency Config Cache Http.
Local Open Scope Z_scope.

(** [limit] requests per [window]. A nil limiter allows everything. *)
Record RateLimiter := mkLimiter {
  rl_limit : Z;
  rl_window : Z;
}.

Definition NewRateLimiter (redis : bool) (limit window : Z) : option RateLimiter :=
  if negb redis || (limit <=? 0) then None else Some (mkLimiter limit window).

(** [time.Now().UnixNano()] for an instant counted from year 1. *)
Definition UnixNano (t : Z) : Z := wrap64 (t - 62135596800 * Second).

(** The counter of a client in the window an instant falls in. *)
Definition rate_key (l : RateLimiter) (key : string) (now : Z) : string :=
  "ledger:rl:" +:+ key +:+ ":" +:+ Duration_String (Z.quot (UnixNano now) (rl_window l)).

(** Redis's INCR: an absent key counts from zero; a value that is not an integer,
    or the largest one, is an error. *)
Definition incr (v : option json) : option Z :=
  match v with
  | None => Some 1
  | Some (JNum n) => if n <? int64_max then Some (n + 1) else None
  | Some _ => None
  end.

Section limiter.
Context `{Ext}.

(** The pipeline INCR, EXPIRE: the count, or nothing when it failed (with its
    effect or without). *)
Definition redis_incr (k : string) : M (option Z) :=
  n ← next_tick;
  v ← gets (λ w, w_redis w !! k);
  match redis_fault n, incr v with
  | None, Some c => redis_set k (JNum c);; mret (Some c)
  | None, None => mret None
  | Some (true, _), Some c => redis_set k (JNum c);; mret None
  | Some _, _ => mret None
  end.

(** May the caller proceed, and how long to wait if not. Any Redis failure lets
    it proceed. *)
Definition Allow (l : option RateLimiter) (key : string) : M (bool * Z) :=
  match l with
  | None => mret (true, 0)
  | Some l =>
      now ← Now;
      count ← redis_incr (rate_key l key now);
      match count with
      | None => redis_op "ratelimit" "error";; mret (true, 0)
      | Some count =>
          if rl_limit l <? count then redis_op "ratelimit" "hit";; mret (false, rl_window l)
          else redis_op "ratelimit" "miss";; mret (true, 0)
      end
  end.
End limiter.

Definition clientKey (r : Request) : string :=
  let key := HeaderGet r "X-Api-Key" in
  if negb (String.eqb key "") then "key:" +:+ key
  else
    let fwd := HeaderGet r "X-Forwarded-For" in
    if negb (String.eqb fwd "") then "ip:" +:+ fwd else "ip:" +:+ RemoteAddr r.
