(* ===== verification/LedgerRepo.v ===== *)
(** [internal/ledger/repo.go]: the SQL the ledger runs, inside a transaction or
    on the pool, and how its errors are translated. *)
From S2P Require Import Prelude GoStrings GoTime Base64 GoTimeParse Json Apperr Failpoint Schema Monad World Storage Idempotency LedgerModel.
Local Open Scope Z_scope.

Record lockedAccount := mkLocked {
  LkID : string;
  LkCurrency : string;
  LkKind : string;
  LkAllowOverdraft : bool;
  LkBalance : Z;
  LkVersion : Z;
}.

Definition derefString (s : option string) : string := default "" s.

(** [sort.Strings]: byte order. *)
Definition sort_Strings (l : list string) : list string := merge_sort String.le l.

(** [ORDER BY seq]. *)
Definition seq_le (e1 e2 : entry_row) : Prop := e_seq e1 ≤ e_seq e2.
#[export] Instance seq_le_dec e1 e2 : Decision (seq_le e1 e2).
Proof. unfold seq_le. apply _. Defined.

Definition entry_of_row (e : entry_row) : Entry :=
  mkEntry (e_id e) (e_transaction_id e) (e_account_id e) (e_amount e) (e_currency e)
    (e_seq e) (e_created_at e).

Definition account_of_row (id : string) (a : account_row) : Account :=
  mkAccount id (a_currency a) (a_kind a) (a_allow_overdraft a) (a_metadata a) (a_created_at a).

(** ** Cursors *)

Definition encodeCursor (ts : Z) (id : string) : string :=
  EncodeToString (RFC3339Nano ts +:+ "|" +:+ id).

(** All errors become the same answer. *)
Definition decodeCursor (cursor : string) : option (Z * string) :=
  raw ← DecodeString cursor;
  '(tsStr, id) ← Cut "|" raw;
  ts ← Parse_RFC3339Nano tsStr;
  Some (ts, id).

Definition nullUUID (id : string) : option string :=
  if String.eqb id "" then None else Some id.

(** [ORDER BY created_at DESC, id DESC]; the canonical texts of UUIDs are ordered
    like the UUIDs. *)
Definition newest_first (e1 e2 : entry_row) : Prop :=
  e_created_at e2 < e_created_at e1 ∨
  (e_created_at e1 = e_created_at e2 ∧ String.le (e_id e2) (e_id e1)).
#[export] Instance newest_first_dec e1 e2 : Decision (newest_first e1 e2).
Proof. unfold newest_first. apply _. Defined.

(** [(created_at, id) < ($2, $3)], where $3 may be NULL. *)
Definition older (ts : Z) (id : option string) (e : entry_row) : bool :=
  (e_created_at e <? ts) ||
  ((e_created_at e =? ts) && match id with Some c => String.ltb (e_id e) c | None => false end).

(** A [time.Time] bound to a [timestamptz]: whole microseconds. *)
Definition as_timestamptz (t : Z) : Z := t / Microsecond * Microsecond.

Section repo.
Context `{Ext}.

(** [QueryRow(...).Scan(...)]: no row is [pgx.ErrNoRows]. *)
Definition query_row {A} (f : DB → pg (option A)) : M A :=
  o ← query f; or_throw ENoRows o.

(** ** Balances *)

Definition select_balance (id : string) (db : DB) : pg (option lockedAccount) :=
  match balances db !! id, accounts db !! id with
  | Some b, Some a =>
      PgOk (Some (mkLocked id (a_currency a) (a_kind a) (b_allow_overdraft b)
                    (b_amount b) (b_version b)))
  | _, _ => found id None
  end.

Definition lock_balance_err (id : string) (err : error) : error :=
  if errors_Is is_ENoRows err then EApp (UnknownAccount id)
  else EFmt (Sprintf "ledger: lock balance %q: " [AStr id]) (Some err) "".

(** The loop over the ordered ids: an id already in [out] is skipped. *)
Fixpoint lock_ordered (ordered : list string) (out : gmap string lockedAccount)
    : M (gmap string lockedAccount) :=
  match ordered with
  | [] => mret out
  | id :: ordered =>
      match out !! id with
      | Some _ => lock_ordered ordered out
      | None =>
          acct ← map_err (lock_balance_err id) (query_row (select_balance id));
          acquire (RowLock id);;
          lock_ordered ordered (<[id := acct]> out)
      end
  end.

Definition lockBalances (accountIDs : list string) : M (gmap string lockedAccount) :=
  lock_ordered (sort_Strings accountIDs) ∅.

(** UPDATE balances ... RETURNING amount. *)
Definition sql_balance_delta (id : string) (delta now : Z) (db : DB) : pg (option Z * DB) :=
  match balances db !! id with
  | None => PgOk (None, db)
  | Some b =>
      db' ← exec_dml (UpdateBalance id
               (BalanceRow (b_amount b + delta) (b_allow_overdraft b) (b_version b + 1) now)) db;
      PgOk (Some (b_amount b + delta), db')
  end.

Definition balance_delta_err (id : string) (err : error) : error :=
  if IsCheckViolation err "balances_non_negative" then EApp (InsufficientFunds id)
  else if errors_Is is_ENoRows err then EApp (UnknownAccount id)
  else EFmt (Sprintf "ledger: update balance %q: " [AStr id]) (Some err) "".

Definition applyBalanceDelta (accountID : string) (delta : Z) : M Z :=
  amount ← map_err (balance_delta_err accountID)
    (o ← sql (sql_balance_delta accountID delta); or_throw ENoRows o);
  acquire (RowLock accountID);;
  mret amount.

(** ** Transactions *)

Definition already_reversed (id : string) : Error :=
  WithDetail (New CodeTransactionAlreadyReversed
                "transaction %q has already been reversed" [AStr id])
    "transaction_id" (JStr id).

Definition sql_insert_transaction (t : Transaction) (now : Z) (db : DB) : pg (unit * DB) :=
  id ← as_uuid (TxID t);
  reverses ← as_uuid_opt (ReversesTransactionID t);
  db' ← exec_dml (InsertTransaction id
           (TxRow (TxKind t) (TxCurrency t) (TxDescription t) (ExternalReference t)
                  reverses now)) db;
  PgOk (tt, db').

Definition insert_transaction_err (t : Transaction) (err : error) : error :=
  if IsUniqueViolation err "ledger_transactions_one_reversal"
  then EApp (already_reversed (derefString (ReversesTransactionID t)))
  else EFmt "ledger: insert transaction: " (Some err) "".

Definition insertTransaction (t : Transaction) : M unit :=
  map_err (insert_transaction_err t) (sql (sql_insert_transaction t)).

Definition sql_insert_entry (e : Entry) (now : Z) (db : DB) : pg (unit * DB) :=
  id ← as_uuid (EntID e);
  tid ← as_uuid (EntTransactionID e);
  db' ← exec_dml (InsertEntry
           (EntryRow id tid (EntAccountID e) (EntAmount e) (EntCurrency e) (EntSeq e) now)) db;
  PgOk (tt, db').

Definition insert_entry_err (e : Entry) (err : error) : error :=
  if IsForeignKeyViolation err then
    EApp (CurrencyMismatch "entry for account %q does not match the transaction currency %s"
            [AStr (EntAccountID e); AStr (EntCurrency e)])
  else EFmt "ledger: insert entry: " (Some err) "".

Definition insertEntries (entries : list Entry) : M unit :=
  for_each (λ e, map_err (insert_entry_err e) (sql (sql_insert_entry e))) entries.

Definition sql_insert_reversal (id originalID reversalID reason : string) (now : Z) (db : DB)
    : pg (unit * DB) :=
  id ← as_uuid id;
  o ← as_uuid originalID;
  r ← as_uuid reversalID;
  db' ← exec_dml (InsertReversal id (ReversalRow o r reason now)) db;
  PgOk (tt, db').

Definition insertReversalRecord (id originalID reversalID reason : string) : M unit :=
  map_err (λ err,
      if IsUniqueViolation err "" then EApp (already_reversed originalID)
      else EFmt "ledger: insert reversal: " (Some err) "")
    (sql (sql_insert_reversal id originalID reversalID reason)).

(** The header, with the scalar subquery for the transaction reversing it. *)
Definition select_transaction (id : string) (db : DB)
    : pg (option (string * tx_row * option string)) :=
  c ← as_uuid id;
  match ledger_transactions db !! c with
  | None => PgOk None
  | Some t =>
      match reversals_of (ledger_transactions db) c with
      | [] => PgOk (Some (c, t, None))
      | [r] => PgOk (Some (c, t, Some r))
      | _ => PgErr (mkPgError "21000" "" "more than one row returned by a subquery")
      end
  end.

Definition select_entries (id : string) (db : DB) : pg (list Entry) :=
  c ← as_uuid id;
  PgOk (map entry_of_row (merge_sort seq_le (entries_of c (ledger_entries db)))).

Definition transaction_not_found (id : string) : Error :=
  WithDetail (New CodeTransactionNotFound "transaction %q does not exist" [AStr id])
    "transaction_id" (JStr id).

Definition load_transaction_err (id : string) (err : error) : error :=
  if errors_Is is_ENoRows err then EApp (transaction_not_found id)
  else if Contains (err_text err) "invalid input syntax for type uuid" then
    EApp (InvalidRequest "transaction id must be a UUID" [])
  else EFmt "ledger: get transaction: " (Some err) "".

Definition loadTransaction (id : string) : M Transaction :=
  '(c, t, reversedBy) ← map_err (load_transaction_err id) (query_row (select_transaction id));
  entries ← map_err (λ err, EFmt "ledger: get entries: " (Some err) "")
              (query (select_entries id));
  mret (mkTransaction c (t_kind t) (t_currency t) (t_description t) (t_external_reference t)
          (t_reverses t) reversedBy (t_created_at t) entries).

(** SELECT DISTINCT leaves the order open. *)
Definition select_accounts_of (tick : nat) (id : string) (db : DB) : pg (list string) :=
  c ← as_uuid id;
  PgOk (returning_order tick
          (remove_dups (e_account_id <$> entries_of c (ledger_entries db)))).

Definition listAccountsForTransaction (transactionID : string) : M (list string) :=
  tick ← gets w_tick;
  map_err (λ err, EFmt "ledger: list transaction accounts: " (Some err) "")
    (query (select_accounts_of tick transactionID)).

(** ** Reads on the pool *)

Definition GetAccount (id : string) : M Account :=
  a ← map_err (λ err, if errors_Is is_ENoRows err then EApp (UnknownAccount id)
                      else EFmt "ledger: get account: " (Some err) "")
        (query_row (λ db, found id (accounts db !! id)));
  mret (account_of_row id a).

Definition GetBalance (id : string) : M Balance :=
  map_err (λ err, if errors_Is is_ENoRows err then EApp (UnknownAccount id)
                  else EFmt "ledger: get balance: " (Some err) "")
    (query_row (λ db,
       match balances db !! id, accounts db !! id with
       | Some b, Some a =>
           PgOk (Some (mkBalance id (b_amount b) (a_currency a) (b_version b) (b_updated_at b)))
       | _, _ => found id None
       end)).

Definition GetTransaction (id : string) : M Transaction := loadTransaction id.

(** An account's entries before the cursor, newest first, at most [n]. *)
Definition select_history (account : string) (cursor : option (Z * string)) (n : Z) (db : DB)
    : pg (list entry_row) :=
  before ← match cursor with
           | None => PgOk (λ _, true)
           | Some (ts, id) =>
               c ← as_uuid_opt (nullUUID id);
               PgOk (older (as_timestamptz ts) c)
           end;
  PgOk (take (Z.to_nat n) (merge_sort newest_first
    (List.filter (λ e, String.eqb (e_account_id e) account && before e) (ledger_entries db)))).

(** The query is sent, then its rows are read. *)
Definition ListEntries (accountID : string) (limit : Z) (cursor : string) : M EntryPage :=
  GetAccount accountID;;
  let limit := if (limit <=? 0) || (500 <? limit) then 100 else limit in
  cur ← (if String.eqb cursor "" then mret None
         else match decodeCursor cursor with
              | None => throw (EApp (InvalidRequest "invalid cursor" []))
              | Some c => mret (Some c)
              end);
  map_err (λ err, EFmt "ledger: list entries: " (Some err) "") (query (λ _, PgOk tt));;
  rows ← query (select_history accountID cur (limit + 1));
  let entries := map entry_of_row rows in
  mret (match entries !! Z.to_nat (limit - 1), bool_decide (limit < Z.of_nat (length entries)) with
        | Some last, true =>
            mkEntryPage (take (Z.to_nat limit) entries) (encodeCursor (EntCreatedAt last) (EntID last))
        | _, _ => mkEntryPage entries ""
        end).

(** ** The two inserts of [CreateAccount] *)

Definition sql_insert_account (id currency kind : string) (allowOverdraft : bool)
    (metadata : gmap string json) (now : Z) (db : DB) : pg (Account * DB) :=
  let row := AccountRow currency kind allowOverdraft metadata now in
  db' ← exec_dml (InsertAccount id row) db;
  PgOk (account_of_row id row, db').

Definition sql_insert_balance (id : string) (allowOverdraft : bool) (now : Z) (db : DB)
    : pg (unit * DB) :=
  db' ← exec_dml (InsertBalance id (BalanceRow 0 allowOverdraft 0 now)) db;
  PgOk (tt, db').

Definition account_exists (id : string) : Error :=
  WithDetail (New CodeAccountExists "account %q already exists" [AStr id])
    "account_id" (JStr id).
End repo.
