(* ===== verification/LedgerService.v ===== *)
(** [internal/ledger/service.go], and [CreateAccount] of [repo.go]: the use cases
    of the ledger, each one PostgreSQL transaction. *)
From S2P Require Import Prelude GoStrings Json Apperr Failpoint Schema Monad World Storage Idempotency Event Config Outbox LedgerModel LedgerRepo.
Local Open Scope Z_scope.

Record Result := mkResult {
  ResTransaction : option Transaction;
  ResStatus : Z;
  ResBody : option json;
  Replayed : bool;
}.

(** * Pure helpers *)

(** One pass of the inner loop: the element at [j] moves left while its account
    is smaller than its neighbour's. *)
Fixpoint sift (out : list Entry) (j : nat) : list Entry :=
  match j with
  | O => out
  | S j' =>
      match out !! j, out !! j' with
      | Some a, Some b =>
          if String.ltb (EntAccountID a) (EntAccountID b)
          then sift (<[j' := a]> (<[j := b]> out)) j'
          else out
      | _, _ => out
      end
  end.

(** [for i := 1; i < len(out); i++]. *)
Definition sortedEntriesByAccount (entries : list Entry) : list Entry :=
  foldl sift entries (seq 1 (length entries - 1)).

Definition entryData (entries : list Entry) : list EntryData :=
  map (λ e, mkEntryData (EntID e) (EntAccountID e) (EntAmount e) (EntCurrency e) (EntSeq e))
    entries.

Definition reversalAmount (t : Transaction) : Z :=
  foldl (λ total e, if 0 <? EntAmount e then (total +64 EntAmount e)%go else total) 0 (Entries t).

Definition reversalDescription (original : Transaction) (reason : string) : string :=
  if negb (String.eqb reason "") then
    Sprintf "Reversal of %s: %s" [AStr (TxID original); AStr reason]
  else Sprintf "Reversal of %s" [AStr (TxID original)].

Section service.
Context `{Ext} (cfg : Config).

(** [if err := s.fp.Eval(ctx, name); err != nil { return apperr.Internal(err) }]. *)
Definition ledger_failpoint (ctx : Ctx) (name : string) : M unit :=
  failpoint ctx name (λ err, EApp (Internal err)).

Definition writeOutboxEvent (ctx : Ctx) (txn : Transaction) (eventType : string)
    (data : PaymentData) : M unit :=
  eventID ← NewString;
  let envelope := mkEnvelope eventID eventType SchemaVersion (TxID txn) (TxCreatedAt txn)
                    (CorrelationID ctx) None (marshal_PaymentData data) in
  Insert (mkOutboxRecord eventID (TopicForEvent cfg eventType) eventType (TxID txn) (TxID txn)
    (marshal_Envelope envelope)
    (list_to_map [("event_type", eventType);
                  ("correlation_id", CorrelationID ctx);
                  ("schema_version", Sprintf "%d" [AInt SchemaVersion])])
    OPending 0 "" 0 0).

(** ** Replays *)

Definition replayResult (rec : IdemRecord) (requestHash key : string) : M Result :=
  if negb (String.eqb (RequestHash rec) requestHash) then throw (EApp (Conflict key))
  else if negb (bool_decide (State rec = CompletedState)) then throw (EApp (InProgress key))
  else match ITransactionID rec with
       | None => mret (mkResult None (ResponseStatus rec) (ResponseBody rec) true)
       | Some tid =>
           txn ← loadTransaction tid;
           mret (mkResult (Some txn) (ResponseStatus rec) (ResponseBody rec) true)
       end.

(** How the closures of the three commands begin: the key is locked and
    claimed, and a record that exists is replayed instead of doing the work. *)
Definition claim_or_replay (i : Idem) (work : M Result) : M Result :=
  LockKey (IdempotencyScope i) (IdempotencyKey i);;
  existing ← Claim (IdempotencyScope i) (IdempotencyKey i) (IdemRequestHash i);
  match existing with
  | Some rec => replayResult rec (IdemRequestHash i) (IdempotencyKey i)
  | None => work
  end.

(** How they end: the response is what the database stored, and the
    idempotency record keeps it. *)
Definition complete_transaction (i : Idem) (txID : string) : M Transaction :=
  stored ← loadTransaction txID;
  Complete (IdempotencyScope i) (IdempotencyKey i) 201 (marshal_Transaction stored) (Some txID);;
  mret stored.

Definition committed_result (stored : Transaction) : Result :=
  mkResult (Some stored) 201 (Some (marshal_Transaction stored)) false.

(** The postings and the balance updates, with the failpoints between. *)
Definition post_entries (ctx : Ctx) (txn : Transaction) : M unit :=
  insertTransaction txn;;
  insertEntries (Entries txn);;
  ledger_failpoint ctx AfterEntriesWritten;;
  for_each (λ e, applyBalanceDelta (EntAccountID e) (EntAmount e);; mret tt)
    (sortedEntriesByAccount (Entries txn));;
  ledger_failpoint ctx AfterBalancesUpdated.

(** ** Transfer *)

Definition source_mismatch (source : lockedAccount) (cmd : TransferCommand) : Error :=
  WithDetail (WithDetail (CurrencyMismatch
    "source account %q holds %s but the transfer is in %s"
    [AStr (LkID source); AStr (LkCurrency source); AStr (Currency cmd)])
    "account_id" (JStr (LkID source))) "account_currency" (JStr (LkCurrency source)).

Definition dest_mismatch (dest : lockedAccount) (cmd : TransferCommand) : Error :=
  WithDetail (WithDetail (CurrencyMismatch
    "destination account %q holds %s but the transfer is in %s"
    [AStr (LkID dest); AStr (LkCurrency dest); AStr (Currency cmd)])
    "account_id" (JStr (LkID dest))) "account_currency" (JStr (LkCurrency dest)).

Definition funds_error (source : lockedAccount) (cmd : TransferCommand) : Error :=
  WithDetail (WithDetail (InsufficientFunds (LkID source))
    "balance" (JNum (LkBalance source))) "requested" (JNum (Amount cmd)).

(** The checks made on the locked rows, in order. *)
Definition check_transfer (source dest : lockedAccount) (cmd : TransferCommand) : option Error :=
  if negb (String.eqb (LkCurrency source) (Currency cmd)) then Some (source_mismatch source cmd)
  else if negb (String.eqb (LkCurrency dest) (Currency cmd)) then Some (dest_mismatch dest cmd)
  else if negb (LkAllowOverdraft source) && (LkBalance source <? Amount cmd)
       then Some (funds_error source cmd)
  else None.

Definition transfer_kind (source : lockedAccount) : string :=
  if String.eqb (LkKind source) KindSystem then TxKindFunding else TxKindTransfer.

Definition transfer_entries (txID e0 e1 : string) (source dest : lockedAccount)
    (cmd : TransferCommand) : list Entry :=
  [mkEntry e0 txID (LkID source) (-64 (Amount cmd))%go (Currency cmd) 0 0;
   mkEntry e1 txID (LkID dest) (Amount cmd) (Currency cmd) 1 0].

Definition transfer_transaction (txID e0 e1 : string) (now : Z) (source dest : lockedAccount)
    (cmd : TransferCommand) : Transaction :=
  mkTransaction txID (transfer_kind source) (Currency cmd) (Description cmd)
    (if String.eqb (TrExternalReference cmd) "" then None else Some (TrExternalReference cmd))
    None None now (transfer_entries txID e0 e1 source dest cmd).

Definition transfer_data (txn : Transaction) (source dest : lockedAccount)
    (cmd : TransferCommand) : PaymentData :=
  mkPaymentData (TxID txn) (TxKind txn) (TxCurrency txn) (Amount cmd) (LkID source) (LkID dest)
    (Description cmd) (TrExternalReference cmd) "" "" (TxCreatedAt txn) (entryData (Entries txn)).

(** Indexing a map with a missing key gives a nil pointer, and reading through
    it panics. *)
Definition deref {A} (o : option A) : M A :=
  match o with
  | Some a => mret a
  | None => panic "invalid memory address or nil pointer dereference"
  end.

Definition executeTransfer (ctx : Ctx) (txID : string) (cmd : TransferCommand) : M Result :=
  accts ← lockBalances [SourceAccountID cmd; DestinationAccountID cmd];
  ledger_failpoint ctx AfterAccountsLocked;;
  source ← deref (accts !! SourceAccountID cmd);
  dest ← deref (accts !! DestinationAccountID cmd);
  match check_transfer source dest cmd with
  | Some e => throw (EApp e)
  | None =>
      now ← Now;
      e0 ← NewString;
      e1 ← NewString;
      let txn := transfer_transaction txID e0 e1 now source dest cmd in
      post_entries ctx txn;;
      writeOutboxEvent ctx txn EventPaymentCreated (transfer_data txn source dest cmd);;
      ledger_failpoint ctx AfterOutboxWritten;;
      stored ← complete_transaction (TrIdem cmd) (TxID txn);
      ledger_failpoint ctx BeforeCommit;;
      mret (committed_result stored)
  end.

Definition transfer_closure (ctx : Ctx) (txID : string) (cmd : TransferCommand) : M Result :=
  claim_or_replay (TrIdem cmd) (executeTransfer ctx txID cmd).

(** [errors.From(err).Code] as a label. *)
Definition failure (metric : string) (err : error) : M unit :=
  Inc metric ["failure"; code_string (code_of err)].

Definition lost_response (err : error) : error :=
  EApp (Internal (EFmt "response lost after commit: " (Some err) "")).

Definition Transfer (ctx : Ctx) (cmd : TransferCommand) : M Result :=
  match ValidateTransfer cmd with
  | Some e => failure "ledger_transfers_total" (EApp e);; throw (EApp e)
  | None =>
      o ← EvalFailpoint ctx BeforeTxBegin;
      match o with
      | Some err =>
          Inc "ledger_transfers_total" ["failure"; "failpoint"];;
          throw (EApp (Internal err))
      | None =>
          txID ← NewString;
          let ctx := WithTransactionID ctx txID in
          r ← try (InTx_result (DBMaxTxRetries cfg) (transfer_closure ctx txID cmd));
          match r with
          | inl err => failure "ledger_transfers_total" err;; throw err
          | inr res =>
              result ← deref res;
              if Replayed result then
                Inc "ledger_idempotency_total" ["hit"; "postgres"];; mret result
              else
                Inc "ledger_transfers_total" ["success"; ""];;
                Inc "ledger_idempotency_total" ["miss"; "postgres"];;
                failpoint ctx AfterCommit lost_response;;
                mret result
          end
      end
  end.

(** ** Reverse *)

Definition reversed_already (original : Transaction) (by_ : string) : Error :=
  WithDetail (WithDetail (New CodeTransactionAlreadyReversed
    "transaction %q has already been reversed by %q" [AStr (TxID original); AStr by_])
    "transaction_id" (JStr (TxID original))) "reversal_transaction_id" (JStr by_).

Definition check_reversible (original : Transaction) : option Error :=
  if String.eqb (TxKind original) TxKindReversal then
    Some (InvalidRequest "a reversal transaction cannot itself be reversed" [])
  else reversed_already original <$> ReversedByTransactionID original.

(** The mirrored entries, each with a fresh id. *)
Fixpoint mirror_entries (reversalID : string) (es : list Entry) : M (list Entry) :=
  match es with
  | [] => mret []
  | e :: es =>
      id ← NewString;
      rest ← mirror_entries reversalID es;
      mret (mkEntry id reversalID (EntAccountID e) (-64 (EntAmount e))%go (EntCurrency e)
              (EntSeq e) 0 :: rest)
  end.

Definition reversal_transaction (reversalID : string) (original : Transaction) (reason : string)
    (now : Z) (entries : list Entry) : Transaction :=
  mkTransaction reversalID TxKindReversal (TxCurrency original)
    (reversalDescription original reason) None (Some (TxID original)) None now entries.

Definition reversal_data (reversal original : Transaction) (reason : string) : PaymentData :=
  mkPaymentData (TxID reversal) (TxKind reversal) (TxCurrency reversal) (reversalAmount original)
    "" "" "" "" (TxID original) reason (TxCreatedAt reversal) (entryData (Entries reversal)).

Definition executeReverse (ctx : Ctx) (reversalID : string) (cmd : ReverseCommand) : M Result :=
  original ← loadTransaction (RvTransactionID cmd);
  match check_reversible original with
  | Some e => throw (EApp e)
  | None =>
      accountIDs ← listAccountsForTransaction (TxID original);
      lockBalances accountIDs;;
      ledger_failpoint ctx AfterAccountsLocked;;
      now ← Now;
      entries ← mirror_entries reversalID (Entries original);
      let reversal := reversal_transaction reversalID original (Reason cmd) now entries in
      post_entries ctx reversal;;
      recordID ← NewString;
      insertReversalRecord recordID (TxID original) reversalID (Reason cmd);;
      writeOutboxEvent ctx reversal EventPaymentReversed
        (reversal_data reversal original (Reason cmd));;
      ledger_failpoint ctx AfterOutboxWritten;;
      stored ← complete_transaction (RvIdem cmd) reversalID;
      ledger_failpoint ctx BeforeCommit;;
      mret (committed_result stored)
  end.

Definition reverse_closure (ctx : Ctx) (reversalID : string) (cmd : ReverseCommand) : M Result :=
  claim_or_replay (RvIdem cmd) (executeReverse ctx reversalID cmd).

Definition Reverse (ctx : Ctx) (cmd : ReverseCommand) : M Result :=
  if String.eqb (RvTransactionID cmd) "" then
    throw (EApp (InvalidRequest "transaction id is required" []))
  else
    ledger_failpoint ctx BeforeTxBegin;;
    reversalID ← NewString;
    let ctx := WithTransactionID ctx reversalID in
    r ← try (InTx_result (DBMaxTxRetries cfg) (reverse_closure ctx reversalID cmd));
    match r with
    | inl err => failure "ledger_reversals_total" err;; throw err
    | inr res =>
        result ← deref res;
        (if Replayed result then mret tt else Inc "ledger_reversals_total" ["success"; ""]);;
        failpoint ctx AfterCommit lost_response;;
        mret result
    end.

(** ** CreateAccount *)

Definition insert_account_err (id : string) (err : error) : error :=
  if IsUniqueViolation err "" then EApp (account_exists id)
  else EFmt "ledger: insert account: " (Some err) "".

Definition executeCreateAccount (cmd : CreateAccountCommand) : M Result :=
  let metadata := default ∅ (CaMetadata cmd) in
  acct ← map_err (insert_account_err (CaID cmd))
    (sql (sql_insert_account (CaID cmd) (CaCurrency cmd) (CaKind cmd) (CaAllowOverdraft cmd)
            metadata));
  map_err (λ err, EFmt "ledger: insert balance: " (Some err) "")
    (sql (sql_insert_balance (CaID cmd) (CaAllowOverdraft cmd)));;
  Complete (IdempotencyScope (CaIdem cmd)) (IdempotencyKey (CaIdem cmd)) 201
    (marshal_Account acct) None;;
  mret (mkResult None 201 (Some (marshal_Account acct)) false).

Definition CreateAccount (cmd : CreateAccountCommand) : M Result :=
  match ValidateCreateAccount cmd with
  | Some e => throw (EApp e)
  | None =>
      res ← InTx_result (DBMaxTxRetries cfg)
              (claim_or_replay (CaIdem cmd) (executeCreateAccount cmd));
      deref res
  end.
End service.
