(* ===== verification/EntryOrder.v ===== *)
(** [sortedEntriesByAccount] of [service.go] is a stable insertion sort. *)
From S2P Require Import Prelude GoStrings LedgerModel LedgerService.

(** Insertion into a list kept in reverse: [x] passes the accounts greater than
    its own. *)
Fixpoint insert_rev (x : Entry) (l : list Entry) : list Entry :=
  match l with
  | [] => [x]
  | y :: l' =>
      if String.ltb (EntAccountID x) (EntAccountID y) then y :: insert_rev x l' else x :: l
  end.

Definition sort_rev (l r : list Entry) : list Entry := foldl (λ r x, insert_rev x r) r l.

Definition account_le (e1 e2 : Entry) : Prop := String.le (EntAccountID e1) (EntAccountID e2).

Lemma ltb_false_le s1 s2 : String.ltb s1 s2 = false → String.le s2 s1.
Proof.
  unfold String.ltb, String.le, String.leb.
  rewrite (String.compare_antisym s1 s2). by destruct (String.compare s2 s1).
Qed.

Lemma ltb_true_le s1 s2 : String.ltb s1 s2 = true → String.le s1 s2 ∧ s1 ≠ s2.
Proof.
  intros Hlt. split.
  - unfold String.ltb, String.le, String.leb in *. by destruct (String.compare s1 s2).
  - intros ->. unfold String.ltb in Hlt.
    pose proof (String.compare_antisym s2 s2). by destruct (String.compare s2 s2).
Qed.

(** ** The loops compute the insertion sort *)

Lemma lookup_reverse_end (l l2 : list Entry) y x :
  (reverse l ++ y :: x :: l2) !! S (length l) = Some x ∧
  (reverse l ++ y :: x :: l2) !! length l = Some y.
Proof.
  rewrite <-!(length_reverse l). split.
  - rewrite lookup_app_r by lia. by replace (S _ - _) with 1 by lia.
  - by rewrite list_lookup_middle.
Qed.

Lemma swap_end (l l2 : list Entry) y x :
  <[length l := x]> (<[S (length l) := y]> (reverse l ++ y :: x :: l2)) = reverse l ++ x :: y :: l2.
Proof.
  rewrite <-!(length_reverse l). rewrite insert_app_r_alt by lia.
  replace (S _ - _) with 1 by lia. simpl. rewrite insert_app_r_alt by lia.
  by replace (_ - _) with 0 by lia.
Qed.

Lemma sift_insert l x l2 :
  sift (reverse l ++ x :: l2) (length l) = reverse (insert_rev x l) ++ l2.
Proof.
  revert l2. induction l as [|y l IH]; intros l2; [done|].
  rewrite reverse_cons, <-app_assoc. cbn [length app sift].
  destruct (lookup_reverse_end l l2 y x) as [E1 E2]. rewrite E1, E2, swap_end.
  simpl. destruct (String.ltb _ _).
  - by rewrite IH, reverse_cons, <-app_assoc.
  - by rewrite !reverse_cons, <-!app_assoc.
Qed.

Lemma length_insert_rev x l : length (insert_rev x l) = S (length l).
Proof. induction l as [|y l IH]; simpl; [done|]. case_match; simpl; lia. Qed.

Lemma foldl_sift r rest :
  foldl sift (reverse r ++ rest) (seq (length r) (length rest)) = reverse (sort_rev rest r).
Proof.
  revert r. induction rest as [|x rest IH]; intros r; simpl; [by rewrite app_nil_r|].
  rewrite sift_insert, <-(length_insert_rev x r). apply IH.
Qed.

Lemma sortedEntries_insertion es : sortedEntriesByAccount es = reverse (sort_rev es []).
Proof.
  unfold sortedEntriesByAccount. destruct es as [|e es]; [done|].
  simpl. rewrite Nat.sub_0_r. apply (foldl_sift [e] es).
Qed.

(** ** The insertion sort *)

Lemma insert_rev_perm x l : insert_rev x l ≡ₚ x :: l.
Proof.
  induction l as [|y l IH]; simpl; [done|]. case_match; [|done]. rewrite IH. apply Permutation_swap.
Qed.

Lemma sort_rev_perm l r : sort_rev l r ≡ₚ l ++ r.
Proof.
  revert r. induction l as [|x l IH]; intros r; simpl; [done|].
  rewrite IH, insert_rev_perm. by rewrite Permutation_middle.
Qed.

Lemma sortedEntries_perm es : sortedEntriesByAccount es ≡ₚ es.
Proof. rewrite sortedEntries_insertion, reverse_Permutation, sort_rev_perm. by rewrite app_nil_r. Qed.

Lemma insert_rev_sorted x l :
  StronglySorted (flip account_le) l → StronglySorted (flip account_le) (insert_rev x l).
Proof.
  induction 1 as [|y l Hl IH Hy]; simpl; [by repeat constructor|].
  destruct (String.ltb _ _) eqn:E.
  - constructor; [done|]. rewrite Forall_forall in *. intros z.
    rewrite (insert_rev_perm x l). intros [->|Hz]%elem_of_cons; [|by apply Hy].
    by apply ltb_true_le in E as [? _].
  - apply ltb_false_le in E. constructor; [by constructor|]. constructor; [done|].
    eapply Forall_impl; [exact Hy|]. intros z Hz. unfold flip, account_le in *. by etrans.
Qed.

Lemma sort_rev_sorted l r :
  StronglySorted (flip account_le) r → StronglySorted (flip account_le) (sort_rev l r).
Proof. revert r. induction l as [|x l IH]; intros r Hr; simpl; auto using insert_rev_sorted. Qed.

Lemma StronglySorted_app_single (R : Entry → Entry → Prop) l x :
  StronglySorted R l → Forall (λ y, R y x) l → StronglySorted R (l ++ [x]).
Proof.
  induction 1 as [|y l Hl IH Hy]; intros Hx; simpl; [by repeat constructor|].
  inversion_clear Hx. constructor; [by apply IH|]. apply Forall_app_2; [done|by repeat constructor].
Qed.

Lemma StronglySorted_reverse (R : Entry → Entry → Prop) l :
  StronglySorted (flip R) l → StronglySorted R (reverse l).
Proof.
  induction 1 as [|x l _ IH Hx]; [constructor|]. rewrite reverse_cons.
  apply StronglySorted_app_single; [done|]. by apply Forall_reverse.
Qed.

(** Entries of one account keep their order. *)
Lemma insert_rev_stable a x l :
  filter (λ e, EntAccountID e = a) (insert_rev x l) = filter (λ e, EntAccountID e = a) (x :: l).
Proof.
  induction l as [|y l IH]; [done|]. cbn [insert_rev].
  destruct (String.ltb _ _) eqn:E; [|done]. apply ltb_true_le in E as [_ Hne].
  rewrite !filter_cons in *. rewrite IH.
  destruct (decide (EntAccountID y = a)), (decide (EntAccountID x = a)); try done. congruence.
Qed.

Lemma sort_rev_stable a l r :
  filter (λ e, EntAccountID e = a) (sort_rev l r) =
    reverse (filter (λ e, EntAccountID e = a) l) ++ filter (λ e, EntAccountID e = a) r.
Proof.
  revert r. induction l as [|x l IH]; intros r; [done|]. simpl.
  rewrite IH, insert_rev_stable, !filter_cons.
  case_decide; [|done]. by rewrite reverse_cons, <-app_assoc.
Qed.

Lemma filter_reverse a l :
  filter (λ e, EntAccountID e = a) (reverse l) = reverse (filter (λ e, EntAccountID e = a) l).
Proof.
  induction l as [|x l IH]; [done|]. rewrite reverse_cons, filter_app, IH, filter_cons.
  rewrite (filter_cons _ x). case_decide; [by rewrite reverse_cons|].
  by rewrite app_nil_r.
Qed.
