(* ===== verification/LedgerFacts.v ===== *)
(** What the steps of a ledger transaction do to the database when they
    succeed. *)
From S2P Require Import Prelude GoStrings Json Apperr Failpoint Schema SchemaFacts Monad World Storage Idempotency Event Config Outbox LedgerModel LedgerRepo LedgerService EntryOrder.
Local Open Scope Z_scope.

(** The entries that touch an account. *)
Definition at_account (a : string) (es : list Entry) : list Entry :=
  filter (λ e, EntAccountID e = a) es.

(** The balance row of [a], before and after posting [es]. *)
Definition shifted (es : list Entry) (a : string) (ob ob' : option balance_row) : Prop :=
  match ob, ob' with
  | None, None => at_account a es = []
  | Some b, Some b' =>
      b_amount b' = b_amount b + sum_with EntAmount (at_account a es) ∧
      b_allow_overdraft b' = b_allow_overdraft b ∧
      (balance_ok b → balance_ok b')
  | _, _ => False
  end.

(** The row that stores an entry of transaction [cid]. *)
Definition entry_stored `{Ext} (now : Z) (e : Entry) (r : entry_row) : Prop :=
  uuid_in (EntID e) = Some (e_id r) ∧
  uuid_in (EntTransactionID e) = Some (e_transaction_id r) ∧
  e_account_id r = EntAccountID e ∧ e_amount r = EntAmount e ∧
  e_currency r = EntCurrency e ∧ e_seq r = EntSeq e ∧ e_created_at r = now ∧
  in_int64 (e_amount r) = true.

(** [t] is the transaction [c] as the database has it. *)
Definition loaded (db : DB) (c : string) (t : Transaction) : Prop :=
  ∃ row, ledger_transactions db !! c = Some row ∧
    reversals_of (ledger_transactions db) c = option_list (ReversedByTransactionID t) ∧
    t = mkTransaction c (t_kind row) (t_currency row) (t_description row)
          (t_external_reference row) (t_reverses row) (ReversedByTransactionID t)
          (t_created_at row)
          (map entry_of_row (merge_sort seq_le (entries_of c (ledger_entries db)))).

(** The mirror image of an entry. *)
Definition mirrors (reversalID : string) (e m : Entry) : Prop :=
  EntTransactionID m = reversalID ∧ EntAccountID m = EntAccountID e ∧
  EntAmount m = wrap64 (- EntAmount e) ∧ EntCurrency m = EntCurrency e ∧ EntSeq m = EntSeq e.

(** The event of a committed transaction. *)
Definition event_of `{Ext} (cfg : Config) (ctx : Ctx) (txn : Transaction) (eventType : string)
    (data : PaymentData) (now : Z) (evid : string) (o : outbox_row) : Prop :=
  ∃ eventID, o_topic o = TopicForEvent cfg eventType ∧ o_event_type o = eventType ∧
    o_aggregate_id o = TxID txn ∧ o_partition_key o = TxID txn ∧
    o_payload o = marshal_Envelope (mkEnvelope eventID eventType SchemaVersion (TxID txn)
                    (TxCreatedAt txn) (CorrelationID ctx) None (marshal_PaymentData data)) ∧
    o_status o = OPending ∧ o_attempts o = 0 ∧ o_created_at o = now ∧
    uuid_in eventID = Some evid ∧ ∃ n, eventID = NewString_nth n.

Section facts.
Context `{Ext}.

Lemma as_uuid_opt_Ok s c :
  as_uuid_opt s = PgOk c →
  match s, c with
  | None, None => True
  | Some s, Some c => uuid_in s = Some c
  | _, _ => False
  end.
Proof.
  destruct s as [s|]; simpl; intros; pg_inv; [|done]. by apply as_uuid_Ok.
Qed.

(** ** Stable steps *)

#[export] Instance stable_query_row {A} (f : DB → pg (option A)) :
  Respects stable (query_row f).
Proof. unfold query_row. respects_tac. Qed.
#[export] Instance stable_loadTransaction id : Respects stable (loadTransaction id).
Proof. unfold loadTransaction. respects_tac. Qed.
#[export] Instance stable_GetTransaction id : Respects stable (GetTransaction id).
Proof. unfold GetTransaction. apply _. Qed.
#[export] Instance stable_listAccounts id : Respects stable (listAccountsForTransaction id).
Proof. unfold listAccountsForTransaction. respects_tac. Qed.
#[export] Instance stable_lock_ordered ids out : Respects stable (lock_ordered ids out).
Proof. revert out. induction ids; intros out; simpl; respects_tac. Qed.
#[export] Instance stable_lockBalances ids : Respects stable (lockBalances ids).
Proof. unfold lockBalances. apply _. Qed.
#[export] Instance stable_LockKey s k : Respects stable (LockKey s k).
Proof.
  unfold LockKey. apply respects_bind; [apply _|apply respects_map_err, stable_sql|apply _].
  by intros ???? [= _ ->].
Qed.
#[export] Instance stable_Fetch s k : Respects stable (Fetch s k).
Proof. unfold Fetch. respects_tac. Qed.
#[export] Instance stable_replayResult rec h k : Respects stable (replayResult rec h k).
Proof. unfold replayResult. respects_tac. Qed.
#[export] Instance respects_deref (R : World → World → Prop) `{!PreOrder R} {A} (o : option A) :
  Respects R (deref o).
Proof. destruct o; apply _. Qed.
#[export] Instance stable_ledger_failpoint ctx name : Respects stable (ledger_failpoint ctx name).
Proof. unfold ledger_failpoint. apply _. Qed.
#[export] Instance stable_mirror tid es : Respects stable (mirror_entries tid es).
Proof. induction es; simpl; respects_tac. Qed.

(** ** Claim *)

Lemma query_row_Ok {A} (f : DB → pg (option A)) w a w' :
  query_row f w = (Ok a, w') → f (w_db w) = PgOk (Some a).
Proof. unfold query_row. intros. ok_inv. by apply query_Ok in E as [-> ->]. Qed.

Lemma Fetch_Ok s k w rec w' :
  Fetch s k w = (Ok rec, w') →
  ∃ row, idempotency_records (w_db w) !! (s, k) = Some row ∧ rec = record_of s k row.
Proof.
  unfold Fetch. intros. ok_inv. apply map_err_Ok, query_Ok in E as [[= <-] ->].
  destruct (_ !! _) eqn:El; ok_inv. eauto.
Qed.

(** The in-progress row of a fresh key. *)
Definition claimed_row (hash : string) (now : Z) : idem_row :=
  IdemRow hash InProgressState None None None now now.

Lemma Claim_Ok s k h w o w' :
  Claim s k h w = (Ok o, w') →
  match o with
  | Some rec => stable w w' ∧
      ∃ row, idempotency_records (w_db w) !! (s, k) = Some row ∧ rec = record_of s k row
  | None => idempotency_records (w_db w) !! (s, k) = None ∧ w_txnow w' = w_txnow w ∧
      w_db w' = set_idem (<[(s, k) := claimed_row h (w_txnow w)]>
                            (idempotency_records (w_db w))) (w_db w)
  end.
Proof.
  unfold Claim. intros. ok_inv. apply map_err_Ok, sql_Ok in E as (db' & E & ->).
  unfold sql_claim in E. destruct (_ !! _) as [row|] eqn:El.
  - pg_inv. simplify_eq. simpl in *. ok_inv.
    pose proof (Fetch_Ok _ _ _ _ _ E) as (row' & Hrow & ->). stable_inv.
    split; [by split|]. by exists row'; rewrite <-El.
  - pg_inv. simplify_eq. simpl in *. ok_inv. simpl in *. unfold insert_idem in *. by pg_inv.
Qed.

(** ** The closures of the three commands *)

Lemma replayResult_Ok rec h k w res w' :
  replayResult rec h k w = (Ok res, w') →
  RequestHash rec = h ∧ State rec = CompletedState ∧ Replayed res = true ∧
  ResStatus res = ResponseStatus rec ∧ ResBody res = ResponseBody rec.
Proof.
  unfold replayResult. destruct (String.eqb_spec (RequestHash rec) h); simpl; [|done].
  destruct (bool_decide _) eqn:Es; simpl; [|done]. apply bool_decide_eq_true in Es.
  destruct (ITransactionID rec); intros; ok_inv; done.
Qed.

Definition idem_key (i : Idem) : string * string := (IdempotencyScope i, IdempotencyKey i).

(** A successful closure has either replayed a completed record and written
    nothing, or done the work with the key freshly claimed. *)
Lemma claim_or_replay_Ok i work w res w' :
  claim_or_replay i work w = (Ok res, w') →
  (w_db w' = w_db w ∧ Replayed res = true ∧
   ∃ row, idempotency_records (w_db w) !! idem_key i = Some row ∧
          i_state row = CompletedState ∧ i_request_hash row = IdemRequestHash i ∧
          ResStatus res = default 0 (i_response_status row) ∧
          ResBody res = i_response_body row) ∨
  (idempotency_records (w_db w) !! idem_key i = None ∧
   ∃ w1, w_txnow w1 = w_txnow w ∧
     w_db w1 = set_idem (<[idem_key i := claimed_row (IdemRequestHash i) (w_txnow w)]>
                          (idempotency_records (w_db w))) (w_db w) ∧
     work w1 = (Ok res, w')).
Proof.
  unfold claim_or_replay. intros. ok_inv.
  apply Claim_Ok in E0. stable_inv. destruct a0 as [rec|].
  - destruct E0 as [[Hd1 _] (row & Hrow & ->)]. left.
    pose proof (replayResult_Ok _ _ _ _ _ _ H0) as (Eh & Es & Er & ? & ?). stable_inv.
    split_and!; [congruence|done|]. exists row. rewrite Hdb in Hrow. done.
  - destruct E0 as (Hn & Ht & Hd1). right. rewrite Hdb in *. rewrite Hnow in *.
    split; [done|]. eauto.
Qed.

(** ** Locked rows *)

Lemma lock_ordered_Ok ids out w out' w' :
  lock_ordered ids out w = (Ok out', w') →
  out ⊆ out' ∧ (∀ id, id ∈ ids → is_Some (out' !! id)) ∧
  (∀ id a, out' !! id = Some a → out !! id = Some a ∨
           select_balance id (w_db w) = PgOk (Some a)).
Proof.
  revert out w. induction ids as [|id ids IH]; intros out w; simpl; intros; ok_inv.
  { split_and!; [done|by intros ? ?%not_elem_of_nil|eauto]. }
  destruct (out !! id) as [acct|] eqn:Eo.
  - destruct (IH _ _ H0) as (Hs & Hin & Hsel). split_and!; [done| |done].
    intros i [->|Hi]%elem_of_cons; [|by apply Hin].
    exists acct. by eapply lookup_weaken.
  - ok_inv. destruct (IH _ _ H0) as (Hs & Hin & Hsel).
    apply map_err_Ok in E. pose proof (query_row_Ok _ _ _ _ E) as Hq. stable_inv.
    split_and!.
    + etrans; [by apply insert_subseteq|done].
    + intros i [->|Hi]%elem_of_cons; [|by apply Hin]. exists a.
      eapply lookup_weaken; [|exact Hs]. apply lookup_insert_eq.
    + intros i x Hx. apply Hsel in Hx as [Hx|Hx]; [|right; congruence].
      apply lookup_insert_Some in Hx as [[<- <-]|[_ Hx]]; auto.
Qed.

Lemma sort_Strings_perm l : sort_Strings l ≡ₚ l.
Proof. apply merge_sort_Permutation. Qed.

Lemma lockBalances_Ok ids w accts w' :
  lockBalances ids w = (Ok accts, w') →
  (∀ id, id ∈ ids → ∃ a, accts !! id = Some a ∧ select_balance id (w_db w) = PgOk (Some a)).
Proof.
  unfold lockBalances. intros (_ & Hin & Hsel)%lock_ordered_Ok id Hid.
  destruct (Hin id) as [a Ha]; [by rewrite sort_Strings_perm|].
  exists a. split; [done|]. by apply Hsel in Ha as [Ha%lookup_empty_Some|].
Qed.

Lemma select_balance_Ok id db a :
  select_balance id db = PgOk (Some a) →
  ∃ b row, balances db !! id = Some b ∧ accounts db !! id = Some row ∧
    a = mkLocked id (a_currency row) (a_kind row) (b_allow_overdraft b) (b_amount b)
          (b_version b).
Proof.
  unfold select_balance. destruct (balances db !! id), (accounts db !! id);
    [intros [= <-]; eauto|by intros ?%found_Ok..].
Qed.

(** ** Inserts *)

Lemma insertTransaction_Ok t w w' :
  insertTransaction t w = (Ok tt, w') →
  ∃ cid rev, uuid_in (TxID t) = Some cid ∧ as_uuid_opt (ReversesTransactionID t) = PgOk rev ∧
    let row := TxRow (TxKind t) (TxCurrency t) (TxDescription t) (ExternalReference t) rev
                 (w_txnow w) in
    ledger_transactions (w_db w) !! cid = None ∧
    one_reversal_check (ledger_transactions (w_db w)) row = true ∧
    reversal_points_check row = true ∧
    w_txnow w' = w_txnow w ∧
    w_db w' = set_transactions (<[cid := row]> (ledger_transactions (w_db w))) (w_db w).
Proof.
  unfold insertTransaction. intros Hr. apply map_err_Ok, sql_Ok in Hr as (db' & E & ->).
  unfold sql_insert_transaction in E. simpl in E. unfold insert_transaction in E. pg_inv.
  uuid_inv. simplify_eq. eexists _, _. split_and!; done.
Qed.

Lemma insertEntries_Ok es w w' :
  insertEntries es w = (Ok tt, w') →
  ∃ rows, Forall2 (entry_stored (w_txnow w)) es rows ∧ w_txnow w' = w_txnow w ∧
    w_db w' = set_entries (ledger_entries (w_db w) ++ rows) (w_db w) ∧
    Forall (λ r, e_amount r ≠ 0 ∧ fk_tx_currency (w_db w) r = true ∧
                 fk_account_currency (w_db w) r = true) rows.
Proof.
  unfold insertEntries. revert w. induction es as [|e es IH]; intros w; simpl; intros Hr; ok_inv.
  { exists []. rewrite app_nil_r. split_and!; [done..|by destruct (w_db w')|done]. }
  apply map_err_Ok, sql_Ok in E as (db' & E & ->). unfold sql_insert_entry in E. pg_inv.
  uuid_inv. simplify_eq. match goal with Hi : exec_dml _ _ = PgOk _ |- _ => simpl in Hi; rename Hi into Hins end.
  apply insert_entry_Ok in Hins as (Ha & Hz & _ & _ & _ & Ht & Hc & _ & _ & ->).
  apply IH in Hr as (rows & Hrows & Hnow & Hd & Hall). simpl in *.
  exists (EntryRow r r0 (EntAccountID e) (EntAmount e) (EntCurrency e) (EntSeq e) (w_txnow w)
           :: rows).
  split_and!; [by constructor|done| |by constructor].
  rewrite Hd. by rewrite <-app_assoc.
Qed.

(** ** Balances *)

Lemma shifted_nil a ob : shifted [] a ob ob.
Proof.
  destruct ob; simpl; [|done]. change (at_account a []) with (@nil Entry). rewrite sum_with_nil.
  split_and!; [lia|done|done]. Qed.

Lemma at_account_cons a e es :
  at_account a (e :: es) =
    (if decide (EntAccountID e = a) then e :: at_account a es else at_account a es).
Proof. unfold at_account. by rewrite filter_cons. Qed.

Lemma applyBalanceDelta_Ok id delta w amount w' :
  applyBalanceDelta id delta w = (Ok amount, w') →
  ∃ b b', balances (w_db w) !! id = Some b ∧ b_amount b' = b_amount b + delta ∧
    b_allow_overdraft b' = b_allow_overdraft b ∧ balance_ok b' ∧
    amount = b_amount b' ∧ w_txnow w' = w_txnow w ∧
    w_db w' = set_balances (<[id := b']> (balances (w_db w))) (w_db w).
Proof.
  unfold applyBalanceDelta. intros (x & w1 & Em & Hr)%bind_Ok.
  apply map_err_Ok, bind_Ok in Em as (o & w2 & E & Eo). apply or_throw_Ok in Eo as [-> ->].
  apply sql_Ok in E as (db' & E & ->). apply bind_Ok in Hr as ([] & w3 & Ea & Hr).
  apply ret_Ok in Hr as [-> ->]. stable_inv. simpl in *. rewrite Hdb, Hnow.
  unfold sql_balance_delta in E. destruct (balances (w_db w) !! id) as [b|] eqn:Eb; pg_inv; [|done].
  simplify_eq. simpl in *. unfold update_balance in *. rewrite Eb in *. pg_inv. simplify_eq.
  match goal with H : check_balance _ = PgOk ?u |- _ => destruct u; apply check_balance_ok in H end.
  eexists b, _. split_and!; [done| | | | | |symmetry; eassumption]; done.
Qed.

(** The loop over the entries moves each balance by the sum of its amounts,
    whatever the order of the entries. *)
Lemma deltas_Ok es w w' :
  for_each (λ e, applyBalanceDelta (EntAccountID e) (EntAmount e);; mret tt) es w = (Ok tt, w') →
  w_txnow w' = w_txnow w ∧
  ∃ bal, w_db w' = set_balances bal (w_db w) ∧
    ∀ a, shifted es a (balances (w_db w) !! a) (bal !! a).
Proof.
  revert w. induction es as [|e es IH]; intros w; simpl; intros Hr; ok_inv.
  { split; [done|]. exists (balances (w_db w')). split; [by destruct (w_db w')|].
    intros a. apply shifted_nil. }
  apply applyBalanceDelta_Ok in E0 as (b & b' & Hb & Ham & Hov & Hok & _ & Ht & Hd).
  apply IH in Hr as (Ht' & bal & Hd' & Hbal). split; [congruence|].
  exists bal. split; [by rewrite Hd', Hd|]. intros a.
  specialize (Hbal a). rewrite Hd in Hbal. simpl in Hbal. unfold shifted in *.
  rewrite at_account_cons. destruct (decide (EntAccountID e = a)) as [<-|Hne].
  - rewrite lookup_insert_eq in Hbal. rewrite Hb. destruct (bal !! _); [|done].
    destruct Hbal as (-> & -> & Hok'). rewrite sum_with_cons. split_and!; [lia|done|auto].
  - by rewrite lookup_insert_ne in Hbal.
Qed.

Lemma shifted_perm es es' a ob ob' : es ≡ₚ es' → shifted es a ob ob' → shifted es' a ob ob'.
Proof.
  intros Hp. assert (at_account a es ≡ₚ at_account a es') as Ha by (by apply filter_Permutation).
  unfold shifted. destruct ob, ob'; [|done|done|].
  - by rewrite (sum_with_perm _ _ _ Ha).
  - intros E. rewrite E in Ha. by apply Permutation_nil_l in Ha.
Qed.

(** ** Reading a transaction back *)

Lemma loadTransaction_Ok id w t w' :
  loadTransaction id w = (Ok t, w') →
  ∃ c, uuid_in id = Some c ∧ loaded (w_db w) c t.
Proof.
  unfold loadTransaction. intros ([[c row] rb] & w1 & Eh & Hr)%bind_Ok.
  apply map_err_Ok in Eh. pose proof (query_row_Ok _ _ _ _ Eh) as Hq.
  apply stable_run in Eh as [Hdb _]; [|apply _]. apply bind_Ok in Hr as (es & w2 & Ee & Hr). apply ret_Ok in Hr as [<- _].
  apply map_err_Ok, query_Ok in Ee as [Ee _]. rewrite Hdb in Ee.
  apply pg_bind_Ok in Ee as (c1 & E1%as_uuid_Ok & [= <-]).
  apply pg_bind_Ok in Hq as (c2 & E2%as_uuid_Ok & Hq). simplify_eq. exists c1. split; [done|].
  destruct (ledger_transactions (w_db w) !! c1) as [row'|] eqn:Er; [|done].
  exists row'. simpl. destruct (reversals_of _ _) as [|x [|y l]]; simplify_eq; done.
Qed.

(** ** The postings of a transaction *)

Lemma post_entries_Ok ctx txn w w' :
  post_entries ctx txn w = (Ok tt, w') →
  ∃ cid rev rows bal,
    uuid_in (TxID txn) = Some cid ∧ as_uuid_opt (ReversesTransactionID txn) = PgOk rev ∧
    let row := TxRow (TxKind txn) (TxCurrency txn) (TxDescription txn) (ExternalReference txn)
                 rev (w_txnow w) in
    ledger_transactions (w_db w) !! cid = None ∧
    one_reversal_check (ledger_transactions (w_db w)) row = true ∧
    reversal_points_check row = true ∧
    Forall2 (entry_stored (w_txnow w)) (Entries txn) rows ∧
    Forall (λ r, e_amount r ≠ 0) rows ∧
    (∀ a, shifted (Entries txn) a (balances (w_db w) !! a) (bal !! a)) ∧
    w_txnow w' = w_txnow w ∧
    w_db w' = set_balances bal (set_entries (ledger_entries (w_db w) ++ rows)
                (set_transactions (<[cid := row]> (ledger_transactions (w_db w))) (w_db w))).
Proof.
  unfold post_entries. intros ([] & w1 & E1 & Hr)%bind_Ok.
  apply insertTransaction_Ok in E1 as (cid & rev & Hc & Hrev & Hfresh & Hone & Hpts & Ht1 & Hd1).
  apply bind_Ok in Hr as ([] & w2 & E2 & Hr).
  apply insertEntries_Ok in E2 as (rows & Hrows & Ht2 & Hd2 & Hnz).
  apply bind_Ok in Hr as ([] & w3 & E3 & Hr). apply stable_run in E3 as [Hd3 Ht3]; [|apply _].
  apply bind_Ok in Hr as ([] & w4 & E4 & Hr).
  apply deltas_Ok in E4 as (Ht4 & bal & Hd4 & Hbal).
  apply stable_run in Hr as [Hd5 Ht5]; [|apply _].
  exists cid, rev, rows, bal. split_and!; try done.
  - by rewrite <-Ht1.
  - eapply Forall_impl; [exact Hnz|]. by intros ? [? _].
  - intros a. specialize (Hbal a). rewrite Hd3, Hd2, Hd1 in Hbal. simpl in Hbal.
    eapply shifted_perm; [apply sortedEntries_perm|exact Hbal].
  - congruence.
  - by rewrite Hd5, Hd4, Hd3, Hd2, Hd1.
Qed.

Lemma writeOutboxEvent_Ok cfg ctx txn ty data w w' :
  writeOutboxEvent cfg ctx txn ty data w = (Ok tt, w') →
  ∃ evid o, event_of cfg ctx txn ty data (w_txnow w) evid o ∧
    outbox_events (w_db w) !! evid = None ∧ w_txnow w' = w_txnow w ∧
    w_db w' = set_outbox (<[evid := o]> (outbox_events (w_db w))) (w_db w).
Proof.
  unfold writeOutboxEvent. intros (id & w1 & E1 & Hr)%bind_Ok.
  assert (id = NewString_nth (w_uuid w)) as Hid by (unfold NewString in E1; congruence).
  apply stable_run in E1 as [Hdb Hnow]; [|apply _]. apply map_err_Ok, sql_Ok in Hr as (db' & E & ->).
  unfold sql_insert in E. simpl in E. unfold insert_outbox in E. pg_inv. uuid_inv. simplify_eq.
  rewrite Hdb, Hnow in *. eexists _, _. split_and!; [|done|done|reflexivity].
  eexists. simpl. split_and!; [done..|by eexists].
Qed.

(** The row a completed key has. *)
Definition completed_row (hash : string) (body : json) (tid : option string) (now : Z) : idem_row :=
  IdemRow hash CompletedState (Some 201) (Some body) tid now now.

Lemma Complete_Ok s k body tid w w' hash :
  Complete s k 201 body tid w = (Ok tt, w') →
  idempotency_records (w_db w) !! (s, k) = Some (claimed_row hash (w_txnow w)) →
  ∃ c, as_uuid_opt tid = PgOk c ∧ w_txnow w' = w_txnow w ∧
    w_db w' = set_idem (<[(s, k) := completed_row hash body c (w_txnow w)]>
                          (idempotency_records (w_db w))) (w_db w).
Proof.
  unfold Complete. intros Hr Hrow. apply map_err_Ok, sql_Ok in Hr as (db' & E & ->).
  unfold sql_complete in E. rewrite Hrow in E. simpl in E. unfold update_idem in E.
  rewrite Hrow in E. pg_inv. simplify_eq. eauto.
Qed.

Lemma mirror_entries_Ok tid es w ms w' :
  mirror_entries tid es w = (Ok ms, w') → Forall2 (mirrors tid) es ms.
Proof.
  revert w ms. induction es as [|e es IH]; intros w ms; simpl; intros Hr; ok_inv; [done|].
  constructor; [done|]. by eapply IH.
Qed.
End facts.
