(* ===== verification/LedgerEffects.v ===== *)
(** The effect of a committed command on the database, as one relation between
    the database before and after, whatever the faults and failpoints on the
    way. *)
From S2P Require Import Prelude GoStrings Json Apperr Failpoint Schema SchemaFacts Monad World Storage Idempotency Event Config Outbox LedgerModel LedgerRepo LedgerService LedgerFacts.
Local Open Scope Z_scope.

Section effects.
Context `{Ext}.

(** [d'] is [d] with transaction [cid] posted: its header, its entries, the
    balances they move, and the completed idempotency record holding the
    response, which is the transaction as stored. *)
Record posted (i : Idem) (now : Z) (txn : Transaction) (cid : string) (row : tx_row)
    (rows : list entry_row) (t : Transaction) (d d' : DB) : Prop := {
  ps_accounts : accounts d' = accounts d;
  ps_deliveries : webhook_deliveries d' = webhook_deliveries d;
  ps_key : idempotency_records d !! idem_key i = None;
  ps_idem : idempotency_records d' =
    <[idem_key i := completed_row (IdemRequestHash i) (marshal_Transaction t) (Some cid) now]>
      (idempotency_records d);
  ps_cid : uuid_in (TxID txn) = Some cid;
  ps_fresh : ledger_transactions d !! cid = None;
  ps_one_reversal : one_reversal_check (ledger_transactions d) row = true;
  ps_points : reversal_points_check row = true;
  ps_txs : ledger_transactions d' = <[cid := row]> (ledger_transactions d);
  ps_entries : ledger_entries d' = ledger_entries d ++ rows;
  ps_rows : Forall2 (entry_stored now) (Entries txn) rows;
  ps_nonzero : Forall (λ r, e_amount r ≠ 0) rows;
  ps_balances : ∀ a, shifted (Entries txn) a (balances d !! a) (balances d' !! a);
  ps_stored : loaded d' cid t;
}.

(** One new event, for this transaction. *)
Definition event_added (cfg : Config) (ctx : Ctx) (txn : Transaction) (ty : string)
    (data : PaymentData) (now : Z) (d d' : DB) : Prop :=
  ∃ evid o, outbox_events d !! evid = None ∧ event_of cfg ctx txn ty data now evid o ∧
    outbox_events d' = <[evid := o]> (outbox_events d).

Definition header_row (txn : Transaction) (rev : option string) (now : Z) : tx_row :=
  TxRow (TxKind txn) (TxCurrency txn) (TxDescription txn) (ExternalReference txn) rev now.

(** A committed transfer. *)
Definition transfer_effect (cfg : Config) (ctx : Ctx) (txID : string) (cmd : TransferCommand)
    (t : Transaction) (d d' : DB) : Prop :=
  ∃ now clock e0 e1 src dst cid rows,
    select_balance (SourceAccountID cmd) d = PgOk (Some src) ∧
    select_balance (DestinationAccountID cmd) d = PgOk (Some dst) ∧
    check_transfer src dst cmd = None ∧
    let txn := transfer_transaction txID e0 e1 clock src dst cmd in
    posted (TrIdem cmd) now txn cid (header_row txn None now) rows t d d' ∧
    reversals d' = reversals d ∧
    event_added cfg ctx txn EventPaymentCreated (transfer_data txn src dst cmd) now d d'.

(** A committed reversal. *)
Definition reversal_effect (cfg : Config) (ctx : Ctx) (reversalID : string)
    (cmd : ReverseCommand) (t : Transaction) (d d' : DB) : Prop :=
  ∃ now clock orig original ms cid rows recid,
    uuid_in (RvTransactionID cmd) = Some orig ∧
    loaded d orig original ∧ check_reversible original = None ∧
    Forall2 (mirrors reversalID) (Entries original) ms ∧
    let rev := reversal_transaction reversalID original (Reason cmd) clock ms in
    ∃ corig, uuid_in (TxID original) = Some corig ∧
    posted (RvIdem cmd) now rev cid
      (TxRow TxKindReversal (TxCurrency original) (reversalDescription original (Reason cmd))
         None (Some corig) now) rows t d d' ∧
    reversals d !! recid = None ∧
    reversals d' = <[recid := ReversalRow corig cid (Reason cmd) now]> (reversals d) ∧
    event_added cfg ctx rev EventPaymentReversed (reversal_data rev original (Reason cmd)) now d d'.

(** A committed account. *)
Definition account_effect (cmd : CreateAccountCommand) (d d' : DB) : Prop :=
  ∃ now,
    let a := AccountRow (CaCurrency cmd) (CaKind cmd) (CaAllowOverdraft cmd)
               (default ∅ (CaMetadata cmd)) now in
    idempotency_records d !! idem_key (CaIdem cmd) = None ∧
    accounts d !! CaID cmd = None ∧ balances d !! CaID cmd = None ∧
    d' = set_idem (<[idem_key (CaIdem cmd) := completed_row (IdemRequestHash (CaIdem cmd))
                        (marshal_Account (account_of_row (CaID cmd) a)) None now]>
                     (idempotency_records d))
           (set_balances (<[CaID cmd := BalanceRow 0 (CaAllowOverdraft cmd) 0 now]> (balances d))
              (set_accounts (<[CaID cmd := a]> (accounts d)) d)).

(** The answer is the one the key's record holds. *)
Definition recorded (i : Idem) (res : Result) (d : DB) : Prop :=
  ∃ row, idempotency_records d !! idem_key i = Some row ∧ i_state row = CompletedState ∧
    ResStatus res = default 0 (i_response_status row) ∧ ResBody res = i_response_body row.

(** ** The database once the key is claimed *)

Definition claimed (i : Idem) (now : Z) (d : DB) : DB :=
  set_idem (<[idem_key i := claimed_row (IdemRequestHash i) now]> (idempotency_records d)) d.

Lemma complete_transaction_Ok i id w t w' d :
  complete_transaction i id w = (Ok t, w') →
  idempotency_records (w_db w) = idempotency_records (claimed i (w_txnow w) d) →
  ∃ cid, uuid_in id = Some cid ∧ loaded (w_db w) cid t ∧ w_txnow w' = w_txnow w ∧
    w_db w' = set_idem (<[idem_key i := completed_row (IdemRequestHash i) (marshal_Transaction t)
                            (Some cid) (w_txnow w)]> (idempotency_records d)) (w_db w).
Proof.
  unfold complete_transaction. intros (t' & w1 & E1 & Hr)%bind_Ok Hi.
  pose proof (loadTransaction_Ok _ _ _ _ E1) as (c & Hc & Hl).
  apply stable_run in E1 as [Hd1 Ht1]; [|apply _].
  apply bind_Ok in Hr as ([] & w2 & E2 & Hr). apply ret_Ok in Hr as [<- <-].
  apply (Complete_Ok _ _ _ _ _ _ (IdemRequestHash i)) in E2 as (c' & Hc' & Ht2 & Hd2).
  - simpl in Hc'. apply pg_bind_Ok in Hc' as (x & Hx%as_uuid_Ok & [= <-]). simplify_eq.
    exists x. split_and!; [done|done|congruence|].
    rewrite Hd2, Hd1, Hi, Ht1. simpl. by rewrite insert_insert_eq.
  - rewrite Hd1, Hi, Ht1. simpl. by rewrite lookup_insert_eq.
Qed.

Lemma posted_intro i now txn cid row rows bal evid o revs t d d' :
  idempotency_records d !! idem_key i = None →
  uuid_in (TxID txn) = Some cid → ledger_transactions d !! cid = None →
  one_reversal_check (ledger_transactions d) row = true → reversal_points_check row = true →
  Forall2 (entry_stored now) (Entries txn) rows → Forall (λ r, e_amount r ≠ 0) rows →
  (∀ a, shifted (Entries txn) a (balances d !! a) (bal !! a)) →
  loaded d' cid t →
  d' = set_idem (<[idem_key i := completed_row (IdemRequestHash i) (marshal_Transaction t)
                     (Some cid) now]> (idempotency_records d))
         (set_outbox (<[evid := o]> (outbox_events d))
            (set_reversals revs (set_balances bal (set_entries (ledger_entries d ++ rows)
               (set_transactions (<[cid := row]> (ledger_transactions d)) d))))) →
  posted i now txn cid row rows t d d'.
Proof. intros ?????????->. split; done. Qed.

(** Run the next call of a closure that leaves the database alone. *)
Ltac skip Hr w Hd Ht :=
  let a := fresh "a" in let E := fresh "E" in
  apply bind_Ok in Hr as (a & w & E & Hr); apply stable_run in E as [Hd Ht]; [|apply _].

(** The database once the entries of [txn] are posted and [revs] recorded. *)
Definition posting_db (i : Idem) (now : Z) (cid : string) (row : tx_row) (rows : list entry_row)
    (bal : gmap string balance_row) (revs : gmap string reversal_row) (d : DB) : DB :=
  set_reversals revs (set_balances bal (set_entries (ledger_entries d ++ rows)
    (set_transactions (<[cid := row]> (ledger_transactions d)) (claimed i now d)))).

(** What [posted] needs of a transaction before its response is stored. *)
Definition postable (txn : Transaction) (now : Z) (cid : string) (row : tx_row)
    (rows : list entry_row) (bal : gmap string balance_row) (d : DB) : Prop :=
  uuid_in (TxID txn) = Some cid ∧ ledger_transactions d !! cid = None ∧
  one_reversal_check (ledger_transactions d) row = true ∧ reversal_points_check row = true ∧
  Forall2 (entry_stored now) (Entries txn) rows ∧ Forall (λ r, e_amount r ≠ 0) rows ∧
  (∀ a, shifted (Entries txn) a (balances d !! a) (bal !! a)).

Lemma post_entries_claimed ctx txn i now d w w' :
  post_entries ctx txn w = (Ok tt, w') → w_db w = claimed i now d → w_txnow w = now →
  ∃ cid rev rows bal, as_uuid_opt (ReversesTransactionID txn) = PgOk rev ∧
    postable txn now cid (header_row txn rev now) rows bal d ∧ w_txnow w' = now ∧
    w_db w' = posting_db i now cid (header_row txn rev now) rows bal (reversals d) d.
Proof.
  intros Hr Hd <-. apply post_entries_Ok in Hr as (cid & rev & rows & bal & Hp).
  rewrite Hd in Hp. destruct Hp as (Hc & Hrev & Hf & Ho & Hpt & Hrows & Hnz & Hbal & Ht & Hdb).
  exists cid, rev, rows, bal. split_and!; [done| |done|exact Hdb]. done.
Qed.

(** The end of both commands: the event, the response, the record. *)
Lemma finish_posting cfg ctx txn ty data i now cid row rows bal revs d w res w' :
  (writeOutboxEvent cfg ctx txn ty data;;
   ledger_failpoint ctx AfterOutboxWritten;;
   stored ← complete_transaction i (TxID txn);
   ledger_failpoint ctx BeforeCommit;;
   mret (committed_result stored)) w = (Ok res, w') →
  w_db w = posting_db i now cid row rows bal revs d → w_txnow w = now →
  idempotency_records d !! idem_key i = None → postable txn now cid row rows bal d →
  ∃ t, res = committed_result t ∧ posted i now txn cid row rows t d (w_db w') ∧
    reversals (w_db w') = revs ∧ event_added cfg ctx txn ty data now d (w_db w').
Proof.
  intros ([] & w1 & E1 & Hr)%bind_Ok Hd Hnow Hkey (Hc & Hpost).
  apply writeOutboxEvent_Ok in E1 as (evid & o & Hev & Hfresh & Ht1 & Hd1).
  rewrite Hd, Hnow in *. skip Hr w2 Hd2 Ht2.
  apply bind_Ok in Hr as (t & w3 & E3 & Hr). skip Hr w4 Hd4 Ht4. apply ret_Ok in Hr as [<- <-].
  rewrite Ht1 in Ht2. rewrite Hd1 in Hd2.
  apply (complete_transaction_Ok _ _ _ _ _ d) in E3 as (cid' & Hc' & Hl & _ & Hd3);
    [|by rewrite Hd2, Ht2].
  simplify_eq. rewrite Hd2, Ht2 in Hd3. rewrite Hd2 in Hl. rewrite Hd3 in Hd4. rewrite Hd4.
  exists t. split_and!; [done| |done|by exists evid, o].
  destruct Hpost as (? & ? & ? & ? & ? & ?).
  eapply (posted_intro _ _ _ _ _ _ bal evid o revs); try done.
Qed.

Lemma executeTransfer_effect cfg ctx txID cmd w res w' d now :
  executeTransfer cfg ctx txID cmd w = (Ok res, w') →
  w_db w = claimed (TrIdem cmd) now d → w_txnow w = now →
  idempotency_records d !! idem_key (TrIdem cmd) = None →
  ∃ t, res = committed_result t ∧ transfer_effect cfg ctx txID cmd t d (w_db w').
Proof.
  unfold executeTransfer. intros (accts & w1 & E1 & Hr)%bind_Ok Hdb Hnow Hkey.
  pose proof (lockBalances_Ok _ _ _ _ E1) as Hl. apply stable_run in E1 as [Hd1 Ht1]; [|apply _].
  rewrite Hdb in *. rewrite Hnow in *. skip Hr w2 Hd2 Ht2.
  apply bind_Ok in Hr as (src & w3 & E3 & Hr). apply bind_Ok in Hr as (dst & w4 & E4 & Hr).
  destruct (Hl (SourceAccountID cmd)) as (src' & Esrc & Hsrc); [by left|].
  destruct (Hl (DestinationAccountID cmd)) as (dst' & Edst & Hdst); [by right; left|].
  rewrite Esrc in E3. apply ret_Ok in E3 as [-> ->].
  rewrite Edst in E4. apply ret_Ok in E4 as [-> ->].
  destruct (check_transfer src dst cmd) as [|] eqn:Echk; [done|].
  apply bind_Ok in Hr as (clock & w5 & E5 & Hr). apply gets_Ok in E5 as [-> ->].
  apply bind_Ok in Hr as (e0 & w6 & E6 & Hr). apply stable_run in E6 as [Hd6 Ht6]; [|apply _].
  apply bind_Ok in Hr as (e1 & w7 & E7 & Hr). apply stable_run in E7 as [Hd7 Ht7]; [|apply _].
  apply bind_Ok in Hr as ([] & w8 & E8 & Hr).
  apply (post_entries_claimed _ _ (TrIdem cmd) now d) in E8
    as (cid & rev & rows & bal & Hrev & Hpost & Ht8 & Hd8); [|congruence..].
  injection Hrev as <-.
  eapply finish_posting in Hr as (t & -> & Hp & Hrevs & Hevent); [|eassumption..].
  exists t. split; [done|]. eexists now, _, e0, e1, src, dst, cid, rows.
  split_and!; [exact Hsrc|exact Hdst|done|]. cbv zeta. split_and!; [exact Hp|done|exact Hevent].
Qed.

Lemma insertReversalRecord_Ok id o r reason w w' :
  insertReversalRecord id o r reason w = (Ok tt, w') →
  ∃ cid co cr, uuid_in id = Some cid ∧ uuid_in o = Some co ∧ uuid_in r = Some cr ∧
    w_txnow w' = w_txnow w ∧ reversals (w_db w) !! cid = None ∧
    w_db w' = set_reversals (<[cid := ReversalRow co cr reason (w_txnow w)]>
                               (reversals (w_db w))) (w_db w).
Proof.
  unfold insertReversalRecord. intros Hr. apply map_err_Ok, sql_Ok in Hr as (db' & E & ->).
  unfold sql_insert_reversal in E. simpl in E. unfold insert_reversal in E. pg_inv.
  uuid_inv. simplify_eq. eexists _, _, _. split_and!; done.
Qed.

Lemma executeReverse_effect cfg ctx rid cmd w res w' d now :
  executeReverse cfg ctx rid cmd w = (Ok res, w') →
  w_db w = claimed (RvIdem cmd) now d → w_txnow w = now →
  idempotency_records d !! idem_key (RvIdem cmd) = None →
  ∃ t, res = committed_result t ∧ reversal_effect cfg ctx rid cmd t d (w_db w').
Proof.
  unfold executeReverse. intros (original & w1 & E1 & Hr)%bind_Ok Hdb Hnow Hkey.
  pose proof (loadTransaction_Ok _ _ _ _ E1) as (orig & Horig & Hload).
  apply stable_run in E1 as [Hd1 Ht1]; [|apply _]. rewrite Hdb in *. rewrite Hnow in *.
  destruct (check_reversible original) as [|] eqn:Echk; [done|].
  skip Hr w2 Hd2 Ht2. skip Hr w3 Hd3 Ht3. skip Hr w4 Hd4 Ht4.
  apply bind_Ok in Hr as (clock & w5 & E5 & Hr). apply gets_Ok in E5 as [-> ->].
  apply bind_Ok in Hr as (ms & w6 & E6 & Hr). apply mirror_entries_Ok in E6 as Hms.
  apply stable_run in E6 as [Hd6 Ht6]; [|apply _].
  apply bind_Ok in Hr as ([] & w8 & E8 & Hr).
  apply (post_entries_claimed _ _ (RvIdem cmd) now d) in E8
    as (cid & rev & rows & bal & Hrev & Hpost & Ht8 & Hd8); [|congruence..].
  skip Hr w9 Hd9 Ht9. apply bind_Ok in Hr as ([] & w10 & E10 & Hr).
  apply insertReversalRecord_Ok in E10 as (recid & co & cr & _ & Hco & Hcr & Ht10 & Hrf & Hd10).
  rewrite Hd9, Hd8 in Hd10, Hrf. rewrite Ht9, Ht8 in Hd10.
  eapply (finish_posting _ _ (reversal_transaction rid original (Reason cmd) (w_clock w5) ms)
            _ _ (RvIdem cmd) now cid _ rows bal _ d) in Hr as (t & -> & Hp & Hrevs & Hevent); [|exact Hd10|congruence|done|exact Hpost].
  exists t. split; [done|].
  simpl in Hrev. apply pg_bind_Ok in Hrev as (co' & Hco'%as_uuid_Ok & [= <-]).
  destruct Hpost as [Hcid _]. simpl in Hcid. simplify_eq.
  eexists _, _, orig, original, ms, _, rows, recid.
  split_and!; [done|exact Hload|done|done|]. cbv zeta. eexists.
  split_and!; [done|exact Hp|exact Hrf|exact Hrevs|exact Hevent].
Qed.

Lemma executeCreateAccount_effect cmd w res w' d now :
  executeCreateAccount cmd w = (Ok res, w') →
  w_db w = claimed (CaIdem cmd) now d → w_txnow w = now →
  idempotency_records d !! idem_key (CaIdem cmd) = None →
  Replayed res = false ∧ recorded (CaIdem cmd) res (w_db w') ∧ account_effect cmd d (w_db w').
Proof.
  unfold executeCreateAccount. intros (acct & w1 & E1 & Hr)%bind_Ok Hdb Hnow Hkey.
  apply map_err_Ok, sql_Ok in E1 as (d1 & E1 & ->).
  unfold sql_insert_account in E1. simpl in E1. unfold insert_account in E1. pg_inv. simplify_eq.
  apply bind_Ok in Hr as ([] & w2 & E2 & Hr). apply map_err_Ok, sql_Ok in E2 as (d2 & E2 & ->).
  unfold sql_insert_balance in E2. simpl in E2. unfold insert_balance in E2. pg_inv. simplify_eq.
  apply bind_Ok in Hr as ([] & w3 & E3 & Hr). apply ret_Ok in Hr as [<- <-].
  apply (Complete_Ok _ _ _ _ _ _ (IdemRequestHash (CaIdem cmd))) in E3 as (c & [= <-] & _ & Hd).
  - split; [done|]. split; [by eexists; rewrite Hd; simpl; rewrite lookup_insert_eq|].
    exists (w_txnow w). simpl in *. rewrite Hdb in *. simpl in *.
    split_and!; try done. rewrite Hd. simpl. by rewrite insert_insert_eq.
  - simpl. rewrite Hdb. simpl. by rewrite lookup_insert_eq.
Qed.

(** ** What a committed attempt of each command did *)

(** The key had a completed record and nothing was written. *)
Definition replayed (i : Idem) (res : Result) (d : DB) : Prop :=
  Replayed res = true ∧
  ∃ row, idempotency_records d !! idem_key i = Some row ∧
    i_state row = CompletedState ∧ i_request_hash row = IdemRequestHash i ∧
    ResStatus res = default 0 (i_response_status row) ∧ ResBody res = i_response_body row.

Lemma transfer_closure_Ok cfg ctx txID cmd w res w' :
  transfer_closure cfg ctx txID cmd w = (Ok res, w') →
  (w_db w' = w_db w ∧ replayed (TrIdem cmd) res (w_db w)) ∨
  ∃ t, res = committed_result t ∧ transfer_effect cfg ctx txID cmd t (w_db w) (w_db w').
Proof.
  intros [(? & ? & ?)|(Hk & w1 & Ht & Hd & Hr)]%claim_or_replay_Ok; [by left|]. right.
  by eapply executeTransfer_effect.
Qed.

Lemma reverse_closure_Ok cfg ctx rid cmd w res w' :
  reverse_closure cfg ctx rid cmd w = (Ok res, w') →
  (w_db w' = w_db w ∧ replayed (RvIdem cmd) res (w_db w)) ∨
  ∃ t, res = committed_result t ∧ reversal_effect cfg ctx rid cmd t (w_db w) (w_db w').
Proof.
  intros [(? & ? & ?)|(Hk & w1 & Ht & Hd & Hr)]%claim_or_replay_Ok; [by left|]. right.
  by eapply executeReverse_effect.
Qed.

Lemma create_closure_Ok cmd w res w' :
  claim_or_replay (CaIdem cmd) (executeCreateAccount cmd) w = (Ok res, w') →
  (w_db w' = w_db w ∧ replayed (CaIdem cmd) res (w_db w)) ∨
  (Replayed res = false ∧ recorded (CaIdem cmd) res (w_db w') ∧
   account_effect cmd (w_db w) (w_db w')).
Proof.
  intros [(? & ? & ?)|(Hk & w1 & Ht & Hd & Hr)]%claim_or_replay_Ok; [by left|]. right.
  by eapply executeCreateAccount_effect.
Qed.
End effects.
