(* ===== verification/Kafka.v ===== *)
(** [internal/kafka]: publishing a message, and the pauses between retries
    ([outbox.Backoff] and the consumer's [fetchBackoff]).

    The writer of [kafka-go] is outside the repository: a publish either
    appends to the topic's log or not, and independently reports an error or
    not ([publish_fault]). *)
From S2P Require Import Prelude GoStrings GoTime GoFloat Json Apperr Failpoint Schema Monad World.
Local Open Scope Z_scope.

Section kafka.
Context `{Ext}.

Definition append_message (msg : KafkaMessage) : M unit :=
  modify (λ w, set_kafka (w_kafka w ++ [msg]) w).

Definition Publish (msg : KafkaMessage) : M unit :=
  n ← next_tick;
  match publish_fault n with
  | None =>
      append_message msg;;
      Inc "ledger_kafka_publish_total" [Topic msg; "success"]
  | Some (written, err) =>
      (if written : bool then append_message msg else mret tt);;
      Inc "ledger_kafka_publish_total" [Topic msg; "failure"];;
      throw (EFmt (Sprintf "kafka: publish to %s: " [AStr (Topic msg)]) (Some err) "")
  end.

(** [rand.Float64()]: k/2^53. *)
Definition Float64 : M Z := n ← next_tick; mret (Float64_bits n mod 2 ^ 53).

(** [f * r] for r = k/2^53. *)
Definition mul_fraction (f k : Z) : Z := round (k * f / 2 ^ 53).
End kafka.

(** The exponential part of [Backoff]: [float64(base) * math.Pow(2, attempt-1)]
    capped at [maxDelay]; [None] is NaN. From 2^1024 on the power is +Inf,
    which any cap is below. *)
Definition backoff_exp (attempt base maxDelay : Z) : option Z :=
  let attempt := if attempt <? 1 then 1 else attempt in
  let fbase := of_int base in
  if (1024 <=? attempt - 1) && (fbase =? 0) then None
  else
    let exp := fbase * 2 ^ Z.min (attempt - 1) 1024 in
    Some (if of_int maxDelay <? exp then of_int maxDelay else exp).

(** [Backoff], for the random fraction k/2^53. *)
Definition backoff_with (attempt base maxDelay k : Z) : Z :=
  match backoff_exp attempt base maxDelay with
  | None => int64_min
  | Some exp =>
      let minDelay := of_int base / 2 in
      if exp <=? minDelay then to_int64 exp
      else to_int64 (round (minDelay + mul_fraction (round (exp - minDelay)) k))
  end.

(** [fetchBackoff]: the base is 250ms and the cap 30s. *)
Definition fetch_backoff_with (failures k : Z) : Z :=
  match backoff_exp failures (250 * Millisecond) (30 * Second) with
  | None => int64_min
  | Some delay => to_int64 (round (delay / 2 + mul_fraction (delay / 2) k))
  end.

Section backoff.
Context `{Ext}.

(** [rand.Float64] is only called on the last branch. *)
Definition Backoff (attempt base maxDelay : Z) : M Z :=
  match backoff_exp attempt base maxDelay with
  | Some exp =>
      if exp <=? of_int base / 2 then mret (backoff_with attempt base maxDelay 0)
      else k ← Float64; mret (backoff_with attempt base maxDelay k)
  | None => k ← Float64; mret (backoff_with attempt base maxDelay k)
  end.

Definition fetchBackoff (failures : Z) : M Z :=
  k ← Float64; mret (fetch_backoff_with failures k).

Context {K : Type} (view : DB → K).

#[export] Instance keeps_Publish msg : Respects (keeps view) (Publish msg).
Proof. unfold Publish, append_message. respects_tac; by apply respects_modify. Qed.
#[export] Instance keeps_Backoff a b c : Respects (keeps view) (Backoff a b c).
Proof. unfold Backoff, Float64. respects_tac. Qed.
End backoff.

(** * Bounds *)

Lemma to_int64_between lo hi f :
  0 ≤ lo → hi ≤ int64_max → lo * one ≤ f ≤ hi * one → lo ≤ to_int64 f ≤ hi.
Proof.
  intros Hlo Hhi Hf. unfold to_int64.
  assert (lo ≤ Z.quot f one ≤ hi) as Hq.
  { assert (0 < one) by done. rewrite Z.quot_div_nonneg by nia.
    split; [apply Z.div_le_lower_bound|apply Z.div_le_upper_bound]; lia. }
  rewrite (proj2 (in_int64_iff _)); [done|]. unfold int64_min in *. lia.
Qed.
