(* ===== verification/Consumer.v ===== *)
(** [internal/kafka/consumer.go]: the consumer loop over one partition of a group. *)
From S2P Require Import Prelude GoStrings GoTime Json Apperr Failpoint Schema Monad World Storage Kafka.
Local Open Scope Z_scope.

(** How a fetch can fail: the context ended, the reader was closed, or the broker
    cannot be reached. *)
Inductive fetch_error := FetchCanceled | FetchClosed | FetchFailed.

(** The broker and its client, for one partition: everything that is appended to
    it until the process ends, the fetches that fail, and the commits of an
    offset that report an error, with their effect or without. *)
Class Broker := {
  partition : list KafkaMessage;
  fetch_fault : nat → option fetch_error;
  offset_fault : nat → option (bool * error);
}.

(** The reader's next offset, the offset the group would start from again, and the
    offsets the loop logged as failed. *)
Record Reader := mkReader {
  rd_position : nat;
  rd_committed : nat;
  rd_failed : list nat;
}.

Section consumer.
Context `{Ext} `{Broker}.

Notation CM := (ST (World * Reader)).

Definition lift {A} (m : M A) : CM A := λ s, let '(o, w) := m s.1 in (o, (w, s.2)).

Definition on_reader (f : Reader → Reader) : CM unit := modify (λ s, (s.1, f s.2)).

(** The next message in order. After the last one it waits until the context ends. *)
Definition FetchMessage : CM (fetch_error + nat * KafkaMessage) :=
  n ← lift next_tick;
  match fetch_fault n with
  | Some e => mret (inl e)
  | None =>
      i ← gets (λ s, rd_position s.2);
      match partition !! i with
      | None => mret (inl FetchCanceled)
      | Some msg =>
          on_reader (λ r, mkReader (S i) (rd_committed r) (rd_failed r));;
          mret (inr (i, msg))
      end
  end.

(** The group goes on after the message; an error is only logged. *)
Definition CommitMessages (i : nat) : CM unit :=
  n ← lift next_tick;
  match offset_fault n with
  | Some (false, _) => mret tt
  | _ => on_reader (λ r, mkReader (rd_position r) (S i) (rd_failed r))
  end.

Definition consumed (topic outcome : string) : CM unit :=
  lift (Inc "ledger_kafka_consume_total" [topic; outcome]).

(** The loop with at most [fuel] rounds: did it return? *)
Fixpoint consumer_loop (handle : KafkaMessage → M unit) (fuel : nat) (failures : Z) : CM bool :=
  match fuel with
  | O => mret false
  | S fuel =>
      fetched ← FetchMessage;
      match fetched with
      | inl FetchCanceled | inl FetchClosed => mret true
      | inl FetchFailed =>
          let failures := wrap64 (failures + 1) in
          consumed "" "fetch_error";;
          stopped ← lift (delay ← fetchBackoff failures; wait delay);
          if stopped : bool then mret true else consumer_loop handle fuel failures
      | inr (i, msg) =>
          r ← try (lift (handle msg));
          match r with
          | inl _ =>
              consumed (Topic msg) "failure";;
              on_reader (λ r, mkReader (rd_position r) (rd_committed r) (rd_failed r ++ [i]))
          | inr _ => CommitMessages i;; consumed (Topic msg) "success"
          end;;
          consumer_loop handle fuel 0
      end
  end.

Definition ConsumerRun (handle : KafkaMessage → M unit) (fuel : nat) : CM bool :=
  consumer_loop handle fuel 0.

(** A process that starts again reads from the committed offset. *)
Definition restart (r : Reader) : Reader := mkReader (rd_committed r) (rd_committed r) [].
End consumer.
