(* ===== verification/Publisher.v ===== *)
(** [internal/outbox/publisher.go]: draining the outbox to Kafka. *)
From S2P Require Import Prelude GoStrings GoTime Json Apperr Failpoint Schema Monad World Storage Idempotency Event Config Outbox Kafka.
Local Open Scope Z_scope.

Definition withEventHeaders (rec : OutboxRecord) : gmap string string :=
  <["event_type" := REventType rec]>
    (<["transaction_id" := AggregateID rec]> (<["event_id" := ID rec]> (RHeaders rec))).

Section publisher.
Context `{Ext} (cfg : Config).

Definition record_message (rec : OutboxRecord) : KafkaMessage :=
  mkMessage (RTopic rec) (PartitionKey rec) (Some (Payload rec)) (withEventHeaders rec).

(** The dead letter's document: a Go map, its keys in order. *)
Definition dlq_payload (rec : OutboxRecord) (cause : error) (now : Z) : json :=
  JObj [("attempts", JNum (Attempts rec + 1));
        ("dead_lettered_at", JTime now);
        ("error", JStr (err_text cause));
        ("event_id", JStr (ID rec));
        ("event_type", JStr (REventType rec));
        ("original", Payload rec);
        ("topic", JStr (RTopic rec));
        ("transaction_id", JStr (AggregateID rec))].

(** An error is only logged. *)
Definition publishToDLQ (rec : OutboxRecord) (cause : error) : M unit :=
  now ← Now;
  _ ← try (Publish (mkMessage (TopicPaymentsDLQ cfg) (PartitionKey rec)
             (Some (dlq_payload rec cause now)) (withEventHeaders rec)));
  mret tt.

Definition fail (rec : OutboxRecord) (cause : error) : M unit :=
  Inc "ledger_kafka_retry_total" [RTopic rec];;
  delay ← Backoff (Attempts rec + 1) (OutboxBaseBackoff cfg) (OutboxMaxBackoff cfg);
  r ← try (MarkFailed (ID rec) (err_text cause) delay (OutboxMaxAttempts cfg));
  match r with
  | inl _ => mret tt
  | inr (_, dead) =>
      if dead : bool then
        Inc "ledger_outbox_dead_letter_total" [];;
        publishToDLQ rec cause
      else mret tt
  end.

Definition publishOne (ctx : Ctx) (rec : OutboxRecord) : M bool :=
  let ctx := WithTransactionID ctx (AggregateID rec) in
  let cid := default "" (RHeaders rec !! "correlation_id") in
  let ctx := if String.eqb cid "" then ctx else WithCorrelationID ctx cid in
  o ← EvalFailpoint ctx BeforeKafkaPublish;
  match o with
  | Some err => fail rec err;; mret false
  | None =>
      r ← try (Publish (record_message rec));
      match r with
      | inl err => fail rec err;; mret false
      | inr _ =>
          o ← EvalFailpoint ctx AfterKafkaPublish;
          match o with
          | Some _ => mret false
          | None =>
              r ← try (MarkPublished (ID rec));
              match r with
              | inl _ => mret false
              | inr _ => mret true
              end
          end
      end
  end.

(** The loop over the batch: how many rows were published, and the context's
    error if it ended the loop. *)
Fixpoint publish_batch (ctx : Ctx) (batch : list OutboxRecord) (published : Z)
    : M (Z * option error) :=
  match batch with
  | [] => mret (published, None)
  | rec :: batch =>
      o ← ctx_Err;
      match o with
      | Some err => mret (published, Some err)
      | None =>
          ok ← publishOne ctx rec;
          publish_batch ctx batch (if ok : bool then published + 1 else published)
      end
  end.

Definition RunOnce (ctx : Ctx) : M (Z * option error) :=
  r ← try Backlog;
  match r with
  | inr n => SetGauge "ledger_outbox_backlog" n
  | inl _ => mret tt
  end;;
  r ← try (ClaimBatch (OutboxWorkerID cfg) (OutboxBatchSize cfg) (OutboxClaimTTL cfg));
  match r with
  | inl err => mret (0, Some err)
  | inr batch => publish_batch ctx batch 0
  end.
(** The polling loop with at most [fuel] passes: did it return? It goes on at once
    after a full batch, errors of a pass are only logged. *)
Fixpoint publisher_loop (fuel : nat) (ctx : Ctx) : M bool :=
  match fuel with
  | O => mret false
  | S fuel =>
      r ← RunOnce ctx;
      if OutboxBatchSize cfg <=? r.1 then publisher_loop fuel ctx
      else
        stopped ← wait (OutboxPollInterval cfg);
        if stopped : bool then mret true else publisher_loop fuel ctx
  end.

Definition RunPublisher (fuel : nat) (ctx : Ctx) : M bool :=
  if OutboxPollInterval cfg <=? 0 then panic "non-positive interval for NewTicker"
  else publisher_loop fuel ctx.
End publisher.
