(* ===== verification/Replay.v ===== *)
(** [internal/outbox/replay.go]: republishing recorded events. *)
From S2P Require Import Prelude GoStrings GoTime Json Apperr Failpoint Schema Monad World Storage Idempotency Event Config Outbox Kafka Publisher.
Local Open Scope Z_scope.

Record ReplayRequest := mkReplayRequest {
  RrTransactionID : string;
  RrFrom : option Z;
  RrTo : option Z;
  Limit : Z;
  RequestedBy : string;
  DryRun : bool;
}.

Record ReplayResult := mkReplayResult {
  RsReplayID : string;
  Matched : Z;
  Published : Z;
  Failed : Z;
  RsDryRun : bool;
  EventIDs : list string;
}.

Definition ValidateReplay (r : ReplayRequest) : option Error :=
  if String.eqb (RrTransactionID r) "" && bool_decide (RrFrom r = None) &&
     bool_decide (RrTo r = None) then
    Some (InvalidRequest "replay requires transaction_id and/or a from/to time range" [])
  else if match RrFrom r, RrTo r with Some f, Some t => t <? f | _, _ => false end then
    Some (InvalidRequest "to must not be before from" [])
  else if (Limit r <? 0) || (10000 <? Limit r) then
    Some (InvalidRequest "limit must be between 0 and 10000" [])
  else None.

(** The document is decoded, given the replay metadata, and encoded again. *)
Definition markReplayed (payload : json) (meta : ReplayMeta) : option json :=
  env ← decode (A:=Envelope) payload;
  Some (encode (mkEnvelope (EventID env) (EventType env) (EnvSchemaVersion env)
                  (EnvTransactionID env) (OccurredAt env) (EnvCorrelationID env)
                  (Some meta) (Data env))).

Section replay.
Context `{Ext}.

Definition add_id (id : string) (r : ReplayResult) : ReplayResult :=
  mkReplayResult (RsReplayID r) (Matched r) (Published r) (Failed r) (RsDryRun r)
    (EventIDs r ++ [id]).
Definition add_failed (r : ReplayResult) : ReplayResult :=
  mkReplayResult (RsReplayID r) (Matched r) (Published r) (Failed r + 1) (RsDryRun r) (EventIDs r).
Definition add_published (r : ReplayResult) : ReplayResult :=
  mkReplayResult (RsReplayID r) (Matched r) (Published r + 1) (Failed r) (RsDryRun r) (EventIDs r).

Definition replay_message (rec : OutboxRecord) (replayID : string) (payload : json)
    : KafkaMessage :=
  mkMessage (RTopic rec) (PartitionKey rec) (Some payload)
    (<["replay_id" := replayID]> (<["replay" := "true"]> (withEventHeaders rec))).

(** The loop over the records, the next being the [i]-th. *)
Fixpoint replay_loop (req : ReplayRequest) (replayID : string) (replayedAt : Z)
    (records : list OutboxRecord) (i : Z) (result : ReplayResult) : M ReplayResult :=
  match records with
  | [] => mret result
  | rec :: records =>
      let result := add_id (ID rec) result in
      if DryRun req then replay_loop req replayID replayedAt records (i + 1) result
      else
        match markReplayed (Payload rec)
                (mkReplayMeta true replayID replayedAt (RequestedBy req) i) with
        | None =>
            Inc "ledger_replay_events_total" ["failure"];;
            replay_loop req replayID replayedAt records (i + 1) (add_failed result)
        | Some payload =>
            r ← try (Publish (replay_message rec replayID payload));
            match r with
            | inl _ =>
                Inc "ledger_replay_events_total" ["failure"];;
                replay_loop req replayID replayedAt records (i + 1) (add_failed result)
            | inr _ =>
                Inc "ledger_replay_events_total" ["success"];;
                replay_loop req replayID replayedAt records (i + 1) (add_published result)
            end
        end
  end.

Definition RunReplay (req : ReplayRequest) : M ReplayResult :=
  match ValidateReplay req with
  | Some e => throw (EApp e)
  | None =>
      let n := if Limit req =? 0 then 1000 else Limit req in
      records ← ListForReplay (RrTransactionID req) (RrFrom req) (RrTo req) n;
      replayID ← NewString;
      replayedAt ← Now;
      replay_loop req replayID replayedAt records 0
        (mkReplayResult replayID (Z.of_nat (length records)) 0 0 (DryRun req) [])
  end.
End replay.
