(* ===== verification/Reconciliation.v ===== *)
(** [internal/reconciliation/reconcile.go]: the audit that recomputes balances
    from the entries. *)
From S2P Require Import Prelude GoStrings GoTime Json Apperr Failpoint Schema Monad World.
Local Open Scope Z_scope.

Record Mismatch := mkMismatch {
  MmAccountID : string;
  Stored : Z;
  Computed : Z;
  Delta : Z;
}.

Record Report := mkReport {
  RanAt : Z;
  AccountsChecked : Z;
  TransactionsChecked : Z;
  Mismatches : list Mismatch;
  UnbalancedTxIDs : list string;
  Duration : string;
}.

Definition OK (r : Report) : bool :=
  (length (Mismatches r) =? 0)%nat && (length (UnbalancedTxIDs r) =? 0)%nat.

(** The entries of an account. *)
Definition entries_at (id : string) (es : list entry_row) : list entry_row :=
  filter (λ e, e_account_id e = id) es.

(** The balances query: account, stored amount and SUM, one row per balance. *)
Definition balance_sums (db : DB) : list (string * Z * Z) :=
  map (λ p, (p.1, b_amount p.2, sum_with e_amount (entries_at p.1 (ledger_entries db))))
    (map_to_list (balances db)).

(** The transactions query: id, SUM and COUNT. *)
Definition transaction_sums (db : DB) : list (string * Z * Z) :=
  map (λ p, let es := entries_of p.1 (ledger_entries db) in
            (p.1, sum_with e_amount es, Z.of_nat (length es)))
    (map_to_list (ledger_transactions db)).

Section reconciliation.
Context `{Ext}.

(** Scanning a SUM into an [int64] fails when it does not fit. *)
Definition scan_error : error := EText "cannot scan numeric into *int64".

Definition add_mismatch (m : Mismatch) (r : Report) : Report :=
  mkReport (RanAt r) (AccountsChecked r) (TransactionsChecked r) (Mismatches r ++ [m])
    (UnbalancedTxIDs r) (Duration r).
Definition add_unbalanced (id : string) (r : Report) : Report :=
  mkReport (RanAt r) (AccountsChecked r) (TransactionsChecked r) (Mismatches r)
    (UnbalancedTxIDs r ++ [id]) (Duration r).
Definition account_checked (r : Report) : Report :=
  mkReport (RanAt r) (AccountsChecked r + 1) (TransactionsChecked r) (Mismatches r)
    (UnbalancedTxIDs r) (Duration r).
Definition transaction_checked (r : Report) : Report :=
  mkReport (RanAt r) (AccountsChecked r) (TransactionsChecked r + 1) (Mismatches r)
    (UnbalancedTxIDs r) (Duration r).

Fixpoint scan_balances (rows : list (string * Z * Z)) (r : Report) : M Report :=
  match rows with
  | [] => mret r
  | (id, stored, computed) :: rows =>
      if negb (in_int64 computed) then
        throw (EFmt "reconciliation: scan balance: " (Some scan_error) "")
      else
        let r := account_checked r in
        scan_balances rows
          (if stored =? computed then r
           else add_mismatch (mkMismatch id stored computed (wrap64 (stored - computed))) r)
  end.

Fixpoint scan_transactions (rows : list (string * Z * Z)) (r : Report) : M Report :=
  match rows with
  | [] => mret r
  | (id, total, entryCount) :: rows =>
      if negb (in_int64 total) then
        throw (EFmt "reconciliation: scan transaction: " (Some scan_error) "")
      else
        let r := transaction_checked r in
        scan_transactions rows
          (if negb (total =? 0) || (entryCount <? 2) then add_unbalanced id r else r)
  end.

(** The error path of a query, which counts the run. *)
Definition counted_query {A} (what : string) (f : DB → pg A) : M A :=
  r ← try (query f);
  match r with
  | inl err =>
      Inc "ledger_reconciliation_runs_total" ["error"];;
      throw (EFmt ("reconciliation: " +:+ what +:+ ": ") (Some err) "")
  | inr rows => mret rows
  end.

(** [rows.Err()] after the last row: not counted as a run. *)
Definition rows_Err (what : string) : M unit :=
  n ← next_tick;
  match stmt_fault n with
  | Some err => throw (EFmt ("reconciliation: " +:+ what +:+ ": ") (Some err) "")
  | None => mret tt
  end.

Definition Run : M Report :=
  start ← Now;
  rows ← counted_query "balances" (λ db, PgOk (balance_sums db));
  report ← scan_balances rows (mkReport start 0 0 [] [] "");
  rows_Err "balances";;
  txRows ← counted_query "transactions" (λ db, PgOk (transaction_sums db));
  report ← scan_transactions txRows report;
  rows_Err "transactions";;
  stop ← Now;
  let report := mkReport (RanAt report) (AccountsChecked report) (TransactionsChecked report)
                  (Mismatches report) (UnbalancedTxIDs report)
                  (Duration_String (stop - start)) in
  let mismatchCount :=
    Z.of_nat (length (Mismatches report)) + Z.of_nat (length (UnbalancedTxIDs report)) in
  (if 0 <? mismatchCount then
     Inc "ledger_reconciliation_mismatch_total" [Itoa mismatchCount];;
     Inc "ledger_reconciliation_runs_total" ["mismatch"]
   else Inc "ledger_reconciliation_runs_total" ["ok"]);;
  mret report.
End reconciliation.
