(* ===== verification/Handlers.v ===== *)
(** [internal/api/handlers.go] and [failpoints.go]: the HTTP handlers. *)
From S2P Require Import Prelude GoStrings GoTime Json Apperr Failpoint Schema Monad World Storage Idempotency Event Config Cache Outbox LedgerModel Http LedgerRepo LedgerService Kafka Publisher Replay Reconciliation.
Local Open Scope Z_scope.

Definition scopeCreateAccount := "POST /v1/accounts".
Definition scopeTransfer := "POST /v1/transfers".
Definition scopeReverse := "POST /v1/transactions/reverse".
Definition scopeReplay := "POST /v1/replay".

(** * Request bodies *)

Record createAccountRequest := mkCreateAccountRequest {
  CrqID : string;
  CrqCurrency : string;
  CrqKind : string;
  CrqAllowOverdraft : bool;
  CrqMetadata : option (gmap string json);
}.

Definition createAccountRequest_fields : list (struct_field createAccountRequest) :=
  let f := "createAccountRequest" in
  [string_field f "id" (λ v r, mkCreateAccountRequest v (CrqCurrency r) (CrqKind r)
     (CrqAllowOverdraft r) (CrqMetadata r));
   string_field f "currency" (λ v r, mkCreateAccountRequest (CrqID r) v (CrqKind r)
     (CrqAllowOverdraft r) (CrqMetadata r));
   string_field f "kind" (λ v r, mkCreateAccountRequest (CrqID r) (CrqCurrency r) v
     (CrqAllowOverdraft r) (CrqMetadata r));
   bool_field f "allow_overdraft" (λ v r, mkCreateAccountRequest (CrqID r) (CrqCurrency r)
     (CrqKind r) v (CrqMetadata r));
   map_field f "metadata" CrqMetadata (λ v r, mkCreateAccountRequest (CrqID r) (CrqCurrency r)
     (CrqKind r) (CrqAllowOverdraft r) v)].

(** An empty map is omitted like a nil one. *)
Definition marshal_createAccountRequest (r : createAccountRequest) : json :=
  JObj ([("id", JStr (CrqID r)); ("currency", JStr (CrqCurrency r)); ("kind", JStr (CrqKind r));
         ("allow_overdraft", JBool (CrqAllowOverdraft r))]
        ++ (if decide (default ∅ (CrqMetadata r) = ∅) then []
            else [("metadata", marshal_map (default ∅ (CrqMetadata r)))])).

Record transferRequest := mkTransferRequest {
  TrqSource : string;
  TrqDestination : string;
  TrqAmount : Z;
  TrqCurrency : string;
  TrqDescription : string;
  TrqExternalReference : string;
}.

Definition transferRequest_fields : list (struct_field transferRequest) :=
  let f := "transferRequest" in
  [string_field f "source_account_id" (λ v r, mkTransferRequest v (TrqDestination r) (TrqAmount r)
     (TrqCurrency r) (TrqDescription r) (TrqExternalReference r));
   string_field f "destination_account_id" (λ v r, mkTransferRequest (TrqSource r) v (TrqAmount r)
     (TrqCurrency r) (TrqDescription r) (TrqExternalReference r));
   int_field f "amount" "int64" (λ v r, mkTransferRequest (TrqSource r) (TrqDestination r) v
     (TrqCurrency r) (TrqDescription r) (TrqExternalReference r));
   string_field f "currency" (λ v r, mkTransferRequest (TrqSource r) (TrqDestination r)
     (TrqAmount r) v (TrqDescription r) (TrqExternalReference r));
   string_field f "description" (λ v r, mkTransferRequest (TrqSource r) (TrqDestination r)
     (TrqAmount r) (TrqCurrency r) v (TrqExternalReference r));
   string_field f "external_reference" (λ v r, mkTransferRequest (TrqSource r) (TrqDestination r)
     (TrqAmount r) (TrqCurrency r) (TrqDescription r) v)].

Definition marshal_transferRequest (r : transferRequest) : json :=
  JObj ([("source_account_id", JStr (TrqSource r));
         ("destination_account_id", JStr (TrqDestination r));
         ("amount", JNum (TrqAmount r));
         ("currency", JStr (TrqCurrency r))]
        ++ omit_str "description" (TrqDescription r)
        ++ omit_str "external_reference" (TrqExternalReference r)).

Record reverseRequest := mkReverseRequest {
  RvqReason : string;
  RvqTransactionID : string;
}.

Definition marshal_reverseRequest (r : reverseRequest) : json :=
  JObj (omit_str "reason" (RvqReason r) ++ [("transaction_id", JStr (RvqTransactionID r))]).

(** The body of a reversal: an anonymous struct with a reason. *)
Definition reverse_body_fields : list (struct_field string) :=
  [string_field "" "reason" (λ v _, v)].

Definition ReplayRequest_fields `{Ext} : list (struct_field ReplayRequest) :=
  let f := "ReplayRequest" in
  [string_field f "transaction_id" (λ v r, mkReplayRequest v (RrFrom r) (RrTo r) (Limit r)
     (RequestedBy r) (DryRun r));
   time_field "from" (λ v r, mkReplayRequest (RrTransactionID r) v (RrTo r) (Limit r)
     (RequestedBy r) (DryRun r));
   time_field "to" (λ v r, mkReplayRequest (RrTransactionID r) (RrFrom r) v (Limit r)
     (RequestedBy r) (DryRun r));
   int_field f "limit" "int" (λ v r, mkReplayRequest (RrTransactionID r) (RrFrom r) (RrTo r) v
     (RequestedBy r) (DryRun r));
   string_field f "requested_by" (λ v r, mkReplayRequest (RrTransactionID r) (RrFrom r) (RrTo r)
     (Limit r) v (DryRun r));
   bool_field f "dry_run" (λ v r, mkReplayRequest (RrTransactionID r) (RrFrom r) (RrTo r)
     (Limit r) (RequestedBy r) v)].

Definition marshal_ReplayRequest (r : ReplayRequest) : json :=
  JObj (omit_str "transaction_id" (RrTransactionID r)
        ++ omit_ptr "from" (JTime <$> RrFrom r) ++ omit_ptr "to" (JTime <$> RrTo r)
        ++ omit_int "limit" (Limit r) ++ omit_str "requested_by" (RequestedBy r)
        ++ (if DryRun r then [("dry_run", JBool true)] else [])).

Definition marshal_ReplayResult (r : ReplayResult) : json :=
  JObj [("replay_id", JStr (RsReplayID r)); ("matched", JNum (Matched r));
        ("published", JNum (Published r)); ("failed", JNum (Failed r));
        ("dry_run", JBool (RsDryRun r)); ("event_ids", JArr (map JStr (EventIDs r)))].

Definition marshal_Balance (b : Balance) : json :=
  JObj [("account_id", JStr (BalAccountID b)); ("amount", JNum (BalAmount b));
        ("currency", JStr (BalCurrency b)); ("version", JNum (BalVersion b));
        ("updated_at", JTime (BalUpdatedAt b))].

Definition marshal_Mismatch (m : Mismatch) : json :=
  JObj [("account_id", JStr (MmAccountID m)); ("stored_balance", JNum (Stored m));
        ("computed_balance", JNum (Computed m)); ("delta", JNum (Delta m))].

Definition marshal_Report (r : Report) : json :=
  JObj [("ran_at", JTime (RanAt r)); ("accounts_checked", JNum (AccountsChecked r));
        ("transactions_checked", JNum (TransactionsChecked r));
        ("mismatches", JArr (map marshal_Mismatch (Mismatches r)));
        ("unbalanced_transaction_ids", JArr (map JStr (UnbalancedTxIDs r)));
        ("duration", JStr (Duration r))].

(** * Idempotency *)

Definition idempotencyKey (r : Request) : Error + string :=
  let key := HeaderGet r HeaderIdempotencyKey in
  if String.eqb key "" then
    inl (InvalidRequest "%s header is required for all mutating requests" [AStr HeaderIdempotencyKey])
  else if (255 <? String.length key)%nat then
    inl (InvalidRequest "%s must be at most 255 characters" [AStr HeaderIdempotencyKey])
  else inr key.

Section handlers.
Context `{Ext} (cfg : Config).

(** Was the response written? *)
Definition replayFromCache (r : Request) (scope key hash : string) : M bool :=
  cached ← Cache.Get cfg scope key;
  match cached with
  | None => mret false
  | Some cached =>
      if negb (String.eqb (CrRequestHash cached) hash) then
        Inc "ledger_idempotency_total" ["conflict"; "redis"];;
        writeError r (EApp (Conflict key));;
        mret true
      else
        Inc "ledger_idempotency_total" ["hit"; "redis"];;
        SetHeader HeaderIdempotentHit "true";;
        writeRaw (CrStatus cached) (Some (CrBody cached));;
        mret true
  end.

(** The cache is filled after the commit. *)
Definition finishIdempotent (r : Request) (scope key hash : string) (result : Result) : M unit :=
  let txID := match ResTransaction result with Some t => TxID t | None => "" end in
  Put cfg scope key (mkCached (ResStatus result) (default JNull (ResBody result)) hash txID);;
  (if Replayed result then SetHeader HeaderIdempotentHit "true" else mret tt);;
  writeRaw (ResStatus result) (ResBody result).

(** How the handlers of the three commands end. *)
Definition run_command (r : Request) (scope key hash : string) (command : M Result) : M unit :=
  replayed ← replayFromCache r scope key hash;
  if replayed : bool then mret tt
  else or_error r command (finishIdempotent r scope key hash).

Definition create_command (key hash : string) (req : createAccountRequest) : CreateAccountCommand :=
  mkCreateAccount (CrqID req) (CrqCurrency req) (CrqKind req) (CrqAllowOverdraft req)
    (CrqMetadata req) (mkIdem scopeCreateAccount key hash).

Definition with_kind (req : createAccountRequest) : createAccountRequest :=
  if String.eqb (CrqKind req) "" then
    mkCreateAccountRequest (CrqID req) (CrqCurrency req) KindUser (CrqAllowOverdraft req)
      (CrqMetadata req)
  else req.

Definition handleCreateAccount (r : Request) : M unit :=
  or_refuse r (idempotencyKey r) (λ key,
  or_refuse r (decodeJSON "api.createAccountRequest" createAccountRequest_fields
                 (mkCreateAccountRequest "" "" "" false None) r) (λ req,
  let req := with_kind req in
  let hash := HashRequest scopeCreateAccount (marshal_createAccountRequest req) in
  run_command r scopeCreateAccount key hash
    (CreateAccount cfg (create_command key hash req)))).

Definition transfer_command (key hash : string) (req : transferRequest) : TransferCommand :=
  mkTransfer (TrqSource req) (TrqDestination req) (TrqAmount req) (TrqCurrency req)
    (TrqDescription req) (TrqExternalReference req) (mkIdem scopeTransfer key hash).

Definition handleTransfer (r : Request) : M unit :=
  or_refuse r (idempotencyKey r) (λ key,
  or_refuse r (decodeJSON "api.transferRequest" transferRequest_fields
                 (mkTransferRequest "" "" 0 "" "" "") r) (λ req,
  let hash := HashRequest scopeTransfer (marshal_transferRequest req) in
  run_command r scopeTransfer key hash
    (Transfer cfg (rq_ctx r) (transfer_command key hash req)))).

Definition reverse_command (key hash : string) (req : reverseRequest) : ReverseCommand :=
  mkReverse (RvqTransactionID req) (RvqReason req) (mkIdem scopeReverse key hash).

(** The type of the optional body, as reflection prints it. *)
Definition reverse_body_type : string :=
  "struct { Reason string " +:+ Quote ("json:" +:+ Quote "reason,omitempty") +:+ " }".

Definition handleReverse (r : Request) : M unit :=
  or_refuse r (idempotencyKey r) (λ key,
  or_refuse r (if 0 <? ContentLength r
               then decodeJSON reverse_body_type reverse_body_fields "" r
               else inr "") (λ reason,
  let req := mkReverseRequest reason (PathValue r "id") in
  let hash := HashRequest scopeReverse (marshal_reverseRequest req) in
  run_command r scopeReverse key hash
    (Reverse cfg (rq_ctx r) (reverse_command key hash req)))).

(** ** Work that cannot join a transaction *)

(** The variables of [runExternalIdempotent] its first closure assigns:
    [claimed], [replayStatus], [replayBody]. *)
Definition external_vars : Type := bool * Z * option json.

(** What the first closure finds: nothing, or a stored response. *)
Definition claim_external (scope key hash : string) : M (option (Z * option json)) :=
  LockKey scope key;;
  existing ← Claim scope key hash;
  match existing with
  | None => mret None
  | Some rec =>
      if negb (String.eqb (RequestHash rec) hash) then throw (EApp (Conflict key))
      else if negb (bool_decide (State rec = CompletedState)) then throw (EApp (InProgress key))
      else mret (Some (ResponseStatus rec, ResponseBody rec))
  end.

(** The closure itself: a failed attempt leaves the variables as they are. *)
Definition claim_closure (scope key hash : string) : body external_vars := λ l w,
  match claim_external scope key hash w with
  | (Ok None, w') => (Ok tt, (true, l.1.2, l.2), w')
  | (Ok (Some (status, b)), w') => (Ok tt, (l.1.1, status, b), w')
  | (Err e, w') => (Err e, l, w')
  | (Panic p, w') => (Panic p, l, w')
  end.

(** [InTx] as a step that returns the variables. *)
Definition InTx_vars {L} (waiting : Z → M unit) (maxRetries : Z) (fn : body L) (l : L) : M L := λ w,
  match InTx_waiting waiting maxRetries fn l w with
  | (Ok _, l', w') => (Ok l', w')
  | (Err e, _, w') => (Err e, w')
  | (Panic p, _, w') => (Panic p, w')
  end.

Lemma InTx_vars_pause {L} maxRetries (fn : body L) l w :
  InTx_vars pause maxRetries fn l w =
  match InTx maxRetries fn l w with
  | (Ok _, l', w') => (Ok l', w')
  | (Err e, _, w') => (Err e, w')
  | (Panic p, _, w') => (Panic p, w')
  end.
Proof. reflexivity. Qed.

(** Claim, work, complete: three steps. When the work fails the claim is
    released; a failure to release it is only logged. Nothing is locked between the
    steps and between the attempts of a transaction: [waiting] is what happens
    there. *)
Definition runExternalIdempotent_waiting (waiting : Z → M unit) (scope key hash : string)
    (work : M (Z * json)) : M (Z * option json) :=
  '(claimed, replayStatus, replayBody) ←
    InTx_vars waiting (DBMaxTxRetries cfg) (claim_closure scope key hash) (false, 0, None);
  if negb (claimed : bool) then
    Inc "ledger_idempotency_total" ["hit"; "postgres"];; mret (replayStatus, replayBody)
  else
    Inc "ledger_idempotency_total" ["miss"; "postgres"];;
    waiting 0;;
    r ← try work;
    match r with
    | inl err => waiting 0;; _ ← try (Discard scope key); throw err
    | inr (status, b) =>
        _ ← InTx_result_waiting waiting (DBMaxTxRetries cfg) (Complete scope key status b None);
        mret (status, Some b)
    end.

Definition runExternalIdempotent (scope key hash : string) (work : M (Z * json))
    : M (Z * option json) := runExternalIdempotent_waiting pause scope key hash work.

(** There is no pause before a first attempt. *)
Lemma runExternalIdempotent_eq scope key hash work :
  runExternalIdempotent scope key hash work =
  ('(claimed, replayStatus, replayBody) ←
    InTx_vars pause (DBMaxTxRetries cfg) (claim_closure scope key hash) (false, 0, None);
  if negb (claimed : bool) then
    Inc "ledger_idempotency_total" ["hit"; "postgres"];; mret (replayStatus, replayBody)
  else
    Inc "ledger_idempotency_total" ["miss"; "postgres"];;
    r ← try work;
    match r with
    | inl err => _ ← try (Discard scope key); throw err
    | inr (status, b) =>
        _ ← InTx_result (DBMaxTxRetries cfg) (Complete scope key status b None);
        mret (status, Some b)
    end).
Proof. reflexivity. Qed.

Definition with_requester (requestID : string) (req : ReplayRequest) : ReplayRequest :=
  mkReplayRequest (RrTransactionID req) (RrFrom req) (RrTo req) (Limit req) requestID (DryRun req).

Definition replay_work (req : ReplayRequest) : M (Z * json) :=
  result ← RunReplay req; mret (200, marshal_ReplayResult result).

Definition handleReplay_waiting (waiting : Z → M unit) (r : Request) : M unit :=
  or_refuse r (idempotencyKey r) (λ key,
  or_refuse r (decodeJSON "outbox.ReplayRequest" ReplayRequest_fields
                 (mkReplayRequest "" None None 0 "" false) r) (λ req,
  match ValidateReplay req with
  | Some e => writeError r (EApp e)
  | None =>
      let req := with_requester (RequestID (rq_ctx r)) req in
      let hash := HashRequest scopeReplay (marshal_ReplayRequest req) in
      replayed ← replayFromCache r scopeReplay key hash;
      if replayed : bool then mret tt
      else
        or_error r (runExternalIdempotent_waiting waiting scopeReplay key hash (replay_work req)) (λ res,
          Put cfg scopeReplay key (mkCached res.1 (default JNull res.2) hash "");;
          writeRaw res.1 res.2)
  end)).

Definition handleReplay (r : Request) : M unit := handleReplay_waiting pause r.

Lemma handleReplay_eq r :
  handleReplay r =
  or_refuse r (idempotencyKey r) (λ key,
  or_refuse r (decodeJSON "outbox.ReplayRequest" ReplayRequest_fields
                 (mkReplayRequest "" None None 0 "" false) r) (λ req,
  match ValidateReplay req with
  | Some e => writeError r (EApp e)
  | None =>
      let req := with_requester (RequestID (rq_ctx r)) req in
      let hash := HashRequest scopeReplay (marshal_ReplayRequest req) in
      replayed ← replayFromCache r scopeReplay key hash;
      if replayed : bool then mret tt
      else
        or_error r (runExternalIdempotent scopeReplay key hash (replay_work req)) (λ res,
          Put cfg scopeReplay key (mkCached res.1 (default JNull res.2) hash "");;
          writeRaw res.1 res.2)
  end)).
Proof. reflexivity. Qed.

(** ** Reads *)

Definition handleGetAccount (r : Request) : M unit :=
  or_error r (GetAccount (PathValue r "id")) (λ acct, writeJSON 200 (marshal_Account acct)).

Definition handleGetBalance (r : Request) : M unit :=
  or_error r (GetBalance (PathValue r "id")) (λ balance, writeJSON 200 (marshal_Balance balance)).

Definition handleListEntries (r : Request) : M unit :=
  let raw := QueryGet r "limit" in
  or_refuse r (if String.eqb raw "" then inr 100
               else match Atoi raw with
                    | Some parsed =>
                        if parsed <=? 0 then inl (InvalidRequest "limit must be a positive integer" [])
                        else inr parsed
                    | None => inl (InvalidRequest "limit must be a positive integer" [])
                    end) (λ limit,
  or_error r (ListEntries (PathValue r "id") limit (QueryGet r "cursor")) (λ page,
    writeJSON 200 (marshal_EntryPage page))).

Definition handleGetTransaction (r : Request) : M unit :=
  or_error r (GetTransaction (PathValue r "id")) (λ txn, writeJSON 200 (marshal_Transaction txn)).

Definition handleReconcile (r : Request) : M unit :=
  or_error r Reconciliation.Run (λ report,
    writeJSON (if OK report then 200 else 409) (marshal_Report report)).

(** ** Health *)

Definition handleLive (r : Request) : M unit := writeJSON 200 (JObj [("status", JStr "ok")]).

(** [db.Ping]. *)
Definition Ping : M unit :=
  n ← next_tick; match stmt_fault n with Some err => throw err | None => mret tt end.

Definition redis_ping : M unit :=
  n ← next_tick; match redis_fault n with Some (_, err) => throw err | None => mret tt end.

Definition handleReady (r : Request) : M unit :=
  pg ← try Ping;
  let '(postgres, status) :=
    match pg with inl err => ("error: " +:+ err_text err, 503) | inr _ => ("ok", 200) end in
  redis ← (if RedisEnabled cfg then
             res ← try redis_ping;
             mret (match res with inl err => "degraded: " +:+ err_text err | inr _ => "ok" end)
           else mret "disabled");
  writeJSON status
    (JObj [("checks", JObj [("kafka", JStr "unchecked"); ("postgres", JStr postgres);
                            ("redis", JStr redis)]);
           ("status", JStr (if status =? 200 then "ready" else "not_ready"))]).

(** ** Failpoints *)

Definition active_json (r : registry_ptr) : json := marshal_map (JStr <$> Active r).

Definition handleListFailpoints (r : Request) : M unit :=
  fp ← gets w_fp;
  writeJSON 200 (JObj [("active", active_json fp); ("available", JArr (map JStr All));
                       ("enabled", JBool (Enabled fp))]).

Definition arm_fields : list (struct_field (string * string)) :=
  [string_field "" "name" (λ v p, (v, p.2)); string_field "" "action" (λ v p, (p.1, v))].

Definition arm_type : string :=
  "struct { Name string " +:+ Quote ("json:" +:+ Quote "name") +:+ "; Action string "
  +:+ Quote ("json:" +:+ Quote "action") +:+ " }".

Definition Arm_failpoint (name action : string) : M (option error) := λ w,
  let '(err, r') := Arm (w_fp w) name action in (Ok err, set_fp r' w).

Definition write_active : M unit :=
  fp ← gets w_fp; writeJSON 200 (JObj [("active", active_json fp)]).

Definition handleArmFailpoint (r : Request) : M unit :=
  or_refuse r (decodeJSON arm_type arm_fields ("", "") r) (λ req,
  e ← Arm_failpoint req.1 req.2;
  match e with
  | Some err => writeError r (EApp (InvalidRequest "%s" [AStr (err_text err)]))
  | None => write_active
  end).

Definition handleResetFailpoints (r : Request) : M unit :=
  modify (λ w, set_fp (Reset (w_fp w)) w);; write_active.
End handlers.
