(* ===== verification/Server.v ===== *)
(** [internal/api/middleware.go] and [server.go]: the middleware chain, the
    routes, and serving one request. *)
From S2P Require Import Prelude GoStrings GoTime Json Apperr Failpoint Schema Monad World Storage Idempotency Event Config Cache Outbox LedgerModel Http RateLimit LedgerRepo LedgerService Kafka Publisher Replay Reconciliation Handlers.
Local Open Scope Z_scope.

Definition handler : Type := Request → M unit.

Section middleware.
Context `{Ext}.

(** A request identifier is drawn when the client sends none; it doubles as the
    correlation identifier when there is no other. *)
Definition withRequestContext (next : handler) : handler := λ r,
  let sent := HeaderGet r HeaderRequestID in
  requestID ← (if String.eqb sent "" then NewString else mret sent);
  let correlation := HeaderGet r HeaderCorrelationID in
  let correlationID := if String.eqb correlation "" then requestID else correlation in
  let ctx := WithCorrelationID (WithRequestID (rq_ctx r) requestID) correlationID in
  SetHeader HeaderRequestID requestID;;
  SetHeader HeaderCorrelationID correlationID;;
  next (WithContext r ctx).

(** A panic is answered with a 500; an answer that was begun stays. *)
Definition withRecovery (next : handler) : handler := λ r w,
  match next r w with
  | (Panic _, w') => writeError r (EApp (New CodeInternal "internal error" [])) w'
  | res => res
  end.

(** The recorder starts with no code and status 200; a panic passes it by. *)
Definition withObservability (route : string) (next : handler) : handler := λ r,
  record_code "";;
  next r;;
  rw ← gets w_resp;
  let status := Itoa (default 200 (rw_status rw)) in
  Inc "ledger_http_requests_total" [Method r; route; status; rw_code rw];;
  Inc "ledger_http_request_duration_seconds" [Method r; route; status].

Definition withFailpoints (next : handler) : handler := λ r,
  let spec := HeaderGet r HeaderFailpoint in
  fp ← gets w_fp;
  if String.eqb spec "" || negb (Enabled fp) then next r
  else
    match WithRequestFailpoints (ctx_overrides (rq_ctx r)) spec with
    | inl err => writeError r (EApp (InvalidRequest "%s" [AStr (err_text err)]))
    | inr o =>
        let c := rq_ctx r in
        next (WithContext r (mkCtx o (ctx_request_id c) (ctx_correlation_id c)
                               (ctx_transaction_id c)))
    end.

(** [d.Round(m)] for a non-negative duration. *)
Definition Duration_Round (d m : Z) : Z := (d + m / 2) / m * m.

Definition withRateLimit (limiter : option RateLimiter) (route : string) (next : handler)
    : handler := λ r,
  match limiter with
  | None => next r
  | Some _ =>
      '(allowed, retryAfter) ← Allow limiter (clientKey r);
      if negb (allowed : bool) then
        Inc "ledger_rate_limited_total" [route];;
        SetHeader "Retry-After" (Itoa (retryAfter / Second + 1));;
        writeError r (EApp (New CodeRateLimited "too many requests; retry in %s"
          [AStr (Duration_String (Duration_Round retryAfter Millisecond))]))
      else next r
  end.

(** [s.route]. *)
Definition route (limiter : option RateLimiter) (pattern : string) (h : handler)
    (rateLimited : bool) : handler :=
  let inner := withFailpoints h in
  let inner := if rateLimited then withRateLimit limiter pattern inner else inner in
  withRequestContext (withObservability pattern inner).
End middleware.

(** What the mux matched. *)
Inductive endpoint :=
  | GetAccountEndpoint
  | GetBalanceEndpoint
  | ListEntriesEndpoint
  | GetTransactionEndpoint
  | CreateAccountEndpoint
  | TransferEndpoint
  | ReverseEndpoint
  | ReplayEndpoint
  | LiveEndpoint
  | ReadyEndpoint
  | ReconcileEndpoint
  | ListFailpointsEndpoint
  | ArmFailpointEndpoint
  | ResetFailpointsEndpoint
  | NoEndpoint.

Section server.
Context `{Ext} (cfg : Config).

(** [NewServer]'s limiter. *)
Definition server_limiter : option RateLimiter :=
  if RateLimitEnabled cfg then NewRateLimiter (RedisEnabled cfg) (RateLimitRPS cfg) Second else None.

(** [http.NotFound]; its body is plain text. *)
Definition NotFound : handler := λ _,
  SetHeader "Content-Type" "text/plain; charset=utf-8";;
  SetHeader "X-Content-Type-Options" "nosniff";;
  WriteHeader 404;;
  Write (JStr "404 page not found").

(** The debug routes exist only where failpoints are enabled. *)
Definition debug_route (h : handler) : handler := λ r,
  fp ← gets w_fp;
  if Enabled fp then withRequestContext h r else NotFound r.

Definition mux (e : endpoint) : handler :=
  match e with
  | GetAccountEndpoint => route server_limiter "GET /v1/accounts/{id}" handleGetAccount false
  | GetBalanceEndpoint => route server_limiter "GET /v1/accounts/{id}/balance" handleGetBalance false
  | ListEntriesEndpoint =>
      route server_limiter "GET /v1/accounts/{id}/entries" handleListEntries false
  | GetTransactionEndpoint =>
      route server_limiter "GET /v1/transactions/{id}" handleGetTransaction false
  | CreateAccountEndpoint =>
      route server_limiter "POST /v1/accounts" (handleCreateAccount cfg) true
  | TransferEndpoint => route server_limiter "POST /v1/transfers" (handleTransfer cfg) true
  | ReverseEndpoint =>
      route server_limiter "POST /v1/transactions/{id}/reverse" (handleReverse cfg) true
  | ReplayEndpoint => route server_limiter "POST /v1/replay" (handleReplay cfg) true
  | LiveEndpoint => handleLive
  | ReadyEndpoint => handleReady cfg
  | ReconcileEndpoint => withRequestContext handleReconcile
  | ListFailpointsEndpoint => debug_route handleListFailpoints
  | ArmFailpointEndpoint => debug_route handleArmFailpoint
  | ResetFailpointsEndpoint => debug_route handleResetFailpoints
  | NoEndpoint => NotFound
  end.

(** [Handler()], on a fresh response; [net/http] answers 200 for a handler that
    wrote nothing. *)
Definition serve (e : endpoint) (r : Request) : M unit :=
  modify (set_resp new_response);;
  withRecovery (mux e) r;;
  WriteHeader 200.
End server.

(** POST /v1/replay while other sessions commit; on its own it is [serve]. *)
Definition serve_replay_among `{Ext} (cfg : Config) (others : nat → DB → DB) (r : Request) : M unit :=
  modify (set_resp new_response);;
  withRecovery (route (server_limiter cfg) "POST /v1/replay"
    (handleReplay_waiting cfg (pause_among others)) true) r;;
  WriteHeader 200.

(** * Routing *)

(** What a pattern leads to. *)
Inductive target := Serves (e : endpoint) | MetricsPage.

(** The patterns of [Handler()], in the order of their registration; those of the
    debug endpoints only where failpoints are enabled. *)
Definition routes (debug : bool) : list (string * target) :=
  [("GET /v1/accounts/{id}", Serves GetAccountEndpoint);
   ("GET /v1/accounts/{id}/balance", Serves GetBalanceEndpoint);
   ("GET /v1/accounts/{id}/entries", Serves ListEntriesEndpoint);
   ("GET /v1/transactions/{id}", Serves GetTransactionEndpoint);
   ("POST /v1/accounts", Serves CreateAccountEndpoint);
   ("POST /v1/transfers", Serves TransferEndpoint);
   ("POST /v1/transactions/{id}/reverse", Serves ReverseEndpoint);
   ("POST /v1/replay", Serves ReplayEndpoint);
   ("GET /health/live", Serves LiveEndpoint);
   ("GET /health/ready", Serves ReadyEndpoint);
   ("GET /metrics", MetricsPage);
   ("GET /v1/reconciliation", Serves ReconcileEndpoint)] ++
  if debug then
    [("GET /debug/failpoints", Serves ListFailpointsEndpoint);
     ("POST /debug/failpoints", Serves ArmFailpointEndpoint);
     ("DELETE /debug/failpoints", Serves ResetFailpointsEndpoint)]
  else [].

(** The texts that [net/http] gives a redirect (its target, its page), and what the
    client library gathers for the page of the metrics, at the n-th call. *)
Class NetHttp := {
  Location : Request → string → string;
  MovedPage : string → string;
  Gather : nat → option string;
}.

Section routing.
Context `{Ext} `{NetHttp} (cfg : Config).

(** [http.Error]. *)
Definition http_error (text : string) (status : Z) : M unit :=
  SetHeader "Content-Type" "text/plain; charset=utf-8";;
  SetHeader "X-Content-Type-Options" "nosniff";;
  WriteHeader status;;
  Write (JStr text).

(** [promhttp]: an error of the gathering is a 500. *)
Definition metrics_page : handler := λ _,
  n ← next_tick;
  match Gather n with
  | Some text =>
      SetHeader "Content-Type" "text/plain; version=0.0.4; charset=utf-8";;
      Write (JStr text)
  | None => http_error "An error has occurred while serving metrics" 500
  end.

Definition redirect (path : string) : handler := λ r,
  let url := Location r path in
  SetHeader "Location" url;;
  if String.eqb (Method r) "GET" || String.eqb (Method r) "HEAD" then
    SetHeader "Content-Type" "text/html; charset=utf-8";;
    WriteHeader 301;;
    if String.eqb (Method r) "GET" then Write (JStr (MovedPage url)) else mret tt
  else WriteHeader 301.

(** The handler that [mux.ServeHTTP] runs; a matched one sees the path values. *)
Definition routed_handler {T} (serving : T → handler) (d : routed T) : handler := λ r,
  match d with
  | BadRequestURI => SetHeader "Connection" "close";; WriteHeader 400
  | MovedTo path => redirect path r
  | RoutedTo t vals => serving t (set_path_values vals r)
  | NotAllowed methods =>
      SetHeader "Allow" (String.concat ", " methods);; http_error "Method Not Allowed" 405
  | Unmatched => NotFound r
  end.

(** [net/http] keeps the body of the answer to a HEAD request to itself. *)
Definition discard_body (r : Request) : M unit :=
  if String.eqb (Method r) "HEAD" then
    on_resp (λ rw, mkResponse (rw_header rw) (rw_status rw) [] (rw_code rw))
  else mret tt.

Definition target_handler (t : target) : handler :=
  match t with Serves e => mux cfg e | MetricsPage => metrics_page end.

(** A request for an escaped path, from the router to the answer. *)
Definition ServeHTTP (escaped : string) (r : Request) : M unit :=
  modify (set_resp new_response);;
  fp ← gets w_fp;
  let d := dispatch (routes (Enabled fp)) (Method r) escaped in
  withRecovery (routed_handler target_handler d) r;;
  WriteHeader 200;;
  discard_body r.
End routing.
