(* ===== verification/ApiEffects.v ===== *)
(** What serving a request may do to the database: run one command of the
    ledger, or mark one idempotency key, or nothing. *)
From S2P Require Import Prelude GoStrings GoTime Json Apperr Failpoint Schema SchemaFacts Monad World Storage Idempotency Event Config Cache Outbox LedgerModel Http RateLimit LedgerRepo LedgerService LedgerFacts Kafka Publisher Replay Reconciliation Handlers Server.
Local Open Scope Z_scope.

(** ** Work outside a transaction *)

Section external.
Context `{Ext} (cfg : Config) (scope key hash : string).

(** Marked: the key was free and now has a record without a transaction. *)
Definition marked (state : idem_state) (d d' : DB) : Prop :=
  idempotency_records d !! (scope, key) = None ∧ text_ok scope && text_ok key = true ∧
  ∃ row, i_state row = state ∧ i_request_hash row = hash ∧ i_transaction_id row = None ∧
    completed_has_response row = true ∧ d' = set_idem (<[(scope, key) := row]> (idempotency_records d)) d.

(** The row a completed key answers with. *)
Definition answers (d : DB) (status : Z) (b : option json) : Prop :=
  ∃ row, idempotency_records d !! (scope, key) = Some row ∧ i_state row = CompletedState ∧
    i_request_hash row = hash ∧ default 0 (i_response_status row) = status ∧
    i_response_body row = b.

Lemma LockKey_db w o w' : LockKey scope key w = (o, w') → w_db w' = w_db w.
Proof. intros E. by eapply (stable_run (LockKey scope key)) in E as [? _]. Qed.

Lemma claim_external_Ok w res w' :
  claim_external scope key hash w = (Ok res, w') →
  match res with
  | None => marked InProgressState (w_db w) (w_db w')
  | Some (status, b) => w_db w' = w_db w ∧ answers (w_db w) status b
  end.
Proof.
  unfold claim_external. intros ([] & w1 & E1 & Hr)%bind_Ok. apply LockKey_db in E1. rewrite <-E1.
  apply bind_Ok in Hr as (existing & w2 & E2 & Hr). unfold Claim in E2.
  apply bind_Ok in E2 as (rows & w3 & E3 & E2).
  apply map_err_Ok, sql_Ok in E3 as (db' & Hs & ->). unfold sql_claim in Hs.
  destruct (idempotency_records (w_db w1) !! (scope, key)) as [row|] eqn:Erow.
  - injection Hs as <- <-. simpl in E2. apply bind_Ok in E2 as (rec & w4 & E4 & E2).
    apply ret_Ok in E2 as [<- <-]. unfold Fetch in E4. apply bind_Ok in E4 as (o & w5 & E5 & E4).
    apply map_err_Ok, query_Ok in E5 as [[= <-] ->]. simpl in E4. rewrite Erow in E4.
    apply ret_Ok in E4 as [<- <-]. simpl in Hr.
    destruct (String.eqb_spec (i_request_hash row) hash) as [Hh|]; [|done]. simpl in Hr.
    destruct (bool_decide_reflect (i_state row = CompletedState)); [|done]. simpl in Hr.
    apply ret_Ok in Hr as [<- <-]. simpl. split; [done|]. by exists row.
  - apply pg_bind_Ok in Hs as (d & Hd & [= <- <-]). simpl in E2. apply ret_Ok in E2 as [<- <-].
    apply ret_Ok in Hr as [<- <-]. simpl. split; [done|]. simpl in Hd. unfold insert_idem in Hd.
    pg_inv. split_and!; [done..|]. eexists. split_and!; [| | | |done]; done.
Qed.

(** The variables tell the truth, whatever the number of attempts. *)
Lemma claim_runs d0 n w o l' w' :
  w_db w = d0 →
  InTx n (claim_closure scope key hash) (false, 0, None) w = (o, l', w') →
  (w_db w' = d0 ∨ marked InProgressState d0 (w_db w')) ∧
  (o = Ok tt →
     (l'.1.1 = true ∧ marked InProgressState d0 (w_db w')) ∨
     (l'.1.1 = false ∧ w_db w' = d0 ∧ answers d0 l'.1.2 l'.2)).
Proof.
  intros Hw E.
  set (I := λ (l : external_vars) d,
    (d = d0 ∧ (l.1.1 = true → idempotency_records d0 !! (scope, key) = None)) ∨
    marked InProgressState d0 d).
  set (J := λ (l : external_vars) d,
    (l.1.1 = true ∧ marked InProgressState d0 d) ∨ (l.1.1 = false ∧ d = d0 ∧ answers d0 l.1.2 l.2)).
  pose proof (λ Hok Hfail HI, InTx_inv I J (claim_closure scope key hash) Hok Hfail n _ w o l' w' HI E)
    as Hinv.
  destruct Hinv as [HI' HJ].
  - intros [[c st] b] w1 l1 w2 HI. unfold claim_closure.
    destruct (claim_external scope key hash w1) as [[[[status b']|]|e|p] w3] eqn:Ec; intros [= <- <-];
      apply claim_external_Ok in Ec; simpl in *.
    + destruct Ec as [Ed Ha]. destruct HI as [[Ed1 Hc]|Hm].
      * rewrite Ed1 in *. assert (c = false) as ->.
        { destruct c; [|done]. destruct Ha as (row & Hrow & _). by rewrite Hc in Hrow. }
        split_and!; [by left|by left|by right].
      * destruct Hm as (Hn & _ & r & Hst & _ & _ & _ & Edb). destruct Ha as (row & Hrow & Hrs & _).
        rewrite Edb in Hrow. simpl in Hrow. rewrite lookup_insert_eq in Hrow. congruence.
    + destruct HI as [[Ed Hc]|Hm].
      * rewrite Ed in *. split_and!; [left; split; [done|]|by right|by left].
        intros _. by destruct Ec.
      * exfalso. destruct Hm as (_ & _ & r & _ & _ & _ & _ & Edb). destruct Ec as [Hn _].
        rewrite Edb in Hn. simpl in Hn. by rewrite lookup_insert_eq in Hn.
  - intros [[c st] b] w1 o1 l1 w2 HI. unfold claim_closure.
    destruct (claim_external scope key hash w1) as [[[[status b']|]|e|p] w3]; intros [= <- <- <-] Ho; done.
  - left. by rewrite Hw.
  - split; [|exact HJ]. destruct HI' as [[? _]|?]; auto.
Qed.

Definition marked_any (d d' : DB) : Prop := marked InProgressState d d' ∨ marked CompletedState d d'.

Lemma marked_fresh d d' : marked_any d d' → idempotency_records d !! (scope, key) = None.
Proof. by intros [[? _]|[? _]]. Qed.

Lemma marked_texts d d' : marked_any d d' → text_ok scope && text_ok key = true.
Proof. by intros [(_ & ? & _)|(_ & ? & _)]. Qed.

Lemma marked_row d d' : marked_any d d' →
  ∃ row, idempotency_records d' !! (scope, key) = Some row ∧ i_request_hash row = hash ∧
    i_transaction_id row = None ∧ completed_has_response row = true ∧
    d' = set_idem (<[(scope, key) := row]> (idempotency_records d)) d.
Proof.
  by intros [(_ & _ & row & _ & Hh & Ht & Hc & E)|(_ & _ & row & _ & Hh & Ht & Hc & E)]; exists row; rewrite E at 1;
    simpl; rewrite lookup_insert_eq.
Qed.

Lemma Complete_marked d0 status b w w' :
  Complete scope key status b None w = (Ok tt, w') → marked_any d0 (w_db w) →
  marked CompletedState d0 (w_db w') ∧ answers (w_db w') status (Some b).
Proof.
  unfold Complete. intros (db' & Hs & ->)%map_err_Ok%sql_Ok Hm. simpl.
  apply marked_fresh in Hm as Hn. apply marked_texts in Hm as Htxt.
  apply marked_row in Hm as (row & Hrow & Hh & _ & _ & Ed).
  unfold sql_complete in Hs. simpl in Hs. rewrite Hrow in Hs.
  apply pg_bind_Ok in Hs as (d & Hd & [= <-]). simpl in Hd. unfold update_idem in Hd.
  rewrite Hrow in Hd. pg_inv. rewrite Ed. simpl. rewrite insert_insert_eq. split.
  - split_and!; [done..|]. eexists. split_and!; [| | | |done]; done.
  - eexists. simpl. rewrite lookup_insert_eq. split_and!; [done|..]; done.
Qed.

Lemma Discard_marked d0 w :
  marked InProgressState d0 (w_db w) →
  w_db (Discard scope key w).2 = d0 ∨ w_db (Discard scope key w).2 = w_db w.
Proof.
  intros Hm. unfold Discard. rewrite map_err_state.
  destruct (pool_sql_db (sql_discard scope key) w) as [?|[a Hs]]; [by right|left].
  destruct Hm as (Hn & _ & row & Hst & _ & _ & _ & Ed). unfold sql_discard in Hs at 1.
  assert (idempotency_records (w_db w) !! (scope, key) = Some row) as Hrow.
  { rewrite Ed. simpl. by rewrite lookup_insert_eq. }
  rewrite Hrow in Hs. rewrite decide_True in Hs by done.
  apply pg_bind_Ok in Hs as (d & Hd & [= _ <-]). simpl in Hd. unfold delete_idem in Hd.
  pg_inv. rewrite Ed. simpl. rewrite delete_insert_id by done. by destruct d0.
Qed.

Context (work : M (Z * json)) (Hwork : Respects (keeps id) work).

(** However it ends, the database is as it was or the key is marked; and what
    it answers is what the key's record says. *)
Lemma runExternalIdempotent_effect w o w' :
  runExternalIdempotent cfg scope key hash work w = (o, w') →
  (w_db w' = w_db w ∨ marked_any (w_db w) (w_db w')) ∧
  ∀ status b, o = Ok (status, b) → answers (w_db w') status b.
Proof.
  rewrite runExternalIdempotent_eq. unfold mbind, ST_bind. rewrite InTx_vars_pause.
  destruct (InTx _ (claim_closure scope key hash) _ w) as [[o1 l1] w1] eqn:E1.
  destruct (claim_runs (w_db w) _ w _ _ _ eq_refl E1) as [Hany HJ].
  destruct o1 as [[]|e|p].
  2, 3: intros [= <- <-]; split; [unfold marked_any; tauto|done].
  destruct l1 as [[c st] b]. destruct (HJ eq_refl) as [[Hc Hm]|(Hc & Hd & Ha)]; simpl in *; rewrite Hc; simpl.
  2: { intros [= <- <-]. simpl. split; [by left|]. intros ? ? [= <- <-]. by rewrite Hd. }
  set (w2 := set_metrics _ w1). pose proof (respects (R:=keeps id) (m:=try work) w2) as Hk.
  unfold keeps in Hk. simpl in Hk.
  destruct (try work w2) as [[[err|[status body]]|e|p] w3]; simpl in Hk; rewrite <-Hk in Hm.
  - unfold try at 1. pose proof (Discard_marked _ w3 Hm) as Hd.
    destruct (Discard scope key w3) as [[[]|e|p] w4]; simpl in Hd |- *; intros [= <- <-];
      (split; [|done]); (unfold marked_any; destruct Hd as [->| ->]; tauto).
  - set (R := λ d d', marked_any (w_db w) d → marked_any (w_db w) d').
    assert (PreOrder R) as HR by (unfold R; split; [by intros d ?|intros d1 d2 d3 H1 H2 ?; auto]).
    assert (∀ w0 a w0', Complete scope key status body None w0 = (Ok a, w0') →
      commit_check (w_db w0) (w_db w0') = PgOk tt → R (w_db w0) (w_db w0')) as Hstep.
    { intros w0 [] w0' Ec _ Hm0. right. by apply (Complete_marked _ _ _ _ _ Ec Hm0). }
    pose proof (InTx_result_rel R _ Hstep (DBMaxTxRetries cfg) w3) as Hrel.
    destruct (InTx_result _ _ w3) as [[o4|e|p] w4] eqn:E4; simpl in Hrel; intros [= <- <-];
      (split; [right; apply Hrel; by left|]); [|done..].
    intros ? ? [= <- <-].
    destruct (InTx_result_Ok R _ Hstep _ _ _ _ E4) as ([] & w5 & w6 & _ & HR5 & Ec & _ & _ & _ & ->).
    apply (Complete_marked (w_db w) _ _ _ _ Ec). apply HR5. by left.
  - intros [= <- <-]. split; [unfold marked_any; tauto|done].
  - intros [= <- <-]. split; [unfold marked_any; tauto|done].
Qed.
End external.

(** ** One request, at most one command *)

(** What one request does to the database. *)
Inductive db_action `{Ext} (cfg : Config) : DB → DB → Prop :=
  | act_none d : db_action cfg d d
  | act_create cmd w : db_action cfg (w_db w) (w_db (CreateAccount cfg cmd w).2)
  | act_transfer ctx cmd w : db_action cfg (w_db w) (w_db (Transfer cfg ctx cmd w).2)
  | act_reverse ctx cmd w : db_action cfg (w_db w) (w_db (Reverse cfg ctx cmd w).2)
  | act_mark scope key hash d d' : marked_any scope key hash d d' → db_action cfg d d'.

#[global] Typeclasses Opaque on_resp SetHeader WriteHeader Write writeJSON writeRaw writeError
  record_code redis_set Cache.Get Put replayFromCache finishIdempotent Allow or_error or_refuse
  replay_loop RunReplay replay_work Inc next_tick NewString Now LockKey query sql.

Section actions.
Context `{Ext} (cfg : Config).

Class Acts {A} (m : M A) : Prop := acts w : db_action cfg (w_db w) (w_db (m w).2).

Lemma acts_keeps {A} (m : M A) : Respects (keeps id) m → Acts m.
Proof. intros Hm w. specialize (Hm w). unfold keeps in Hm. simpl in Hm. rewrite Hm. constructor. Qed.

(** Steps that keep the database may come before and after. *)
Lemma acts_bind_r {A B} (m : M A) (f : A → M B) :
  Respects (keeps id) m → (∀ a, Acts (f a)) → Acts (m ≫= f).
Proof.
  intros Hm Hf w. unfold mbind, ST_bind. specialize (Hm w). unfold keeps in Hm. simpl in Hm.
  destruct (m w) as [[a|e|p] w1]; simpl in *; rewrite <-Hm; [apply Hf|constructor..].
Qed.

Lemma acts_bind_l {A B} (m : M A) (f : A → M B) :
  Acts m → (∀ a, Respects (keeps id) (f a)) → Acts (m ≫= f).
Proof.
  intros Hm Hf w. unfold mbind, ST_bind. specialize (Hm w).
  destruct (m w) as [[a|e|p] w1]; simpl in *; [|done..].
  specialize (Hf a w1). unfold keeps in Hf. simpl in Hf. by rewrite Hf.
Qed.

Lemma acts_try {A} (m : M A) : Acts m → Acts (try m).
Proof. intros Hm w. rewrite try_state. apply Hm. Qed.

(** *** The parts of the API that keep the database *)

#[export] Instance keeps_on_resp f : Respects (keeps id) (on_resp f).
Proof. done. Qed.
#[export] Instance keeps_SetHeader k v : Respects (keeps id) (SetHeader k v).
Proof. done. Qed.
#[export] Instance keeps_WriteHeader s : Respects (keeps id) (WriteHeader s).
Proof. intros w. unfold WriteHeader. destruct (rw_status _); [done|]. by destruct (_ || _). Qed.
#[export] Instance keeps_Write b : Respects (keeps id) (Write b).
Proof. done. Qed.
#[export] Instance keeps_writeJSON s b : Respects (keeps id) (writeJSON s b).
Proof. unfold writeJSON. respects_tac. Qed.
#[export] Instance keeps_writeRaw s b : Respects (keeps id) (writeRaw s b).
Proof. unfold writeRaw. respects_tac. Qed.
#[export] Instance keeps_record_code c : Respects (keeps id) (record_code c).
Proof. done. Qed.
#[export] Instance keeps_writeError r e : Respects (keeps id) (writeError r e).
Proof. unfold writeError. destruct (From _) as [e'|]; apply _. Qed.
#[export] Instance keeps_redis_set k v : Respects (keeps id) (redis_set k v).
Proof. done. Qed.
#[export] Instance keeps_CacheGet s k : Respects (keeps id) (Cache.Get cfg s k).
Proof. unfold Cache.Get, redis_op. respects_tac. Qed.
#[export] Instance keeps_Put s k c : Respects (keeps id) (Put cfg s k c).
Proof. unfold Put, redis_op. respects_tac. Qed.
#[export] Instance keeps_replayFromCache r s k h : Respects (keeps id) (replayFromCache cfg r s k h).
Proof. unfold replayFromCache. respects_tac. Qed.
#[export] Instance keeps_finishIdempotent r s k h res :
  Respects (keeps id) (finishIdempotent cfg r s k h res).
Proof. unfold finishIdempotent. respects_tac. Qed.
#[export] Instance keeps_Allow l k : Respects (keeps id) (Allow l k).
Proof. unfold Allow, redis_incr, redis_op. respects_tac. Qed.
#[export] Instance keeps_or_error {A} r (m : M A) k :
  Respects (keeps id) m → (∀ a, Respects (keeps id) (k a)) → Respects (keeps id) (or_error r m k).
Proof. intros Hm Hk. unfold or_error. respects_tac. Qed.
#[export] Instance keeps_or_refuse {A} r (res : Error + A) k :
  (∀ a, Respects (keeps id) (k a)) → Respects (keeps id) (or_refuse r res k).
Proof. intros Hk. unfold or_refuse. destruct res; apply _. Qed.

Lemma acts_or_error {A} r (m : M A) k :
  Acts m → (∀ a, Respects (keeps id) (k a)) → Acts (or_error r m k).
Proof.
  intros Hm Hk. unfold or_error. apply acts_bind_l; [by apply acts_try|]. intros [e|a]; apply _.
Qed.
Lemma acts_or_refuse {A} r (res : Error + A) k : (∀ a, Acts (k a)) → Acts (or_refuse r res k).
Proof. intros Hk. unfold or_refuse. destruct res; [by apply acts_keeps, _|apply Hk]. Qed.

Lemma acts_run_command r s k h m : Acts m → Acts (run_command cfg r s k h m).
Proof.
  intros Hm. unfold run_command. apply acts_bind_r; [apply _|]. intros [];
    [apply acts_keeps, _|]. apply acts_or_error; [done|]. intros; apply _.
Qed.

Lemma acts_handleTransfer r : Acts (handleTransfer cfg r).
Proof.
  unfold handleTransfer. apply acts_or_refuse; intros key. apply acts_or_refuse; intros req.
  apply acts_run_command. intros w. apply act_transfer.
Qed.
Lemma acts_handleReverse r : Acts (handleReverse cfg r).
Proof.
  unfold handleReverse. apply acts_or_refuse; intros key. apply acts_or_refuse; intros reason.
  apply acts_run_command. intros w. apply act_reverse.
Qed.
Lemma acts_handleCreateAccount r : Acts (handleCreateAccount cfg r).
Proof.
  unfold handleCreateAccount. apply acts_or_refuse; intros key. apply acts_or_refuse; intros req.
  apply acts_run_command. intros w. apply act_create.
Qed.

#[export] Instance keeps_replay_loop req rid t recs i res :
  Respects (keeps id) (replay_loop req rid t recs i res).
Proof.
  revert i res. induction recs as [|rec recs IH]; intros i res; simpl; respects_tac.
Qed.
#[export] Instance keeps_RunReplay req : Respects (keeps id) (RunReplay req).
Proof. unfold RunReplay, ListForReplay. respects_tac. Qed.
#[export] Instance keeps_replay_work req : Respects (keeps id) (replay_work req).
Proof. unfold replay_work. respects_tac. Qed.

Lemma acts_external s k h work :
  Respects (keeps id) work → Acts (runExternalIdempotent cfg s k h work).
Proof.
  intros Hw w. destruct (runExternalIdempotent cfg s k h work w) as [o w'] eqn:E.
  pose proof (runExternalIdempotent_effect cfg s k h work Hw w o w' E) as [[Hd|Hm] _]; simpl.
  - rewrite Hd. constructor.
  - by eapply act_mark.
Qed.

Lemma acts_handleReplay r : Acts (handleReplay cfg r).
Proof.
  rewrite handleReplay_eq. apply acts_or_refuse; intros key. apply acts_or_refuse; intros req.
  destruct (ValidateReplay req) as [e|]; [apply acts_keeps, _|].
  apply acts_bind_r; [apply _|]. intros []; [apply acts_keeps, _|].
  apply acts_or_error; [by apply acts_external, _|]. intros res. apply _.
Qed.

(** *** Middleware *)

Lemma acts_withRequestContext next r : (∀ r, Acts (next r)) → Acts (withRequestContext next r).
Proof.
  intros Hn. unfold withRequestContext. apply acts_bind_r; [respects_tac|]. intros id1.
  do 2 (apply acts_bind_r; [apply _|]; intros _). apply Hn.
Qed.

Lemma acts_withRecovery next r : Acts (next r) → Acts (withRecovery next r).
Proof.
  intros Hn w. unfold withRecovery. specialize (Hn w).
  destruct (next r w) as [[u|e|p] w1]; [done..|]. simpl in Hn.
  pose proof (keeps_writeError r (EApp (New CodeInternal "internal error" [])) w1) as Hk.
  unfold keeps, id in Hk. by rewrite Hk.
Qed.

Lemma acts_withObservability p next r : Acts (next r) → Acts (withObservability p next r).
Proof.
  intros Hn. unfold withObservability. apply acts_bind_r; [apply _|]. intros _.
  apply acts_bind_l; [done|]. intros _. respects_tac.
Qed.

Lemma acts_withFailpoints next r : (∀ r, Acts (next r)) → Acts (withFailpoints next r).
Proof.
  intros Hn. unfold withFailpoints. apply acts_bind_r; [apply _|]. intros fp.
  destruct (_ || _); [apply Hn|]. destruct (WithRequestFailpoints _ _); [apply acts_keeps, _|apply Hn].
Qed.

Lemma acts_withRateLimit l p next r : (∀ r, Acts (next r)) → Acts (withRateLimit l p next r).
Proof.
  intros Hn. unfold withRateLimit. destruct l; [|apply Hn]. apply acts_bind_r; [apply _|].
  intros [[] wait]; cbn [negb]; [apply Hn|]. apply acts_keeps.
  do 2 (apply respects_bind; [apply _..|]; intros _). apply keeps_writeError.
Qed.

Lemma acts_route l p h b r : (∀ r, Acts (h r)) → Acts (route l p h b r).
Proof.
  intros Hh. unfold route. apply acts_withRequestContext. intros r1. apply acts_withObservability.
  destruct b; [apply acts_withRateLimit; intros r2|]; by apply acts_withFailpoints.
Qed.

#[export] Instance keeps_Run : Respects (keeps id) Reconciliation.Run.
Proof.
  assert (∀ rows rep, Respects (keeps id) (scan_balances rows rep)) as H1.
  { intros rows. induction rows as [|[[? ?] ?] rows IH]; intros rep; simpl; respects_tac. }
  assert (∀ rows rep, Respects (keeps id) (scan_transactions rows rep)) as H2.
  { intros rows. induction rows as [|[[? ?] ?] rows IH]; intros rep; simpl; respects_tac. }
  unfold Reconciliation.Run, counted_query, rows_Err. respects_tac.
Qed.
#[export] Instance keeps_GetAccount id1 : Respects (keeps id) (GetAccount id1).
Proof. unfold GetAccount, query_row. respects_tac. Qed.
#[export] Instance keeps_GetBalance id1 : Respects (keeps id) (GetBalance id1).
Proof. unfold GetBalance, query_row. respects_tac. Qed.
#[export] Instance keeps_ListEntries a n c : Respects (keeps id) (ListEntries a n c).
Proof. unfold ListEntries. respects_tac. Qed.
#[export] Instance keeps_handleListEntries r : Respects (keeps id) (handleListEntries r).
Proof. unfold handleListEntries. apply keeps_or_refuse. intros limit. apply _. Qed.
#[export] Instance keeps_GetTransaction id1 : Respects (keeps id) (GetTransaction id1).
Proof. unfold GetTransaction, loadTransaction, query_row. respects_tac. Qed.
#[export] Instance keeps_NotFound r : Respects (keeps id) (NotFound r).
Proof. unfold NotFound. respects_tac. Qed.

#[export] Instance keeps_handleLive r : Respects (keeps id) (handleLive r).
Proof. unfold handleLive. apply _. Qed.
#[export] Instance keeps_handleReady r : Respects (keeps id) (handleReady cfg r).
Proof. unfold handleReady, Ping, redis_ping. respects_tac. Qed.
#[export] Instance keeps_write_active : Respects (keeps id) write_active.
Proof. unfold write_active. respects_tac. Qed.
#[export] Instance keeps_handleListFailpoints r : Respects (keeps id) (handleListFailpoints r).
Proof. unfold handleListFailpoints. respects_tac. Qed.
#[export] Instance keeps_handleArmFailpoint r : Respects (keeps id) (handleArmFailpoint r).
Proof.
  unfold handleArmFailpoint. apply keeps_or_refuse. intros req.
  apply respects_bind; [apply _| |intros []; apply _].
  intros w. unfold Arm_failpoint. by destruct (Arm _ _ _).
Qed.
#[export] Instance keeps_handleResetFailpoints r : Respects (keeps id) (handleResetFailpoints r).
Proof. unfold handleResetFailpoints. apply respects_bind; [apply _|by intros w|intros; apply _]. Qed.

Lemma acts_debug_route h r : (∀ r, Respects (keeps id) (h r)) → Acts (debug_route h r).
Proof.
  intros Hh. unfold debug_route. apply acts_bind_r; [apply _|]. intros fp.
  destruct (Enabled fp); [|apply acts_keeps, _]. apply acts_withRequestContext.
  intros r1. by apply acts_keeps.
Qed.
End actions.

(** Serving a request runs at most one command, or marks one key. *)
Lemma serve_action `{Ext} cfg e r w : db_action cfg (w_db w) (w_db (serve cfg e r w).2).
Proof.
  assert (Acts cfg (serve cfg e r)) as Ha; [|apply Ha]. unfold serve.
  apply acts_bind_r; [by intros w0|]. intros _. apply acts_bind_l; [|intros _; apply _].
  apply acts_withRecovery.
  destruct e; simpl;
    first [apply acts_route | apply acts_debug_route | apply acts_withRequestContext | apply acts_keeps];
    intros; try (unfold handleReconcile; apply _);
    first [ apply acts_handleCreateAccount | apply acts_handleTransfer | apply acts_handleReverse
          | apply acts_handleReplay | apply acts_keeps, keeps_handleListEntries
          | apply acts_keeps, keeps_or_error; intros; apply _ ].
Qed.
