(* ===== verification/Webhook.v ===== *)
(** [internal/webhook]: the durable delivery rows of [store.go], and the worker
    that records events and posts them ([worker.go]). *)
From S2P Require Import Prelude GoStrings GoTime Sha256 Json Apperr Failpoint Schema Monad World Storage Idempotency Event Config Outbox Kafka.
Local Open Scope Z_scope.

Record Delivery := mkDelivery {
  DID : string;
  DEventID : string;
  Endpoint : string;
  DEventType : string;
  DTransactionID : string;
  DPayload : json;
  DStatus : delivery_status;
  DAttempts : Z;
  DLastError : string;
  LastStatusCode : Z;
  DNextAttemptAt : Z;
  DeliveredAt : option Z;
  DCreatedAt : Z;
}.

Definition scanDelivery (id : string) (d : delivery_row) : Delivery :=
  mkDelivery id (d_event_id d) (d_endpoint d) (d_event_type d) (d_transaction_id d) (d_payload d)
    (d_status d) (d_attempts d) (default "" (d_last_error d)) (default 0 (d_last_status_code d))
    (d_next_attempt_at d) (d_delivered_at d) (d_created_at d).

(** [ORDER BY next_attempt_at, created_at]; ties are left in the table's order. *)
Definition due_le (p q : string * delivery_row) : Prop :=
  d_next_attempt_at p.2 < d_next_attempt_at q.2 ∨
  (d_next_attempt_at p.2 = d_next_attempt_at q.2 ∧ d_created_at p.2 ≤ d_created_at q.2).
#[export] Instance due_le_dec p q : Decision (due_le p q).
Proof. unfold due_le. apply _. Defined.

Definition due (now : Z) (d : delivery_row) : bool :=
  bool_decide (d_status d = DPending) && (d_next_attempt_at d <=? now).

Definition deliver_row (statusCode now : Z) (d : delivery_row) : delivery_row :=
  DeliveryRow (d_event_id d) (d_endpoint d) (d_event_type d) (d_transaction_id d) (d_payload d)
    DDelivered (d_attempts d + 1) None (Some statusCode) (d_next_attempt_at d)
    (Some (default now (d_delivered_at d))) (d_created_at d) now.

Definition fail_delivery_row (cause : string) (statusCode backoff maxAttempts now : Z)
    (d : delivery_row) : delivery_row :=
  DeliveryRow (d_event_id d) (d_endpoint d) (d_event_type d) (d_transaction_id d) (d_payload d)
    (if maxAttempts <=? d_attempts d + 1 then DDeadLetter else DPending)
    (d_attempts d + 1) (Some cause) (Some statusCode) (now + backoff)
    (d_delivered_at d) (d_created_at d) now.

Section store.
Context `{Ext}.

Definition event_endpoint_exists (ev endpoint : string) (db : DB) : bool :=
  bool_decide (map_Exists (λ _ x, d_event_id x = ev ∧ d_endpoint x = endpoint)
                 (webhook_deliveries db)).

(** INSERT ... ON CONFLICT (event_id, endpoint) DO NOTHING: was it inserted? *)
Definition sql_enqueue (d : Delivery) (now : Z) (db : DB) : pg (bool * DB) :=
  id ← as_uuid (DID d);
  ev ← as_uuid (DEventID d);
  let row := DeliveryRow ev (Endpoint d) (DEventType d) (DTransactionID d) (DPayload d)
               DPending 0 None None now None now now in
  if event_endpoint_exists ev (Endpoint d) db then PgOk (false, db)
  else db' ← exec_dml (InsertDelivery id row) db; PgOk (true, db').

Definition Enqueue (d : Delivery) : M bool :=
  map_err (λ err, EFmt "webhook: enqueue: " (Some err) "") (pool_sql (sql_enqueue d)).

Definition due_deliveries (now n : Z) (db : DB) : pg (list Delivery) :=
  rows ← limit n (merge_sort due_le
           (map_to_list (filter (λ p, due now p.2 = true) (webhook_deliveries db))));
  PgOk (map (λ p, scanDelivery p.1 p.2) rows).

Definition ClaimDue (n : Z) : M (list Delivery) :=
  now ← Now;
  map_err (λ err, EFmt "webhook: claim due: " (Some err) "")
    (query (λ db, due_deliveries now n db)).

Definition sql_mark_delivered (id : string) (statusCode now : Z) (db : DB) : pg (unit * DB) :=
  id ← as_uuid id;
  match webhook_deliveries db !! id with
  | None => PgOk (tt, db)
  | Some d =>
      if decide (d_status d = DDelivered) then PgOk (tt, db)
      else db' ← exec_dml (UpdateDelivery id (deliver_row statusCode now d)) db; PgOk (tt, db')
  end.

Definition MarkDelivered (id : string) (statusCode : Z) : M unit :=
  map_err (λ err, EFmt "webhook: mark delivered: " (Some err) "")
    (pool_sql (sql_mark_delivered id statusCode)).

(** The update has no condition on the status. *)
Definition sql_mark_failed_delivery (id cause : string) (statusCode backoff maxAttempts now : Z)
    (db : DB) : pg (option (Z * delivery_status) * DB) :=
  id ← as_uuid id;
  match webhook_deliveries db !! id with
  | None => PgOk (None, db)
  | Some d =>
      let d' := fail_delivery_row cause statusCode backoff maxAttempts now d in
      db' ← exec_dml (UpdateDelivery id d') db;
      PgOk (Some (d_attempts d', d_status d'), db')
  end.

Definition MarkFailedDelivery (id cause : string) (statusCode backoff maxAttempts : Z)
    : M (Z * bool) :=
  map_err (λ err, EFmt "webhook: mark failed: " (Some err) "")
    (r ← pool_sql (sql_mark_failed_delivery id (truncate cause 2000) statusCode backoff
           maxAttempts);
     '(attempts, status) ← or_throw ENoRows r;
     mret (attempts, bool_decide (status = DDeadLetter))).

Definition GetDelivery (eventID endpoint : string) : M Delivery :=
  o ← map_err (λ err, EFmt "webhook: get: " (Some err) "")
        (query (λ db,
           ev ← as_uuid eventID;
           PgOk (head (map_to_list (filter
             (λ p, d_event_id p.2 = ev ∧ d_endpoint p.2 = endpoint) (webhook_deliveries db))))));
  '(id, d) ← or_throw ENoRows o;
  mret (scanDelivery id d).

Definition count_status (s : delivery_status) (db : DB) : Z :=
  Z.of_nat (size (filter (λ p, d_status p.2 = s) (webhook_deliveries db))).

(** A status with no row is absent from the map. *)
Definition CountByStatus : M (gmap string Z) :=
  map_err (λ err, EFmt "webhook: count by status: " (Some err) "")
    (query (λ db, PgOk (filter (λ p, 0 < p.2)
       (list_to_map [("pending", count_status DPending db);
                     ("delivered", count_status DDelivered db);
                     ("dead_letter", count_status DDeadLetter db)] : gmap string Z)))).
End store.

Section worker.
Context `{Ext} (cfg : Config).

Definition pending_delivery (id endpoint : string) (env : Envelope) (payload : json) : Delivery :=
  mkDelivery id (EventID env) endpoint (EventType env) (EnvTransactionID env) payload
    DPending 0 "" 0 0 None 0.

Fixpoint enqueue_all (env : Envelope) (payload : json) (endpoints : list string) : M unit :=
  match endpoints with
  | [] => mret tt
  | endpoint :: endpoints =>
      id ← NewString;
      created ← Enqueue (pending_delivery id endpoint env payload);
      (if created : bool then mret tt else Inc "ledger_webhook_duplicate_total" []);;
      enqueue_all env payload endpoints
  end.

(** A message that is not an event is dropped: returning nil commits it. *)
Definition HandleEvent (ctx : Ctx) (msg : KafkaMessage) : M unit :=
  match Value msg with
  | None => mret tt
  | Some value =>
      match decode (A:=Envelope) value with
      | None => mret tt
      | Some env =>
          if String.eqb (EventID env) "" then mret tt
          else
            let ctx := WithTransactionID ctx (EnvTransactionID env) in
            let ctx := if String.eqb (EnvCorrelationID env) "" then ctx
                       else WithCorrelationID ctx (EnvCorrelationID env) in
            failpoint ctx BeforeWebhookPersist
              (λ err, EFmt "webhook: failpoint before persist: " (Some err) "");;
            enqueue_all env value (WebhookEndpoints cfg)
      end
  end.

Definition sign (secret payload : string) : string := "sha256=" +:+ hex_string (HMAC secret payload).

(** The request of a delivery: its headers and body, signed when there is a
    secret. The body is the stored payload, as PostgreSQL returns it. *)
Definition delivery_post (d : Delivery) : HttpPost :=
  let secret := WebhookSigningSecret cfg in
  mkPost (Endpoint d) (DEventID d) (DEventType d) (DTransactionID d) (DAttempts d + 1) (DPayload d)
    (if String.eqb secret "" then None else Some (sign secret (jsonb_text (DPayload d)))).

(** The status code and the error, as [post] returns both. *)
Definition post (d : Delivery) : M (Z * option error) :=
  match NewRequest_err (Endpoint d) with
  | Some err => mret (0, Some (EFmt "webhook: build request: " (Some err) ""))
  | None =>
      n ← next_tick;
      modify (λ w, set_posts (w_posts w ++ [delivery_post d]) w);;
      match http_result n with
      | inl err => mret (0, Some (EFmt "webhook: post: " (Some err) ""))
      | inr code =>
          if (code <? 200) || (300 <=? code) then
            mret (code, Some (EText (Sprintf "webhook: endpoint returned %d" [AInt code])))
          else mret (code, None)
      end
  end.

Definition recordFailure (d : Delivery) (cause : string) (statusCode : Z) : M unit :=
  delay ← Backoff (DAttempts d + 1) (WebhookBaseBackoff cfg) (WebhookMaxBackoff cfg);
  r ← try (MarkFailedDelivery (DID d) cause statusCode delay (WebhookMaxAttempts cfg));
  match r with
  | inl _ => mret tt
  | inr (_, dead) =>
      if dead : bool then Inc "ledger_webhook_deliveries_total" ["dead_letter"]
      else Inc "ledger_webhook_deliveries_total" ["retry"]
  end.

Definition deliver (ctx : Ctx) (d : Delivery) : M bool :=
  let ctx := WithTransactionID ctx (DTransactionID d) in
  o ← EvalFailpoint ctx BeforeWebhookSend;
  match o with
  | Some err => recordFailure d (err_text err) 0;; mret false
  | None =>
      '(statusCode, e) ← post d;
      match e with
      | Some err => recordFailure d (err_text err) statusCode;; mret false
      | None =>
          r ← try (MarkDelivered (DID d) statusCode);
          match r with
          | inl _ => mret false
          | inr _ => Inc "ledger_webhook_deliveries_total" ["success"];; mret true
          end
      end
  end.

Fixpoint deliver_batch (ctx : Ctx) (batch : list Delivery) (delivered : Z)
    : M (Z * option error) :=
  match batch with
  | [] => mret (delivered, None)
  | d :: batch =>
      o ← ctx_Err;
      match o with
      | Some err => mret (delivered, Some err)
      | None =>
          ok ← deliver ctx d;
          deliver_batch ctx batch (if ok : bool then delivered + 1 else delivered)
      end
  end.

Definition DeliverOnce (ctx : Ctx) : M (Z * option error) :=
  r ← try (ClaimDue (WebhookBatchSize cfg));
  match r with
  | inl err => mret (0, Some err)
  | inr batch => deliver_batch ctx batch 0
  end.
(** The polling loop with at most [fuel] passes: did it return? *)
Fixpoint delivery_loop (fuel : nat) (ctx : Ctx) : M bool :=
  match fuel with
  | O => mret false
  | S fuel =>
      _ ← DeliverOnce ctx;
      stopped ← wait (WebhookPollInterval cfg);
      if stopped : bool then mret true else delivery_loop fuel ctx
  end.

Definition RunDeliveries (fuel : nat) (ctx : Ctx) : M bool :=
  if WebhookPollInterval cfg <=? 0 then panic "non-positive interval for NewTicker"
  else delivery_loop fuel ctx.
End worker.
