(* ===== verification/Migrate.v ===== *)
(** [internal/storage/migrate.go]: the migrations runner. What a script does to
    the database is PostgreSQL's business and a parameter; the directory of
    scripts is embedded by the compiler and a parameter too. *)
From S2P Require Import Prelude GoStrings Json Apperr Monad.
Local Open Scope Z_scope.

Record Migration := mkMigration {
  Version : Z;
  MgName : string;
  Up : string;
  Down : string;
}.

(** * Loading *)

Record FS := mkFS {
  ReadDir : error + list string;
  ReadFile : string → error + string;
}.

(** The entry of a version, created on first sight. *)
Definition migration_at (byVersion : gmap Z Migration) (version : Z) : Migration :=
  default (mkMigration version "" "" "") (byVersion !! version).

(** One directory entry. *)
Definition load_file (fs : FS) (byVersion : gmap Z Migration) (name : string)
    : error + gmap Z Migration :=
  if negb (HasSuffix name ".sql") then inr byVersion
  else
    match Cut "_" name with
    | None => inl (EFmt (Sprintf "storage: malformed migration name %q" [AStr name]) None "")
    | Some (versionStr, rest) =>
        match Atoi versionStr with
        | None =>
            inl (EFmt (Sprintf "storage: malformed migration version in %q: " [AStr name])
                   (Some (EText (Sprintf "strconv.Atoi: parsing %q: %s"
                      [AStr versionStr; AStr (num_error_text (Atoi_error versionStr))]))) "")
        | Some version =>
            match ReadFile fs name with
            | inl err => inl (EFmt (Sprintf "storage: read %q: " [AStr name]) (Some err) "")
            | inr body =>
                let m := migration_at byVersion version in
                if HasSuffix rest ".up.sql" then
                  inr (<[version := mkMigration version (TrimSuffix rest ".up.sql") body (Down m)]>
                         byVersion)
                else if HasSuffix rest ".down.sql" then
                  inr (<[version := mkMigration version (TrimSuffix rest ".down.sql") (Up m) body]>
                         byVersion)
                else
                  inl (EFmt (Sprintf "storage: migration %q is neither .up.sql nor .down.sql"
                               [AStr name]) None "")
            end
        end
    end.

Fixpoint load_files (fs : FS) (byVersion : gmap Z Migration) (names : list string)
    : error + gmap Z Migration :=
  match names with
  | [] => inr byVersion
  | name :: names =>
      match load_file fs byVersion name with
      | inl err => inl err
      | inr byVersion => load_files fs byVersion names
      end
  end.

(** Both directions are required. *)
Fixpoint check_files (ms : list Migration) : error + list Migration :=
  match ms with
  | [] => inr []
  | m :: ms =>
      if String.eqb (Up m) "" then
        inl (EFmt (Sprintf "storage: migration %d has no up file" [AInt (Version m)]) None "")
      else if String.eqb (Down m) "" then
        inl (EFmt (Sprintf "storage: migration %d has no down file" [AInt (Version m)]) None "")
      else
        match check_files ms with
        | inl err => inl err
        | inr out => inr (m :: out)
        end
  end.

Definition version_le (m1 m2 : Migration) : Prop := Version m1 ≤ Version m2.
#[export] Instance version_le_dec m1 m2 : Decision (version_le m1 m2).
Proof. unfold version_le. apply _. Defined.

(** [range byVersion] goes through the map in an order of its own, [order]. *)
Definition LoadMigrations (fs : FS) (order : list Migration → list Migration)
    : error + list Migration :=
  match ReadDir fs with
  | inl err => inl (EFmt "storage: read migrations: " (Some err) "")
  | inr entries =>
      match load_files fs ∅ entries with
      | inl err => inl err
      | inr byVersion =>
          match check_files (order (map_to_list byVersion).*2) with
          | inl err => inl err
          | inr out => inr (merge_sort version_le out)
          end
      end
  end.

(** * The database *)

(** What PostgreSQL does: a script maps what the database holds, apart from the
    bookkeeping table, to what it holds afterwards, all of it or nothing; a
    statement outside a transaction and a COMMIT can fail with their effect or
    without. *)
Class Engine := {
  Contents : Type;
  exec_script : string → Contents → error + Contents;
  pool_fault : nat → option (bool * error);
  tx_fault : nat → option error;
  mg_begin_fault : nat → option error;
  mg_commit_fault : nat → option (bool * error);
}.

(** A script that is a transaction of its own, BEGIN to COMMIT: inside another
    transaction its BEGIN is a warning, and its COMMIT ends the other one. *)
Definition ends_transaction (sql : string) : bool := HasSuffix (TrimSpace sql) "COMMIT;".

Section migrate.
Context `{Engine}.

(** The bookkeeping table may not exist yet. Inside a transaction, [mg_begun] is what
    a ROLLBACK goes back to. *)
Record Target := mkTarget {
  contents : Contents;
  schema_migrations : option (gmap Z string);
  mg_tick : nat;
  mg_begun : option (Contents * option (gmap Z string));
}.

Notation MM := (ST Target).

Definition tick : MM nat := λ s,
  (Ok (mg_tick s), mkTarget (contents s) (schema_migrations s) (S (mg_tick s)) (mg_begun s)).

(** A statement that commits by itself. *)
Definition on_its_own {A} (n : nat) (m : MM A) : MM A :=
  match pool_fault n with
  | None => m
  | Some (true, err) => m;; throw err
  | Some (false, err) => throw err
  end.

(** CREATE TABLE IF NOT EXISTS, on the pool. *)
Definition create_table : MM unit :=
  n ← tick;
  on_its_own n (modify (λ s,
    mkTarget (contents s) (Some (default ∅ (schema_migrations s))) (mg_tick s) (mg_begun s))).

Definition undefined_table : error :=
  EPg (mkPgError "42P01" "" ("relation " +:+ Quote "schema_migrations" +:+ " does not exist")).

Definition the_table : MM (gmap Z string) :=
  t ← gets schema_migrations; or_throw undefined_table t.

(** The set of versions, as a map. The query is sent, then its rows are read. *)
Definition appliedVersions : MM (gmap Z string) :=
  applied ← map_err (λ err, EFmt "storage: read applied migrations: " (Some err) "")
    (n ← tick; match pool_fault n with Some (_, err) => throw err | None => the_table end);
  n ← tick;
  match pool_fault n with Some (_, err) => throw err | None => mret applied end.

(** BEGIN, ROLLBACK and COMMIT; outside a transaction the last two only warn. *)
Definition begin_tx : MM unit :=
  n ← tick;
  match mg_begin_fault n with
  | Some err => throw err
  | None => modify (λ s, mkTarget (contents s) (schema_migrations s) (mg_tick s)
                           (Some (contents s, schema_migrations s)))
  end.

Definition rolled_back (s : Target) : Target :=
  match mg_begun s with
  | Some (c, t) => mkTarget c t (mg_tick s) None
  | None => s
  end.

Definition committed (s : Target) : Target :=
  mkTarget (contents s) (schema_migrations s) (mg_tick s) None.

Definition commit_tx : MM unit :=
  n ← tick;
  match mg_commit_fault n with
  | None => modify committed
  | Some (true, err) => modify committed;; throw err
  | Some (false, err) => modify rolled_back;; throw err
  end.

(** [tx.Exec]: a statement of the transaction, if that is still open. *)
Definition tx_exec {A} (m : MM A) : MM A :=
  n ← tick;
  begun ← gets mg_begun;
  match begun with
  | Some _ => match tx_fault n with Some err => throw err | None => m end
  | None => on_its_own n m
  end.

Definition run_script (sql : string) : MM unit :=
  tx_exec (λ s, match exec_script sql (contents s) with
                | inl err => (Err err, s)
                | inr c => (Ok tt, mkTarget c (schema_migrations s) (mg_tick s) (mg_begun s))
                end);;
  if ends_transaction sql then commit_tx else mret tt.

Definition set_table (t : gmap Z string) : MM unit :=
  modify (λ s, mkTarget (contents s) (Some t) (mg_tick s) (mg_begun s)).

(** [version] is an INT and the primary key. *)
Definition insert_version (version : Z) (name : string) : MM unit :=
  tx_exec (t ← the_table;
    if negb ((-2147483648 <=? version) && (version <=? 2147483647)) then
      throw (EText (Itoa version +:+ " is greater than maximum value for int4"))
    else match t !! version with
    | Some _ =>
        throw (EPg (mkPgError "23505" "schema_migrations_pkey"
          ("duplicate key value violates unique constraint " +:+ Quote "schema_migrations_pkey")))
    | None => set_table (<[version := name]> t)
    end).

Definition delete_version (version : Z) : MM unit :=
  tx_exec (t ← the_table; set_table (delete version t)).

(** [withTx]: [_ = tx.Rollback(ctx)] after an error, COMMIT otherwise. *)
Definition in_tx (fn : MM unit) : MM unit := λ s,
  match fn s with
  | (Ok _, s1) => commit_tx s1
  | (Err err, s1) => (Err err, rolled_back s1)
  | (Panic p, s1) => (Panic p, rolled_back s1)
  end.

Definition withTx (fn : MM unit) : MM unit := begin_tx;; in_tx fn.

(** * Up and down *)

(** What a run returns: the versions it handled, and an error. *)
Definition ran_result : Type := list Z * option error.

Definition apply_one (m : Migration) : MM unit :=
  withTx (map_err (λ err, EFmt (Sprintf "apply %d_%s: " [AInt (Version m); AStr (MgName m)]) (Some err) "")
            (run_script (Up m));;
          insert_version (Version m) (MgName m)).

Fixpoint up_loop (applied : gmap Z string) (ms : list Migration) (ran : list Z) : MM ran_result :=
  match ms with
  | [] => mret (ran, None)
  | m :: ms =>
      match applied !! Version m with
      | Some _ => up_loop applied ms ran
      | None =>
          r ← try (apply_one m);
          match r with
          | inl err => mret (ran, Some (EFmt "storage: migrate up: " (Some err) ""))
          | inr _ => up_loop applied ms (ran ++ [Version m])
          end
      end
  end.

(** The three steps both directions start with. *)
Definition prepare (fs : FS) (order : list Migration → list Migration)
    (k : list Migration → gmap Z string → MM ran_result) : MM ran_result :=
  match LoadMigrations fs order with
  | inl err => mret ([], Some err)
  | inr ms =>
      r ← try (map_err (λ err, EFmt "storage: create migrations table: " (Some err) "") create_table);
      match r with
      | inl err => mret ([], Some err)
      | inr _ =>
          a ← try appliedVersions;
          match a with
          | inl err => mret ([], Some err)
          | inr applied => k ms applied
          end
      end
  end.

Definition MigrateUp (fs : FS) (order : list Migration → list Migration) : MM ran_result :=
  prepare fs order (λ ms applied, up_loop applied ms []).

Definition revert_one (m : Migration) : MM unit :=
  withTx (map_err (λ err, EFmt (Sprintf "revert %d_%s: " [AInt (Version m); AStr (MgName m)]) (Some err) "")
            (run_script (Down m));;
          delete_version (Version m)).

(** [ms] is what is left of the list, last first. *)
Fixpoint down_loop (steps : Z) (applied : gmap Z string) (ms : list Migration) (reverted : list Z)
    : MM ran_result :=
  match ms with
  | [] => mret (reverted, None)
  | m :: ms =>
      if (0 <? steps) && (steps <=? Z.of_nat (length reverted)) then mret (reverted, None)
      else
        match applied !! Version m with
        | None => down_loop steps applied ms reverted
        | Some _ =>
            r ← try (revert_one m);
            match r with
            | inl err => mret (reverted, Some (EFmt "storage: migrate down: " (Some err) ""))
            | inr _ => down_loop steps applied ms (reverted ++ [Version m])
            end
        end
  end.

Definition MigrateDown (fs : FS) (order : list Migration → list Migration) (steps : Z) : MM ran_result :=
  prepare fs order (λ ms applied, down_loop steps applied (rev ms) []).

(** [sort.Ints] over the keys of the map. *)
Definition AppliedVersions : MM (list Z) :=
  create_table;;
  applied ← appliedVersions;
  mret (merge_sort Z.le (map_to_list applied).*1).
End migrate.
