(* ===== verification/Writers.v ===== *)
(** The program as one of the writers of [SchemaFacts]: every change it makes to
    the database is a committed transaction of accepted statements. *)
From S2P Require Import Prelude GoStrings Json Apperr Failpoint Schema SchemaFacts Monad World Storage Idempotency Event Config Outbox LedgerModel LedgerRepo LedgerService LedgerFacts Kafka Publisher Replay Reconciliation Webhook.
Local Open Scope Z_scope.

Lemma exec_all_app ss1 ss2 d d1 d2 :
  exec_all ss1 d = PgOk d1 → exec_all ss2 d1 = PgOk d2 → exec_all (ss1 ++ ss2) d = PgOk d2.
Proof.
  revert d. induction ss1 as [|s ss1 IH]; intros d; simpl.
  - by intros [= <-].
  - intros (r & Es & Hr)%pg_bind_Ok H2. rewrite Es. simpl. by apply IH.
Qed.

Lemma exec_all_one s d d' : exec_dml s d = PgOk d' → exec_all [s] d = PgOk d'.
Proof. simpl. by intros ->. Qed.

(** [d'] is [d] after some accepted statements. *)
Definition by_statements (d d' : DB) : Prop := ∃ ss, exec_all ss d = PgOk d'.

#[export] Instance by_statements_preorder : PreOrder by_statements.
Proof.
  split; [by exists []|]. intros d1 d2 d3 [ss1 E1] [ss2 E2]. exists (ss1 ++ ss2).
  by eapply exec_all_app.
Qed.

Lemma by_one s d d' : exec_dml s d = PgOk d' → by_statements d d'.
Proof. intros E. exists [s]. by apply exec_all_one. Qed.

Lemma by_statements_extends d d' : wf d → by_statements d d' → extends d d'.
Proof. intros Hwf [ss E]. by apply exec_all_safe in E as [_ ?]. Qed.

Definition writes (w w' : World) : Prop := by_statements (w_db w) (w_db w').

#[export] Instance writes_preorder : PreOrder writes.
Proof. unfold writes. split; [intros w; reflexivity|]. intros ??? H1 H2. by etrans. Qed.

(** A writer keeps the databases it works on within [written]. *)
Definition keeps_written (d d' : DB) : Prop := written d → written d'.

#[export] Instance keeps_written_preorder : PreOrder keeps_written.
Proof. unfold keeps_written. split; [by intros d|]. intros ??? H1 H2 H. auto. Qed.

Definition writer (w w' : World) : Prop := keeps_written (w_db w) (w_db w').

#[export] Instance writer_preorder : PreOrder writer.
Proof. unfold writer. split; [by intros w|]. intros ??? H1 H2. by etrans. Qed.

Section writers.
Context `{Ext}.

(** ** Inside a transaction *)

Lemma writes_keeps {A} (m : M A) : Respects (keeps id) m → Respects writes m.
Proof. intros Hm w. unfold writes. specialize (Hm w). unfold keeps in Hm. simpl in Hm. by rewrite Hm. Qed.

Lemma writes_sql {A} (f : Z → DB → pg (A * DB)) :
  (∀ now db a db', f now db = PgOk (a, db') → by_statements db db') → Respects writes (sql f).
Proof.
  intros Hf. unfold sql. apply respects_bind; [apply _|by apply writes_keeps, keeps_next_tick|].
  intros n. destruct (stmt_fault n); [apply _|]. intros w. unfold writes. simpl.
  destruct (f _ _) as [[a db']|] eqn:E; simpl; [by eapply Hf|reflexivity].
Qed.

#[export] Instance writes_stable {A} (m : M A) : Respects stable m → Respects writes m.
Proof. intros Hm w. unfold writes. by destruct (Hm w) as [-> _]. Qed.

Ltac by_sql := apply writes_sql; intros now db a db' Hs.

#[export] Instance writes_Claim s k h : Respects writes (Claim s k h).
Proof.
  unfold Claim. apply respects_bind; [apply _|apply respects_map_err; by_sql|respects_tac].
  unfold sql_claim in Hs. destruct (_ !! _); [by pg_inv; simplify_eq|].
  apply pg_bind_Ok in Hs as (d & Hd & [= _ <-]). by eapply by_one.
Qed.
#[export] Instance writes_Complete s k st b t : Respects writes (Complete s k st b t).
Proof.
  unfold Complete. apply respects_map_err; by_sql. unfold sql_complete in Hs.
  apply pg_bind_Ok in Hs as (c & _ & Hs). destruct (_ !! _); [|by pg_inv; simplify_eq].
  apply pg_bind_Ok in Hs as (d & Hd & [= _ <-]). by eapply by_one.
Qed.
#[export] Instance writes_Insert rec : Respects writes (Insert rec).
Proof.
  unfold Insert. apply respects_map_err; by_sql. unfold sql_insert in Hs.
  apply pg_bind_Ok in Hs as (c & _ & Hs).
  apply pg_bind_Ok in Hs as (d & Hd & [= _ <-]). by eapply by_one.
Qed.
#[export] Instance writes_insertTransaction t : Respects writes (insertTransaction t).
Proof.
  unfold insertTransaction. apply respects_map_err; by_sql. unfold sql_insert_transaction in Hs.
  apply pg_bind_Ok in Hs as (c & _ & Hs). apply pg_bind_Ok in Hs as (r & _ & Hs).
  apply pg_bind_Ok in Hs as (d & Hd & [= _ <-]). by eapply by_one.
Qed.
#[export] Instance writes_insertEntries es : Respects writes (insertEntries es).
Proof.
  unfold insertEntries. apply respects_for_each; [apply _|]. intros e.
  apply respects_map_err; by_sql. unfold sql_insert_entry in Hs.
  apply pg_bind_Ok in Hs as (c & _ & Hs). apply pg_bind_Ok in Hs as (r & _ & Hs).
  apply pg_bind_Ok in Hs as (d & Hd & [= _ <-]). by eapply by_one.
Qed.
#[export] Instance writes_insertReversal i o r e : Respects writes (insertReversalRecord i o r e).
Proof.
  unfold insertReversalRecord. apply respects_map_err; by_sql. unfold sql_insert_reversal in Hs.
  apply pg_bind_Ok in Hs as (c & _ & Hs). apply pg_bind_Ok in Hs as (c2 & _ & Hs).
  apply pg_bind_Ok in Hs as (c3 & _ & Hs).
  apply pg_bind_Ok in Hs as (d & Hd & [= _ <-]). by eapply by_one.
Qed.
#[export] Instance writes_applyBalanceDelta id z : Respects writes (applyBalanceDelta id z).
Proof.
  unfold applyBalanceDelta. apply respects_bind; [apply _| |respects_tac].
  apply respects_map_err. apply respects_bind; [apply _|by_sql|respects_tac].
  unfold sql_balance_delta in Hs. destruct (balances db !! id); [|by pg_inv; simplify_eq].
  apply pg_bind_Ok in Hs as (d & Hd & [= _ <-]). by eapply by_one.
Qed.

#[export] Instance writes_post_entries ctx txn : Respects writes (post_entries ctx txn).
Proof. unfold post_entries. respects_tac. Qed.
#[export] Instance writes_writeOutboxEvent cfg ctx txn ty data :
  Respects writes (writeOutboxEvent cfg ctx txn ty data).
Proof. unfold writeOutboxEvent. respects_tac. Qed.
#[export] Instance writes_complete_transaction i id : Respects writes (complete_transaction i id).
Proof. unfold complete_transaction. respects_tac. Qed.
#[export] Instance writes_claim_or_replay i work :
  Respects writes work → Respects writes (claim_or_replay i work).
Proof. intros Hw. unfold claim_or_replay. respects_tac. Qed.

#[export] Instance writes_transfer cfg ctx id cmd : Respects writes (transfer_closure cfg ctx id cmd).
Proof. unfold transfer_closure, executeTransfer. apply writes_claim_or_replay. respects_tac. Qed.
#[export] Instance writes_reverse cfg ctx id cmd : Respects writes (reverse_closure cfg ctx id cmd).
Proof. unfold reverse_closure, executeReverse. apply writes_claim_or_replay. respects_tac. Qed.
#[export] Instance writes_create cmd : Respects writes (executeCreateAccount cmd).
Proof.
  unfold executeCreateAccount.
  apply respects_bind; [apply _|apply respects_map_err; by_sql|intros acct;
    apply respects_bind; [apply _|apply respects_map_err; by_sql|respects_tac]].
  - unfold sql_insert_account in Hs. apply pg_bind_Ok in Hs as (d & Hd & [= _ <-]).
    by eapply by_one.
  - unfold sql_insert_balance in Hs. apply pg_bind_Ok in Hs as (d & Hd & [= _ <-]).
    by eapply by_one.
Qed.

(** ** Committed *)

#[export] Instance writer_keeps {A} (m : M A) : Respects (keeps id) m → Respects writer m.
Proof. intros Hm w Hw. specialize (Hm w). unfold keeps in Hm. simpl in Hm. by rewrite Hm. Qed.

Lemma written_raw d d' :
  written d → by_statements d d' → commit_check d d' = PgOk tt → written d'.
Proof.
  intros Hw [ss E] Hc. apply (written_commit d (map Row ss)); [done|]. by apply raw_transaction_rows.
Qed.

#[export] Instance writer_InTx {A} n (m : M A) : Respects writes m → Respects writer (InTx_result n m).
Proof.
  intros Hm w. unfold writer. apply (InTx_result_rel keeps_written).
  intros w1 a w2 E Hc Hw. eapply written_raw; [done| |done].
  specialize (Hm w1). by rewrite E in Hm.
Qed.

(** A statement on the pool that leaves the ledger alone. *)
Lemma writer_pool_sql {A} (f : Z → DB → pg (A * DB)) :
  (∀ now db a db', f now db = PgOk (a, db') →
     by_statements db db' ∧ ledger_entries db' = ledger_entries db) →
  Respects writer (pool_sql f).
Proof.
  intros Hf. unfold pool_sql. apply respects_bind; [apply _|apply _|]. intros n.
  destruct (stmt_fault n); [apply _|]. intros w Hw. simpl.
  destruct (f _ _) as [[a db']|] eqn:E; [|done]. apply Hf in E as [E Hent].
  assert (written db') as Hw'.
  { eapply written_raw; [done..|]. unfold commit_check. by rewrite Hent, drop_all. }
  by destruct (commit_fault n) as [[[] ?]|].
Qed.

#[export] Instance writer_Transfer cfg ctx cmd : Respects writer (Transfer cfg ctx cmd).
Proof.
  unfold Transfer, failure, lost_response. respects_tac.
Qed.
#[export] Instance writer_Reverse cfg ctx cmd : Respects writer (Reverse cfg ctx cmd).
Proof.
  unfold Reverse, failure, lost_response, ledger_failpoint.
  respects_tac.
Qed.
#[export] Instance writer_CreateAccount cfg cmd : Respects writer (CreateAccount cfg cmd).
Proof.
  unfold CreateAccount. respects_tac.
Qed.
End writers.

(** * The workers *)

(** The tables of the ledger. *)
Definition ledger_view (db : DB) :=
  (accounts db, balances db, ledger_transactions db, ledger_entries db, reversals db,
   idempotency_records db).

(** The columns of an event that are written once. *)
Definition event_core (o : outbox_row) :=
  (o_topic o, o_event_type o, o_aggregate_id o, o_partition_key o, o_payload o, o_headers o,
   o_created_at o).

Definition event_view (db : DB) := event_core <$> outbox_events db.

(** Accepted statements that change neither the ledger nor the content of the
    events. *)
Definition aside_db (d d' : DB) : Prop :=
  by_statements d d' ∧ ledger_view d' = ledger_view d ∧ event_view d' = event_view d.

#[export] Instance aside_db_preorder : PreOrder aside_db.
Proof.
  split; [done|]. intros d1 d2 d3 (S1 & L1 & E1) (S2 & L2 & E2). split_and!.
  - by etrans.
  - congruence.
  - congruence.
Qed.

Definition aside (w w' : World) : Prop :=
  keeps_written (w_db w) (w_db w') ∧ ledger_view (w_db w') = ledger_view (w_db w) ∧
  event_view (w_db w') = event_view (w_db w).

#[export] Instance aside_preorder : PreOrder aside.
Proof.
  split; [done|]. intros w1 w2 w3 (S1 & L1 & E1) (S2 & L2 & E2). split_and!.
  - by etrans.
  - congruence.
  - congruence.
Qed.

Lemma aside_update_outbox id o o' db db' :
  outbox_events db !! id = Some o → event_core o' = event_core o →
  exec_dml (UpdateOutbox id o') db = PgOk db' → aside_db db db'.
Proof.
  intros Ho Hcore E. split; [by eapply by_one|]. simpl in E. unfold update_outbox in E.
  rewrite Ho in E. pg_inv. split; [done|]. unfold event_view. simpl.
  rewrite fmap_insert, Hcore, insert_id; [done|]. by rewrite lookup_fmap, Ho.
Qed.

Lemma aside_delivery s db db' :
  (∃ id d, s = InsertDelivery id d ∨ s = UpdateDelivery id d) →
  exec_dml s db = PgOk db' → aside_db db db'.
Proof.
  intros (id & d & [->| ->]) E; (split; [by eapply by_one|]); simpl in E.
  - unfold insert_delivery in E. by pg_inv.
  - unfold update_delivery in E. destruct (webhook_deliveries db !! id); by pg_inv.
Qed.

Lemma claim_all_aside wid now ids db db' : claim_all wid now ids db = PgOk db' → aside_db db db'.
Proof.
  revert db. induction ids as [|id ids IH]; intros db; simpl; [by intros [= <-]|].
  destruct (outbox_events db !! id) as [o|] eqn:Eo; [|apply IH].
  intros (d & Hd & Hr)%pg_bind_Ok. etrans; [|by apply IH].
  by eapply (aside_update_outbox id o (claim_row wid now o)).
Qed.

Section workers.
Context `{Ext}.

#[export] Instance aside_keeps {A} (m : M A) : Respects (keeps id) m → Respects aside m.
Proof.
  intros Hm w. specialize (Hm w). unfold keeps in Hm. simpl in Hm. unfold aside.
  by rewrite Hm.
Qed.

Lemma aside_pool_sql {A} (f : Z → DB → pg (A * DB)) :
  (∀ now db a db', f now db = PgOk (a, db') → aside_db db db') → Respects aside (pool_sql f).
Proof.
  intros Hf w. split.
  - apply writer_pool_sql. intros now db a db' (S & L & _)%Hf. split; [done|].
    by injection L.
  - split.
    + apply (keeps_pool_sql ledger_view f). by intros now db a db' (_ & ? & _)%Hf.
    + apply (keeps_pool_sql event_view f). by intros now db a db' (_ & _ & ?)%Hf.
Qed.

Ltac by_pool := apply aside_pool_sql; intros now db x db' Hs.

#[export] Instance aside_ClaimBatch wid n ttl : Respects aside (ClaimBatch wid n ttl).
Proof.
  unfold ClaimBatch. apply respects_bind; [apply _..|]. intros tick.
  apply respects_map_err; by_pool. unfold sql_claim_batch in Hs.
  apply pg_bind_Ok in Hs as (ids & _ & Hs). apply pg_bind_Ok in Hs as (d & Hd & [= _ <-]).
  by eapply claim_all_aside.
Qed.
#[export] Instance aside_MarkPublished id : Respects aside (MarkPublished id).
Proof.
  unfold MarkPublished. apply respects_map_err; by_pool. unfold sql_mark_published in Hs.
  apply pg_bind_Ok in Hs as (c & _ & Hs).
  destruct (outbox_events db !! c) as [o|] eqn:Eo; [|by injection Hs as _ <-].
  destruct (decide _); [by injection Hs as _ <-|].
  apply pg_bind_Ok in Hs as (d & Hd & [= _ <-]). eapply aside_update_outbox; [exact Eo| |exact Hd]; done.
Qed.
#[export] Instance aside_MarkFailed id c b m : Respects aside (MarkFailed id c b m).
Proof.
  unfold MarkFailed. apply respects_map_err.
  apply respects_bind; [apply _|by_pool|respects_tac].
  unfold sql_mark_failed in Hs. apply pg_bind_Ok in Hs as (i & _ & Hs).
  destruct (outbox_events db !! i) as [o|] eqn:Eo; [|by injection Hs as _ <-].
  apply pg_bind_Ok in Hs as (d & Hd & [= _ <-]). eapply aside_update_outbox; [exact Eo| |exact Hd]; done.
Qed.
#[export] Instance aside_Backlog : Respects aside Backlog.
Proof. unfold Backlog. apply aside_keeps. respects_tac. Qed.
#[export] Instance aside_ListForReplay t f u n : Respects aside (ListForReplay t f u n).
Proof. unfold ListForReplay. apply aside_keeps. respects_tac. Qed.

#[export] Instance aside_Enqueue d : Respects aside (Enqueue d).
Proof.
  unfold Enqueue. apply respects_map_err; by_pool. unfold sql_enqueue in Hs.
  apply pg_bind_Ok in Hs as (i & _ & Hs). apply pg_bind_Ok in Hs as (e & _ & Hs).
  destruct (event_endpoint_exists _ _ _); [by injection Hs as _ <-|].
  apply pg_bind_Ok in Hs as (d' & Hd & [= _ <-]). eapply aside_delivery; [|exact Hd]. eauto.
Qed.
#[export] Instance aside_MarkDelivered id c : Respects aside (MarkDelivered id c).
Proof.
  unfold MarkDelivered. apply respects_map_err; by_pool. unfold sql_mark_delivered in Hs.
  apply pg_bind_Ok in Hs as (i & _ & Hs).
  destruct (webhook_deliveries db !! i) as [d|]; [|by injection Hs as _ <-].
  destruct (decide _); [by injection Hs as _ <-|].
  apply pg_bind_Ok in Hs as (d' & Hd & [= _ <-]). eapply aside_delivery; [|exact Hd]. eauto.
Qed.
#[export] Instance aside_MarkFailedDelivery i c s b m :
  Respects aside (MarkFailedDelivery i c s b m).
Proof.
  unfold MarkFailedDelivery. apply respects_map_err.
  apply respects_bind; [apply _|by_pool|respects_tac].
  unfold sql_mark_failed_delivery in Hs. apply pg_bind_Ok in Hs as (i' & _ & Hs).
  destruct (webhook_deliveries db !! i') as [d|]; [|by injection Hs as _ <-].
  apply pg_bind_Ok in Hs as (d' & Hd & [= _ <-]). eapply aside_delivery; [|exact Hd]. eauto.
Qed.
#[export] Instance aside_ClaimDue n : Respects aside (ClaimDue n).
Proof. unfold ClaimDue. apply aside_keeps. respects_tac. Qed.

(** ** The loops *)

Context (cfg : Config).

#[export] Instance aside_publishOne ctx rec : Respects aside (publishOne cfg ctx rec).
Proof.
  unfold publishOne, fail, publishToDLQ.
  respects_tac.
Qed.
#[export] Instance aside_publish_batch ctx batch n : Respects aside (publish_batch cfg ctx batch n).
Proof. revert n. induction batch; intros n; simpl; respects_tac. Qed.
#[export] Instance aside_RunOnce ctx : Respects aside (RunOnce cfg ctx).
Proof. unfold RunOnce. respects_tac. Qed.

#[export] Instance aside_replay_loop req rid at_ recs i r :
  Respects aside (replay_loop req rid at_ recs i r).
Proof.
  revert i r. induction recs; intros i r; simpl; respects_tac.
Qed.
#[export] Instance aside_RunReplay req : Respects aside (RunReplay req).
Proof. unfold RunReplay. respects_tac. Qed.

#[export] Instance aside_enqueue_all env p es : Respects aside (enqueue_all env p es).
Proof. induction es; simpl; respects_tac. Qed.
#[export] Instance aside_HandleEvent ctx msg : Respects aside (HandleEvent cfg ctx msg).
Proof. unfold HandleEvent. respects_tac. Qed.
#[export] Instance aside_deliver ctx d : Respects aside (deliver cfg ctx d).
Proof.
  unfold deliver, recordFailure, post. respects_tac. apply aside_keeps. by apply respects_modify.
Qed.
#[export] Instance aside_deliver_batch ctx b n : Respects aside (deliver_batch cfg ctx b n).
Proof. revert n. induction b; intros n; simpl; respects_tac. Qed.
#[export] Instance aside_DeliverOnce ctx : Respects aside (DeliverOnce cfg ctx).
Proof. unfold DeliverOnce. respects_tac. Qed.
#[export] Instance aside_Run : Respects aside Reconciliation.Run.
Proof.
  assert (∀ rows r, Respects (keeps id) (scan_balances rows r)).
  { intros rows. induction rows as [|[[??]?] rows IH]; intros r; simpl; respects_tac. }
  assert (∀ rows r, Respects (keeps id) (scan_transactions rows r)).
  { intros rows. induction rows as [|[[??]?] rows IH']; intros r; simpl; respects_tac. }
  unfold Reconciliation.Run, counted_query, rows_Err. apply aside_keeps. respects_tac.
Qed.
End workers.
