(* ===== verification/Once.v ===== *)
(** Commands take effect at most once, whatever fails: a closure guarded by its
    idempotency key writes only while the key is free, and leaves it taken. *)
From S2P Require Import Prelude GoStrings Json Apperr Failpoint Schema SchemaFacts Monad World Storage Idempotency Event Config Outbox LedgerModel LedgerRepo LedgerService LedgerFacts LedgerEffects.
Local Open Scope Z_scope.

(** Nothing happened, or [P] did and the key went from free to taken. *)
Definition once (k : string * string) (P : DB → DB → Prop) (d d' : DB) : Prop :=
  d' = d ∨ (idempotency_records d !! k = None ∧ is_Some (idempotency_records d' !! k) ∧ P d d').

#[export] Instance once_preorder k P : PreOrder (once k P).
Proof.
  split; [by left|]. intros d1 d2 d3 [->|(N1 & [x S1] & P1)] [->|(N2 & S2 & P2)].
  - by left.
  - by right.
  - right. eauto.
  - congruence.
Qed.

Section once.
Context `{Ext} (i : Idem) (m : M Result) (Q : Result → DB → DB → Prop).

(** What the closure of a command promises of its successful runs. *)
Definition guarded : Prop :=
  ∀ w a w', m w = (Ok a, w') → commit_check (w_db w) (w_db w') = PgOk tt →
    (w_db w' = w_db w ∧ replayed i a (w_db w)) ∨
    (Q a (w_db w) (w_db w') ∧ idempotency_records (w_db w) !! idem_key i = None ∧
     is_Some (idempotency_records (w_db w') !! idem_key i)).

Definition committed_Q (d d' : DB) : Prop :=
  ∃ a, Q a d d' ∧ commit_check d d' = PgOk tt.

Context (Hm : guarded).

Lemma guarded_once w a w' :
  m w = (Ok a, w') → commit_check (w_db w) (w_db w') = PgOk tt →
  once (idem_key i) committed_Q (w_db w) (w_db w').
Proof.
  intros E Hc. destruct (Hm _ _ _ E Hc) as [[-> _]|(HQ & ? & ?)]; [by left|].
  right. split_and!; [done|done|]. by exists a.
Qed.

Lemma InTx_once n w : once (idem_key i) committed_Q (w_db w) (w_db (InTx_result n m w).2).
Proof. apply InTx_result_rel; [apply _|]. apply guarded_once. Qed.

Lemma InTx_once_Ok n w o w' :
  InTx_result n m w = (Ok o, w') →
  ∃ a, o = Some a ∧
    ((w_db w' = w_db w ∧ replayed i a (w_db w)) ∨
     (Q a (w_db w) (w_db w') ∧ commit_check (w_db w) (w_db w') = PgOk tt) ∨
     (committed_Q (w_db w) (w_db w') ∧ replayed i a (w_db w'))).
Proof.
  intros E. apply (InTx_result_Ok (once (idem_key i) committed_Q)) in E
    as (a & w1 & w2 & -> & HR & Em & _ & _ & Hc & Ed); [|apply guarded_once].
  exists a. split; [done|]. rewrite Ed.
  destruct (Hm _ _ _ Em Hc) as [[E2 Hrep]|(HQ & Hn & _)].
  - rewrite E2. destruct HR as [E1|(_ & _ & HP)].
    + left. by rewrite <-E1.
    + right; right. done.
  - destruct HR as [E1|(_ & [x Hx] & _)]; [|congruence].
    right; left. by rewrite <-E1.
Qed.
End once.

(** The same between states of the world. *)
Definition onceW k P (w w' : World) : Prop := once k P (w_db w) (w_db w').

#[export] Instance onceW_preorder k P : PreOrder (onceW k P).
Proof. split; [by left|]. unfold onceW. intros ??? H1 H2. by etrans. Qed.

Lemma once_mono k (P Q : DB → DB → Prop) d d' :
  (∀ d d', P d d' → Q d d') → once k P d d' → once k Q d d'.
Proof. intros HPQ [->|(? & ? & ?)]; [by left|]. right. auto. Qed.

Section onceW.
Context `{Ext}.

#[export] Instance onceW_keeps k P {A} (m : M A) : Respects (keeps id) m → Respects (onceW k P) m.
Proof. intros Hm w. specialize (Hm w). by left. Qed.

Lemma onceW_InTx i m Q (Hm : guarded i m Q) P n :
  (∀ d d', committed_Q Q d d' → P d d') → Respects (onceW (idem_key i) P) (InTx_result n m).
Proof. intros HP w. eapply once_mono; [exact HP|]. by apply InTx_once. Qed.
End onceW.

(** * The three commands *)

Section commands.
Context `{Ext} (cfg : Config).

Lemma posted_key i now txn cid row rows t d d' :
  posted i now txn cid row rows t d d' →
  idempotency_records d !! idem_key i = None ∧ is_Some (idempotency_records d' !! idem_key i).
Proof. intros [_ _ Hk Hi]. rewrite Hi, lookup_insert_eq. eauto. Qed.

Definition transfer_Q ctx txID cmd (a : Result) (d d' : DB) : Prop :=
  ∃ t, a = committed_result t ∧ transfer_effect cfg ctx txID cmd t d d'.
Definition reverse_Q ctx rid cmd (a : Result) (d d' : DB) : Prop :=
  ∃ t, a = committed_result t ∧ reversal_effect cfg ctx rid cmd t d d'.
Definition create_Q cmd (a : Result) (d d' : DB) : Prop :=
  Replayed a = false ∧ account_effect cmd d d'.

Lemma transfer_guarded ctx txID cmd :
  guarded (TrIdem cmd) (transfer_closure cfg ctx txID cmd) (transfer_Q ctx txID cmd).
Proof.
  intros w a w' E _. apply transfer_closure_Ok in E as [?|(t & -> & Heff)]; [by left|]. right.
  split; [by exists t|].
  destruct Heff as (now & clock & e0 & e1 & src & dst & cid & rows & _ & _ & _ & Hp & _).
  by eapply posted_key.
Qed.

Lemma reverse_guarded ctx rid cmd :
  guarded (RvIdem cmd) (reverse_closure cfg ctx rid cmd) (reverse_Q ctx rid cmd).
Proof.
  intros w a w' E _. apply reverse_closure_Ok in E as [?|(t & -> & Heff)]; [by left|]. right.
  split; [by exists t|].
  destruct Heff as (now & clock & orig & o & ms & cid & rows & recid & _ & _ & _ & _ & c & _ & Hp & _).
  by eapply posted_key.
Qed.

Lemma create_guarded cmd :
  guarded (CaIdem cmd) (claim_or_replay (CaIdem cmd) (executeCreateAccount cmd)) (create_Q cmd).
Proof.
  intros w a w' E _. apply create_closure_Ok in E as [?|(Hr & _ & Heff)]; [by left|]. right.
  split; [done|]. destruct Heff as (now & Hk & _ & _ & ->). split; [done|]. simpl.
  rewrite lookup_insert_eq. eauto.
Qed.

(** The effects, for the identifiers the call draws. *)
Definition transfer_committed ctx cmd (d d' : DB) : Prop :=
  ValidateTransfer cmd = None ∧
  ∃ txID, committed_Q (transfer_Q (WithTransactionID ctx txID) txID cmd) d d'.
Definition reverse_committed ctx cmd (d d' : DB) : Prop :=
  ∃ rid, committed_Q (reverse_Q (WithTransactionID ctx rid) rid cmd) d d'.

(** The database after a call, however the call ends. *)
#[export] Instance Transfer_once ctx cmd :
  Respects (onceW (idem_key (TrIdem cmd)) (transfer_committed ctx cmd)) (Transfer cfg ctx cmd).
Proof.
  unfold Transfer, failure.
  respects_tac; apply (onceW_InTx _ _ _ (transfer_guarded _ _ _)); intros d d'; split; [done|];
    by eexists.
Qed.
#[export] Instance Reverse_once ctx cmd :
  Respects (onceW (idem_key (RvIdem cmd)) (reverse_committed ctx cmd)) (Reverse cfg ctx cmd).
Proof.
  unfold Reverse, failure, ledger_failpoint.
  respects_tac; apply (onceW_InTx _ _ _ (reverse_guarded _ _ _)); intros d d'; by eexists.
Qed.
#[export] Instance CreateAccount_once cmd :
  Respects (onceW (idem_key (CaIdem cmd)) (committed_Q (create_Q cmd))) (CreateAccount cfg cmd).
Proof.
  unfold CreateAccount. respects_tac. by apply (onceW_InTx _ _ _ (create_guarded _)).
Qed.

(** ** What a successful call means *)

Lemma replayed_posted i now txn cid row rows t d d' res :
  posted i now txn cid row rows t d d' → replayed i res d' →
  ResStatus res = 201 ∧ ResBody res = Some (marshal_Transaction t).
Proof.
  intros Hp (_ & r & Hr & _ & _ & -> & ->). rewrite (ps_idem _ _ _ _ _ _ _ _ _ Hp) in Hr.
  rewrite lookup_insert_eq in Hr. by injection Hr as <-.
Qed.

Lemma transfer_effect_response ctx txID cmd t d d' res :
  transfer_effect cfg ctx txID cmd t d d' → replayed (TrIdem cmd) res d' →
  ResStatus res = 201 ∧ ResBody res = Some (marshal_Transaction t).
Proof.
  intros (now & clock & e0 & e1 & src & dst & cid & rows & _ & _ & _ & Hp & _).
  by eapply replayed_posted.
Qed.

Lemma reversal_effect_response ctx rid cmd t d d' res :
  reversal_effect cfg ctx rid cmd t d d' → replayed (RvIdem cmd) res d' →
  ResStatus res = 201 ∧ ResBody res = Some (marshal_Transaction t).
Proof.
  intros (now & clock & orig & o & ms & cid & rows & rec & _ & _ & _ & _ & c & _ & Hp & _).
  by eapply replayed_posted.
Qed.

(** The effect took place, and the response is the stored transaction. *)
Definition committed_with (E : Transaction → DB → DB → Prop) (res : Result) (d d' : DB) : Prop :=
  ∃ t, E t d d' ∧ commit_check d d' = PgOk tt ∧
    ResStatus res = 201 ∧ ResBody res = Some (marshal_Transaction t).

Lemma Transfer_Ok ctx cmd w res w' :
  Transfer cfg ctx cmd w = (Ok res, w') →
  (w_db w' = w_db w ∧ replayed (TrIdem cmd) res (w_db w)) ∨
  (ValidateTransfer cmd = None ∧
   ∃ txID, committed_with (transfer_effect cfg (WithTransactionID ctx txID) txID cmd) res
             (w_db w) (w_db w')).
Proof.
  unfold Transfer. destruct (ValidateTransfer cmd); [intros; ok_inv|].
  intros (o & w1 & E1 & Hr)%bind_Ok. destruct o; [ok_inv|].
  apply stable_run in E1 as [Hd1 _]; [|apply _].
  apply bind_Ok in Hr as (txID & w2 & E2 & Hr). apply stable_run in E2 as [Hd2 _]; [|apply _].
  apply bind_Ok in Hr as (r & w3 & E3 & Hr). destruct r as [err|r]; [ok_inv|].
  apply try_Ok_inr in E3. apply (InTx_once_Ok _ _ _ (transfer_guarded _ _ _)) in E3
    as (a & -> & Hcase). rewrite Hd2, Hd1 in Hcase.
  apply bind_Ok in Hr as (a' & w4 & E4 & Hr). apply ret_Ok in E4 as [<- <-].
  assert (res = a ∧ w_db w' = w_db w3) as [-> Hd].
  { destruct (Replayed a); ok_inv; [by stable_inv|]. stable_inv. split; congruence. }
  rewrite Hd. destruct Hcase as [?|[((t & -> & He) & Hc)|[(a' & (t & -> & He) & Hc) Hrep]]].
  - by left.
  - right. split; [done|]. exists txID, t. done.
  - right. split; [done|]. exists txID, t.
    split_and!; [done|done|by eapply transfer_effect_response..].
Qed.

Lemma Reverse_Ok ctx cmd w res w' :
  Reverse cfg ctx cmd w = (Ok res, w') →
  (w_db w' = w_db w ∧ replayed (RvIdem cmd) res (w_db w)) ∨
  ∃ rid, committed_with (reversal_effect cfg (WithTransactionID ctx rid) rid cmd) res
           (w_db w) (w_db w').
Proof.
  unfold Reverse. destruct (String.eqb _ ""); [intros; ok_inv|].
  intros (o & w1 & E1 & Hr)%bind_Ok. apply stable_run in E1 as [Hd1 _]; [|apply _].
  apply bind_Ok in Hr as (txID & w2 & E2 & Hr). apply stable_run in E2 as [Hd2 _]; [|apply _].
  apply bind_Ok in Hr as (r & w3 & E3 & Hr). destruct r as [err|r]; [ok_inv|].
  apply try_Ok_inr in E3. apply (InTx_once_Ok _ _ _ (reverse_guarded _ _ _)) in E3
    as (a & -> & Hcase). rewrite Hd2, Hd1 in Hcase.
  apply bind_Ok in Hr as (a' & w4 & E4 & Hr). apply ret_Ok in E4 as [<- <-].
  apply bind_Ok in Hr as (u & w5 & E5 & Hr). apply bind_Ok in Hr as (u' & w6 & E6 & Hr).
  apply ret_Ok in Hr as [<- <-]. apply stable_run in E6 as [Hd6 _]; [|apply _].
  assert (w_db w5 = w_db w3) as Hd5 by (destruct (Replayed a); by stable_inv).
  rewrite Hd6, Hd5.
  destruct Hcase as [?|[((t & -> & He) & Hc)|[(a' & (t & -> & He) & Hc) Hrep]]].
  - by left.
  - right. exists txID, t. done.
  - right. exists txID, t. split_and!; [done|done|by eapply reversal_effect_response..].
Qed.
End commands.
