(* ===== verification/LedgerInvariant.v ===== *)
(** The invariant of the ledger's database under the program's own commands,
    beyond what the schema enforces: balances are the sums of their entries,
    every transaction has entries and exactly one event, and reversals mirror
    what they reverse. *)
From S2P Require Import Prelude GoStrings Json Apperr Failpoint Schema SchemaFacts Monad World Storage Idempotency Event Config Outbox LedgerModel LedgerRepo LedgerService LedgerFacts LedgerEffects Once Reconciliation Writers.
Local Open Scope Z_scope.

(** What a transaction moves on an account. *)
Definition moved (db : DB) (id a : string) : Z :=
  sum_with e_amount (entries_at a (entries_of id (ledger_entries db))).

Section invariant.
Context `{Ext}.

Record ledger_inv (db : DB) : Prop := {
  li_written : written db;
  li_balances : ∀ a b, balances db !! a = Some b →
    b_amount b = sum_with e_amount (entries_at a (ledger_entries db));
  li_accounts : ∀ a r, accounts db !! a = Some r →
    ∃ b, balances db !! a = Some b ∧ b_allow_overdraft b = a_allow_overdraft r;
  li_txs : ∀ id, is_Some (ledger_transactions db !! id) →
    entries_of id (ledger_entries db) ≠ [];
  li_range : Forall (λ e, int64_min < e_amount e) (ledger_entries db);
  li_event : ∀ id t, ledger_transactions db !! id = Some t →
    ∃ evid o, outbox_events db !! evid = Some o ∧ uuid_in (o_aggregate_id o) = Some id ∧
      o_event_type o = (if String.eqb (t_kind t) TxKindReversal then EventPaymentReversed
                        else EventPaymentCreated);
  li_event_tx : ∀ evid o, outbox_events db !! evid = Some o →
    ∃ id, uuid_in (o_aggregate_id o) = Some id ∧ is_Some (ledger_transactions db !! id);
  li_event_unique : ∀ ev1 ev2 o1 o2 id,
    outbox_events db !! ev1 = Some o1 → outbox_events db !! ev2 = Some o2 →
    uuid_in (o_aggregate_id o1) = Some id → uuid_in (o_aggregate_id o2) = Some id → ev1 = ev2;
  li_reversals : ∀ o c,
    (∃ rid r, reversals db !! rid = Some r ∧ r_original r = o ∧ r_reversal r = c) ↔
    (∃ t, ledger_transactions db !! c = Some t ∧ t_reverses t = Some o);
  li_mirror : ∀ c t o a, ledger_transactions db !! c = Some t → t_reverses t = Some o →
    moved db c a = - moved db o a;
  li_original : ∀ c t o u, ledger_transactions db !! c = Some t → t_reverses t = Some o →
    ledger_transactions db !! o = Some u → t_reverses u = None;
}.

Lemma ledger_inv_empty : ledger_inv empty_db.
Proof.
  split; simpl.
  - exact written_empty.
  - by intros ? ? ?%lookup_empty_Some.
  - by intros ? ? ?%lookup_empty_Some.
  - by intros ? [? ?%lookup_empty_Some].
  - constructor.
  - by intros ? ? ?%lookup_empty_Some.
  - by intros ? ? ?%lookup_empty_Some.
  - by intros ? ? ? ? ? ?%lookup_empty_Some.
  - intros o c.
    by split; [intros (? & ? & ?%lookup_empty_Some & _)|intros (? & ?%lookup_empty_Some & _)].
  - by intros ? ? ? ? ?%lookup_empty_Some.
  - by intros ? ? ? ? ?%lookup_empty_Some.
Qed.

(** ** The rows of a posted transaction *)

Lemma stored_rows now (txn : Transaction) cid rows :
  uuid_in (TxID txn) = Some cid → Forall (λ e, EntTransactionID e = TxID txn) (Entries txn) →
  Forall2 (entry_stored now) (Entries txn) rows → Forall (λ r, e_transaction_id r = cid) rows.
Proof.
  intros Hc Hall Hrows. induction Hrows as [|e r es rows (_ & Ht & _) _ IH]; [done|].
  inversion_clear Hall. constructor; [congruence|auto].
Qed.

Lemma stored_sums now es rows a :
  Forall2 (entry_stored now) es rows →
  sum_with e_amount (entries_at a rows) = sum_with EntAmount (at_account a es).
Proof.
  induction 1 as [|e r es rows (_ & _ & Ha & Hm & _) _ IH]; [done|].
  unfold entries_at, at_account in *. rewrite !sum_with_filter_cons, IH, Ha, Hm. done.
Qed.

Lemma stored_total now es rows :
  Forall2 (entry_stored now) es rows → sum_with e_amount rows = sum_with EntAmount es.
Proof.
  induction 1 as [|e r es rows (_ & _ & _ & Hm & _) _ IH]; [done|].
  by rewrite !sum_with_cons, IH, Hm.
Qed.

Lemma stored_range now es rows :
  Forall2 (entry_stored now) es rows → Forall (λ e, int64_min < EntAmount e) es →
  Forall (λ e, int64_min < e_amount e) rows.
Proof.
  induction 1 as [|e r es rows (_ & _ & _ & Hm & _) _ IH]; intros Hall; [done|].
  inversion_clear Hall. constructor; [lia|auto].
Qed.

Lemma entries_at_app a l1 l2 : entries_at a (l1 ++ l2) = entries_at a l1 ++ entries_at a l2.
Proof. apply filter_app. Qed.

Lemma entries_of_all cid rows :
  Forall (λ r, e_transaction_id r = cid) rows → entries_of cid rows = rows.
Proof. intros Hall. by apply list_filter_all. Qed.

Lemma entries_of_other cid id rows :
  Forall (λ r, e_transaction_id r = cid) rows → id ≠ cid → entries_of id rows = [].
Proof.
  intros Hall Hne. apply list_filter_none. eapply Forall_impl; [exact Hall|].
  intros r Hr Hr'. simpl in *. congruence.
Qed.

Lemma entries_of_unknown db id :
  wf db → ledger_transactions db !! id = None → entries_of id (ledger_entries db) = [].
Proof.
  intros Hwf Hid. apply list_filter_none. eapply Forall_impl; [apply (wf_entries _ Hwf)|].
  intros e (_ & _ & _ & Hfk & _) He. unfold fk_tx_currency in Hfk. by rewrite He, Hid in Hfk.
Qed.

Section posted.
Context (i : Idem) (now : Z) (txn : Transaction) (cid : string) (row : tx_row)
  (rows : list entry_row) (t : Transaction) (d d' : DB)
  (Hp : posted i now txn cid row rows t d d') (Hinv : ledger_inv d) (Hw : written d')
  (Htid : Forall (λ e, EntTransactionID e = TxID txn) (Entries txn)).

Lemma posted_wf : wf d.
Proof. by apply written_safe, (li_written _ Hinv). Qed.

Lemma posted_rows : Forall (λ r, e_transaction_id r = cid) rows.
Proof. eapply stored_rows; [apply Hp|done|apply Hp]. Qed.

Lemma posted_entries_new : entries_of cid (ledger_entries d') = rows.
Proof.
  rewrite (ps_entries _ _ _ _ _ _ _ _ _ Hp), entries_of_app, (entries_of_all _ rows).
  - by rewrite (entries_of_unknown d) by (apply posted_wf || apply Hp).
  - apply posted_rows.
Qed.

Lemma posted_entries_old id :
  id ≠ cid → entries_of id (ledger_entries d') = entries_of id (ledger_entries d).
Proof.
  intros Hid. rewrite (ps_entries _ _ _ _ _ _ _ _ _ Hp), entries_of_app.
  rewrite (entries_of_other cid id rows), app_nil_r; [done|apply posted_rows|done].
Qed.

Lemma posted_balances a b' :
  balances d' !! a = Some b' →
  b_amount b' = sum_with e_amount (entries_at a (ledger_entries d')).
Proof.
  intros Hb'. pose proof (ps_balances _ _ _ _ _ _ _ _ _ Hp a) as Hs.
  rewrite Hb' in Hs. destruct (balances d !! a) as [b|] eqn:Hb; [|done].
  destruct Hs as (-> & _). rewrite (ps_entries _ _ _ _ _ _ _ _ _ Hp), entries_at_app,
    sum_with_app, (stored_sums now (Entries txn) rows) by apply Hp.
  by rewrite (li_balances _ Hinv a b Hb).
Qed.

Lemma posted_accounts a r :
  accounts d' !! a = Some r →
  ∃ b, balances d' !! a = Some b ∧ b_allow_overdraft b = a_allow_overdraft r.
Proof.
  rewrite (ps_accounts _ _ _ _ _ _ _ _ _ Hp). intros Ha.
  destruct (li_accounts _ Hinv a r Ha) as (b & Hb & Ho).
  pose proof (ps_balances _ _ _ _ _ _ _ _ _ Hp a) as Hs. rewrite Hb in Hs.
  destruct (balances d' !! a) as [b'|]; [|done].
  destruct Hs as (_ & Ho' & _). exists b'. split; [done|congruence].
Qed.

Lemma posted_txs id :
  Entries txn ≠ [] → is_Some (ledger_transactions d' !! id) →
  entries_of id (ledger_entries d') ≠ [].
Proof.
  intros Hne Hid. destruct (decide (id = cid)) as [->|Hid'].
  - rewrite posted_entries_new. intros E. apply Hne.
    pose proof (ps_rows _ _ _ _ _ _ _ _ _ Hp) as Hr. rewrite E in Hr.
    by apply Forall2_nil_inv_r in Hr.
  - rewrite posted_entries_old by done. apply (li_txs _ Hinv).
    by rewrite (ps_txs _ _ _ _ _ _ _ _ _ Hp), lookup_insert_ne in Hid.
Qed.

Lemma posted_range :
  Forall (λ e, int64_min < EntAmount e) (Entries txn) →
  Forall (λ e, int64_min < e_amount e) (ledger_entries d').
Proof.
  intros Hr. rewrite (ps_entries _ _ _ _ _ _ _ _ _ Hp). apply Forall_app_2; [apply Hinv|].
  eapply stored_range; [apply Hp|done].
Qed.

(** ** Events *)

Context (cfg : Config) (ctx : Ctx) (ty : string) (data : PaymentData)
  (Hev : event_added cfg ctx txn ty data now d d')
  (Hkind : t_kind row = TxKind txn)
  (Hty : ty = (if String.eqb (TxKind txn) TxKindReversal then EventPaymentReversed
               else EventPaymentCreated)).

Lemma posted_event id r :
  ledger_transactions d' !! id = Some r →
  ∃ evid o, outbox_events d' !! evid = Some o ∧ uuid_in (o_aggregate_id o) = Some id ∧
    o_event_type o = (if String.eqb (t_kind r) TxKindReversal then EventPaymentReversed
                      else EventPaymentCreated).
Proof.
  rewrite (ps_txs _ _ _ _ _ _ _ _ _ Hp).
  destruct Hev as (evid & o & Hfresh & (eid & _ & Hot & Hagg & _) & ->).
  intros [[<- <-]|[Hid Hr]]%lookup_insert_Some.
  - exists evid, o. rewrite lookup_insert_eq, Hagg, Hot, Hty, Hkind.
    split_and!; [done|apply Hp|done].
  - destruct (li_event _ Hinv id r Hr) as (ev & o' & Ho' & ?). exists ev, o'.
    rewrite lookup_insert_ne; [done|]. intros ->. congruence.
Qed.

Lemma posted_event_tx ev o :
  outbox_events d' !! ev = Some o →
  ∃ id, uuid_in (o_aggregate_id o) = Some id ∧ is_Some (ledger_transactions d' !! id).
Proof.
  destruct Hev as (evid & o' & Hfresh & (eid & _ & _ & Hagg & _) & ->).
  rewrite (ps_txs _ _ _ _ _ _ _ _ _ Hp).
  intros [[<- <-]|[Hne Ho]]%lookup_insert_Some.
  - exists cid. rewrite Hagg, lookup_insert_eq. split; [apply Hp|eauto].
  - destruct (li_event_tx _ Hinv ev o Ho) as (id & Hid & Hs). exists id. split; [done|].
    by apply lookup_insert_is_Some'; right.
Qed.

Lemma posted_event_unique ev1 ev2 o1 o2 id :
  outbox_events d' !! ev1 = Some o1 → outbox_events d' !! ev2 = Some o2 →
  uuid_in (o_aggregate_id o1) = Some id → uuid_in (o_aggregate_id o2) = Some id → ev1 = ev2.
Proof.
  destruct Hev as (evid & o' & Hfresh & (eid & _ & _ & Hagg & _) & ->).
  pose proof (ps_cid _ _ _ _ _ _ _ _ _ Hp) as Hcid.
  assert (∀ ev o, outbox_events d !! ev = Some o → uuid_in (o_aggregate_id o) ≠ Some cid) as Hno.
  { intros ev o Ho Ha. destruct (li_event_tx _ Hinv ev o Ho) as (x & Hx & [y Hy]).
    rewrite Ha in Hx. injection Hx as <-. by rewrite (ps_fresh _ _ _ _ _ _ _ _ _ Hp) in Hy. }
  intros [[<- <-]|[? H1]]%lookup_insert_Some [[<- <-]|[? H2]]%lookup_insert_Some E1 E2.
  - done.
  - destruct (Hno _ _ H2). congruence.
  - destruct (Hno _ _ H1). congruence.
  - by eapply (li_event_unique _ Hinv).
Qed.

(** ** Reversals *)

Lemma posted_reverses_old c r o :
  ledger_transactions d !! c = Some r → t_reverses r = Some o → c ≠ cid ∧ o ≠ cid.
Proof.
  intros Hc Hr. pose proof (ps_fresh _ _ _ _ _ _ _ _ _ Hp) as Hf.
  pose proof (wf_reverses _ posted_wf c r Hc) as Hfk. simpl in Hfk. rewrite Hr in Hfk.
  apply exists_in_true in Hfk as [x Hx]. split; intros ->; congruence.
Qed.

Lemma moved_old id a : id ≠ cid → moved d' id a = moved d id a.
Proof. intros Hid. unfold moved. by rewrite posted_entries_old. Qed.

Lemma moved_new a : moved d' cid a = sum_with EntAmount (at_account a (Entries txn)).
Proof. unfold moved. rewrite posted_entries_new. eapply stored_sums, Hp. Qed.

Lemma posted_inv :
  Entries txn ≠ [] → Forall (λ e, int64_min < EntAmount e) (Entries txn) →
  (∀ o c, (∃ rid r, reversals d' !! rid = Some r ∧ r_original r = o ∧ r_reversal r = c) ↔
          (∃ rid r, reversals d !! rid = Some r ∧ r_original r = o ∧ r_reversal r = c) ∨
          (c = cid ∧ t_reverses row = Some o)) →
  (∀ o a, t_reverses row = Some o →
     o ≠ cid ∧ sum_with EntAmount (at_account a (Entries txn)) = - moved d o a) →
  (∀ o u, t_reverses row = Some o → ledger_transactions d !! o = Some u → t_reverses u = None) →
  ledger_inv d'.
Proof.
  intros Hne Hr Hrev Hmir Horig. split.
  - done.
  - apply posted_balances.
  - apply posted_accounts.
  - intros id. by apply posted_txs.
  - by apply posted_range.
  - apply posted_event.
  - apply posted_event_tx.
  - apply posted_event_unique.
  - intros o c. rewrite Hrev, (li_reversals _ Hinv), (ps_txs _ _ _ _ _ _ _ _ _ Hp).
    pose proof (ps_fresh _ _ _ _ _ _ _ _ _ Hp). split.
    + intros [(r & Hc & Ho)|[-> Ho]].
      * exists r. rewrite lookup_insert_ne; [done|]. intros ->. congruence.
      * exists row. by rewrite lookup_insert_eq.
    + intros (r & [[<- <-]|[? Hc]]%lookup_insert_Some & Ho); [by right|left; eauto].
  - intros c r o a. rewrite (ps_txs _ _ _ _ _ _ _ _ _ Hp).
    intros [[<- <-]|[_ Hc]]%lookup_insert_Some Ho.
    + destruct (Hmir o a Ho) as [Hoc Hs]. by rewrite moved_new, (moved_old o).
    + destruct (posted_reverses_old c r o Hc Ho) as [? ?].
      rewrite !moved_old by done. by eapply (li_mirror _ Hinv).
  - intros c r o u. rewrite (ps_txs _ _ _ _ _ _ _ _ _ Hp).
    intros [[<- <-]|[_ Hc]]%lookup_insert_Some Ho.
    + destruct (Hmir o "" Ho) as [Hoc _]. rewrite lookup_insert_ne by done. by apply Horig.
    + destruct (posted_reverses_old c r o Hc Ho) as [_ Hoc]. rewrite lookup_insert_ne by done.
      by eapply (li_original _ Hinv).
Qed.
End posted.

(** ** The commands keep the invariant *)

Lemma transfer_effect_inv cfg ctx txID cmd t d d' :
  ValidateTransfer cmd = None → ledger_inv d → written d' →
  transfer_effect cfg ctx txID cmd t d d' → ledger_inv d'.
Proof.
  intros Hv Hinv Hw (now & clock & e0 & e1 & src & dst & cid & rows & _ & _ & _ & Hp & Hrev & Hev).
  apply ValidateTransfer_None in Hv as (_ & _ & _ & Hpos & _).
  pose proof (ps_rows _ _ _ _ _ _ _ _ _ Hp) as Hrows.
  assert (in_int64 (Amount cmd) = true) as Hin.
  { unfold transfer_transaction, transfer_entries in Hrows. simpl in Hrows.
    inversion_clear Hrows as [|? ? ? ? _ Hrows2].
    inversion_clear Hrows2 as [|? ? ? ? (_ & _ & _ & Hm & _ & _ & _ & Hi) _].
    by rewrite Hm in Hi. }
  apply in_int64_iff in Hin.
  assert (wrap64 (- Amount cmd) = - Amount cmd) as Hwrap.
  { apply wrap64_id. unfold int64_min, int64_max in *. lia. }
  eapply (posted_inv _ _ _ _ _ _ _ _ _ Hp Hinv Hw); [|exact Hev|done| |done| | |done|done].
  - by repeat constructor.
  - simpl. unfold transfer_kind. by destruct (String.eqb (LkKind src) KindSystem).
  - unfold transfer_transaction, transfer_entries. simpl Entries.
    repeat constructor; simpl EntAmount; rewrite ?Hwrap; unfold int64_min, int64_max in *; lia.
  - intros o c. rewrite Hrev. split; [by left|]. by intros [?|[_ ?]].
Qed.

(** Mirrored entries move each account back. *)
Lemma mirrors_sum rid es ms a :
  Forall2 (mirrors rid) es ms →
  Forall (λ e, int64_min < EntAmount e ≤ int64_max) es →
  sum_with EntAmount (at_account a ms) = - sum_with EntAmount (at_account a es) ∧
  Forall (λ e, int64_min < EntAmount e) ms.
Proof.
  induction 1 as [|e m es ms (_ & Ha & Hm & _) _ IH]; intros Hall; [by split; [|constructor]|].
  inversion_clear Hall as [|? ? He Hes]. destruct (IH Hes) as [IHs IHr].
  assert (EntAmount m = - EntAmount e) as Hneg.
  { rewrite Hm. apply wrap64_id. unfold int64_min, int64_max in *. lia. }
  split.
  - unfold at_account in *. rewrite !sum_with_filter_cons, IHs, Ha, Hneg. case_decide; lia.
  - constructor; [|done]. unfold int64_min, int64_max in *. lia.
Qed.

Lemma stored_entries_sum a l :
  sum_with EntAmount (at_account a (map entry_of_row l)) = sum_with e_amount (entries_at a l).
Proof.
  induction l as [|e l IH]; [done|]. unfold at_account, entries_at in *. simpl map.
  by rewrite !sum_with_filter_cons, IH.
Qed.

Lemma loaded_entries_perm db c t :
  loaded db c t → Entries t ≡ₚ map entry_of_row (entries_of c (ledger_entries db)).
Proof.
  intros (row & _ & _ & ->). simpl. apply Permutation_map. apply merge_sort_Permutation.
Qed.

Lemma loaded_moved db c t a :
  loaded db c t → sum_with EntAmount (at_account a (Entries t)) = moved db c a.
Proof.
  intros Hl%loaded_entries_perm. unfold moved. rewrite <-stored_entries_sum.
  apply sum_with_perm. by apply filter_Permutation.
Qed.

Lemma loaded_range db c t :
  ledger_inv db → loaded db c t → Forall (λ e, int64_min < EntAmount e ≤ int64_max) (Entries t).
Proof.
  intros Hinv Hl%loaded_entries_perm. rewrite Hl. rewrite Forall_map.
  apply Forall_forall. intros e [_ He]%list_elem_of_filter. simpl.
  pose proof (li_range _ Hinv) as Hr. rewrite Forall_forall in Hr.
  pose proof (wf_entries _ (proj1 (written_safe _ (li_written _ Hinv)))) as Hw.
  rewrite Forall_forall in Hw. destruct (Hw e He) as (_ & Hi & _).
  apply in_int64_iff in Hi. split; [by apply Hr|lia].
Qed.

Lemma loaded_nonempty db c t : ledger_inv db → loaded db c t → Entries t ≠ [].
Proof.
  intros Hinv Hl. pose proof (loaded_entries_perm _ _ _ Hl) as Hperm.
  destruct Hl as (row & Hrow & _). intros E. rewrite E in Hperm.
  apply Permutation_nil_l in Hperm. apply (li_txs _ Hinv c); [by eexists|].
  by destruct (entries_of c (ledger_entries db)).
Qed.

Lemma mirrors_nonempty rid es ms : Forall2 (mirrors rid) es ms → es ≠ [] → ms ≠ [].
Proof. by intros []. Qed.

Lemma reversal_effect_inv `{!UuidLaw} cfg ctx rid cmd t d d' :
  ledger_inv d → written d' → reversal_effect cfg ctx rid cmd t d d' → ledger_inv d'.
Proof.
  intros Hinv Hw (now & clock & orig & original & ms & cid & rows & recid & Horig & Hload & Hchk &
    Hms & corig & Hcorig & Hp & Hrfresh & Hrev & Hev).
  assert (TxID original = orig) as Hid by by destruct Hload as (? & _ & _ & ->).
  assert (corig = orig) as ->.
  { apply uuid_canonical in Horig. rewrite Hid in Hcorig. congruence. }
  pose proof (λ ms a, mirrors_sum rid (Entries original) ms a) as Hsum.
  assert (orig ≠ cid) as Hne.
  { intros ->. destruct Hload as (row & Hrow & _).
    by rewrite (ps_fresh _ _ _ _ _ _ _ _ _ Hp) in Hrow. }
  eapply (posted_inv _ _ _ _ _ _ _ _ _ Hp Hinv Hw); [|exact Hev|done|done| | | | |].
  - simpl. clear -Hms. induction Hms as [|e m es ms (Ht & _) _ IH]; constructor; done.
  - eapply mirrors_nonempty; [exact Hms|]. by eapply loaded_nonempty.
  - eapply (Hsum ms ""); [exact Hms|]. by eapply loaded_range.
  - intros o c. rewrite Hrev. simpl. split.
    + intros (x & r & [[<- <-]|[_ Hx]]%lookup_insert_Some & <- & <-); [by right|left; eauto].
    + intros [(x & r & Hx & Ho & Hc)|[-> [= ->]]].
      * exists x, r. rewrite lookup_insert_ne; [done|]. intros ->. congruence.
      * eexists recid, _. by rewrite lookup_insert_eq.
  - intros o a [= <-]. split; [done|]. simpl.
    destruct (Hsum ms a Hms) as [-> _]; [by eapply loaded_range|].
    by rewrite (loaded_moved d orig).
  - intros o u [= <-] Hu. destruct Hload as (row & Hrow & _ & El).
    assert (TxKind original = t_kind row) as Ek by (by rewrite El). simplify_eq.
    unfold check_reversible in Hchk. rewrite Ek in Hchk.
    destruct (String.eqb_spec (t_kind row) TxKindReversal) as [|Hk]; [done|].
    by eapply wf_not_reversal; [apply written_safe, Hinv|..].
Qed.

Lemma account_effect_inv cmd d d' :
  ledger_inv d → written d' → account_effect cmd d d' → ledger_inv d'.
Proof.
  intros Hinv Hw (now & Hk & Ha & Hb & ->).
  pose proof (proj1 (written_safe _ (li_written _ Hinv))) as Hwf.
  split; try apply Hinv; try done; simpl.
  - intros a b [[<- <-]|[_ Hx]]%lookup_insert_Some; [|by apply Hinv]. simpl.
    unfold entries_at. rewrite list_filter_none; [done|].
    eapply Forall_impl; [apply (wf_entries _ Hwf)|]. intros e (_ & _ & _ & _ & Hfk) He.
    unfold fk_account_currency in Hfk. by rewrite He, Ha in Hfk.
  - intros a r [[<- <-]|[Hne Hx]]%lookup_insert_Some.
    + eexists. by rewrite lookup_insert_eq.
    + rewrite lookup_insert_ne by done. by apply Hinv.
Qed.
End invariant.
