(* ===== verification/System.v ===== *)
(** The whole system: any number of API processes, publishers and webhook
    workers, with any configurations, acting on one database in any order, under
    any faults; and the invariant of every state they reach. *)
From S2P Require Import Prelude GoStrings Json Apperr Failpoint Schema SchemaFacts Monad World Storage Idempotency Event Config Outbox LedgerModel LedgerRepo LedgerService LedgerFacts LedgerEffects Once Kafka Publisher Replay Reconciliation Cache Http Handlers Server ApiEffects Webhook Writers LedgerInvariant.
Local Open Scope Z_scope.

Section system.
Context `{Ext}.

(** One call of the program, by some process, however it ends. *)
Inductive call : World → World → Prop :=
  | call_CreateAccount cfg cmd w : call w (CreateAccount cfg cmd w).2
  | call_Transfer cfg ctx cmd w : call w (Transfer cfg ctx cmd w).2
  | call_Reverse cfg ctx cmd w : call w (Reverse cfg ctx cmd w).2
  | call_GetTransaction id w : call w (GetTransaction id w).2
  | call_request cfg e r w : call w (serve cfg e r w).2
  | call_publisher cfg ctx w : call w (RunOnce cfg ctx w).2
  | call_replay req w : call w (RunReplay req w).2
  | call_event cfg ctx msg w : call w (HandleEvent cfg ctx msg w).2
  | call_deliver cfg ctx w : call w (DeliverOnce cfg ctx w).2
  | call_reconcile w : call w (Reconciliation.Run w).2.

(** A call, or a change of anything but the database (time passes, failpoints
    are armed, a process starts anew, Kafka, Redis and the endpoints do what
    they like). *)
Inductive step : World → World → Prop :=
  | step_call w w' : call w w' → step w w'
  | step_environment w w' : w_db w' = w_db w → step w w'.

Definition initial (w : World) : Prop := w_db w = empty_db.

Definition reachable (w : World) : Prop := ∃ w0, initial w0 ∧ rtc step w0 w.

Lemma reachable_step w w' : reachable w → step w w' → reachable w'.
Proof. intros (w0 & Hi & Hs) Hst. exists w0. split; [done|]. by eapply rtc_r. Qed.

(** ** The invariant *)

Lemma ledger_inv_beside d d' :
  keeps_written d d' → ledger_view d' = ledger_view d → event_view d' = event_view d →
  ledger_inv d → ledger_inv d'.
Proof.
  intros Hk Hl He Hinv. injection Hl as Ea Eb Et Ee Er Ei.
  assert (∀ ev o', outbox_events d' !! ev = Some o' →
            ∃ o, outbox_events d !! ev = Some o ∧ event_core o = event_core o') as Hback.
  { intros ev o' Ho'. assert (event_view d' !! ev = Some (event_core o')) as Hv.
    { unfold event_view. by rewrite lookup_fmap, Ho'. }
    rewrite He in Hv. unfold event_view in Hv. rewrite lookup_fmap in Hv.
    destruct (outbox_events d !! ev) as [o|]; [|done].
    simpl in Hv. injection Hv as ?. exists o. split; [done|]. unfold event_core. congruence. }
  assert (∀ ev o, outbox_events d !! ev = Some o →
            ∃ o', outbox_events d' !! ev = Some o' ∧ event_core o' = event_core o) as Hfwd.
  { intros ev o Ho. assert (event_view d !! ev = Some (event_core o)) as Hv.
    { unfold event_view. by rewrite lookup_fmap, Ho. }
    rewrite <-He in Hv. unfold event_view in Hv. rewrite lookup_fmap in Hv.
    destruct (outbox_events d' !! ev) as [o'|]; [|done].
    simpl in Hv. injection Hv as ?. exists o'. split; [done|]. unfold event_core. congruence. }
  destruct Hinv. split; unfold moved in *; rewrite ?Ea, ?Eb, ?Et, ?Ee, ?Er; try done.
  - auto.
  - intros id t Ht. destruct (li_event id t Ht) as (ev & o & Ho & Ha & Hty).
    destruct (Hfwd ev o Ho) as (o' & Ho' & Hc). injection Hc as _ Ety Eagg _.
    exists ev, o'. by rewrite Eagg, Ety.
  - intros ev o' Ho'. destruct (Hback ev o' Ho') as (o & Ho & Hc). injection Hc as _ _ Eagg _.
    rewrite <-Eagg. by eapply li_event_tx.
  - intros ev1 ev2 o1' o2' id H1 H2 E1 E2.
    destruct (Hback _ _ H1) as (o1 & Ho1 & Hc1). destruct (Hback _ _ H2) as (o2 & Ho2 & Hc2).
    injection Hc1 as _ _ Eagg1 _. injection Hc2 as _ _ Eagg2 _.
    eapply li_event_unique; [exact Ho1|exact Ho2|by rewrite Eagg1|by rewrite Eagg2].
Qed.

Lemma ledger_inv_aside w w' : aside w w' → ledger_inv (w_db w) → ledger_inv (w_db w').
Proof. intros (? & ? & ?). by apply ledger_inv_beside. Qed.

(** A marked key is one accepted statement on a table the ledger's invariant does
    not look at. *)
Lemma marked_written scope key hash d d' : marked_any scope key hash d d' → written d → written d'.
Proof.
  intros Hm Hw. apply marked_fresh in Hm as Hn. apply marked_texts in Hm as Hx. apply marked_row in Hm as (row & _ & _ & Ht & Hc & E).
  assert (exec_dml (InsertIdem (scope, key) row) d = PgOk d') as Hd.
  { simpl. unfold insert_idem, check_idem. simpl. rewrite Hx, Hn, Hc, Ht, E. done. }
  eapply written_raw; [done|by eapply by_one|]. unfold commit_check. rewrite E. simpl. by rewrite drop_all.
Qed.

Lemma ledger_inv_marked scope key hash d d' :
  marked_any scope key hash d d' → ledger_inv d → ledger_inv d'.
Proof.
  intros Hm Hinv. pose proof (marked_written _ _ _ _ _ Hm (li_written _ Hinv)) as Hw.
  apply marked_row in Hm as (row & _ & _ & _ & _ & ->). by destruct Hinv.
Qed.

Lemma action_written cfg d d' : db_action cfg d d' → written d → written d'.
Proof.
  intros [] Hw; try (by refine (respects (R:=writer) _ Hw)); [done|by eapply marked_written].
Qed.

Lemma action_inv `{!UuidLaw} cfg d d' : db_action cfg d d' → ledger_inv d → ledger_inv d'.
Proof.
  intros Ha Hinv. pose proof (action_written _ _ _ Ha (li_written _ Hinv)) as Hw. destruct Ha; [done|..].
  - destruct (CreateAccount_once cfg cmd w) as [->|(_ & _ & (a & (_ & He) & _))]; [done|].
    by eapply account_effect_inv.
  - destruct (Transfer_once cfg ctx cmd w)
      as [->|(_ & _ & Hv & txID & a & (t & _ & He) & _)]; [done|].
    by eapply transfer_effect_inv.
  - destruct (Reverse_once cfg ctx cmd w)
      as [->|(_ & _ & rid & a & (t & _ & He) & _)]; [done|].
    by eapply reversal_effect_inv.
  - by eapply ledger_inv_marked.
Qed.

(** A step is one action of the API, or leaves the ledger aside. *)
Lemma step_cases w w' :
  step w w' → (∃ cfg, db_action cfg (w_db w) (w_db w')) ∨ aside w w'.
Proof.
  intros [w0 w1 Hc|w0 w1 Hd].
  2: { left. exists default_config. rewrite Hd. constructor. }
  destruct Hc as [cfg cmd w0|cfg ctx cmd w0|cfg ctx cmd w0|tid w0|cfg e r w0| | | | |];
    try (by right; apply (respects (R:=aside))); left.
  - exists cfg. apply act_create.
  - exists cfg. apply act_transfer.
  - exists cfg. apply act_reverse.
  - exists cfg. apply serve_action.
Qed.

(** ** History only grows *)

Lemma posted_extends i now txn cid row rows t d d' :
  posted i now txn cid row rows t d d' → extends d d'.
Proof.
  intros Hp. split.
  - exists rows. apply Hp.
  - rewrite (ps_txs _ _ _ _ _ _ _ _ _ Hp). apply insert_subseteq, Hp.
Qed.

Lemma action_extends cfg d d' : db_action cfg d d' → extends d d'.
Proof.
  intros [|cmd w0|ctx cmd w0|ctx cmd w0|scope key hash d0 d1 Hm]; [reflexivity|..].
  - destruct (CreateAccount_once cfg cmd w0) as [->|(_ & _ & (a & (_ & He) & _))]; [reflexivity|].
    destruct He as (now & _ & _ & _ & ->). by apply extends_same.
  - destruct (Transfer_once cfg ctx cmd w0)
      as [->|(_ & _ & _ & txID & a & (t & _ & He) & _)]; [reflexivity|].
    destruct He as (? & ? & ? & ? & ? & ? & ? & ? & _ & _ & _ & Hp & _). by eapply posted_extends.
  - destruct (Reverse_once cfg ctx cmd w0)
      as [->|(_ & _ & rid & a & (t & _ & He) & _)]; [reflexivity|].
    destruct He as (? & ? & ? & ? & ? & ? & ? & ? & _ & _ & _ & _ & ? & _ & Hp & _).
    by eapply posted_extends.
  - apply marked_row in Hm as (row & _ & _ & _ & _ & ->). by apply extends_same.
Qed.

Lemma step_extends w w' : step w w' → extends (w_db w) (w_db w').
Proof.
  intros [[cfg Ha]|(_ & Hl & _)]%step_cases; [by eapply action_extends|].
  injection Hl as _ _ Et Ee _ _. by apply extends_same.
Qed.

Lemma step_written w w' : step w w' → written (w_db w) → written (w_db w').
Proof. intros [[cfg Ha]|Ha]%step_cases; [by eapply action_written|apply Ha]. Qed.

Lemma step_inv `{!UuidLaw} w w' : step w w' → ledger_inv (w_db w) → ledger_inv (w_db w').
Proof. intros [[cfg Ha]|Ha]%step_cases; [by eapply action_inv|by apply ledger_inv_aside]. Qed.

Lemma reachable_inv `{!UuidLaw} w : reachable w → ledger_inv (w_db w).
Proof.
  intros (w0 & Hi & Hs). assert (ledger_inv (w_db w0)) as Hinv.
  { rewrite Hi. apply ledger_inv_empty. }
  clear Hi. induction Hs as [|w1 w2 w3 Hst _ IH]; [done|]. by eapply IH, step_inv.
Qed.
End system.
