(* ===== verification/Demo.v ===== *)
(** A concrete run of the system, on which the theorems are instantiated: two
    accounts, a funding transfer, its reversal; and the same accounts and a
    transfer over the HTTP API. *)
From S2P Require Import Prelude GoStrings GoTime Json Apperr Failpoint Schema SchemaFacts Monad World Storage Idempotency Event Config Cache Outbox LedgerModel Http RateLimit LedgerRepo LedgerService Kafka Publisher Replay Reconciliation Handlers Server Webhook LedgerInvariant System.
Local Open Scope Z_scope.

(** Nothing fails, UUIDs are numbered, and every text is its own [uuid]. *)
Definition demo_ext : Ext := {|
  NewString_nth n := "uuid-" +:+ pretty n;
  uuid_in := Some;
  PgError_Error e := PgMessage e +:+ " (SQLSTATE " +:+ PgCode e +:+ ")";
  stmt_fault _ := None;
  begin_fault _ := None;
  commit_fault _ := None;
  sleep_fault _ := None;
  ctx_fault _ := None;
  publish_fault _ := None;
  redis_fault _ := None;
  http_result _ := inr 200;
  time_error_text _ := "not a time";
  NewRequest_err _ := None;
  jsonb_text := json_text;
  Int63n_nth _ _ := 0;
  Float64_bits _ := 0;
  returning_order _ l := l;
|}.

Definition demo_uuid : @UuidLaw demo_ext.
Proof. by intros s c [= ->]. Defined.

(** The same, but every COMMIT reports a serialization failure although it took
    effect. *)
Definition lost_ack_ext : Ext := {|
  NewString_nth n := "uuid-" +:+ pretty n;
  uuid_in := Some;
  PgError_Error e := PgMessage e;
  stmt_fault _ := None;
  begin_fault _ := None;
  commit_fault n := if (n <? 20)%nat
    then Some (true, EPg (mkPgError "40001" "" "could not serialize access")) else None;
  sleep_fault _ := None;
  ctx_fault _ := None;
  publish_fault _ := None;
  redis_fault _ := None;
  http_result _ := inr 200;
  time_error_text _ := "not a time";
  NewRequest_err _ := None;
  jsonb_text := json_text;
  Int63n_nth _ _ := 0;
  Float64_bits _ := 0;
  returning_order _ l := l;
|}.

Definition demo_world : World :=
  mkWorld empty_db (NewRegistry false) 0 0 1000 0 [] [] [] [] ∅ new_response.

Definition key (k : string) : Idem := mkIdem "scope" k ("hash-" +:+ k).

Definition open_bank := mkCreateAccount "bank" "USD" "system" true None (key "k1").
Definition open_alice := mkCreateAccount "alice" "USD" "user" false None (key "k2").
Definition fund_alice := mkTransfer "bank" "alice" 100 "USD" "funding" "" (key "k3").
Definition overdraw := mkTransfer "alice" "bank" 500 "USD" "" "" (key "k5").

(** A run that succeeds has a result; no need to write it out. *)
Definition is_Ok {A} (o : outcome A) : bool := match o with Ok _ => true | _ => false end.

Lemma run_Ok {A} (r : outcome A * World) : is_Ok r.1 = true → ∃ a, r = (Ok a, r.2).
Proof. destruct r as [[a|e|p] w]; [|done..]. intros _. by exists a. Qed.

Section demo.
Context `{Ext}.
Definition cfg := default_config.
Definition demo1 := (CreateAccount cfg open_bank demo_world).2.
Definition demo2 := (CreateAccount cfg open_alice demo1).2.
Definition demo3 := (Transfer cfg Background fund_alice demo2).2.
(** The funding, reversed. *)
Definition undo_funding :=
  mkReverse (default "" (fst <$> head (map_to_list (ledger_transactions (w_db demo3))))) "oops"
    (key "k4").
Definition demo4 := (Reverse cfg Background undo_funding demo3).2.

Lemma demo_initial : initial demo_world.
Proof. done. Defined.
Lemma demo2_reachable : reachable demo2.
Proof.
  exists demo_world. split; [apply demo_initial|].
  eapply rtc_l; [apply step_call, (call_CreateAccount cfg open_bank)|].
  apply rtc_once. apply step_call, (call_CreateAccount cfg open_alice).
Defined.
Lemma demo3_reachable : reachable demo3.
Proof.
  destruct demo2_reachable as (w0 & Hi & Hs). exists w0. split; [done|].
  eapply rtc_r; [exact Hs|apply step_call, (call_Transfer cfg Background fund_alice)].
Defined.
Lemma demo4_reachable : reachable demo4.
Proof.
  destruct demo3_reachable as (w0 & Hi & Hs). exists w0. split; [done|].
  eapply rtc_r; [exact Hs|apply step_call, (call_Reverse cfg Background undo_funding)].
Defined.
End demo.

(** * Over the HTTP API *)

(** The defaults without a rate limit. *)
Definition api_cfg : Config :=
  load_values (mkEnviron (λ v, if String.eqb v "LEDGER_RATE_LIMIT_ENABLED" then "false" else "")
                 (Some "host") 1) "ledger-api".

(** A POST with an idempotency key and a body. *)
Definition post_request (key : string) (b : list (string * json)) : Request :=
  mkRequest "POST" (λ h, if String.eqb h HeaderIdempotencyKey then key else "") (λ _, "") (λ _, "")
    1 (BodyJSON (JObj b)) "10.0.0.1:4000" Background.

Definition create_bank := post_request "c1"
  [("id", JStr "bank"); ("currency", JStr "USD"); ("kind", JStr "system");
   ("allow_overdraft", JBool true)].
Definition create_alice := post_request "c2" [("id", JStr "alice"); ("currency", JStr "USD")].
Definition pay_alice := post_request "t1"
  [("source_account_id", JStr "bank"); ("destination_account_id", JStr "alice");
   ("amount", JNum 250); ("currency", JStr "USD")].
Definition replay_all := post_request "r1" [("from", JTime 0)].

Section run.
Context `{Ext}.
Definition http1 := (serve api_cfg CreateAccountEndpoint create_bank demo_world).2.
Definition http2 := (serve api_cfg CreateAccountEndpoint create_alice http1).2.
Definition http3 := (serve api_cfg TransferEndpoint pay_alice http2).2.
(** Redis has been emptied. *)
Definition emptied := set_redis ∅ http3.
Definition http5 := (serve api_cfg ReplayEndpoint replay_all http3).2.
End run.
