(* ===== verification/Sessions.v ===== *)
(** The three commands of [internal/ledger/service.go] as sequences of SQL
    statements, and database sessions that run them side by side, one statement
    at a time, at PostgreSQL's default isolation level (READ COMMITTED).

    A statement of a session sees the committed rows and the session's own
    writes; it runs when the locks it takes, and the unique keys it writes, are
    held by no other session.  COMMIT makes the session's rows visible and
    releases its locks. *)
From S2P Require Import Prelude GoStrings Json Apperr Failpoint Schema Monad World Storage Idempotency Event Config Outbox LedgerModel LedgerRepo LedgerService SchemaFacts LedgerFacts LedgerEffects Writers.
Local Open Scope Z_scope.

(** * Programs as sequences of atomic actions *)

Inductive prog (A : Type) : Type :=
  | Done (a : A)
  | Act {X : Type} (m : M X) (k : X → prog A).
Arguments Done {_} a.
Arguments Act {_ _} m k.

Fixpoint prog_bind {A B} (f : A → prog B) (p : prog A) : prog B :=
  match p with
  | Done a => f a
  | Act m k => Act m (λ x, prog_bind f (k x))
  end.

#[export] Instance prog_MRet : MRet prog := λ A a, Done a.
#[export] Instance prog_MBind : MBind prog := λ A B f p, prog_bind f p.

(** One action: a statement, or a step that does not use the database. *)
Definition act {A} (m : M A) : prog A := Act m Done.

(** The actions one after the other, with nothing in between. *)
Fixpoint exec {A} (p : prog A) : M A :=
  match p with
  | Done a => mret a
  | Act m k => m ≫= λ x, exec (k x)
  end.

(** The next action. *)
Definition next {A} (p : prog A) (w : World) : option (outcome (prog A) * World) :=
  match p with
  | Done _ => None
  | Act m k => Some ((x ← m; mret (k x)) w)
  end.

Fixpoint each {A} (f : A → prog unit) (l : list A) : prog unit :=
  match l with
  | [] => mret tt
  | x :: l => f x;; each f l
  end.

(** * The commands, statement by statement *)

Section programs.
Context `{Ext} (cfg : Config).

(** SELECT ... FOR UPDATE: the row is read and locked in one statement. *)
Definition lock_balance (id : string) : M lockedAccount :=
  acct ← map_err (lock_balance_err id) (query_row (select_balance id));
  acquire (RowLock id);;
  mret acct.

Fixpoint lock_steps (ordered : list string) (out : gmap string lockedAccount)
    : prog (gmap string lockedAccount) :=
  match ordered with
  | [] => mret out
  | id :: ordered =>
      match out !! id with
      | Some _ => lock_steps ordered out
      | None => acct ← act (lock_balance id); lock_steps ordered (<[id := acct]> out)
      end
  end.

Definition header_statement (id : string) : M (string * tx_row * option string) :=
  map_err (load_transaction_err id) (query_row (select_transaction id)).

Definition entries_statement (id : string) : M (list Entry) :=
  map_err (λ err, EFmt "ledger: get entries: " (Some err) "") (query (select_entries id)).

Definition load_steps (id : string) : prog Transaction :=
  '(c, t, reversedBy) ← act (header_statement id);
  entries ← act (entries_statement id);
  mret (mkTransaction c (t_kind t) (t_currency t) (t_description t) (t_external_reference t)
          (t_reverses t) reversedBy (t_created_at t) entries).

Definition replay_steps (rec : IdemRecord) (requestHash key : string) : prog Result :=
  if negb (String.eqb (RequestHash rec) requestHash) then act (throw (EApp (Conflict key)))
  else if negb (bool_decide (State rec = CompletedState)) then
    act (throw (EApp (InProgress key)))
  else match ITransactionID rec with
       | None => mret (mkResult None (ResponseStatus rec) (ResponseBody rec) true)
       | Some tid =>
           txn ← load_steps tid;
           mret (mkResult (Some txn) (ResponseStatus rec) (ResponseBody rec) true)
       end.

Definition claim_statement (i : Idem) : M Z :=
  map_err (λ err, EFmt "idempotency: claim: " (Some err) "")
    (sql (sql_claim (IdempotencyScope i) (IdempotencyKey i) (IdemRequestHash i))).

Definition claim_or_replay_steps (i : Idem) (work : prog Result) : prog Result :=
  act (LockKey (IdempotencyScope i) (IdempotencyKey i));;
  rows ← act (claim_statement i);
  if rows =? 1 then work
  else
    rec ← act (Fetch (IdempotencyScope i) (IdempotencyKey i));
    replay_steps rec (IdemRequestHash i) (IdempotencyKey i).

Definition complete_steps (i : Idem) (txID : string) : prog Transaction :=
  stored ← load_steps txID;
  act (Complete (IdempotencyScope i) (IdempotencyKey i) 201 (marshal_Transaction stored)
         (Some txID));;
  mret stored.

Definition entry_statement (e : Entry) : M unit :=
  map_err (insert_entry_err e) (sql (sql_insert_entry e)).

Definition post_steps (ctx : Ctx) (txn : Transaction) : prog unit :=
  act (insertTransaction txn);;
  each (λ e, act (entry_statement e)) (Entries txn);;
  act (ledger_failpoint ctx AfterEntriesWritten);;
  each (λ e, act (applyBalanceDelta (EntAccountID e) (EntAmount e));; mret tt)
    (sortedEntriesByAccount (Entries txn));;
  act (ledger_failpoint ctx AfterBalancesUpdated).

(** The event, the response and its record. *)
Definition finish_steps (ctx : Ctx) (txn : Transaction) (eventType : string) (data : PaymentData)
    (i : Idem) : prog Result :=
  act (writeOutboxEvent cfg ctx txn eventType data);;
  act (ledger_failpoint ctx AfterOutboxWritten);;
  stored ← complete_steps i (TxID txn);
  act (ledger_failpoint ctx BeforeCommit);;
  mret (committed_result stored).

Definition transfer_steps (ctx : Ctx) (txID : string) (cmd : TransferCommand) : prog Result :=
  accts ← lock_steps (sort_Strings [SourceAccountID cmd; DestinationAccountID cmd]) ∅;
  act (ledger_failpoint ctx AfterAccountsLocked);;
  source ← act (deref (accts !! SourceAccountID cmd));
  dest ← act (deref (accts !! DestinationAccountID cmd));
  match check_transfer source dest cmd with
  | Some e => act (throw (EApp e))
  | None =>
      now ← act Now;
      e0 ← act NewString;
      e1 ← act NewString;
      let txn := transfer_transaction txID e0 e1 now source dest cmd in
      post_steps ctx txn;;
      finish_steps ctx txn EventPaymentCreated (transfer_data txn source dest cmd) (TrIdem cmd)
  end.


Definition reverse_steps (ctx : Ctx) (reversalID : string) (cmd : ReverseCommand) : prog Result :=
  original ← load_steps (RvTransactionID cmd);
  match check_reversible original with
  | Some e => act (throw (EApp e))
  | None =>
      accountIDs ← act (listAccountsForTransaction (TxID original));
      lock_steps (sort_Strings accountIDs) ∅;;
      act (ledger_failpoint ctx AfterAccountsLocked);;
      now ← act Now;
      entries ← act (mirror_entries reversalID (Entries original));
      let reversal := reversal_transaction reversalID original (Reason cmd) now entries in
      post_steps ctx reversal;;
      recordID ← act NewString;
      act (insertReversalRecord recordID (TxID original) reversalID (Reason cmd));;
      finish_steps ctx reversal EventPaymentReversed
        (reversal_data reversal original (Reason cmd)) (RvIdem cmd)
  end.

Definition create_steps (cmd : CreateAccountCommand) : prog Result :=
  let metadata := default ∅ (CaMetadata cmd) in
  acct ← act (map_err (insert_account_err (CaID cmd))
    (sql (sql_insert_account (CaID cmd) (CaCurrency cmd) (CaKind cmd) (CaAllowOverdraft cmd)
            metadata)));
  act (map_err (λ err, EFmt "ledger: insert balance: " (Some err) "")
    (sql (sql_insert_balance (CaID cmd) (CaAllowOverdraft cmd))));;
  act (Complete (IdempotencyScope (CaIdem cmd)) (IdempotencyKey (CaIdem cmd)) 201
    (marshal_Account acct) None);;
  mret (mkResult None 201 (Some (marshal_Account acct)) false).
End programs.

(** A command that has been validated and has its transaction's identifier. *)
Inductive command :=
  | CmdCreate (cmd : CreateAccountCommand)
  | CmdTransfer (cfg : Config) (ctx : Ctx) (txID : string) (cmd : TransferCommand)
  | CmdReverse (cfg : Config) (ctx : Ctx) (reversalID : string) (cmd : ReverseCommand).

Definition valid (c : command) : bool :=
  match c with
  | CmdCreate cmd => match ValidateCreateAccount cmd with Some _ => false | None => true end
  | CmdTransfer _ _ _ cmd => match ValidateTransfer cmd with Some _ => false | None => true end
  | CmdReverse _ _ _ cmd => negb (String.eqb (RvTransactionID cmd) "")
  end.

Definition idem_of (c : command) : Idem :=
  match c with
  | CmdCreate cmd => CaIdem cmd
  | CmdTransfer _ _ _ cmd => TrIdem cmd
  | CmdReverse _ _ _ cmd => RvIdem cmd
  end.

(** The closure passed to [InTx], as a whole and statement by statement. *)
Definition closure `{Ext} (c : command) : M Result :=
  match c with
  | CmdCreate cmd => claim_or_replay (CaIdem cmd) (executeCreateAccount cmd)
  | CmdTransfer cfg ctx txID cmd => transfer_closure cfg ctx txID cmd
  | CmdReverse cfg ctx reversalID cmd => reverse_closure cfg ctx reversalID cmd
  end.

Definition program `{Ext} (c : command) : prog Result :=
  match c with
  | CmdCreate cmd => claim_or_replay_steps (CaIdem cmd) (create_steps cmd)
  | CmdTransfer cfg ctx txID cmd =>
      claim_or_replay_steps (TrIdem cmd) (transfer_steps cfg ctx txID cmd)
  | CmdReverse cfg ctx reversalID cmd =>
      claim_or_replay_steps (RvIdem cmd) (reverse_steps cfg ctx reversalID cmd)
  end.

(** * Rows written by a session *)

Fixpoint json_eqb (a b : json) : bool :=
  let fix list_eqb (l1 l2 : list json) : bool :=
    match l1, l2 with
    | [], [] => true
    | x :: l1, y :: l2 => json_eqb x y && list_eqb l1 l2
    | _, _ => false
    end in
  let fix fields_eqb (l1 l2 : list (string * json)) : bool :=
    match l1, l2 with
    | [], [] => true
    | (k1, x) :: l1, (k2, y) :: l2 => String.eqb k1 k2 && json_eqb x y && fields_eqb l1 l2
    | _, _ => false
    end in
  match a, b with
  | JNull, JNull => true
  | JBool x, JBool y => Bool.eqb x y
  | JNum x, JNum y | JTime x, JTime y => x =? y
  | JStr x, JStr y => String.eqb x y
  | JArr l1, JArr l2 => list_eqb l1 l2
  | JObj l1, JObj l2 => fields_eqb l1 l2
  | _, _ => false
  end.

Lemma json_eqb_eq : ∀ a b, json_eqb a b = true ↔ a = b.
Proof.
  fix IH 1. intros a b.
  destruct a as [|x|z|s|t|l|fs], b as [|x'|z'|s'|t'|l'|fs']; simpl;
    try (clear IH; split; congruence || done).
  - clear IH. rewrite Bool.eqb_true_iff. split; congruence.
  - clear IH. rewrite Z.eqb_eq. split; congruence.
  - clear IH. rewrite String.eqb_eq. split; congruence.
  - clear IH. rewrite Z.eqb_eq. split; congruence.
  - trans (l = l'); [|clear IH; split; congruence]. revert l'.
    induction l as [|x l IHl]; intros [|y l']; try (clear; done).
    rewrite andb_true_iff, (IH x), IHl. clear. split; [by intros [-> ->]|by intros [= -> ->]].
  - trans (fs = fs'); [|clear IH; split; congruence]. revert fs'.
    induction fs as [|[k x] l IHl]; intros [|[k' y] l']; try (clear; done).
    rewrite !andb_true_iff, (IH x), IHl, String.eqb_eq. clear.
    split; [by intros [[-> ->] ->]|by intros [= -> -> ->]].
Qed.

#[export] Instance json_eq_dec : EqDecision json.
Proof.
  intros a b. destruct (json_eqb a b) eqn:E; [left|right].
  - by apply json_eqb_eq.
  - intros H%json_eqb_eq. congruence.
Defined.
#[export] Instance account_row_eq_dec : EqDecision account_row.
Proof. solve_decision. Defined.
#[export] Instance balance_row_eq_dec : EqDecision balance_row.
Proof. solve_decision. Defined.
#[export] Instance tx_row_eq_dec : EqDecision tx_row.
Proof. solve_decision. Defined.
#[export] Instance reversal_row_eq_dec : EqDecision reversal_row.
Proof. solve_decision. Defined.
#[export] Instance idem_row_eq_dec : EqDecision idem_row.
Proof. solve_decision. Defined.
#[export] Instance outbox_row_eq_dec : EqDecision outbox_row.
Proof. solve_decision. Defined.
#[export] Instance delivery_row_eq_dec : EqDecision delivery_row.
Proof. solve_decision. Defined.

(** What a session sees: its own rows over the committed ones. *)
Definition lay (own D : DB) : DB :=
  mkDB (accounts own ∪ accounts D) (balances own ∪ balances D)
    (ledger_transactions own ∪ ledger_transactions D) (ledger_entries D ++ ledger_entries own)
    (reversals own ∪ reversals D) (idempotency_records own ∪ idempotency_records D)
    (outbox_events own ∪ outbox_events D) (webhook_deliveries own ∪ webhook_deliveries D).

(** The rows of [v'] that are not those of [v], over [own].  The commands delete
    no rows. *)
Definition changed {K V} `{Countable K, EqDecision V} (own v v' : gmap K V) : gmap K V :=
  filter (λ p, v !! p.1 ≠ Some p.2) v' ∪ own.

(** The session's rows after a statement that turned what it sees from [v] into
    [v']. *)
Definition after (own v v' : DB) : DB :=
  mkDB (changed (accounts own) (accounts v) (accounts v'))
    (changed (balances own) (balances v) (balances v'))
    (changed (ledger_transactions own) (ledger_transactions v) (ledger_transactions v'))
    (ledger_entries own ++ drop (length (ledger_entries v)) (ledger_entries v'))
    (changed (reversals own) (reversals v) (reversals v'))
    (changed (idempotency_records own) (idempotency_records v) (idempotency_records v'))
    (changed (outbox_events own) (outbox_events v) (outbox_events v'))
    (changed (webhook_deliveries own) (webhook_deliveries v) (webhook_deliveries v')).

(** ** Keys that two sessions must not both write *)

Definition apart {K V} `{Countable K} (a b : gmap K V) : bool :=
  bool_decide (map_Forall (λ k _, b !! k = None) a).

(** No row of [a] and row of [b] are related by [clash]. *)
Definition no_clash {K V} `{Countable K} (clash : V → V → bool) (a b : gmap K V) : bool :=
  bool_decide (map_Forall (λ _ x, map_Forall (λ _ y, clash x y = false) b) a).

Definition same_reverses (t u : tx_row) : bool :=
  match t_reverses t, t_reverses u with
  | Some o, Some o' => String.eqb o o'
  | _, _ => false
  end.

Definition same_reversal (r s : reversal_row) : bool :=
  String.eqb (r_original r) (r_original s) || String.eqb (r_reversal r) (r_reversal s).

Definition same_entry (e f : entry_row) : bool :=
  String.eqb (e_id e) (e_id f) || bool_decide (tx_seq e = tx_seq f).

(** A row that would share a primary or unique key with an uncommitted row of
    another session waits for it: so the rows two sessions have written share no
    key. *)
Definition distinct_keys (a b : DB) : bool :=
  apart (accounts a) (accounts b) && apart (balances a) (balances b) &&
  apart (ledger_transactions a) (ledger_transactions b) &&
  no_clash same_reverses (ledger_transactions a) (ledger_transactions b) &&
  forallb (λ e, forallb (λ f, negb (same_entry e f)) (ledger_entries b)) (ledger_entries a) &&
  apart (reversals a) (reversals b) && no_clash same_reversal (reversals a) (reversals b) &&
  apart (idempotency_records a) (idempotency_records b) &&
  apart (outbox_events a) (outbox_events b).

(** * Sessions *)

(** A session and its process: the command, the process's state at BEGIN and now,
    the rows written, and the rest of the program.  The [w_db] of a process is what
    its last statement left it with; statements are given what the session sees. *)
Record session := mkSession {
  s_command : command;
  s_start : World;
  s_own : DB;
  s_world : World;
  s_prog : prog Result;
}.

Definition sees (s : session) (D : DB) : World := set_db (lay (s_own s) D) (s_world s).

(** Another session does not stand in the way. *)
Definition compatible (s s2 : session) : bool :=
  forallb (λ l, bool_decide (l ∉ w_locks (s_world s2))) (w_locks (s_world s)) &&
  distinct_keys (s_own s) (s_own s2).

(** The committed database, the open sessions, and the answers of the committed
    ones, oldest first. *)
Record cluster := mkCluster {
  committed : DB;
  sessions : gmap nat session;
  answered : list (command * Result);
}.

Section steps.
Context `{Ext}.

(** [runOnce] up to the call of the closure. *)
Definition begin_tx (w : World) : World := set_txnow (w_clock w) (set_locks [] w).

Definition new_session (c : command) (w : World) : session :=
  mkSession c (begin_tx w) empty_db (begin_tx w) (program c).

(** The session after its next action, when that succeeds. *)
Definition advance (s : session) (D : DB) : option session :=
  match next (s_prog s) (sees s D) with
  | Some (Ok p, w') =>
      Some (mkSession (s_command s) (s_start s)
              (after (s_own s) (lay (s_own s) D) (w_db w')) w' p)
  | _ => None
  end.

Definition free (i : nat) (s : session) (ss : gmap nat session) : Prop :=
  map_Forall (λ _ s2, compatible s s2 = true) (delete i ss).

Inductive cstep : cluster → cluster → Prop :=
  | cstep_begin i c w D ss l :
      ss !! i = None → valid c = true →
      cstep (mkCluster D ss l) (mkCluster D (<[i := new_session c w]> ss) l)
  | cstep_statement i s s' D ss l :
      ss !! i = Some s → advance s D = Some s' → free i s' ss →
      cstep (mkCluster D ss l) (mkCluster D (<[i := s']> ss) l)
  (** an error, a panic, a lost connection, a deadlock, a lock timeout *)
  | cstep_rollback i D ss l :
      cstep (mkCluster D ss l) (mkCluster D (delete i ss) l)
  | cstep_commit i s res D ss l :
      ss !! i = Some s → s_prog s = Done res →
      commit_check D (lay (s_own s) D) = PgOk tt →
      cstep (mkCluster D ss l)
            (mkCluster (lay (s_own s) D) (delete i ss) (l ++ [(s_command s, res)]))
  (** a statement of a worker, on the pool *)
  | cstep_worker D D' ss l :
      aside_db D D' → cstep (mkCluster D ss l) (mkCluster D' ss l).

(** ** A schedule, executed *)

Inductive event :=
  | Begin (i : nat) (c : command) (w : World)
  | Run (i : nat)
  | Rollback (i : nat)
  | Commit (i : nat).

(** [None] when the event is not possible: the session waits, or has failed. *)
Definition perform (e : event) (c : cluster) : option cluster :=
  let '(mkCluster D ss l) := c in
  match e with
  | Begin i cmd w =>
      if bool_decide (ss !! i = None) && valid cmd
      then Some (mkCluster D (<[i := new_session cmd w]> ss) l) else None
  | Run i =>
      s ← ss !! i;
      s' ← advance s D;
      if bool_decide (free i s' ss) then Some (mkCluster D (<[i := s']> ss) l) else None
  | Rollback i => Some (mkCluster D (delete i ss) l)
  | Commit i =>
      s ← ss !! i;
      match s_prog s, commit_check D (lay (s_own s) D) with
      | Done res, PgOk _ =>
          Some (mkCluster (lay (s_own s) D) (delete i ss) (l ++ [(s_command s, res)]))
      | _, _ => None
      end
  end.

Fixpoint schedule (es : list event) (c : cluster) : option cluster :=
  match es with
  | [] => Some c
  | e :: es => c' ← perform e c; schedule es c'
  end.

(** ** Commands one at a time *)

(** The closure run alone, from BEGIN to COMMIT. *)
Definition runs_alone (c : command) (D : DB) (res : Result) (D' : DB) : Prop :=
  ∃ w w', w_db w = D ∧ w_locks w = [] ∧ closure c w = (Ok res, w') ∧ w_db w' = D' ∧
    commit_check D D' = PgOk tt.

Inductive serial : DB → list (command * Result) → DB → Prop :=
  | serial_nil D : serial D [] D
  | serial_command D l D1 c res D2 :
      serial D l D1 → valid c = true → runs_alone c D1 res D2 →
      serial D (l ++ [(c, res)]) D2
  (** a replay of the record the database holds: nothing is written *)
  | serial_replay D l D1 c res :
      serial D l D1 → valid c = true → replayed (idem_of c) res D1 → serial D (l ++ [(c, res)]) D1
  | serial_worker D l D1 D2 :
      serial D l D1 → aside_db D1 D2 → serial D l D2.

Definition no_sessions (D : DB) : cluster := mkCluster D ∅ [].
End steps.
