(* ===== verification/SessionFacts.v ===== *)
(** Facts on sessions: run without interruption, the programs of [Sessions] are
    the closures of the commands; what a session relies on while others commit,
    what it keeps of its own rows, and that its statements do the same on every
    database it may find. *)
From S2P Require Import Prelude GoStrings Json Apperr Failpoint Schema SchemaFacts Monad World Storage Idempotency Event Config Outbox LedgerModel LedgerRepo LedgerService LedgerFacts LedgerEffects Writers Sessions.
Local Open Scope Z_scope.

(** * The programs are the closures *)

Definition same_run {A} (m m' : M A) : Prop := ∀ w, m w = m' w.

Lemma bind_same {A B} (m m' : M A) (f f' : A → M B) :
  same_run m m' → (∀ a, same_run (f a) (f' a)) → same_run (m ≫= f) (m' ≫= f').
Proof.
  intros Hm Hf w. unfold mbind, ST_bind. rewrite (Hm w).
  destruct (m' w) as [[a|e|p] w1]; [apply Hf|done..].
Qed.

Lemma bind_assoc {A B C} (m : M A) (f : A → M B) (g : B → M C) :
  same_run ((m ≫= f) ≫= g) (m ≫= λ x, f x ≫= g).
Proof. intros w. unfold mbind, ST_bind. by destruct (m w) as [[] ?]. Qed.

Lemma bind_ret {A} (m : M A) : same_run (m ≫= λ x, mret x) m.
Proof. intros w. unfold mbind, ST_bind, mret, ST_ret. by destruct (m w) as [[] ?]. Qed.

Lemma same_run_trans {A} (m1 m2 m3 : M A) : same_run m1 m2 → same_run m2 m3 → same_run m1 m3.
Proof. intros H1 H2 w. by rewrite H1. Qed.

Lemma same_run_sym {A} (m1 m2 : M A) : same_run m1 m2 → same_run m2 m1.
Proof. intros H1 w. by rewrite H1. Qed.

Lemma exec_act {A} (m : M A) : same_run (exec (act m)) m.
Proof. apply bind_ret. Qed.

Lemma exec_bind {A B} (p : prog A) (f : A → prog B) :
  same_run (exec (p ≫= f)) (exec p ≫= λ a, exec (f a)).
Proof.
  induction p as [a|X m k IH]; [done|]. simpl. eapply same_run_trans.
  - apply bind_same; [done|exact IH].
  - apply same_run_sym, bind_assoc.
Qed.

(** The program [p] runs as [m]. *)
Definition performs {A} (p : prog A) (m : M A) : Prop := same_run (exec p) m.

Lemma performs_act {A} (m : M A) : performs (act m) m.
Proof. apply exec_act. Qed.

Lemma performs_ret {A} (a : A) : performs (mret a) (mret a).
Proof. done. Qed.

Lemma performs_bind {A B} (p : prog A) (f : A → prog B) m g :
  performs p m → (∀ a, performs (f a) (g a)) → performs (p ≫= f) (m ≫= g).
Proof.
  intros Hp Hf. eapply same_run_trans; [apply exec_bind|]. by apply bind_same.
Qed.

(** The monad laws under a sequence of binds. *)
Lemma performs_assoc {A B C} (p : prog C) (m : M A) (f : A → M B) (g : B → M C) :
  performs p (m ≫= λ x, f x ≫= g) → performs p ((m ≫= f) ≫= g).
Proof. intros Hp. eapply same_run_trans; [exact Hp|]. apply same_run_sym, bind_assoc. Qed.

Lemma performs_each {A} (f : A → prog unit) (g : A → M unit) l :
  (∀ x, performs (f x) (g x)) → performs (each f l) (for_each g l).
Proof. intros Hf. induction l; simpl; [done|]. by apply performs_bind. Qed.

Create HintDb performs.
#[export] Hint Resolve performs_act performs_ret : performs.

(** Follow the binds of both sides. *)
Ltac performs_tac :=
  repeat (intros; cbv zeta; first
    [ solve [eauto with performs]
    | apply performs_bind
    | apply performs_each
    | apply performs_assoc
    | case_match ]).

Section performs.
Context `{Ext} (cfg : Config).

Lemma performs_lock ordered out : performs (lock_steps ordered out) (lock_ordered ordered out).
Proof.
  revert out. induction ordered as [|id ordered IH]; intros out; simpl; [done|].
  destruct (out !! id); [apply IH|].
  eapply same_run_trans; [eapply (bind_same (lock_balance id)); [done|intros acct; apply IH]|].
  unfold lock_balance. eapply same_run_trans; [apply bind_assoc|].
  apply bind_same; [done|]. intros acct. apply bind_assoc.
Qed.

Lemma performs_load id : performs (load_steps id) (loadTransaction id).
Proof. unfold load_steps, loadTransaction. performs_tac. Qed.

Lemma performs_replay rec h k : performs (replay_steps rec h k) (replayResult rec h k).
Proof.
  unfold replay_steps, replayResult. repeat case_match; auto with performs.
  apply performs_bind; [apply performs_load|auto with performs].
Qed.

Lemma performs_claim i work m :
  performs work m → performs (claim_or_replay_steps i work) (claim_or_replay i m).
Proof.
  intros Hw. unfold claim_or_replay_steps, claim_or_replay, Claim.
  apply performs_bind; [auto with performs|]. intros _. apply performs_assoc.
  apply performs_bind; [auto with performs|]. intros rows. case_match; [exact Hw|].
  apply performs_assoc, performs_bind; [auto with performs|]. intros rec. apply performs_replay.
Qed.

Lemma performs_complete i id : performs (complete_steps i id) (complete_transaction i id).
Proof.
  unfold complete_steps, complete_transaction.
  apply performs_bind; [apply performs_load|]. performs_tac.
Qed.

Lemma performs_post ctx txn : performs (post_steps ctx txn) (post_entries ctx txn).
Proof. unfold post_steps, post_entries, insertEntries. performs_tac. Qed.

Lemma performs_finish ctx txn ty data i :
  performs (finish_steps cfg ctx txn ty data i)
    (writeOutboxEvent cfg ctx txn ty data;;
     ledger_failpoint ctx AfterOutboxWritten;;
     stored ← complete_transaction i (TxID txn);
     ledger_failpoint ctx BeforeCommit;;
     mret (committed_result stored)).
Proof.
  unfold finish_steps. do 2 (apply performs_bind; [auto with performs|intros _]).
  apply performs_bind; [apply performs_complete|]. performs_tac.
Qed.

Hint Resolve performs_lock performs_load performs_post performs_finish : performs.

Lemma performs_transfer ctx txID cmd :
  performs (transfer_steps cfg ctx txID cmd) (executeTransfer cfg ctx txID cmd).
Proof. unfold transfer_steps, executeTransfer, lockBalances. performs_tac. Qed.

Lemma performs_reverse ctx rid cmd :
  performs (reverse_steps cfg ctx rid cmd) (executeReverse cfg ctx rid cmd).
Proof. unfold reverse_steps, executeReverse, lockBalances. performs_tac. Qed.

Lemma performs_create cmd : performs (create_steps cmd) (executeCreateAccount cmd).
Proof. unfold create_steps, executeCreateAccount. performs_tac. Qed.

End performs.

Section program.
Context `{Ext}.

(** Statement by statement, without interruption, is the closure. *)
Lemma program_performs c w : exec (program c) w = closure c w.
Proof.
  destruct c; apply performs_claim;
    [apply performs_create|apply performs_transfer|apply performs_reverse].
Qed.
End program.

(** * Rows over rows *)

Section changed.
Context {K V : Type} `{Countable K, EqDecision V}.
Implicit Types own v : gmap K V.

Lemma changed_same own v : changed own v v = own.
Proof.
  unfold changed. apply map_eq. intros k. rewrite lookup_union.
  destruct (filter _ v !! k) as [x|] eqn:E; [|by destruct (own !! k)].
  by apply map_lookup_filter_Some in E as [E []].
Qed.

Lemma changed_insert own v k r :
  v !! k ≠ Some r → changed own v (<[k := r]> v) = <[k := r]> own.
Proof.
  intros Hne. unfold changed. apply map_eq. intros j. rewrite lookup_union.
  destruct (decide (j = k)) as [->|Hj].
  - rewrite lookup_insert_eq. replace (filter _ _ !! k) with (Some r); [by destruct (own !! k)|].
    symmetry. apply map_lookup_filter_Some. by rewrite lookup_insert_eq.
  - rewrite (lookup_insert_ne own) by done.
    destruct (filter _ _ !! j) as [x|] eqn:E; [|by destruct (own !! j)].
    apply map_lookup_filter_Some in E as [E []]. by rewrite lookup_insert_ne in E.
Qed.

Lemma changed_stale own v k r : v !! k = Some r → changed own v (<[k := r]> v) = own.
Proof. intros E. rewrite insert_id by done. apply changed_same. Qed.
End changed.

Lemma after_same own v : after own v v = own.
Proof.
  unfold after. rewrite !changed_same, drop_all, app_nil_r. by destruct own.
Qed.

(** A statement writes one row, which is new to the session's view. *)
Ltac after_tac :=
  intros; unfold after; simpl;
  rewrite ?changed_same, ?changed_insert, ?drop_all, ?app_nil_r by done; try done.

Section after.
Implicit Types own v : DB.

Lemma after_accounts own v id r :
  accounts v !! id ≠ Some r →
  after own v (set_accounts (<[id := r]> (accounts v)) v) =
    set_accounts (<[id := r]> (accounts own)) own.
Proof. after_tac. Qed.
Lemma after_balances own v id r :
  balances v !! id ≠ Some r →
  after own v (set_balances (<[id := r]> (balances v)) v) =
    set_balances (<[id := r]> (balances own)) own.
Proof. after_tac. Qed.
Lemma after_txs own v id r :
  ledger_transactions v !! id ≠ Some r →
  after own v (set_transactions (<[id := r]> (ledger_transactions v)) v) =
    set_transactions (<[id := r]> (ledger_transactions own)) own.
Proof. after_tac. Qed.
Lemma after_reversals own v id r :
  reversals v !! id ≠ Some r →
  after own v (set_reversals (<[id := r]> (reversals v)) v) =
    set_reversals (<[id := r]> (reversals own)) own.
Proof. after_tac. Qed.
Lemma after_idem own v k r :
  idempotency_records v !! k ≠ Some r →
  after own v (set_idem (<[k := r]> (idempotency_records v)) v) =
    set_idem (<[k := r]> (idempotency_records own)) own.
Proof. after_tac. Qed.
Lemma after_outbox own v id r :
  outbox_events v !! id ≠ Some r →
  after own v (set_outbox (<[id := r]> (outbox_events v)) v) =
    set_outbox (<[id := r]> (outbox_events own)) own.
Proof. after_tac. Qed.
Lemma after_entries own v e :
  after own v (set_entries (ledger_entries v ++ [e]) v) =
    set_entries (ledger_entries own ++ [e]) own.
Proof. after_tac. by rewrite drop_app_length. Qed.
End after.

Lemma lay_empty D : lay empty_db D = D.
Proof. unfold lay. simpl. rewrite !(left_id_L ∅ (∪)), app_nil_r. by destruct D. Qed.

(** * What a session relies on *)

(** No committed transaction reverses this one. *)
Definition unreversed (rev : option string) (D : DB) : Prop :=
  ∀ o id t, rev = Some o → ledger_transactions D !! id = Some t → t_reverses t ≠ Some o.

(** While a session with rows [own] and locks [L] is open, others change the
    committed database from [D] to [D'] only so: rows are added, those it has
    locked stay as they are, and nothing takes a key it has written. *)
Record rely (own : DB) (L : list lock) (D D' : DB) : Prop := {
  rl_accounts : accounts D ⊆ accounts D';
  rl_own_accounts : ∀ id, is_Some (accounts own !! id) → accounts D' !! id = accounts D !! id;
  rl_balances : ∀ id, RowLock id ∈ L ∨ is_Some (balances own !! id) →
    balances D' !! id = balances D !! id;
  rl_txs : ledger_transactions D ⊆ ledger_transactions D';
  rl_own_txs : ∀ id, is_Some (ledger_transactions own !! id) →
    ledger_transactions D' !! id = ledger_transactions D !! id;
  rl_reverses : ∀ o id t,
    is_Some (ledger_transactions own !! o) ∨
      (∃ j u, ledger_transactions own !! j = Some u ∧ t_reverses u = Some o) →
    ledger_transactions D' !! id = Some t → t_reverses t = Some o →
    ledger_transactions D !! id = Some t;
  rl_entries : ∃ new, ledger_entries D' = ledger_entries D ++ new ∧
    ∀ e, e ∈ new → ledger_transactions D !! e_transaction_id e = None ∧
      ledger_transactions own !! e_transaction_id e = None ∧
      e_id e ∉ e_id <$> ledger_entries own;
  rl_own_reversals : ∀ id, is_Some (reversals own !! id) → reversals D' !! id = reversals D !! id;
  rl_reversals : ∀ j s id r, reversals own !! j = Some s → reversals D' !! id = Some r →
    reversals D !! id = Some r ∨ same_reversal s r = false;
  rl_idem : ∀ s k, AdvisoryLock (advisory_key s k) ∈ L →
    idempotency_records D' !! (s, k) = idempotency_records D !! (s, k);
  rl_outbox : ∀ id, is_Some (outbox_events own !! id) → outbox_events D !! id = None →
    outbox_events D' !! id = None;
}.

Lemma rely_refl own L D : rely own L D D.
Proof.
  split; eauto. exists []. rewrite app_nil_r. split; [done|]. by intros e ?%not_elem_of_nil.
Qed.

Lemma rely_trans own L D1 D2 D3 : rely own L D1 D2 → rely own L D2 D3 → rely own L D1 D3.
Proof.
  intros R1 R2. split.
  - etrans; [apply R1|apply R2].
  - intros id Hid. rewrite (rl_own_accounts _ _ _ _ R2), (rl_own_accounts _ _ _ _ R1) by done. done.
  - intros id Hid. rewrite (rl_balances _ _ _ _ R2), (rl_balances _ _ _ _ R1) by done. done.
  - etrans; [apply R1|apply R2].
  - intros id Hid. rewrite (rl_own_txs _ _ _ _ R2), (rl_own_txs _ _ _ _ R1) by done. done.
  - intros o id t Ho Ht Hr. eapply (rl_reverses _ _ _ _ R1); [exact Ho| |exact Hr].
    by eapply (rl_reverses _ _ _ _ R2).
  - destruct (rl_entries _ _ _ _ R1) as (n1 & E1 & H1). destruct (rl_entries _ _ _ _ R2) as (n2 & E2 & H2).
    exists (n1 ++ n2). rewrite E2, E1, app_assoc. split; [done|].
    intros e [He|He]%elem_of_app; [by apply H1|]. destruct (H2 e He) as (Hd & Ho & Hi).
    split_and!; [|done..]. by eapply lookup_weaken_None, R1.
  - intros id Hid. rewrite (rl_own_reversals _ _ _ _ R2), (rl_own_reversals _ _ _ _ R1) by done. done.
  - intros j s id r Hj Hr. destruct (rl_reversals _ _ _ _ R2 j s id r Hj Hr) as [Hr'|]; [|by right].
    by eapply (rl_reversals _ _ _ _ R1).
  - intros s k Hk. rewrite (rl_idem _ _ _ _ R2), (rl_idem _ _ _ _ R1) by done. done.
  - intros id Hid Hn. apply (rl_outbox _ _ _ _ R2); [done|]. by apply (rl_outbox _ _ _ _ R1).
Qed.

(** A session only adds to its rows and locks. *)
Record own_le (own own' : DB) : Prop := {
  ole_accounts : ∀ id, is_Some (accounts own !! id) → is_Some (accounts own' !! id);
  ole_balances : ∀ id, is_Some (balances own !! id) → is_Some (balances own' !! id);
  ole_txs : ledger_transactions own ⊆ ledger_transactions own';
  ole_entries : ledger_entries own `prefix_of` ledger_entries own';
  ole_reversals : reversals own ⊆ reversals own';
  ole_outbox : ∀ id, is_Some (outbox_events own !! id) → is_Some (outbox_events own' !! id);
}.

#[export] Instance own_le_refl : Reflexive own_le.
Proof. by split. Qed.

Lemma rely_weaken own own' L L' D D' :
  own_le own own' → (∀ l, l ∈ L → l ∈ L') → rely own' L' D D' → rely own L D D'.
Proof.
  intros Ho Hl R. split.
  - apply R.
  - intros id Hid. apply R. by apply Ho.
  - intros id Hid. apply R. destruct Hid as [Hid|Hid]; [left; auto|right; by apply Ho].
  - apply R.
  - intros id [t Ht]. apply R. exists t. by eapply lookup_weaken, Ho.
  - intros o id t Hr. apply R. destruct Hr as [[x Hx]|(j & u & Hj & Hu)].
    + left. exists x. by eapply lookup_weaken, Ho.
    + right. exists j, u. split; [by eapply lookup_weaken, Ho|done].
  - destruct (rl_entries _ _ _ _ R) as (new & E & Hnew). exists new. split; [done|].
    intros e He. destruct (Hnew e He) as (Hd & Hn & Hi). split_and!; [done| |].
    + by eapply lookup_weaken_None, Ho.
    + destruct (ole_entries _ _ Ho) as [k Ek]. rewrite Ek, fmap_app, not_elem_of_app in Hi. apply Hi.
  - intros id [r Hr]. apply R. exists r. by eapply lookup_weaken, Ho.
  - intros j s id r Hj. apply R with j. by eapply lookup_weaken, Ho.
  - intros s k Hk. apply R. auto.
  - intros id Hid. apply R. by apply Ho.
Qed.

(** ** What a session keeps of its own rows *)

(** What the argument knows of a session: its rows, its locks, what is still
    assumed of the committed database, and transactions it has seen there. *)
Record held := mkHeld {
  h_own : DB;
  h_locks : list lock;
  h_pending : DB → Prop;
  h_seen : list string;
}.

Record tidy (h : held) (D : DB) : Prop := {
  td_accounts : ∀ id, is_Some (accounts (h_own h) !! id) → accounts D !! id = None;
  td_balances : ∀ id, is_Some (balances (h_own h) !! id) →
    RowLock id ∈ h_locks h ∨ balances D !! id = None;
  td_txs : ∀ id, is_Some (ledger_transactions (h_own h) !! id) →
    ledger_transactions D !! id = None;
  td_reverses : ∀ id t o, ledger_transactions (h_own h) !! id = Some t → t_reverses t = Some o →
    is_Some (ledger_transactions (h_own h) !! o) ∨ is_Some (ledger_transactions D !! o);
  td_entries : ∀ e, e ∈ ledger_entries (h_own h) →
    is_Some (ledger_transactions (h_own h) !! e_transaction_id e);
  td_reversals : ∀ id, is_Some (reversals (h_own h) !! id) → reversals D !! id = None;
  td_idem : ∀ s k, is_Some (idempotency_records (h_own h) !! (s, k)) →
    AdvisoryLock (advisory_key s k) ∈ h_locks h;
  td_outbox : ∀ id, is_Some (outbox_events (h_own h) !! id) → outbox_events D !! id = None;
  td_locked : ∀ id, RowLock id ∈ h_locks h →
    is_Some (balances (h_own h) !! id) ∨ is_Some (balances D !! id);
  td_seen : ∀ c, c ∈ h_seen h → is_Some (ledger_transactions D !! c);
}.

Definition held_rely (h : held) : DB → DB → Prop := rely (h_own h) (h_locks h).

(** It stays so while others commit. *)
Lemma tidy_stable h D D' : held_rely h D D' → tidy h D → tidy h D'.
Proof.
  intros R T. unfold held_rely in R. split.
  - intros id Hid. rewrite (rl_own_accounts _ _ _ _ R) by done. by apply T.
  - intros id Hid. rewrite (rl_balances _ _ _ _ R) by (by right). by apply T.
  - intros id Hid. rewrite (rl_own_txs _ _ _ _ R) by done. by apply T.
  - intros id t o Ht Ho. destruct (td_reverses _ _ T id t o Ht Ho) as [|[x Hx]]; [by left|right].
    exists x. by eapply lookup_weaken, R.
  - apply T.
  - intros id Hid. rewrite (rl_own_reversals _ _ _ _ R) by done. by apply T.
  - apply T.
  - intros id Hid. apply R; [done|]. by apply T.
  - intros id Hid. rewrite (rl_balances _ _ _ _ R) by (by left). by apply T.
  - intros c Hc. destruct (td_seen _ _ T c Hc) as [x Hx]. exists x. by eapply lookup_weaken, R.
Qed.

(** ** Sessions that do not clash keep what each relies on *)

Lemma apart_spec {K V} `{Countable K} (a b : gmap K V) k :
  apart a b = true → is_Some (a !! k) → b !! k = None.
Proof. intros Ha%bool_decide_eq_true [x Hx]. by eapply Ha. Qed.

Lemma no_clash_spec {K V} `{Countable K} (clash : V → V → bool) (a b : gmap K V) i j x y :
  no_clash clash a b = true → a !! i = Some x → b !! j = Some y → clash x y = false.
Proof. intros Ha%bool_decide_eq_true Hx Hy. exact (Ha i x Hx j y Hy). Qed.

Record keys_apart (a b : DB) : Prop := {
  ka_accounts : ∀ id, is_Some (accounts a !! id) → accounts b !! id = None;
  ka_balances : ∀ id, is_Some (balances a !! id) → balances b !! id = None;
  ka_txs : ∀ id, is_Some (ledger_transactions a !! id) → ledger_transactions b !! id = None;
  ka_reverses : ∀ i j t u, ledger_transactions a !! i = Some t →
    ledger_transactions b !! j = Some u → same_reverses t u = false;
  ka_entries : ∀ e f, e ∈ ledger_entries a → f ∈ ledger_entries b → e_id e ≠ e_id f;
  ka_reversals : ∀ id, is_Some (reversals a !! id) → reversals b !! id = None;
  ka_reversal_rows : ∀ i j r s, reversals a !! i = Some r → reversals b !! j = Some s →
    same_reversal r s = false;
  ka_idem : ∀ k, is_Some (idempotency_records a !! k) → idempotency_records b !! k = None;
  ka_outbox : ∀ id, is_Some (outbox_events a !! id) → outbox_events b !! id = None;
}.

Lemma distinct_keys_apart a b : distinct_keys a b = true → keys_apart a b.
Proof.
  unfold distinct_keys. rewrite !andb_true_iff.
  intros [[[[[[[[Ha Hb] Ht] Hr] He] Hv] Hw] Hi] Ho]. split.
  - intros id. by apply apart_spec.
  - intros id. by apply apart_spec.
  - intros id. by apply apart_spec.
  - intros i j t u. by apply no_clash_spec.
  - intros e f Hea Hfb E. rewrite forallb_forall in He. specialize (He e).
    rewrite <-list_elem_of_In, forallb_forall in He. specialize (He Hea f).
    rewrite <-list_elem_of_In in He. specialize (He Hfb). unfold same_entry in He.
    by rewrite E, String.eqb_refl in He.
  - intros id. by apply apart_spec.
  - intros i j r s. by apply no_clash_spec.
  - intros k. by apply apart_spec.
  - intros id. by apply apart_spec.
Qed.

Lemma same_reverses_true t u o :
  t_reverses t = Some o → t_reverses u = Some o → same_reverses t u = true.
Proof. unfold same_reverses. intros -> ->. apply String.eqb_refl. Qed.

Lemma same_reversal_sym r s : same_reversal r s = same_reversal s r.
Proof. unfold same_reversal. by rewrite (String.eqb_sym (r_original r)), (String.eqb_sym (r_reversal r)). Qed.

Lemma keys_apart_sym a b : keys_apart a b → keys_apart b a.
Proof.
  assert (∀ (A : Type) (x y : option A), (is_Some x → y = None) → is_Some y → x = None) as Hflip.
  { intros A [x|] y Hxy Hs; [|done]. rewrite Hxy in Hs by eauto. by destruct Hs. }
  intros Ha. split; try (intros k; apply Hflip, Ha).
  - intros i j t u Ht Hu. pose proof (ka_reverses _ _ Ha j i u t Hu Ht) as Hc.
    unfold same_reverses in *. destruct (t_reverses t), (t_reverses u); try done.
    by rewrite String.eqb_sym.
  - intros e f He Hf E. symmetry in E. by eapply (ka_entries _ _ Ha).
  - intros i j r s Hr Hs. rewrite same_reversal_sym. by eapply (ka_reversal_rows _ _ Ha).
Qed.

Lemma union_fresh {K V} `{Countable K} (a b : gmap K V) :
  (∀ k, is_Some (a !! k) → b !! k = None) → b ⊆ a ∪ b.
Proof.
  intros Hf. apply map_union_subseteq_r'; [|done]. apply map_disjoint_spec.
  intros k x y Hx Hy. rewrite (Hf k) in Hy; [done|eauto].
Qed.

(** A commit of another session. *)
Lemma commit_rely h h2 D :
  tidy h D → tidy h2 D → keys_apart (h_own h) (h_own h2) →
  (∀ l, l ∈ h_locks h → l ∉ h_locks h2) → held_rely h D (lay (h_own h2) D).
Proof.
  intros T T2 Ha Hl. unfold held_rely.
  split; simpl.
  - apply union_fresh. intros id. apply T2.
  - intros id Hid. apply lookup_union_r. by apply Ha.
  - intros id Hid. apply lookup_union_r. destruct Hid as [Hid|Hid]; [|by apply Ha].
    apply eq_None_not_Some. intros Hs. destruct (td_balances _ _ T2 id Hs) as [Hin|Hn].
    { by apply (Hl _ Hid). }
    destruct (td_locked _ _ T id Hid) as [Ho|[x Hx]]; [|congruence].
    rewrite (ka_balances _ _ Ha id Ho) in Hs. by destruct Hs.
  - apply union_fresh. intros id. apply T2.
  - intros id Hid. apply lookup_union_r. by apply Ha.
  - intros o id t Ho Ht Hr. apply lookup_union_Some_raw in Ht as [Ht|[_ Ht]]; [|done]. exfalso.
    destruct Ho as [Ho|(j & u & Hu & Ho)].
    + destruct (td_reverses _ _ T2 id t o Ht Hr) as [Hs|[x Hx]].
      * rewrite (ka_txs _ _ Ha o Ho) in Hs. by destruct Hs.
      * by rewrite (td_txs _ _ T o Ho) in Hx.
    + pose proof (ka_reverses _ _ Ha j id u t Hu Ht) as Hc.
      by rewrite (same_reverses_true u t o) in Hc.
  - exists (ledger_entries (h_own h2)). split; [done|]. intros e He.
    pose proof (td_entries _ _ T2 e He) as Htx. split_and!.
    + by apply T2.
    + apply eq_None_not_Some. intros Hs. rewrite (ka_txs _ _ Ha _ Hs) in Htx. by destruct Htx.
    + rewrite list_elem_of_fmap. intros (f & E & Hf). by apply (ka_entries _ _ Ha f e).
  - intros id Hid. apply lookup_union_r. by apply Ha.
  - intros j s id r Hs Hr. apply lookup_union_Some_raw in Hr as [Hr|[_ Hr]]; [right|by left].
    by eapply (ka_reversal_rows _ _ Ha).
  - intros s k Hk. apply lookup_union_r. apply eq_None_not_Some. intros Hs%(td_idem _ _ T2).
    by apply (Hl _ Hk).
  - intros id Hid Hn. rewrite lookup_union_r; [done|]. by apply Ha.
Qed.

(** A statement of a worker. *)
Lemma aside_rely own L D D' : aside_db D D' → rely own L D D'.
Proof.
  intros (_ & Hl & He). injection Hl as Ea Eb Et Ee Er Ei.
  split; rewrite ?Ea, ?Eb, ?Et, ?Ee, ?Er, ?Ei; eauto.
  - exists []. rewrite app_nil_r. split; [done|]. by intros e ?%not_elem_of_nil.
  - intros id _ Hn. assert (event_view D' !! id = event_view D !! id) as Hv by (by rewrite He).
    unfold event_view in Hv. rewrite !lookup_fmap, Hn in Hv. by destruct (outbox_events D' !! id).
Qed.
