(* ===== verification/SessionStatements.v ===== *)
(** What each action of a command does in an open session: it keeps the session's
    rows in order, and it does the same on every committed database the session
    may find instead ([act_ok]). *)
From S2P Require Import Prelude GoStrings Json Apperr Failpoint Schema SchemaFacts Monad World Storage Idempotency Event Config Outbox LedgerModel LedgerRepo LedgerService LedgerFacts LedgerEffects Writers Sessions SessionFacts.
Local Open Scope Z_scope.

Definition assertion : Type := held → Prop.

Definition same_locks (a b : list lock) : Prop := ∀ l, l ∈ a ↔ l ∈ b.

(** The statement [f], given a session in [P] that will also hold [ls], leaves it
    in [Q]; [j] picks the results the code goes on with. *)
Definition stmt_ok {X Y} (j : Y → X) (P : assertion) (ls : list lock)
    (f : Z → DB → pg (X * DB)) (Q : Y → assertion) : Prop :=
  ∀ h D now y v', P h → tidy h D → f now (lay (h_own h) D) = PgOk (j y, v') →
  ∃ h1, Q y h1 ∧ h_own h1 = after (h_own h) (lay (h_own h) D) v' ∧
    h_locks h1 = h_locks h ++ ls ∧ own_le (h_own h) (h_own h1) ∧ tidy h1 D ∧
    ∀ D', held_rely h1 D D' → h_pending h1 D' →
      h_pending h D' ∧ f now (lay (h_own h) D') = PgOk (j y, lay (h_own h1) D').

Definition act_ok {X} (P : assertion) (ls : list lock) (m : M X) (Q : X → assertion) : Prop :=
  ∀ h D w x w1, P h → tidy h D → same_locks (w_locks w) (h_locks h) →
  m (set_db (lay (h_own h) D) w) = (Ok x, w1) →
  ∃ h1, Q x h1 ∧ h_own h1 = after (h_own h) (lay (h_own h) D) (w_db w1) ∧
    same_locks (h_locks h1) (w_locks w1 ++ ls) ∧
    (∀ l, l ∈ h_locks h → l ∈ h_locks h1) ∧ own_le (h_own h) (h_own h1) ∧ tidy h1 D ∧
    ∀ D', held_rely h1 D D' → h_pending h1 D' →
      h_pending h D' ∧
      m (set_db (lay (h_own h) D') w) = (Ok x, set_db (lay (h_own h1) D') w1).

(** A step that neither looks at the database nor takes locks. *)
Class Detached {X} (m : M X) : Prop :=
  detached d w : m (set_db d w) = ((m w).1, set_db d (m w).2) ∧ w_locks (m w).2 = w_locks w.

(** * Rules *)

Section rules.
Context `{Ext}.

#[export] Instance detached_ret {X} (x : X) : Detached (mret x).
Proof. done. Qed.
#[export] Instance detached_throw {X} e : Detached (throw (A:=X) e).
Proof. done. Qed.
#[export] Instance detached_panic {X} p : Detached (panic (A:=X) p).
Proof. done. Qed.
#[export] Instance detached_NewString : Detached NewString.
Proof. done. Qed.
#[export] Instance detached_Now : Detached Now.
Proof. done. Qed.
#[export] Instance detached_EvalFailpoint ctx name : Detached (EvalFailpoint ctx name).
Proof. intros d w. unfold EvalFailpoint. simpl. by destruct (Eval _ _ _) as [[] ?]. Qed.
#[export] Instance detached_bind {X Y} (m : M X) (f : X → M Y) :
  Detached m → (∀ x, Detached (f x)) → Detached (m ≫= f).
Proof.
  intros Hm Hf d w. destruct (Hm d w) as [E El]. unfold mbind, ST_bind. rewrite E.
  destruct (m w) as [[x|e|p] w1]; simpl in *; [|done..].
  destruct (Hf x d w1) as [E1 El1]. rewrite E1, El1. done.
Qed.
#[export] Instance detached_failpoint ctx name f : Detached (failpoint ctx name f).
Proof. unfold failpoint. apply detached_bind; [apply _|]. intros []; apply _. Qed.
#[export] Instance detached_ledger_failpoint ctx name : Detached (ledger_failpoint ctx name).
Proof. unfold ledger_failpoint. apply _. Qed.
#[export] Instance detached_deref {X} (o : option X) : Detached (deref o).
Proof. destruct o; apply _. Qed.
#[export] Instance detached_mirror tid es : Detached (mirror_entries tid es).
Proof. induction es; simpl; apply _. Qed.

Lemma act_detached {X} (m : M X) (P : assertion) : Detached m → act_ok P [] m (λ _, P).
Proof.
  intros Hm h D w x w1 HP T Hl E. destruct (Hm (lay (h_own h) D) w) as [E1 El].
  rewrite E1 in E. destruct (m w) as [o w2] eqn:Em. simpl in *. injection E as -> <-.
  exists h. split_and!; [done|by rewrite after_same| |done|done|done|].
  - intros l. rewrite app_nil_r, <-(Hl l). simpl in El |- *. by rewrite El.
  - intros D' _ Hp. split; [done|]. destruct (Hm (lay (h_own h) D') w) as [-> _]. by rewrite Em.
Qed.

Lemma act_detached_bind {X Y} (m : M X) (f : X → M Y) P ls Q :
  Detached m → (∀ x, act_ok P ls (f x) Q) → act_ok P ls (m ≫= f) Q.
Proof.
  intros Hm Hf h D w y w1 HP T Hl. destruct (Hm (lay (h_own h) D) w) as [E1 El].
  unfold mbind, ST_bind. rewrite E1. destruct (m w) as [[x|e|p] w2] eqn:Em; simpl; [|done..].
  intros (h1 & HQ & Eo & El1 & Hlk & Hle & T1 & Hrun)%(Hf x); [|done|done|by simpl in El; intros l; rewrite El; apply Hl].
  exists h1. split_and!; [done..|]. intros D' R Hp. destruct (Hrun D' R Hp) as [Hp' Er].
  split; [done|]. destruct (Hm (lay (h_own h) D') w) as [-> _]. by rewrite Em.
Qed.

Lemma act_sql {X} (f : Z → DB → pg (X * DB)) P ls Q :
  stmt_ok id P ls f Q → act_ok P ls (sql f) Q.
Proof.
  intros Hf h D w x w1 HP T Hl Es. destruct (sql_Ok _ _ _ _ Es) as (v' & E & ->).
  destruct (Hf h D (w_txnow w) x v' HP T E) as (h1 & HQ & Eo & El & Hle & T1 & Hrun).
  exists h1. split_and!; [done|done| | |done|done|].
  - intros l. rewrite El, !elem_of_app. simpl. by rewrite (Hl l).
  - intros l Hin. rewrite El. apply elem_of_app. by left.
  - intros D' R Hp. destruct (Hrun D' R Hp) as [Hp' Er]. split; [done|].
    assert (stmt_fault (w_tick w) = None) as Hn.
    { unfold sql, mbind, ST_bind in Es. simpl in Es. by destruct (stmt_fault (w_tick w)). }
    by rewrite (sql_run f (set_db (lay (h_own h) D') w) x (lay (h_own h1) D') Hn Er).
Qed.

(** The results that end in an error are of no concern. *)
Lemma act_sql_row {X} (f : Z → DB → pg (option X * DB)) e P ls Q :
  stmt_ok Some P ls f Q → act_ok P ls (o ← sql f; or_throw e o) Q.
Proof.
  intros Hf h D w x w1 HP T Hl (o & w2 & Es & Ho)%bind_Ok. apply or_throw_Ok in Ho as [-> ->].
  destruct (sql_Ok _ _ _ _ Es) as (v' & E & ->).
  destruct (Hf h D (w_txnow w) x v' HP T E) as (h1 & HQ & Eo & El & Hle & T1 & Hrun).
  exists h1. split_and!; [done|done| | |done|done|].
  - intros l. rewrite El, !elem_of_app. simpl. by rewrite (Hl l).
  - intros l Hin. rewrite El. apply elem_of_app. by left.
  - intros D' R Hp. destruct (Hrun D' R Hp) as [Hp' Er]. split; [done|].
    assert (stmt_fault (w_tick w) = None) as Hn.
    { unfold sql, mbind, ST_bind in Es. simpl in Es. by destruct (stmt_fault (w_tick w)). }
    erewrite bind_run; [|by apply (sql_run f (set_db (lay (h_own h) D') w) _ _ Hn Er)]. done.
Qed.

Lemma act_map_err {X} g (m : M X) P ls Q : act_ok P ls m Q → act_ok P ls (map_err g m) Q.
Proof.
  intros Hm h D w x w1 HP T Hl E%map_err_Ok.
  destruct (Hm h D w x w1 HP T Hl E) as (h1 & HQ & Eo & El & Hlk & Hle & T1 & Hrun).
  exists h1. split_and!; [done..|]. intros D' R Hp. destruct (Hrun D' R Hp) as [Hp' Er].
  split; [done|]. unfold map_err. by rewrite Er.
Qed.

Lemma act_gets {X} (m : nat → M X) P ls Q :
  (∀ n, act_ok P ls (m n) Q) → act_ok P ls (gets w_tick ≫= m) Q.
Proof. intros Hm h D w x w1 HP T Hl. exact (Hm (w_tick w) h D w x w1 HP T Hl). Qed.

Lemma acquire_locks l w : same_locks (w_locks (acquire l w).2) (w_locks w ++ [l]).
Proof.
  intros l'. unfold acquire, modify. simpl. case_decide; simpl; [|done].
  rewrite elem_of_app, list_elem_of_singleton. split; [by left|by intros [?| ->]].
Qed.

Lemma acquire_set_db l d w : acquire l (set_db d w) = (Ok tt, set_db d (acquire l w).2).
Proof. unfold acquire, modify. simpl. by case_decide. Qed.

Lemma act_acquire {X} (m : M X) l P Q :
  act_ok P [l] m Q → act_ok P [] (x ← m; acquire l;; mret x) Q.
Proof.
  intros Hm h D w x w1 HP T Hl (y & w2 & E & Hr)%bind_Ok. apply bind_Ok in Hr as ([] & w3 & Ea & Hr).
  apply ret_Ok in Hr as [-> ->].
  destruct (Hm h D w x w2 HP T Hl E) as (h1 & HQ & Eo & El & Hlk & Hle & T1 & Hrun).
  assert (w1 = (acquire l w2).2) as -> by (by rewrite Ea).
  exists h1. split_and!; [done| | |done|done|done|].
  - rewrite Eo. f_equal. symmetry. apply (keeps_acquire id l w2).
  - intros l'. rewrite app_nil_r, (El l'). symmetry. apply acquire_locks.
  - intros D' R Hp. destruct (Hrun D' R Hp) as [Hp' Er]. split; [done|].
    erewrite bind_run by exact Er. erewrite bind_run by apply acquire_set_db. done.
Qed.

Lemma act_weaken {X} (m : M X) (P P' : assertion) ls (Q Q' : X → assertion) :
  act_ok P ls m Q → (∀ h, P' h → P h) → (∀ x h, Q x h → Q' x h) → act_ok P' ls m Q'.
Proof.
  intros Hm HP HQ h D w x w1 H' T Hl E.
  destruct (Hm h D w x w1 (HP _ H') T Hl E) as (h1 & ? & Hrest). exists h1. split; [auto|done].
Qed.
End rules.

(** * Where a command is *)

Definition key_lock (i : Idem) : lock :=
  AdvisoryLock (advisory_key (IdempotencyScope i) (IdempotencyKey i)).

(** The command holds its key's lock; it may go on as long as [pend]; its
    transaction, once inserted, is [tx]; it has seen [seen] committed. *)
Record at_point (i : Idem) (pend : DB → Prop) (tx seen : option string) (h : held) : Prop := {
  ap_key : key_lock i ∈ h_locks h;
  ap_pending : ∀ D', pend D' → h_pending h D';
  ap_tx : match tx with
          | Some c => is_Some (ledger_transactions (h_own h) !! c)
          | None => ledger_transactions (h_own h) = ∅
          end;
  ap_seen : ∀ c, seen = Some c → c ∈ h_seen h;
}.

(** [h] with other rows and more locks. *)
Definition keep (own : DB) (ls : list lock) (h : held) : held :=
  mkHeld own (h_locks h ++ ls) (h_pending h) (h_seen h).

Lemma at_point_keep i pend tx seen own ls h :
  ledger_transactions own = ledger_transactions (h_own h) →
  at_point i pend tx seen h → at_point i pend tx seen (keep own ls h).
Proof.
  intros E []. split; simpl; [|done| |done].
  - apply elem_of_app. by left.
  - by rewrite E.
Qed.

Lemma guard_iff {A} b e (k : pg A) x : (guard_pg b e;; k) = PgOk x ↔ b = true ∧ k = PgOk x.
Proof. split; [apply guard_bind|]. by intros [-> ?]. Qed.

Lemma bind_iff {A B} (m : pg A) (f : A → pg B) b :
  (m ≫= f) = PgOk b ↔ ∃ a, m = PgOk a ∧ f a = PgOk b.
Proof. split; [apply pg_bind_Ok|]. intros (a & E & Hf). by rewrite E. Qed.

Lemma not_exists_iff {A} (o : option A) : negb (exists_in o) = true ↔ o = None.
Proof. by destruct o. Qed.

Lemma union_same {K V} `{Countable K} (own D D' : gmap K V) k :
  D' !! k = D !! k → (own ∪ D') !! k = (own ∪ D) !! k.
Proof. intros E. by rewrite !lookup_union, E. Qed.

Lemma union_none {K V} `{Countable K} (own D : gmap K V) k :
  own !! k = None → D !! k = None → (own ∪ D) !! k = None.
Proof. intros. by apply lookup_union_None. Qed.

Lemma union_mono {K V} `{Countable K} (own D D' : gmap K V) k :
  D ⊆ D' → is_Some ((own ∪ D) !! k) → (own ∪ D') !! k = (own ∪ D) !! k.
Proof.
  intros Hs [x Hx]. rewrite Hx. apply lookup_union_Some_raw in Hx as [Hx|[Hn Hx]].
  - by apply lookup_union_Some_l.
  - rewrite lookup_union_r by done. by eapply lookup_weaken.
Qed.

(** [tidy] when only the locks grow. *)
Lemma tidy_locks h D ls :
  tidy h D →
  (∀ a, RowLock a ∈ ls → is_Some (balances (h_own h) !! a) ∨ is_Some (balances D !! a)) →
  tidy (keep (h_own h) ls h) D.
Proof.
  intros T Hls. split; simpl; try apply T.
  - intros a Ha. destruct (td_balances _ _ T a Ha); [left|by right]. apply elem_of_app. by left.
  - intros s k Hs%(td_idem _ _ T). apply elem_of_app. by left.
  - intros a [Ha|Ha]%elem_of_app; [by apply T|auto].
Qed.

(** A statement that reads. *)
Lemma stmt_read {X Y} (j : Y → X) i pend tx seen ls (f : Z → DB → pg (X * DB)) :
  (∀ h D now y v', at_point i pend tx seen h → tidy h D →
     f now (lay (h_own h) D) = PgOk (j y, v') →
     v' = lay (h_own h) D ∧
     (∀ a, RowLock a ∈ ls → is_Some (balances (h_own h) !! a) ∨ is_Some (balances D !! a)) ∧
     ∀ D', held_rely (keep (h_own h) ls h) D D' →
       f now (lay (h_own h) D') = PgOk (j y, lay (h_own h) D')) →
  stmt_ok j (at_point i pend tx seen) ls f (λ _, at_point i pend tx seen).
Proof.
  intros Hf h D now y v' HP T E. destruct (Hf h D now y v' HP T E) as (-> & Hls & Hrun).
  exists (keep (h_own h) ls h). rewrite after_same. split_and!; try done.
  - by apply at_point_keep.
  - by apply tidy_locks.
  - intros D' R Hp. split; [exact Hp|by apply Hrun].
Qed.

(** A statement that writes the rows that make [h_own h] into [own1]. *)
Lemma stmt_write {X Y} (j : Y → X) i pend tx seen ls (f : Z → DB → pg (X * DB)) :
  (∀ h D now y v', at_point i pend tx seen h → tidy h D →
     f now (lay (h_own h) D) = PgOk (j y, v') →
     ∃ own1, after (h_own h) (lay (h_own h) D) v' = own1 ∧
       ledger_transactions own1 = ledger_transactions (h_own h) ∧
       own_le (h_own h) own1 ∧ tidy (keep own1 ls h) D ∧
       ∀ D', held_rely (keep own1 ls h) D D' →
         f now (lay (h_own h) D') = PgOk (j y, lay own1 D')) →
  stmt_ok j (at_point i pend tx seen) ls f (λ _, at_point i pend tx seen).
Proof.
  intros Hf h D now y v' HP T E. destruct (Hf h D now y v' HP T E) as (own1 & <- & Et & Hle & T1 & Hrun).
  eexists (keep _ ls h). split_and!; [by apply at_point_keep|done..|exact T1|].
  intros D' R Hp. split; [exact Hp|by apply Hrun].
Qed.

(** ** What lies under a session's rows *)

Lemma lay_accounts own D id r :
  lay (set_accounts (<[id := r]> (accounts own)) own) D =
    set_accounts (<[id := r]> (accounts (lay own D))) (lay own D).
Proof. unfold lay. simpl. by rewrite insert_union_l. Qed.
Lemma lay_balances own D id r :
  lay (set_balances (<[id := r]> (balances own)) own) D =
    set_balances (<[id := r]> (balances (lay own D))) (lay own D).
Proof. unfold lay. simpl. by rewrite insert_union_l. Qed.
Lemma lay_txs own D id r :
  lay (set_transactions (<[id := r]> (ledger_transactions own)) own) D =
    set_transactions (<[id := r]> (ledger_transactions (lay own D))) (lay own D).
Proof. unfold lay. simpl. by rewrite insert_union_l. Qed.
Lemma lay_reversals own D id r :
  lay (set_reversals (<[id := r]> (reversals own)) own) D =
    set_reversals (<[id := r]> (reversals (lay own D))) (lay own D).
Proof. unfold lay. simpl. by rewrite insert_union_l. Qed.
Lemma lay_idem own D k r :
  lay (set_idem (<[k := r]> (idempotency_records own)) own) D =
    set_idem (<[k := r]> (idempotency_records (lay own D))) (lay own D).
Proof. unfold lay. simpl. by rewrite insert_union_l. Qed.
Lemma lay_outbox own D id r :
  lay (set_outbox (<[id := r]> (outbox_events own)) own) D =
    set_outbox (<[id := r]> (outbox_events (lay own D))) (lay own D).
Proof. unfold lay. simpl. by rewrite insert_union_l. Qed.
Lemma lay_entries own D e :
  lay (set_entries (ledger_entries own ++ [e]) own) D =
    set_entries (ledger_entries (lay own D) ++ [e]) (lay own D).
Proof. unfold lay. simpl. by rewrite app_assoc. Qed.

(** * The statements *)

(** Rows added under one key. *)
Lemma insert_some {K V} `{Countable K} (m : gmap K V) k r j :
  is_Some (m !! j) → is_Some (<[k := r]> m !! j).
Proof. intros Hs. apply lookup_insert_is_Some'. by right. Qed.

Lemma insert_some_inv {K V} `{Countable K} (m : gmap K V) k r j :
  is_Some (<[k := r]> m !! j) → j = k ∨ is_Some (m !! j).
Proof. intros Hs%lookup_insert_is_Some'. destruct Hs; [by left|by right]. Qed.

Lemma insert_here {K V} `{Countable K} (m : gmap K V) k r : is_Some (<[k := r]> m !! k).
Proof. rewrite lookup_insert_eq. eauto. Qed.

Lemma in_more (l : lock) L ls : l ∈ L → l ∈ L ++ ls.
Proof. intros Hl. apply elem_of_app. by left. Qed.

#[local] Hint Resolve insert_some insert_here in_more : core.

(** The parts of [tidy] and [own_le] a statement does not touch. *)
Ltac untouched T :=
  try solve
    [ split; simpl; eauto
    | exact (td_accounts _ _ T)
    | exact (td_txs _ _ T)
    | exact (td_reverses _ _ T)
    | exact (td_entries _ _ T)
    | exact (td_reversals _ _ T)
    | exact (td_outbox _ _ T)
    | exact (td_seen _ _ T)
    | intros a Ha; destruct (td_balances _ _ T a Ha); eauto
    | intros s k Hs; apply in_more; exact (td_idem _ _ T s k Hs)
    | intros a Hin; rewrite app_nil_r in Hin; exact (td_locked _ _ T a Hin) ].

Section statements.
Context `{Ext} (i : Idem) (pend : DB → Prop) (tx seen : option string).

Lemma stmt_balance_delta id delta :
  stmt_ok Some (at_point i pend tx seen) [RowLock id] (sql_balance_delta id delta)
    (λ _, at_point i pend tx seen).
Proof.
  apply stmt_write. intros h D now y v' HP T E. unfold sql_balance_delta in E.
  destruct (balances (lay (h_own h) D) !! id) as [b|] eqn:Eb; [|done].
  simpl in E. unfold update_balance in E. simpl in Eb, E. rewrite Eb in E.
  apply bind_iff in E as (d1 & ([] & Ec & [= <-])%bind_iff & [= <- <-]).
  eexists. split; [apply (after_balances (h_own h) (lay (h_own h) D))|].
  { simpl. rewrite Eb. intros [= Ev]. apply (f_equal b_version) in Ev. simpl in Ev. lia. }
  split_and!; [done|untouched T| |].
  - split; simpl; untouched T.
    + intros a [->|Ha]%insert_some_inv; [left; apply elem_of_app; right; by left|].
      destruct (td_balances _ _ T a Ha); eauto.
    + intros a [Ha|Ha%list_elem_of_singleton]%elem_of_app; [|injection Ha as ->; eauto].
      destruct (td_locked _ _ T a Ha); eauto.
  - intros D' R. unfold sql_balance_delta. simpl. unfold update_balance.
    rewrite (union_same (balances (h_own h)) (balances D) (balances D')), Eb.
    2: { apply (rl_balances _ _ _ _ R). left. apply elem_of_app. right. by left. }
    simpl. rewrite (union_same (balances (h_own h)) (balances D) (balances D')), Eb.
    2: { apply (rl_balances _ _ _ _ R). left. apply elem_of_app. right. by left. }
    rewrite Ec. simpl. by rewrite lay_balances.
Qed.

Lemma stmt_select_balance id :
  stmt_ok Some (at_point i pend tx seen) [RowLock id] (λ _ db, a ← select_balance id db; mret (a, db))
    (λ _, at_point i pend tx seen).
Proof.
  apply stmt_read. intros h D now y v' HP T (o & Eo & [= -> <-])%bind_iff. split; [done|].
  apply select_balance_Ok in Eo as (b & row & Eb & Ea & ->). split.
  - intros a [= ->]%list_elem_of_singleton. simpl in Eb.
    apply lookup_union_Some_raw in Eb as [|[]]; eauto.
  - intros D' R. unfold select_balance. simpl.
    rewrite (union_same (balances (h_own h)) (balances D)).
    2: { apply (rl_balances _ _ _ _ R). left. apply elem_of_app. right. by left. }
    rewrite (union_mono (accounts (h_own h)) (accounts D)) by (apply R || by eexists).
    simpl in Ea, Eb. by rewrite Ea, Eb.
Qed.

(** ** Idempotency records *)

Lemma key_relied h ls D D' :
  key_lock i ∈ h_locks h → ∀ own, held_rely (keep own ls h) D D' →
  idempotency_records D' !! idem_key i = idempotency_records D !! idem_key i.
Proof. intros Hk own R. apply (rl_idem _ _ _ _ R). by apply in_more. Qed.

Lemma stmt_complete status body tid :
  stmt_ok (λ y : unit, y) (at_point i pend tx seen) []
    (sql_complete (IdempotencyScope i) (IdempotencyKey i) status body tid)
    (λ _, at_point i pend tx seen).
Proof.
  apply stmt_write. intros h D now [] v' HP T E. unfold sql_complete in E.
  apply bind_iff in E as (ctid & Etid & E). fold (idem_key i) in E.
  assert (∀ own D', held_rely (keep own [] h) D D' →
    (idempotency_records (h_own h) ∪ idempotency_records D') !! idem_key i =
    (idempotency_records (h_own h) ∪ idempotency_records D) !! idem_key i) as Hsame.
  { intros own D' R. apply union_same. eapply key_relied; [apply HP|exact R]. }
  simpl in E. destruct ((_ ∪ _) !! idem_key i) as [r|] eqn:Er.
  2: { injection E as <-. exists (h_own h). rewrite after_same. split_and!; [done..| |].
    - apply tidy_locks; [done|]. by intros a ?%not_elem_of_nil.
    - intros D' R. unfold sql_complete. rewrite Etid. simpl. fold (idem_key i).
      by rewrite (Hsame _ _ R). }
  set (r' := IdemRow _ _ _ _ _ _ _) in E.
  apply bind_iff in E as (d1 & E & [= <-]). simpl in E. unfold update_idem in E. simpl in E.
  rewrite Er in E.
  apply bind_iff in E as ([] & Ec & [= <-]).
  apply check_idem_ok in Ec as [Hcr Hfk].
  assert (∀ own1 D', held_rely (keep own1 [] h) D D' →
    lay own1 D' = set_idem (<[idem_key i := r']> (idempotency_records (lay (h_own h) D')))
                    (lay (h_own h) D') →
    sql_complete (IdempotencyScope i) (IdempotencyKey i) status body tid now (lay (h_own h) D') =
      PgOk (tt, lay own1 D')) as Hrun.
  { intros own1 D' R HE. unfold sql_complete. rewrite Etid. simpl. fold (idem_key i).
    rewrite (Hsame _ _ R). simpl. unfold update_idem. simpl. rewrite (Hsame _ _ R). fold r'.
    assert (check_idem r' (lay (h_own h) D') = PgOk tt) as ->.
    { apply check_idem_ok. split; [done|]. unfold fk_tx in *.
      destruct (i_transaction_id r') as [c|]; [|done]. apply exists_in_true in Hfk.
      apply exists_in_true. simpl in *. rewrite (union_mono _ _ _ _ (rl_txs _ _ _ _ R) Hfk). done. }
    simpl. by rewrite HE. }
  destruct (decide (idempotency_records (lay (h_own h) D) !! idem_key i = Some r')) as [Es|Hne].
  - exists (h_own h). rewrite (insert_id _ _ _ Es). split_and!.
    + replace (set_idem _ _) with (lay (h_own h) D) by done. apply after_same.
    + done.
    + done.
    + apply tidy_locks; [done|]. by intros a ?%not_elem_of_nil.
    + intros D' R. apply Hrun; [done|]. rewrite insert_id; [done|]. simpl. rewrite (Hsame _ _ R), <-Es.
      simpl. by rewrite Er.
  - eexists. split; [by apply (after_idem (h_own h) (lay (h_own h) D))|].
    split_and!; [done|untouched T| |].
    + split; simpl; untouched T.
      intros s k Hs. apply in_more. apply insert_some_inv in Hs as [[= -> ->]|Hs]; [apply HP|].
      by apply (td_idem _ _ T).
    + intros D' R. apply Hrun; [done|]. apply lay_idem.
Qed.

(** ** Postings *)

Lemma stmt_insert_entry e c :
  tx = Some c → uuid_in (EntTransactionID e) = Some c →
  stmt_ok (λ y : unit, y) (at_point i pend tx seen) [] (sql_insert_entry e)
    (λ _, at_point i pend tx seen).
Proof.
  intros Htx Hc. apply stmt_write. intros h D now [] v' HP T E. unfold sql_insert_entry in E.
  apply bind_iff in E as (eid & Eid & E). apply bind_iff in E as (tid & Etid & E).
  apply as_uuid_Ok in Etid as Etid'. assert (tid = c) as -> by congruence.
  set (r := EntryRow _ _ _ _ _ _ _) in E.
  apply bind_iff in E as (d1 & E & [= <-]). simpl in E. unfold insert_entry in E.
  rewrite !guard_iff in E. destruct E as (G1 & G2 & G3 & G4 & G5 & G6 & G7 & G8 & G9 & [= <-]).
  pose proof (ap_tx _ _ _ _ _ HP) as Hown. rewrite Htx in Hown.
  eexists. split; [apply (after_entries (h_own h) (lay (h_own h) D))|].
  split_and!; [done| | |].
  - split; simpl; eauto. by exists [r].
  - split; simpl; untouched T.
    intros x [Hx| ->%list_elem_of_singleton]%elem_of_app; [by apply (td_entries _ _ T)|done].
  - intros D' R. unfold sql_insert_entry. rewrite Eid, Etid. simpl. fold r. unfold insert_entry.
    destruct (rl_entries _ _ _ _ R) as (new & Enew & Hnew). simpl in Hnew.
    assert (∀ x, x ∈ new → e_id x ≠ eid ∧ e_transaction_id x ≠ c) as Hnew'.
    { intros x Hx. destruct (Hnew x Hx) as (_ & Hn & Hi). split.
      - intros Heq. apply Hi. rewrite fmap_app, elem_of_app. right. rewrite Heq. by left.
      - intros Heq. rewrite Heq in Hn. rewrite Hn in Hown. by destruct Hown. }
    assert (insert_entry r (lay (h_own h) D') =
      PgOk (set_entries (ledger_entries (lay (h_own h) D') ++ [r]) (lay (h_own h) D'))) as Hins.
    { unfold insert_entry. rewrite !guard_iff. split_and!; try done.
      - apply negb_true_iff, not_true_iff_false. intros Hh.
        apply negb_true_iff, not_true_iff_false in G4. apply G4. unfold has_entry in *. simpl in *.
        rewrite Enew in Hh. rewrite !existsb_app in *.
        apply orb_true_iff in Hh as [Hh|Hh]; [apply orb_true_iff in Hh as [Hh|Hh]|];
          [by rewrite Hh| |by rewrite Hh, orb_true_r].
        apply existsb_exists in Hh as (x & Hx%list_elem_of_In & Hxe%String.eqb_eq).
        by destruct (Hnew' x Hx).
      - simpl in *. rewrite Enew. rewrite !forallb_app in *.
        apply andb_true_iff in G5 as [Ga Gb]. rewrite Ga, Gb. simpl. rewrite andb_true_r.
        apply forallb_forall. intros x Hx%list_elem_of_In. destruct (Hnew' x Hx) as [_ Hne].
        apply String.eqb_neq in Hne. by rewrite Hne.
      - apply exists_in_true. apply exists_in_true in G6. simpl in *.
        rewrite (union_mono _ _ _ _ (rl_txs _ _ _ _ R) G6). done.
      - apply exists_in_true. apply exists_in_true in G7. simpl in *.
        rewrite (union_mono _ _ _ _ (rl_accounts _ _ _ _ R) G7). done.
      - unfold fk_tx_currency in *. simpl in *. apply exists_in_true in G6.
        rewrite (union_mono _ _ _ _ (rl_txs _ _ _ _ R) G6). done.
      - unfold fk_account_currency in *. simpl in *. apply exists_in_true in G7.
        rewrite (union_mono _ _ _ _ (rl_accounts _ _ _ _ R) G7). done. }
    unfold insert_entry in Hins. rewrite Hins. simpl. by rewrite lay_entries.
Qed.

(** ** Accounts, events, reversal records *)

Lemma stmt_insert_account id currency kind od md :
  stmt_ok (λ y : Account, y) (at_point i pend tx seen) []
    (sql_insert_account id currency kind od md) (λ _, at_point i pend tx seen).
Proof.
  apply stmt_write. intros h D now y v' HP T E. unfold sql_insert_account in E.
  set (r := AccountRow _ _ _ _ _) in E.
  apply bind_iff in E as (d1 & E & [= <- <-]). simpl in E. unfold insert_account in E.
  apply bind_iff in E as ([] & Ec & E).
  rewrite !guard_iff, not_exists_iff in E. destruct E as (G1 & G2 & G3 & [= <-]).
  eexists. split; [apply (after_accounts (h_own h) (lay (h_own h) D)); by rewrite G3|].
  simpl in G3. apply lookup_union_None in G3 as [Go Gd].
  split_and!; [done|untouched T| |].
  - split; simpl; untouched T. intros a [->|Ha]%insert_some_inv; [done|by apply (td_accounts _ _ T)].
  - intros D' R. unfold sql_insert_account. fold r. simpl. unfold insert_account.
    rewrite Ec, G1, G2. simpl. rewrite union_none; [|done|].
    2: { rewrite (rl_own_accounts _ _ _ _ R); [done|]. simpl. eauto. }
    simpl. by rewrite lay_accounts.
Qed.

Lemma stmt_insert_balance id od :
  stmt_ok (λ y : unit, y) (at_point i pend tx seen) [] (sql_insert_balance id od)
    (λ _, at_point i pend tx seen).
Proof.
  apply stmt_write. intros h D now [] v' HP T E. unfold sql_insert_balance in E.
  set (r := BalanceRow _ _ _ _) in E.
  apply bind_iff in E as (d1 & E & [= <-]). simpl in E. unfold insert_balance in E.
  apply bind_iff in E as ([] & Ec & E). rewrite !guard_iff, not_exists_iff in E.
  destruct E as (G2 & G3 & [= <-]).
  eexists. split; [apply (after_balances (h_own h) (lay (h_own h) D)); by rewrite G2|].
  simpl in G2. apply lookup_union_None in G2 as [Go Gd].
  split_and!; [done|untouched T| |].
  - split; simpl; untouched T.
    + intros a [->|Ha]%insert_some_inv; [by right|]. destruct (td_balances _ _ T a Ha); eauto.
    + intros a Hin. rewrite app_nil_r in Hin. destruct (td_locked _ _ T a Hin); eauto.
  - intros D' R. unfold sql_insert_balance. fold r. simpl. unfold insert_balance. rewrite Ec. simpl.
    rewrite (union_none (balances (h_own h))); [|done|].
    2: { rewrite (rl_balances _ _ _ _ R); [done|]. simpl. eauto. }
    apply exists_in_true in G3. simpl in *.
    rewrite (union_mono _ _ _ _ (rl_accounts _ _ _ _ R) G3). apply exists_in_true in G3.
    rewrite G3. simpl. by rewrite lay_balances.
Qed.

Lemma stmt_outbox rec :
  stmt_ok (λ y : unit, y) (at_point i pend tx seen) [] (sql_insert rec)
    (λ _, at_point i pend tx seen).
Proof.
  apply stmt_write. intros h D now [] v' HP T E. unfold sql_insert in E.
  apply bind_iff in E as (id & Eid & E). set (r := OutboxRow _ _ _ _ _ _ _ _ _ _ _ _ _ _) in E.
  apply bind_iff in E as (d1 & E & [= <-]). simpl in E. unfold insert_outbox in E.
  apply bind_iff in E as ([] & Ec & E). rewrite !guard_iff, not_exists_iff in E.
  destruct E as (G & [= <-]).
  eexists. split; [apply (after_outbox (h_own h) (lay (h_own h) D)); by rewrite G|].
  simpl in G. apply lookup_union_None in G as [Go Gd].
  split_and!; [done|untouched T| |].
  - split; simpl; untouched T. intros a [->|Ha]%insert_some_inv; [done|by apply (td_outbox _ _ T)].
  - intros D' R. unfold sql_insert. rewrite Eid. simpl. fold r. unfold insert_outbox. rewrite Ec. simpl.
    rewrite union_none; [|done|].
    2: { apply (rl_outbox _ _ _ _ R); simpl; eauto. }
    simpl. by rewrite lay_outbox.
Qed.

Lemma same_reversal_false r s :
  same_reversal r s = false ↔ r_original s ≠ r_original r ∧ r_reversal s ≠ r_reversal r.
Proof. unfold same_reversal. rewrite orb_false_iff, !String.eqb_neq. split; intros [? ?]; split; congruence. Qed.

Lemma check_reversal_iff {A} r others db (k : pg A) y :
  (check_reversal r others db;; k) = PgOk y ↔
  bool_decide (map_Forall (λ _ x, r_original x ≠ r_original r) others) = true ∧
  bool_decide (map_Forall (λ _ x, r_reversal x ≠ r_reversal r) others) = true ∧
  exists_in (ledger_transactions db !! r_original r) = true ∧
  exists_in (ledger_transactions db !! r_reversal r) = true ∧ k = PgOk y.
Proof.
  unfold check_reversal. do 2 case_bool_decide; simpl; try naive_solver.
  destruct (exists_in (_ !! r_original r)), (exists_in (_ !! r_reversal r)); simpl; naive_solver.
Qed.

Lemma stmt_insert_reversal rid o c reason :
  stmt_ok (λ y : unit, y) (at_point i pend tx seen) [] (sql_insert_reversal rid o c reason)
    (λ _, at_point i pend tx seen).
Proof.
  apply stmt_write. intros h D now [] v' HP T E. unfold sql_insert_reversal in E.
  apply bind_iff in E as (id & Eid & E). apply bind_iff in E as (co & Eo & E).
  apply bind_iff in E as (cc & Ecc & E). set (r := ReversalRow _ _ _ _) in E.
  apply bind_iff in E as (d1 & E & [= <-]). simpl in E. unfold insert_reversal in E.
  rewrite !guard_iff, not_exists_iff, check_reversal_iff, !bool_decide_eq_true in E.
  destruct E as (G0 & G1 & G2 & G3 & G4 & G5 & G6 & [= <-]).
  eexists. split; [apply (after_reversals (h_own h) (lay (h_own h) D)); by rewrite G2|].
  simpl in G2. apply lookup_union_None in G2 as [Go Gd].
  split_and!; [done| | |].
  - split; simpl; eauto. by apply insert_subseteq.
  - split; simpl; untouched T. intros a [->|Ha]%insert_some_inv; [done|by apply (td_reversals _ _ T)].
  - intros D' R.
    assert (∀ k x, (reversals (h_own h) ∪ reversals D') !! k = Some x →
      (reversals (h_own h) ∪ reversals D) !! k = Some x ∨ same_reversal r x = false) as Hold.
    { intros k x [Hx|[Hn Hx]]%lookup_union_Some_raw; [left; by apply lookup_union_Some_l|].
      destruct (rl_reversals _ _ _ _ R id r k x) as [Hd|]; [simpl; apply lookup_insert_eq|done| |by right].
      left. by rewrite lookup_union_r. }
    unfold sql_insert_reversal. rewrite Eid, Eo, Ecc. simpl. fold r.
    assert (insert_reversal id r (lay (h_own h) D') =
      PgOk (set_reversals (<[id := r]> (reversals (lay (h_own h) D'))) (lay (h_own h) D'))) as ->.
    { unfold insert_reversal. rewrite !guard_iff, not_exists_iff, check_reversal_iff, !bool_decide_eq_true.
      split_and!; try done.
      - apply union_none; [done|]. rewrite (rl_own_reversals _ _ _ _ R); [done|]. simpl. eauto.
      - intros k x Hx. destruct (Hold k x Hx) as [Hd|Hs]; [by eapply G3|by apply same_reversal_false in Hs as []].
      - intros k x Hx. destruct (Hold k x Hx) as [Hd|Hs]; [by eapply G4|by apply same_reversal_false in Hs as []].
      - apply exists_in_true. apply exists_in_true in G5. simpl in *.
        rewrite (union_mono _ _ _ _ (rl_txs _ _ _ _ R) G5). done.
      - apply exists_in_true. apply exists_in_true in G6. simpl in *.
        rewrite (union_mono _ _ _ _ (rl_txs _ _ _ _ R) G6). done. }
    simpl. by rewrite lay_reversals.
Qed.

(** ** Reading transactions *)

Lemma relied_entries own ls h D D' c :
  held_rely (keep own ls h) D D' →
  is_Some (ledger_transactions own !! c) ∨ is_Some (ledger_transactions D !! c) →
  entries_of c (ledger_entries (lay (h_own h) D')) = entries_of c (ledger_entries (lay (h_own h) D)).
Proof.
  intros R Hc. destruct (rl_entries _ _ _ _ R) as (new & Enew & Hnew). simpl in Hnew |- *.
  rewrite Enew. rewrite !entries_of_app. replace (entries_of c new) with (@nil entry_row); [by rewrite app_nil_r|].
  symmetry. apply list_filter_none. apply Forall_forall. intros e He Heq.
  destruct (Hnew e He) as (Hd & Ho & _). rewrite Heq in Hd, Ho.
  destruct Hc as [[x Hx]|[x Hx]]; congruence.
Qed.

Lemma known_tx h D c :
  at_point i pend tx seen h → tidy h D → tx = Some c ∨ seen = Some c →
  is_Some (ledger_transactions (h_own h) !! c) ∨ is_Some (ledger_transactions D !! c).
Proof.
  intros HP T [E|E].
  - left. pose proof (ap_tx _ _ _ _ _ HP) as Ht. by rewrite E in Ht.
  - right. apply (td_seen _ _ T). by apply (ap_seen _ _ _ _ _ HP).
Qed.

Lemma stmt_query {X} (f : DB → pg X) :
  (∀ h D D' own x, at_point i pend tx seen h → tidy h D → held_rely (keep own [] h) D D' →
     own = h_own h → f (lay (h_own h) D) = PgOk x → f (lay (h_own h) D') = PgOk x) →
  stmt_ok (λ x : X, x) (at_point i pend tx seen) [] (λ _ db, a ← f db; mret (a, db))
    (λ _, at_point i pend tx seen).
Proof.
  intros Hf. apply stmt_read. intros h D now x v' HP T (a & Ea & [= -> <-])%bind_iff.
  split_and!; [done|by intros ? ?%not_elem_of_nil|].
  intros D' R. by rewrite (Hf h D D' _ x HP T R eq_refl Ea).
Qed.

Lemma stmt_entries id c :
  uuid_in id = Some c → tx = Some c ∨ seen = Some c →
  stmt_ok (λ x : list Entry, x) (at_point i pend tx seen) []
    (λ _ db, a ← select_entries id db; mret (a, db)) (λ _, at_point i pend tx seen).
Proof.
  intros Hc Hk. apply stmt_query. intros h D D' own x HP T R -> E.
  unfold select_entries in *. apply as_uuid_Ok in Hc. rewrite Hc in *. simpl in *.
  rewrite <-E. do 3 f_equal. apply (relied_entries _ _ _ _ _ _ R). by apply known_tx.
Qed.

Lemma stmt_accounts tick id c :
  uuid_in id = Some c → tx = Some c ∨ seen = Some c →
  stmt_ok (λ x : list string, x) (at_point i pend tx seen) []
    (λ _ db, a ← select_accounts_of tick id db; mret (a, db)) (λ _, at_point i pend tx seen).
Proof.
  intros Hc Hk. apply stmt_query. intros h D D' own x HP T R -> E.
  unfold select_accounts_of in *. apply as_uuid_Ok in Hc. rewrite Hc in *. simpl in *.
  rewrite <-E. do 4 f_equal. apply (relied_entries _ _ _ _ _ _ R). by apply known_tx.
Qed.

(** Reversals of the session's own transaction are its own business. *)
Lemma reversals_of_ext (txs txs' : gmap string tx_row) c :
  (∀ id t, t_reverses t = Some c → txs !! id = Some t ↔ txs' !! id = Some t) →
  reversals_of txs c = reversals_of txs' c.
Proof.
  intros Hext. unfold reversals_of. do 2 f_equal. apply map_eq. intros id. apply option_eq. intros t.
  rewrite !map_lookup_filter_Some. simpl. split; intros [Ht Hr]; (split; [by apply Hext|done]).
Qed.

Lemma reversals_of_none (txs : gmap string tx_row) c :
  reversals_of txs c = [] ↔ ∀ id t, txs !! id = Some t → t_reverses t ≠ Some c.
Proof.
  unfold reversals_of. split.
  - intros E%fmap_nil_inv id t Ht Hr.
    assert ((id, t) ∈ map_to_list (filter (λ p, t_reverses p.2 = Some c) txs)) as Hin
      by (by rewrite elem_of_map_to_list, map_lookup_filter_Some).
    rewrite E in Hin. by apply not_elem_of_nil in Hin.
  - intros Hn. replace (filter _ txs) with (∅ : gmap string tx_row).
    { by rewrite map_to_list_empty. }
    symmetry. apply map_empty. intros id. apply map_lookup_filter_None. right. intros t Ht. by eapply Hn.
Qed.

Lemma stmt_header_own id c :
  uuid_in id = Some c → tx = Some c →
  stmt_ok Some (at_point i pend tx seen) [] (λ _ db, a ← select_transaction id db; mret (a, db))
    (λ _, at_point i pend tx seen).
Proof.
  intros Hc Htx. apply stmt_read. intros h D now x v' HP T (a & Ea & [= -> <-])%bind_iff.
  split_and!; [done|by intros ? ?%not_elem_of_nil|]. intros D' R.
  enough (select_transaction id (lay (h_own h) D') = select_transaction id (lay (h_own h) D)) as ->
    by (by rewrite Ea).
  pose proof (ap_tx _ _ _ _ _ HP) as Hown. rewrite Htx in Hown.
  unfold select_transaction. apply as_uuid_Ok in Hc. rewrite Hc. simpl.
  rewrite (union_same _ (ledger_transactions D)) by (by apply (rl_own_txs _ _ _ _ R)).
  rewrite (reversals_of_ext _ (ledger_transactions (h_own h) ∪ ledger_transactions D)); [done|].
  intros k t Hr. split.
  - intros [Ht|[Hn Ht]]%lookup_union_Some_raw; [by apply lookup_union_Some_l|].
    rewrite lookup_union_r by done. eapply (rl_reverses _ _ _ _ R); [by left|done|done].
  - intros Ht. rewrite (union_mono _ _ _ _ (rl_txs _ _ _ _ R)); eauto.
Qed.
End statements.

#[local] Hint Resolve insert_some insert_here in_more : core.

Section commands.
Context `{Ext} (i : Idem).

(** What a reversal assumes once it has read the original: no one else reverses
    it, if no one did; otherwise it fails. *)
Definition once_read (c : string) (reversedBy : option string) : DB → Prop :=
  match reversedBy with
  | None => unreversed (Some c)
  | Some _ => λ _, False
  end.

Lemma stmt_header id :
  stmt_ok Some (at_point i (λ _, True) None None) []
    (λ _ db, a ← select_transaction id db; mret (a, db))
    (λ x h, uuid_in id = Some x.1.1 ∧ at_point i (once_read x.1.1 x.2) None (Some x.1.1) h).
Proof.
  intros h D now x v' HP T (a & Ea & [= -> <-])%bind_iff.
  apply bind_iff in Ea as (c & Hc%as_uuid_Ok & Ea). pose proof (ap_tx _ _ _ _ _ HP) as Hown. simpl in Hown.
  set (txs := ledger_transactions (lay (h_own h) D)) in Ea. destruct (txs !! c) as [t|] eqn:Et; [|done].
  assert (∃ rb, x = (c, t, rb)) as [rb ->].
  { destruct (reversals_of _ _) as [|? [|]]; simplify_eq; eauto. }
  assert (ledger_transactions D !! c = Some t) as Ht.
  { subst txs. simpl in Et. by rewrite Hown, (left_id_L ∅ (∪)) in Et. }
  exists (mkHeld (h_own h) (h_locks h ++ []) (once_read c rb) (c :: h_seen h)). simpl.
  rewrite after_same. split_and!; try done.
  - split; simpl; [apply in_more, HP|done|done|by intros ? [= <-]; left].
  - split; simpl; untouched T. intros c' [->|Hin]%elem_of_cons; [by eexists|by apply (td_seen _ _ T)].
  - intros D' R Hp. destruct rb as [rb|]; [done|]. split; [by apply (ap_pending _ _ _ _ _ HP)|].
    unfold select_transaction. apply as_uuid_Ok in Hc. rewrite Hc. simpl.
    rewrite Hown, (left_id_L ∅ (∪)). simpl.
    rewrite (lookup_weaken _ _ _ _ Ht (rl_txs _ _ _ _ R)).
    rewrite (proj2 (reversals_of_none (ledger_transactions D') c)); [done|].
    intros k u Hu. by apply (Hp c k u eq_refl Hu).
Qed.

Lemma one_reversal_iff (txs : gmap string tx_row) t :
  one_reversal_check txs t = true ↔
  ∀ o, t_reverses t = Some o → ∀ id u, txs !! id = Some u → t_reverses u ≠ Some o.
Proof.
  unfold one_reversal_check. destruct (t_reverses t) as [o|]; [|by split].
  rewrite bool_decide_eq_true, reversals_of_none. split; [by intros Hn ? [= <-]|by intros Hn; apply Hn].
Qed.

(** The insert settles whether someone else has reversed the original. *)
Lemma stmt_insert_transaction txn rev seen :
  as_uuid_opt (ReversesTransactionID txn) = PgOk rev →
  stmt_ok (λ y : unit, y) (at_point i (unreversed rev) None seen) [] (sql_insert_transaction txn)
    (λ _ h, match uuid_in (TxID txn) with
            | Some c => at_point i (λ _, True) (Some c) seen h
            | None => False
            end).
Proof.
  intros Hrev h D now [] v' HP T E. unfold sql_insert_transaction in E.
  apply bind_iff in E as (c & Ec & E). rewrite Hrev in E. simpl in E.
  set (r := TxRow _ _ _ _ _ _) in E.
  apply bind_iff in E as (d1 & E & [= <-]). simpl in E. unfold insert_transaction in E.
  rewrite !guard_iff, not_exists_iff, one_reversal_iff in E.
  destruct E as (G0 & G1 & G2 & G3 & G4 & G5 & G6 & [= <-]). simpl in G4, G5.
  apply lookup_union_None in G4 as [Go Gd].
  set (own1 := set_transactions (<[c := r]> (ledger_transactions (h_own h))) (h_own h)).
  exists (mkHeld own1 (h_locks h ++ []) (λ _, True) (h_seen h)). simpl. split_and!.
  - apply as_uuid_Ok in Ec. rewrite Ec. split; simpl; [apply in_more, HP|done|eauto|apply HP].
  - symmetry. apply (after_txs (h_own h) (lay (h_own h) D)). simpl. by rewrite union_none.
  - done.
  - split; simpl; eauto. by apply insert_subseteq.
  - split; simpl; untouched T.
    + intros a [->|Ha]%insert_some_inv; [done|by apply (td_txs _ _ T)].
    + intros k t o [[<- <-]|[_ Hk]]%lookup_insert_Some Ho.
      * unfold fk_tx in G6. simpl in Ho, G6. rewrite Ho in G6. apply exists_in_true in G6.
        apply insert_some_inv in G6 as [->|[x Hx]]; [left; eauto|].
        apply lookup_union_Some_raw in Hx as [|[]]; eauto.
      * destruct (td_reverses _ _ T k t o Hk Ho); eauto.
    + intros e He. apply insert_some. by apply (td_entries _ _ T).
  - intros D' R _.
    assert (∀ o, rev = Some o → ∀ id u, ledger_transactions D' !! id = Some u →
      t_reverses u ≠ Some o) as Hunrev.
    { intros o Ho id u Hu Hr. assert (ledger_transactions D !! id = Some u) as Hd.
      { eapply (rl_reverses _ _ _ _ R); [|exact Hu|exact Hr]. right. exists c, r.
        split; [apply lookup_insert_eq|done]. }
      apply (G5 o Ho id u); [|done]. rewrite lookup_union_r; [done|].
      apply eq_None_not_Some. intros Hs%(td_txs _ _ T). congruence. }
    split; [apply (ap_pending _ _ _ _ _ HP); intros o id u Ho; by apply Hunrev|].
    unfold sql_insert_transaction. rewrite Ec, Hrev. simpl. fold r.
    assert (insert_transaction c r (lay (h_own h) D') =
      PgOk (set_transactions (<[c := r]> (ledger_transactions (lay (h_own h) D'))) (lay (h_own h) D')))
      as ->; [|by rewrite <-lay_txs].
    unfold insert_transaction. rewrite !guard_iff, not_exists_iff, one_reversal_iff. split_and!; try done.
    + apply union_none; [done|]. rewrite (rl_own_txs _ _ _ _ R); [done|]. simpl. eauto.
    + intros o Ho id u [Hu|[_ Hu]]%lookup_union_Some_raw; [|by eapply Hunrev].
      apply (G5 o Ho id u). by apply lookup_union_Some_l.
    + unfold fk_tx in *. simpl in G6 |- *. destruct rev as [o|]; [|done].
      apply exists_in_true in G6. apply exists_in_true.
      apply insert_some_inv in G6 as [->|Hs]; [eauto|]. apply insert_some.
      by rewrite (union_mono _ _ _ _ (rl_txs _ _ _ _ R) Hs).
Qed.
End commands.

(** ** Beginning: the key *)

(** Nothing written yet. *)
Definition untried (h : held) : Prop := h_own h = empty_db ∧ ∀ D', h_pending h D'.

Definition key_held (i : Idem) (h : held) : Prop :=
  h_own h = empty_db ∧ (∀ D', h_pending h D') ∧ key_lock i ∈ h_locks h.

Lemma act_same {X} (m m' : M X) P ls Q : same_run m m' → act_ok P ls m Q → act_ok P ls m' Q.
Proof.
  intros Hs Hm h D w x w1 HP T Hl E. rewrite <-Hs in E.
  destruct (Hm h D w x w1 HP T Hl E) as (h1 & HQ & Eo & El & Hlk & Hle & T1 & Hrun).
  exists h1. split_and!; [done..|]. intros D' R Hp. rewrite <-Hs. by apply Hrun.
Qed.

Section beginning.
Context `{Ext} (i : Idem).

Lemma act_LockKey :
  act_ok untried [] (LockKey (IdempotencyScope i) (IdempotencyKey i)) (λ _, key_held i).
Proof.
  unfold LockKey. set (m := map_err _ _). fold (key_lock i).
  apply (act_same (x ← m; acquire (key_lock i);; mret x)).
  { by apply bind_same; [|intros [] w]. }
  apply act_acquire, act_map_err, act_sql. intros h D now [] v' [Ho Hp] T [= <-].
  exists (keep (h_own h) [key_lock i] h). rewrite after_same. split_and!; try done.
  - split_and!; [done|done|]. apply elem_of_app. right. by left.
  - apply tidy_locks; [done|]. by intros a ?%list_elem_of_singleton.
Qed.

Lemma act_claim :
  act_ok (key_held i) [] (claim_statement i) (λ rows h,
    (rows = 1 ∧ at_point i (λ _, True) None None h) ∨ (rows = 0 ∧ key_held i h)).
Proof.
  unfold claim_statement. apply act_map_err, act_sql. intros h D now rows v' (Ho & Hp & Hk) T E.
  unfold sql_claim in E. fold (idem_key i) in E. rewrite Ho, lay_empty in E. simpl in E.
  destruct (idempotency_records D !! idem_key i) as [row|] eqn:Er.
  - injection E as <- <-. exists (keep (h_own h) [] h). rewrite Ho, lay_empty. split_and!; try done.
    + right. split; [done|]. split_and!; simpl; [done|done|by apply in_more].
    + by rewrite after_same.
    + rewrite <-Ho. apply tidy_locks; [done|]. by intros ? ?%not_elem_of_nil.
    + intros D' R _. split; [apply Hp|]. simpl. rewrite !lay_empty. unfold sql_claim. fold (idem_key i).
      by rewrite (key_relied i h [] D D' Hk _ R), Er.
  - apply bind_iff in E as (d1 & E & [= <- <-]). unfold insert_idem in E. fold (idem_key i) in E.
    set (r := IdemRow _ _ _ _ _ _ _) in E.
    rewrite guard_iff, Er in E. destruct E as [Gt E]. simpl in Gt, E. injection E as <-.
    set (own1 := set_idem (<[idem_key i := r]> ∅) empty_db).
    exists (keep own1 [] h). split_and!; simpl.
    + left. split; [done|]. split; simpl; [by apply in_more|done..].
    + rewrite Ho, lay_empty. symmetry. apply (after_idem empty_db D). by rewrite Er.
    + done.
    + rewrite Ho. split; simpl; try done; by intros ? [? ?%lookup_empty_Some].
    + split; simpl; try by intros ? [? ?%lookup_empty_Some].
      * by intros ? ? ? ?%lookup_empty_Some.
      * by intros ? ?%not_elem_of_nil.
      * intros s k [[= -> ->]|[? ?%lookup_empty_Some]]%insert_some_inv; [|done]. by apply in_more.
      * intros a Ha. rewrite app_nil_r in Ha. destruct (td_locked _ _ T a Ha) as [Hs|]; [|by right].
        rewrite Ho in Hs. by destruct Hs.
      * apply (td_seen _ _ T).
    + intros D' R _. split; [apply Hp|]. rewrite Ho, lay_empty. unfold sql_claim. fold (idem_key i).
      rewrite (key_relied i h [] D D' Hk _ R), Er. simpl. unfold insert_idem. simpl. rewrite Gt.
      simpl. fold (idem_key i). rewrite (key_relied i h [] D D' Hk _ R), Er. simpl. fold r.
      rewrite <-(lay_empty D') at 1 2. by rewrite <-lay_idem.
Qed.
End beginning.
