(* ===== verification/LedgerTheorems.v ===== *)
(** The ledger's guarantees, in every state the system reaches and for every
    call of its commands, with concrete instances. *)
From S2P Require Import Prelude GoStrings Json Apperr Failpoint Schema SchemaFacts Monad World Storage Idempotency Event Config Outbox LedgerModel LedgerRepo LedgerService LedgerFacts LedgerEffects Once Kafka Publisher Replay Reconciliation ApiEffects Webhook Writers LedgerInvariant System Demo.
Local Open Scope Z_scope.

Lemma reachable_wf `{UuidLaw} w : reachable w → wf (w_db w) ∧ balanced (w_db w).
Proof. intros Hr. apply written_safe, li_written. by apply reachable_inv. Qed.

(** ** Balances *)

(** C1. In every reachable state the balance of every account is exactly the sum of
    the immutable entries posted to it. *)
Theorem balances_are_entry_sums `{UuidLaw} w a b :
  reachable w → balances (w_db w) !! a = Some b →
  b_amount b = sum_with e_amount (entries_at a (ledger_entries (w_db w))).
Proof. intros Hr%reachable_inv. by apply li_balances. Qed.

Lemma balances_are_entry_sums_witness :
  ∃ b, balances (w_db (demo3 (H:=demo_ext))) !! "alice" = Some b ∧ b_amount b = 100 ∧
    b_amount b = sum_with e_amount (entries_at "alice" (ledger_entries (w_db (demo3 (H:=demo_ext))))).
Proof.
  eexists. split; [vm_compute; reflexivity|]. split; [reflexivity|].
  apply (balances_are_entry_sums (H:=demo_ext) (H0:=demo_uuid)); [apply demo3_reachable|].
  vm_compute. reflexivity.
Defined.

(** Every entry belongs to a known account and a known transaction. *)
Lemma entries_known db :
  wf db →
  Forall (λ e, e_account_id e ∈ (map_to_list (accounts db)).*1) (ledger_entries db) ∧
  Forall (λ e, e_transaction_id e ∈ (map_to_list (ledger_transactions db)).*1) (ledger_entries db).
Proof.
  intros Hwf. split; (eapply Forall_impl; [apply (wf_entries _ Hwf)|]);
    intros e (_ & _ & _ & Ht & Ha).
  - unfold fk_account_currency in Ha. destruct (accounts db !! _) as [x|] eqn:E; [|done].
    apply list_elem_of_fmap. exists (e_account_id e, x). by rewrite elem_of_map_to_list.
  - unfold fk_tx_currency in Ht. destruct (ledger_transactions db !! _) as [x|] eqn:E; [|done].
    apply list_elem_of_fmap. exists (e_transaction_id e, x). by rewrite elem_of_map_to_list.
Qed.

Definition total_balance (db : DB) : Z :=
  sum_with (λ p, b_amount p.2) (map_to_list (balances db)).

(** C2. Money is neither created nor destroyed: in every reachable state the
    balances of all accounts add up to zero. *)
Theorem money_is_conserved `{UuidLaw} w : reachable w → total_balance (w_db w) = 0.
Proof.
  intros Hr. destruct (reachable_wf w Hr) as [Hwf Hbal]. apply reachable_inv in Hr as Hinv.
  destruct (entries_known _ Hwf) as [_ Htx].
  set (db := w_db w) in *. unfold total_balance.
  assert (Forall (λ e, e_account_id e ∈ (map_to_list (balances db)).*1) (ledger_entries db)) as Hba.
  { eapply Forall_impl; [exact (proj1 (entries_known _ Hwf))|]. intros e.
    rewrite !list_elem_of_fmap. intros ([a r] & Ea & Hin).
    apply elem_of_map_to_list in Hin. destruct (li_accounts _ Hinv a r Hin) as (b & Hb & _).
    exists (a, b). by rewrite elem_of_map_to_list. }
  transitivity (sum_with e_amount (ledger_entries db)).
  - rewrite <-(sum_with_groups e_account_id e_amount _ _ (NoDup_fst_map_to_list (balances db)) Hba).
    unfold sum_with at 2. rewrite <-list_fmap_compose. apply sum_with_ext.
    intros [a b] Hin%elem_of_map_to_list. simpl. by apply (li_balances _ Hinv).
  - rewrite <-(sum_with_groups e_transaction_id e_amount _ _
                 (NoDup_fst_map_to_list (ledger_transactions db)) Htx).
    apply sum_with_zero. intros id ([id' t] & -> & Hin)%list_elem_of_fmap.
    apply elem_of_map_to_list in Hin. apply Hbal, (li_txs _ Hinv). eauto.
Qed.

Lemma money_is_conserved_witness :
  size (balances (w_db (demo3 (H:=demo_ext)))) = 2%nat ∧
  total_balance (w_db (demo3 (H:=demo_ext))) = 0.
Proof.
  split; [vm_compute; reflexivity|].
  apply (money_is_conserved (H:=demo_ext) (H0:=demo_uuid)). apply demo3_reachable.
Defined.

(** C3. An account that does not allow overdraft is never negative, in any
    reachable state. *)
Theorem no_overdraft `{UuidLaw} w a r :
  reachable w → accounts (w_db w) !! a = Some r → a_allow_overdraft r = false →
  ∃ b, balances (w_db w) !! a = Some b ∧ 0 ≤ b_amount b.
Proof.
  intros Hr Ha Ho. destruct (reachable_wf w Hr) as [Hwf _]. apply reachable_inv in Hr as Hinv.
  destruct (li_accounts _ Hinv a r Ha) as (b & Hb & Hbo). exists b. split; [done|].
  destruct (wf_balances _ Hwf a b Hb) as [(_ & _ & Hn) _].
  unfold balances_non_negative in Hn. rewrite Hbo, Ho in Hn. simpl in Hn. by apply Z.leb_le.
Qed.

Lemma no_overdraft_witness :
  ∃ b, balances (w_db (demo4 (H:=demo_ext))) !! "alice" = Some b ∧ 0 ≤ b_amount b.
Proof.
  eapply (no_overdraft (H:=demo_ext) (H0:=demo_uuid));
    [apply demo4_reachable|vm_compute; reflexivity|reflexivity].
Defined.

(** ** Transactions *)

(** C4. Every transaction in a reachable state has at least two entries, they sum to
    zero, and each is in the currency of the transaction and of its account. *)
Theorem transactions_balance `{UuidLaw} w id t :
  reachable w → ledger_transactions (w_db w) !! id = Some t →
  let es := entries_of id (ledger_entries (w_db w)) in
  (2 ≤ length es)%nat ∧ sum_with e_amount es = 0 ∧
  Forall (λ e, e_currency e = t_currency t ∧
     ∃ a, accounts (w_db w) !! e_account_id e = Some a ∧ a_currency a = e_currency e) es.
Proof.
  intros Hr Ht es. destruct (reachable_wf w Hr) as [Hwf Hbal]. apply reachable_inv in Hr as Hinv.
  destruct (Hbal id) as [Hlen Hsum]; [apply (li_txs _ Hinv); eauto|].
  fold es in Hlen, Hsum. split_and!; [lia|done|]. apply Forall_forall.
  intros e [He Hin]%list_elem_of_filter. pose proof (wf_entries _ Hwf) as Hall.
  rewrite Forall_forall in Hall. destruct (Hall e Hin) as (_ & _ & _ & Hc & Ha).
  unfold fk_tx_currency in Hc. rewrite He, Ht in Hc. apply String.eqb_eq in Hc.
  split; [done|]. unfold fk_account_currency in Ha.
  destruct (accounts (w_db w) !! e_account_id e) as [a|]; [|done]. exists a.
  by apply String.eqb_eq in Ha.
Qed.

Lemma transactions_balance_witness :
  ∃ t, ledger_transactions (w_db (demo3 (H:=demo_ext))) !! "uuid-0" = Some t ∧
  let es := entries_of "uuid-0" (ledger_entries (w_db (demo3 (H:=demo_ext)))) in
  (2 ≤ length es)%nat ∧ sum_with e_amount es = 0 ∧
  Forall (λ e, e_currency e = t_currency t ∧
     ∃ a, accounts (w_db (demo3 (H:=demo_ext))) !! e_account_id e = Some a ∧
          a_currency a = e_currency e) es.
Proof.
  eexists. split; [vm_compute; reflexivity|].
  apply (transactions_balance (H:=demo_ext) (H0:=demo_uuid)); [apply demo3_reachable|].
  vm_compute. reflexivity.
Defined.

(** C5. Every committed transaction has exactly one outbox event, of the type its
    kind calls for, and every event belongs to a committed transaction. *)
Theorem one_event_per_transaction `{UuidLaw} w :
  reachable w →
  (∀ id t, ledger_transactions (w_db w) !! id = Some t →
     ∃ ev o, outbox_events (w_db w) !! ev = Some o ∧ uuid_in (o_aggregate_id o) = Some id ∧
       o_event_type o = (if String.eqb (t_kind t) TxKindReversal then EventPaymentReversed
                         else EventPaymentCreated) ∧
       ∀ ev' o', outbox_events (w_db w) !! ev' = Some o' → uuid_in (o_aggregate_id o') = Some id →
         ev' = ev) ∧
  (∀ ev o, outbox_events (w_db w) !! ev = Some o →
     ∃ id, uuid_in (o_aggregate_id o) = Some id ∧ is_Some (ledger_transactions (w_db w) !! id)).
Proof.
  intros Hinv%reachable_inv. split; [|apply Hinv]. intros id t Ht.
  destruct (li_event _ Hinv id t Ht) as (ev & o & Ho & Ha & Hty). exists ev, o.
  split_and!; try done. intros ev' o' Ho' Ha'. by eapply (li_event_unique _ Hinv).
Qed.

Lemma one_event_per_transaction_witness :
  ∃ ev o, outbox_events (w_db (demo4 (H:=demo_ext))) !! ev = Some o ∧
    o_aggregate_id o = "uuid-4" ∧ o_event_type o = EventPaymentReversed.
Proof.
  destruct (proj1 (one_event_per_transaction (H:=demo_ext) (H0:=demo_uuid) demo4
              (demo4_reachable (H:=demo_ext))) "uuid-4" _ ltac:(vm_compute; reflexivity))
    as (ev & o & Ho & Ha & Hty & _).
  exists ev, o. split; [exact Ho|]. split; [by injection Ha|exact Hty].
Defined.

(** C6. A transaction is reversed at most once, a reversal is never itself reversed,
    every reversal moves every account by exactly the opposite amount of what it
    reverses, and the reversals table records the pair. *)
Theorem reversed_at_most_once `{UuidLaw} w o c c' t t' :
  reachable w →
  ledger_transactions (w_db w) !! c = Some t → t_reverses t = Some o →
  ledger_transactions (w_db w) !! c' = Some t' → t_reverses t' = Some o →
  c = c' ∧ (∀ u, ledger_transactions (w_db w) !! o = Some u → t_reverses u = None) ∧
  (∀ a, moved (w_db w) c a = - moved (w_db w) o a) ∧
  ∃ rid r, reversals (w_db w) !! rid = Some r ∧ r_original r = o ∧ r_reversal r = c.
Proof.
  intros Hr Hc Ho Hc' Ho'. destruct (reachable_wf w Hr) as [Hwf _].
  apply reachable_inv in Hr as Hinv. split_and!.
  - by eapply (wf_one_reversal _ Hwf).
  - intros u Hu. exact (li_original _ Hinv c t o u Hc Ho Hu).
  - intros a. by eapply (li_mirror _ Hinv).
  - apply (li_reversals _ Hinv). eauto.
Qed.

Lemma reversed_at_most_once_witness :
  moved (w_db (demo4 (H:=demo_ext))) "uuid-0" "alice" = 100 ∧
  moved (w_db (demo4 (H:=demo_ext))) "uuid-4" "alice" =
    - moved (w_db (demo4 (H:=demo_ext))) "uuid-0" "alice".
Proof.
  split; [vm_compute; reflexivity|].
  eapply (reversed_at_most_once (H:=demo_ext) (H0:=demo_uuid) demo4 "uuid-0" "uuid-4" "uuid-4");
    [apply demo4_reachable|vm_compute; reflexivity|reflexivity|vm_compute; reflexivity|reflexivity].
Defined.

(** ** The commands *)

(** C10. However a call of [Transfer] ends (a response, an error, a panic, a lost
    acknowledgement, any number of retries), the database is either exactly as
    it was or has exactly one committed transfer more, complete with its entries,
    balances, event and idempotency record. *)
Theorem Transfer_all_or_nothing `{Ext} cfg ctx cmd w :
  let d := w_db w in
  let d' := w_db (Transfer cfg ctx cmd w).2 in
  d' = d ∨
  (ValidateTransfer cmd = None ∧ idempotency_records d !! idem_key (TrIdem cmd) = None ∧
   ∃ txID t, transfer_effect cfg (WithTransactionID ctx txID) txID cmd t d d' ∧
     commit_check d d' = PgOk tt).
Proof.
  destruct (Transfer_once cfg ctx cmd w) as [?|(Hk & _ & Hv & txID & a & (t & _ & He) & Hc)];
    [by left|]. right. eauto 10.
Qed.

(** The balance of an account, as an amount. *)
Definition balance_at (db : DB) (a : string) : option Z := b_amount <$> balances db !! a.

Lemma shifted_at es a d d' :
  shifted es a (balances d !! a) (balances d' !! a) →
  balance_at d' a = (λ z, z + sum_with EntAmount (at_account a es)) <$> balance_at d a.
Proof.
  unfold balance_at, shifted. destruct (balances d !! a), (balances d' !! a); simpl; try done.
  by intros (-> & _).
Qed.

(** What a transfer of [cmd] does to the balance of [a]. *)
Definition transfer_delta (cmd : TransferCommand) (a : string) : Z :=
  if decide (a = SourceAccountID cmd) then - Amount cmd
  else if decide (a = DestinationAccountID cmd) then Amount cmd else 0.

Lemma transfer_effect_balances `{Ext} cfg ctx txID cmd t d d' a :
  ValidateTransfer cmd = None → transfer_effect cfg ctx txID cmd t d d' →
  balance_at d' a = (λ z, z + transfer_delta cmd a) <$> balance_at d a.
Proof.
  intros (_ & _ & Hne & Hpos & _)%ValidateTransfer_None
    (now & clock & e0 & e1 & src & dst & cid & rows & Hs & Hd & _ & Hp & _).
  apply select_balance_Ok in Hs as (bs & rs & _ & _ & ->).
  apply select_balance_Ok in Hd as (bd & rd & _ & _ & ->).
  rewrite (shifted_at _ _ _ _ (ps_balances _ _ _ _ _ _ _ _ _ Hp a)).
  assert (in_int64 (Amount cmd) = true) as Hin%in_int64_iff.
  { pose proof (ps_rows _ _ _ _ _ _ _ _ _ Hp) as Hrows.
    unfold transfer_transaction, transfer_entries in Hrows. simpl in Hrows.
    inversion_clear Hrows as [|? ? ? ? _ Hrows2].
    inversion_clear Hrows2 as [|? ? ? ? (_ & _ & _ & Hm & _ & _ & _ & Hi) _].
    by rewrite Hm in Hi. }
  assert (wrap64 (- Amount cmd) = - Amount cmd) as Hwrap.
  { apply wrap64_id. unfold int64_min, int64_max in *. lia. }
  match goal with |- _ = ?r => enough (sum_with EntAmount (at_account a
    (transfer_entries txID e0 e1
       (mkLocked (SourceAccountID cmd) "" "" false 0 0)
       (mkLocked (DestinationAccountID cmd) "" "" false 0 0) cmd)) = transfer_delta cmd a) as E
  end.
  { rewrite <-E. done. }
  unfold transfer_delta, at_account, transfer_entries. simpl LkID. rewrite Hwrap.
  rewrite !filter_cons, filter_nil. simpl EntAccountID.
  repeat case_decide; subst; rewrite ?sum_with_cons, ?sum_with_nil; simpl; congruence || lia.
Qed.

(** C11. A transfer that succeeds under a fresh idempotency key debits the source and
    credits the destination by exactly the amount, leaves every other balance
    alone, appends its two entries, and answers 201 with the stored transaction,
    which the key keeps. *)
Theorem Transfer_moves_the_amount `{Ext} cfg ctx cmd w res w' :
  Transfer cfg ctx cmd w = (Ok res, w') →
  idempotency_records (w_db w) !! idem_key (TrIdem cmd) = None →
  (∀ a, balance_at (w_db w') a = (λ z, z + transfer_delta cmd a) <$> balance_at (w_db w) a) ∧
  (∃ r0 r1, ledger_entries (w_db w') = ledger_entries (w_db w) ++ [r0; r1] ∧
     e_account_id r0 = SourceAccountID cmd ∧ e_account_id r1 = DestinationAccountID cmd ∧
     e_amount r0 = - e_amount r1 ∧ e_amount r1 = Amount cmd) ∧
  ResStatus res = 201 ∧
  ∃ row, idempotency_records (w_db w') !! idem_key (TrIdem cmd) = Some row ∧
    i_state row = CompletedState ∧ i_request_hash row = IdemRequestHash (TrIdem cmd) ∧
    i_response_status row = Some 201 ∧ i_response_body row = ResBody res.
Proof.
  intros [(_ & _ & row & Hrow & _)|(Hv & txID & t & He & Hc & Hst & Hb)]%Transfer_Ok Hk; [congruence|].
  split_and!; [by intros a; eapply transfer_effect_balances| |done|].
  - destruct He as (now & clock & e0 & e1 & src & dst & cid & rows & Hs & Hd & _ & Hp & _).
    apply select_balance_Ok in Hs as (? & ? & _ & _ & ->).
    apply select_balance_Ok in Hd as (? & ? & _ & _ & ->).
    apply ValidateTransfer_None in Hv as (_ & _ & _ & Hpos & _).
    pose proof (ps_rows _ _ _ _ _ _ _ _ _ Hp) as Hrows.
    pose proof (ps_entries _ _ _ _ _ _ _ _ _ Hp) as Hent.
    unfold transfer_transaction, transfer_entries in Hrows. simpl in Hrows.
    inversion Hrows as [|? r0 ? rows' (_ & _ & A0 & M0 & _) Hrows2]; subst.
    inversion Hrows2 as [|? r1 ? rows2 (_ & _ & A1 & M1 & _ & _ & _ & I1) Hnil]; subst.
    inversion Hnil; subst. exists r0, r1. simpl in *. apply in_int64_iff in I1.
    split_and!; [done..| |done]. rewrite M0, M1. apply wrap64_id.
    unfold int64_min, int64_max in *. lia.
  - destruct He as (now & clock & e0 & e1 & src & dst & cid & rows & Hs & Hd & _ & Hp & _).
    rewrite (ps_idem _ _ _ _ _ _ _ _ _ Hp), lookup_insert_eq. eexists. split; [done|]. by rewrite Hb.
Qed.

Lemma Transfer_moves_the_amount_witness :
  ∃ res, Transfer (H:=demo_ext) cfg Background fund_alice (demo2 (H:=demo_ext)) = (Ok res, demo3 (H:=demo_ext)) ∧
    balance_at (w_db (demo3 (H:=demo_ext))) "alice" =
      (λ z, z + 100) <$> balance_at (w_db (demo2 (H:=demo_ext))) "alice".
Proof.
  destruct (run_Ok (Transfer (H:=demo_ext) cfg Background fund_alice (demo2 (H:=demo_ext)))
              ltac:(vm_compute; reflexivity)) as [res E].
  exists res. split; [exact E|].
  exact (proj1 (Transfer_moves_the_amount (H:=demo_ext) _ _ _ _ _ _ E
                  ltac:(vm_compute; reflexivity)) "alice").
Defined.

(** Retrying a key that is taken, in whatever state and under whatever faults,
    writes nothing; and if it succeeds, it repeats the stored response of the
    same request, byte for byte. *)
Theorem Transfer_retry_is_a_replay `{Ext} cfg ctx cmd w row :
  idempotency_records (w_db w) !! idem_key (TrIdem cmd) = Some row →
  w_db (Transfer cfg ctx cmd w).2 = w_db w ∧
  ∀ res, (Transfer cfg ctx cmd w).1 = Ok res →
    i_state row = CompletedState ∧ i_request_hash row = IdemRequestHash (TrIdem cmd) ∧
    ResStatus res = default 0 (i_response_status row) ∧ ResBody res = i_response_body row.
Proof.
  intros Hrow. split.
  - destruct (Transfer_once cfg ctx cmd w) as [?|(Hk & _)]; [done|congruence].
  - intros res Hr. destruct (Transfer cfg ctx cmd w) as [o w'] eqn:E. simpl in Hr. subst o.
    apply Transfer_Ok in E as [(_ & _ & row' & Hrow' & ?)|(_ & txID & t & He & _)].
    + rewrite Hrow in Hrow'. by injection Hrow' as <-.
    + destruct He as (now & clock & e0 & e1 & src & dst & cid & rows & _ & _ & _ & Hp & _).
      rewrite (ps_key _ _ _ _ _ _ _ _ _ Hp) in Hrow. done.
Qed.

Lemma Transfer_retry_is_a_replay_witness :
  w_db (Transfer (H:=demo_ext) cfg Background fund_alice (demo3 (H:=demo_ext))).2 =
    w_db (demo3 (H:=demo_ext)).
Proof.
  eapply (proj1 (Transfer_retry_is_a_replay (H:=demo_ext) cfg Background fund_alice
                   (demo3 (H:=demo_ext)) _ _)).
  Unshelve. 2: { vm_compute. reflexivity. }
Defined.

(** C12. A reversal that succeeds under a fresh key takes from every account exactly
    what the original gave it, keeps the original's header and entries as they
    were, and is recorded. *)
Theorem Reverse_restores_balances `{UuidLaw} cfg ctx cmd w res w' :
  reachable w → Reverse cfg ctx cmd w = (Ok res, w') →
  idempotency_records (w_db w) !! idem_key (RvIdem cmd) = None →
  ∃ orig cid, uuid_in (RvTransactionID cmd) = Some orig ∧ ResStatus res = 201 ∧
    (∀ a, balance_at (w_db w') a = (λ z, z - moved (w_db w) orig a) <$> balance_at (w_db w) a) ∧
    entries_of orig (ledger_entries (w_db w')) = entries_of orig (ledger_entries (w_db w)) ∧
    ledger_transactions (w_db w') !! orig = ledger_transactions (w_db w) !! orig ∧
    ledger_transactions (w_db w) !! cid = None ∧
    ∃ t, ledger_transactions (w_db w') !! cid = Some t ∧ t_reverses t = Some orig.
Proof.
  intros Hr HR Hk. apply reachable_inv in Hr as Hinv.
  assert (written (w_db w')) as Hw.
  { pose proof (writer_Reverse cfg ctx cmd w) as Hw. rewrite HR in Hw. apply Hw, Hinv. }
  apply Reverse_Ok in HR as [(_ & _ & row & Hrow & _)|(rid & t & He & Hc & Hst & Hb)]; [congruence|].
  destruct He as (now & clock & orig & original & ms & cid & rows & recid & Horig & Hload & Hchk &
      Hms & corig & Hcorig & Hp & Hrfresh & Hrev & Hev).
  assert (TxID original = orig) as Hid by by destruct Hload as (? & _ & _ & ->).
  assert (corig = orig) as ->.
  { apply uuid_canonical in Horig. rewrite Hid in Hcorig. congruence. }
  assert (orig ≠ cid) as Hne.
  { intros ->. destruct Hload as (r & Hrow & _).
    by rewrite (ps_fresh _ _ _ _ _ _ _ _ _ Hp) in Hrow. }
  assert (Forall (λ e, EntTransactionID e = rid) ms) as Htid.
  { clear -Hms. induction Hms as [|e m es ms (Ht & _) _ IH]; constructor; done. }
  exists orig, cid. split_and!; [done|done| | | |apply Hp|].
  - intros a. rewrite (shifted_at _ _ _ _ (ps_balances _ _ _ _ _ _ _ _ _ Hp a)). simpl Entries.
    rewrite (proj1 (mirrors_sum rid (Entries original) ms a Hms (loaded_range _ _ _ Hinv Hload))).
    by rewrite (loaded_moved _ _ _ a Hload).
  - eapply posted_entries_old; [exact Hp|first [exact Hinv|exact Htid|done]..].
  - by rewrite (ps_txs _ _ _ _ _ _ _ _ _ Hp), lookup_insert_ne.
  - rewrite (ps_txs _ _ _ _ _ _ _ _ _ Hp), lookup_insert_eq. eauto.
Qed.

Lemma Reverse_restores_balances_witness :
  ∃ orig cid, uuid_in (Ext:=demo_ext) (RvTransactionID (undo_funding (H:=demo_ext))) = Some orig ∧
    balance_at (w_db (demo4 (H:=demo_ext))) "alice" =
      (λ z, z - moved (w_db (demo3 (H:=demo_ext))) orig "alice") <$>
        balance_at (w_db (demo3 (H:=demo_ext))) "alice" ∧
    ledger_transactions (w_db (demo3 (H:=demo_ext))) !! cid = None.
Proof.
  destruct (run_Ok (Reverse (H:=demo_ext) cfg Background (undo_funding (H:=demo_ext)) (demo3 (H:=demo_ext)))
              ltac:(vm_compute; reflexivity)) as [res E].
  destruct (Reverse_restores_balances (H:=demo_ext) (H0:=demo_uuid) _ _ _ _ _ _
              (demo3_reachable (H:=demo_ext)) E ltac:(vm_compute; reflexivity))
    as (orig & cid & Ho & _ & Hb & _ & _ & Hn & _).
  exists orig, cid. split; [exact Ho|]. split; [|exact Hn]. exact (Hb "alice").
Defined.

(** History is append-only: no step of the program changes or removes an entry
    or a transaction header; new entries go after the old ones. *)
Theorem history_is_append_only `{Ext} w w' : step w w' → extends (w_db w) (w_db w').
Proof. apply step_extends. Qed.

Lemma history_is_append_only_witness :
  extends (w_db (demo2 (H:=demo_ext))) (w_db (demo3 (H:=demo_ext))).
Proof.
  apply (history_is_append_only (H:=demo_ext)).
  apply step_call, (call_Transfer (H:=demo_ext) cfg Background fund_alice).
Defined.

(** However a reversal ends, the database is as it was or has exactly one
    committed reversal more, complete with its mirrored entries, balances,
    reversal record, event and idempotency record; and it was possible: the
    original exists, is no reversal and had not been reversed. *)
Theorem Reverse_all_or_nothing `{Ext} cfg ctx cmd w :
  let d := w_db w in
  let d' := w_db (Reverse cfg ctx cmd w).2 in
  d' = d ∨
  (idempotency_records d !! idem_key (RvIdem cmd) = None ∧
   is_Some (idempotency_records d' !! idem_key (RvIdem cmd)) ∧
   (∃ orig original, uuid_in (RvTransactionID cmd) = Some orig ∧ loaded d orig original ∧
      TxKind original ≠ TxKindReversal ∧ ReversedByTransactionID original = None) ∧
   ∃ rid t, reversal_effect cfg (WithTransactionID ctx rid) rid cmd t d d' ∧
     commit_check d d' = PgOk tt).
Proof.
  intros d d'. destruct (Reverse_once cfg ctx cmd w) as [?|(Hk & Hk' & rid & a & (t & _ & He) & Hc)];
    [by left|right]. split_and!; [done|done| |by exists rid, t].
  destruct He as (now & clock & orig & original & ms & cid & rows & recid & Horig & Hload & Hchk & _).
  exists orig, original. unfold check_reversible in Hchk.
  destruct (String.eqb_spec (TxKind original) TxKindReversal); [done|].
  by destruct (ReversedByTransactionID original).
Qed.

(** Opening an account either changes nothing, or adds under a key that was free
    the account with an empty balance and the response to repeat; an account
    that exists is never changed. *)
Theorem CreateAccount_all_or_nothing `{Ext} cfg cmd w :
  let d := w_db w in
  let d' := w_db (CreateAccount cfg cmd w).2 in
  d' = d ∨
  (accounts d !! CaID cmd = None ∧ idempotency_records d !! idem_key (CaIdem cmd) = None ∧
   (∃ a, accounts d' = <[CaID cmd := a]> (accounts d) ∧ a_currency a = CaCurrency cmd ∧
      a_kind a = CaKind cmd ∧ a_allow_overdraft a = CaAllowOverdraft cmd ∧
      ∃ row, idempotency_records d' = <[idem_key (CaIdem cmd) := row]> (idempotency_records d) ∧
        i_state row = CompletedState ∧
        i_response_body row = Some (marshal_Account (account_of_row (CaID cmd) a))) ∧
   (∃ b, balances d' = <[CaID cmd := b]> (balances d) ∧ b_amount b = 0) ∧
   ledger_entries d' = ledger_entries d ∧ ledger_transactions d' = ledger_transactions d).
Proof.
  intros d d'. destruct (CreateAccount_once cfg cmd w) as [?|(Hk & _ & (a & (_ & He) & _))]; [by left|right].
  destruct He as (now & _ & Ha & _ & E). unfold d' in *. rewrite E. simpl.
  split_and!; [done|done| |by eexists|done|done]. eexists. split_and!; [done..|]. by eexists.
Qed.
