(* ===== verification/SessionTheorems.v ===== *)
(** Commands that run side by side, statement by statement, have the effect of
    the same commands run one after the other, in the order of their commits. *)
From S2P Require Import Prelude GoStrings Json Apperr Failpoint Schema SchemaFacts Monad World Storage Idempotency Event Config Outbox LedgerModel LedgerRepo LedgerService LedgerFacts LedgerEffects Writers LedgerInvariant Once Kafka Publisher Replay Reconciliation Cache Http Handlers Server Webhook System Demo Sessions SessionFacts SessionStatements.
Local Open Scope Z_scope.

(** * Programs *)

(** Every action of [p] is [act_ok]; from [P] it ends in [Q]. *)
Fixpoint triple {A} (P : assertion) (p : prog A) (Q : A → assertion) : Prop :=
  match p with
  | Done a => ∀ h, P h → Q a h
  | Act m k => ∃ R, act_ok P [] m R ∧ ∀ x, triple (R x) (k x) Q
  end.

Lemma triple_act {A} P (m : M A) Q : act_ok P [] m Q → triple P (act m) Q.
Proof. intros Hm. exists Q. split; [done|]. by intros x h. Qed.

Lemma triple_bind {A B} P (p : prog A) (f : A → prog B) Q R :
  triple P p R → (∀ a, triple (R a) (f a) Q) → triple P (p ≫= f) Q.
Proof.
  revert P. induction p as [a|X m k IH]; intros P Hp Hf; simpl in *.
  - specialize (Hf a). change (triple P (f a) Q).
    assert (∀ (p : prog B) (P' : assertion), triple (R a) p Q → (∀ h, P' h → R a h) → triple P' p Q)
      as Hpre; [|by eapply Hpre].
    intros [b|X m k] P' Hq HP; simpl in *; [auto|]. destruct Hq as (S & Hm & Hk).
    exists S. split; [|done]. by eapply act_weaken.
  - destruct Hp as (S & Hm & Hk). exists S. split; [done|]. intros x. by apply IH.
Qed.

(** A step that leaves the session in [P]. *)
Ltac keeping P := eapply (triple_bind _ _ _ _ (λ _, P)).

Lemma triple_pre {A} (P P' : assertion) (p : prog A) Q :
  triple P p Q → (∀ h, P' h → P h) → triple P' p Q.
Proof.
  destruct p; simpl; [auto|]. intros (R & Hm & Hk) HP. exists R. split; [|done]. by eapply act_weaken.
Qed.

Lemma triple_post {A} P (p : prog A) (Q Q' : A → assertion) :
  triple P p Q → (∀ a h, Q a h → Q' a h) → triple P p Q'.
Proof.
  revert P. induction p as [a|X m k IH]; intros P Hp HQ; simpl in *; [auto|].
  destruct Hp as (R & Hm & Hk). exists R. split; [done|]. intros x. by apply IH.
Qed.

Lemma triple_ret {A} (P : assertion) (a : A) : triple P (mret a) (λ _, P).
Proof. by intros h. Qed.

Lemma triple_each {A} (P : assertion) (f : A → prog unit) l :
  (∀ x, x ∈ l → triple P (f x) (λ _, P)) → triple P (each f l) (λ _, P).
Proof.
  induction l as [|x l IH]; intros Hf; cbn [each]; [by intros h|].
  eapply triple_bind; [by apply Hf; left|]. intros []. apply IH. intros y Hy. apply Hf. by right.
Qed.

(** A step that does not use the database. *)
Lemma triple_detached {A} P (m : M A) : Detached m → triple P (act m) (λ _, P).
Proof. intros Hm. by apply triple_act, act_detached. Qed.

(** What has no result has no bad one. *)
Lemma triple_throw {A} P e (Q : A → assertion) : triple P (act (throw e)) Q.
Proof. exists Q. split; [by intros h D w x w1|by intros x h]. Qed.

Lemma triple_False {A} (p : prog A) Q : triple (λ _, False) p Q.
Proof.
  induction p as [a|X m k IH]; simpl; [done|]. exists (λ _ _, False). split; [|done].
  by intros h D w x w1 [].
Qed.

Lemma triple_pure {A} (φ : Prop) `{Decision φ} P (p : prog A) Q :
  (φ → triple P p Q) → triple (λ h, φ ∧ P h) p Q.
Proof.
  intros Hp. destruct (decide φ) as [Hφ|Hφ].
  - eapply triple_pre; [by apply Hp|]. by intros h [].
  - eapply triple_pre; [apply triple_False|]. by intros h [].
Qed.

(** * The commands *)

Section commands.
Context `{Ext, !UuidLaw} (i : Idem).

Lemma triple_lock pend tx seen ids out :
  triple (at_point i pend tx seen) (lock_steps ids out) (λ _, at_point i pend tx seen).
Proof.
  revert out. induction ids as [|id ids IH]; intros out; cbn [lock_steps]; [by intros h|].
  destruct (out !! id); [apply IH|].
  eapply triple_bind; [|intros acct; apply IH]. apply triple_act, act_acquire, act_map_err.
  apply act_sql_row, stmt_select_balance.
Qed.

Lemma act_entries pend tx seen id c :
  uuid_in id = Some c → tx = Some c ∨ seen = Some c →
  act_ok (at_point i pend tx seen) [] (entries_statement id) (λ _, at_point i pend tx seen).
Proof. intros Hc Hk. by eapply act_map_err, act_sql, stmt_entries. Qed.

Lemma act_complete pend tx seen status body tid :
  act_ok (at_point i pend tx seen) []
    (Complete (IdempotencyScope i) (IdempotencyKey i) status body tid) (λ _, at_point i pend tx seen).
Proof. apply act_map_err, act_sql, stmt_complete. Qed.

(** Once the key is claimed; [tx] is the command's own transaction. *)
Definition working (tx seen : option string) : assertion := at_point i (λ _, True) tx seen.

Definition inserted (txn : Transaction) (seen : option string) : assertion := λ h,
  match uuid_in (TxID txn) with Some c => working (Some c) seen h | None => False end.

(** Nothing more is assumed of the committed database. *)
Definition settled {A} (_ : A) : assertion := λ h, ∀ D', h_pending h D'.

Lemma working_settled tx seen h : working tx seen h → ∀ D', h_pending h D'.
Proof. intros Hw D'. by apply (ap_pending _ _ _ _ _ Hw). Qed.

Lemma triple_inserted {A} txn seen (p : prog A) Q :
  (∀ c, uuid_in (TxID txn) = Some c → triple (working (Some c) seen) p Q) →
  triple (inserted txn seen) p Q.
Proof.
  intros Hp. unfold inserted. destruct (uuid_in (TxID txn)) as [c|]; [by apply Hp|].
  apply triple_False.
Qed.

Lemma triple_load_own c seen id :
  uuid_in id = Some c →
  triple (working (Some c) seen) (load_steps id) (λ _, working (Some c) seen).
Proof.
  intros Hc. eapply triple_bind.
  - by eapply triple_act, act_map_err, act_sql_row, stmt_header_own.
  - intros [[c' t] rb]. eapply triple_bind; [|intros es; apply triple_ret].
    by eapply triple_act, act_entries; [|left].
Qed.

Lemma triple_posting ctx txn rev seen :
  as_uuid_opt (ReversesTransactionID txn) = PgOk rev →
  Forall (λ e, EntTransactionID e = TxID txn) (Entries txn) →
  triple (at_point i (unreversed rev) None seen) (post_steps ctx txn) (λ _, inserted txn seen).
Proof.
  intros Hrev Hent. unfold post_steps. eapply triple_bind.
  { by eapply triple_act, act_map_err, act_sql, stmt_insert_transaction. }
  intros []. apply (triple_inserted txn seen). intros c Hc.
  apply (triple_post _ _ (λ _, working (Some c) seen));
    [|intros [] h Hh; unfold inserted; by rewrite Hc].
  keeping (working (Some c) seen).
  { apply triple_each. intros e He. eapply triple_act, act_map_err, act_sql, stmt_insert_entry; [done|].
    rewrite Forall_forall in Hent. by rewrite (Hent e He). }
  intros []. keeping (working (Some c) seen); [apply triple_detached, _|]. intros [].
  keeping (working (Some c) seen); [|intros []; apply triple_detached, _].
  apply triple_each. intros e _. keeping (working (Some c) seen); [|intros amount; apply triple_ret].
  apply triple_act, act_acquire, act_map_err, act_sql_row, stmt_balance_delta.
Qed.

Lemma triple_finish cfg ctx txn ty data seen :
  triple (inserted txn seen) (finish_steps cfg ctx txn ty data i) settled.
Proof.
  apply triple_inserted. intros c Hc. unfold finish_steps, complete_steps. eapply triple_bind.
  { apply triple_act. unfold writeOutboxEvent. apply act_detached_bind; [apply _|]. intros id.
    apply act_map_err, act_sql, stmt_outbox. }
  intros []. eapply triple_bind; [apply triple_detached, _|]. intros [].
  eapply triple_bind; [eapply triple_bind; [by apply triple_load_own|]|].
  { intros stored. eapply triple_bind; [apply triple_act, act_complete|intros []; apply triple_ret]. }
  intros stored. eapply triple_bind; [apply triple_detached, _|]. intros [] h Hh. exact (working_settled _ _ _ Hh).
Qed.

Lemma triple_transfer cfg ctx txID cmd :
  TrIdem cmd = i → triple (working None None) (transfer_steps cfg ctx txID cmd) settled.
Proof.
  intros Hi.
  unfold transfer_steps. eapply triple_bind; [apply triple_lock|]. intros accts.
  eapply triple_bind; [apply triple_detached, _|]. intros [].
  eapply triple_bind; [apply triple_detached, _|]. intros source.
  eapply triple_bind; [apply triple_detached, _|]. intros dest.
  destruct (check_transfer source dest cmd); [apply triple_throw|].
  do 3 (eapply triple_bind; [apply triple_detached, _|]; intros ?). cbv zeta.
  set (txn := transfer_transaction _ _ _ _ _ _ _).
  keeping (inserted txn None); [|intros []; rewrite Hi; apply triple_finish].
  eapply triple_pre; [apply (triple_posting _ _ None); [done|by repeat constructor]|].
  intros h []. split; auto.
Qed.

(** The original's entries and accounts, once it has been read. *)
Lemma triple_load id :
  triple (working None None) (load_steps id) (λ t h,
    uuid_in id = Some (TxID t) ∧
    at_point i (once_read (TxID t) (ReversedByTransactionID t)) None (Some (TxID t)) h).
Proof.
  eapply triple_bind; [by apply triple_act, act_map_err, act_sql_row, stmt_header|].
  intros [[c t] rb]. apply triple_pure; [apply _|]. intros Hc. simpl in Hc.
  eapply triple_bind; [by eapply triple_act, act_entries; [|right]|].
  intros es h Hh. by split.
Qed.

Lemma mirror_entries_of tid es w ms w' :
  mirror_entries tid es w = (Ok ms, w') → Forall (λ e, EntTransactionID e = tid) ms.
Proof.
  revert w ms. induction es as [|e es IH]; intros w ms; simpl; intros Hr; ok_inv; [done|].
  constructor; [done|]. by eapply IH.
Qed.

Lemma act_mirror (P : assertion) tid es :
  act_ok P [] (mirror_entries tid es) (λ ms h, Forall (λ e, EntTransactionID e = tid) ms ∧ P h).
Proof.
  intros h D w ms w1 HP T Hl E. pose proof (mirror_entries_of _ _ _ _ _ E) as Hms.
  destruct (act_detached (mirror_entries tid es) P _ h D w ms w1 HP T Hl E) as (h1 & HP1 & Hrest).
  exists h1. split; [by split|exact Hrest].
Qed.

Lemma triple_reverse cfg ctx rid cmd :
  RvIdem cmd = i → triple (working None None) (reverse_steps cfg ctx rid cmd) settled.
Proof.
  intros Hi.
  unfold reverse_steps. eapply triple_bind; [apply triple_load|]. intros t.
  apply triple_pure; [apply _|]. intros Ht%uuid_canonical.
  destruct (check_reversible t) as [e|] eqn:Ec; [apply triple_throw|].
  assert (ReversedByTransactionID t = None) as ->.
  { unfold check_reversible in Ec. destruct (String.eqb _ _); [done|].
    by destruct (ReversedByTransactionID t). }
  set (P := at_point _ _ _ _). keeping P.
  { apply triple_act, act_gets. intros n. apply act_map_err, act_sql. by eapply stmt_accounts; [|right]. }
  intros ids. keeping P; [apply triple_lock|]. intros _.
  keeping P; [apply triple_detached, _|]. intros _.
  keeping P; [apply triple_detached, _|]. intros now.
  eapply triple_bind; [apply triple_act, (act_mirror P)|]. intros ms.
  apply triple_pure; [apply _|]. intros Hms. cbv zeta.
  eapply triple_bind; [apply (triple_posting _ _ (Some (TxID t))); [simpl; by rewrite (proj2 (as_uuid_Ok _ _) Ht)|done]|].
  intros []. set (txn := reversal_transaction _ _ _ _ _).
  keeping (inserted txn (Some (TxID t))); [apply triple_detached, _|]. intros recid.
  keeping (inserted txn (Some (TxID t))); [|intros []; rewrite Hi; apply triple_finish].
  apply triple_inserted. intros c Hc.
  apply (triple_post _ _ (λ _, working (Some c) (Some (TxID t))));
    [|intros [] h Hh; unfold inserted; by rewrite Hc].
  apply triple_act, act_map_err, act_sql, stmt_insert_reversal.
Qed.

Lemma triple_create cmd :
  CaIdem cmd = i → triple (working None None) (create_steps cmd) settled.
Proof.
  intros Hi. unfold create_steps. cbv zeta. rewrite !Hi.
  eapply triple_bind; [apply triple_act, act_map_err, act_sql, stmt_insert_account|]. intros acct.
  eapply triple_bind; [apply triple_act, act_map_err, act_sql, stmt_insert_balance|]. intros [].
  eapply triple_bind; [apply triple_act, act_complete|]. intros [] h Hh. exact (working_settled _ _ _ Hh).
Qed.
End commands.

(** * Replays *)

(** A program that only reads, and whose result satisfies [Q]. *)
Fixpoint reads {A} (Q : A → Prop) (p : prog A) : Prop :=
  match p with
  | Done a => Q a
  | Act m k =>
      Respects (keeps id) m ∧ (∀ w, w_locks (m w).2 = w_locks w) ∧
      ∀ w x w', m w = (Ok x, w') → reads Q (k x)
  end.

Lemma reads_bind {A B} (p : prog A) (f : A → prog B) Q R :
  reads R p → (∀ a, R a → reads Q (f a)) → reads Q (p ≫= f).
Proof.
  intros Hp Hf. induction p as [a|X m k IH]; simpl in *; [by apply Hf|].
  destruct Hp as (Hm & Hl & Hk). split_and!; [done..|]. intros w x w' E. eapply IH, Hk, E.
Qed.

Section replays.
Context `{Ext} (i : Idem).

(** The answer the record gives. *)
Definition answers (row : idem_row) (res : Result) : Prop :=
  Replayed res = true ∧ i_state row = CompletedState ∧
  i_request_hash row = IdemRequestHash i ∧
  ResStatus res = default 0 (i_response_status row) ∧ ResBody res = i_response_body row.

Definition reading_steps : prog Result :=
  rec ← act (Fetch (IdempotencyScope i) (IdempotencyKey i));
  replay_steps rec (IdemRequestHash i) (IdempotencyKey i).

Lemma query_row_locks {A} (f : DB → pg (option A)) w :
  w_locks (query_row f w).2 = w_locks w.
Proof.
  unfold query_row, query, sql, mbind, ST_bind. simpl. destruct (stmt_fault _); [done|]. simpl.
  by destruct (f (w_db w)) as [[]|].
Qed.

Lemma query_locks {A} (f : DB → pg A) w : w_locks (query f w).2 = w_locks w.
Proof.
  unfold query, sql, mbind, ST_bind. simpl. destruct (stmt_fault _); [done|]. simpl.
  by destruct (f (w_db w)).
Qed.

Lemma reads_load id : reads (λ _, True) (load_steps id).
Proof.
  eapply reads_bind with (λ _, True).
  - split_and!; [apply _| |done]. intros w. unfold header_statement. rewrite map_err_state.
    apply query_row_locks.
  - intros [[c t] rb] _. eapply reads_bind with (λ _, True); [|done].
    split_and!; [unfold entries_statement; apply _| |done]. intros w. unfold entries_statement.
    rewrite map_err_state. apply query_locks.
Qed.

Lemma reads_replay row k :
  reads (answers row)
    (replay_steps (record_of (IdempotencyScope i) k row) (IdemRequestHash i) (IdempotencyKey i)).
Proof.
  unfold replay_steps, record_of. cbn [RequestHash State ITransactionID].
  destruct (String.eqb_spec (i_request_hash row) (IdemRequestHash i)); cbn [negb].
  2: { split_and!; [apply _|done|done]. }
  destruct (bool_decide _) eqn:Es; cbn [negb]; [|by split_and!; [apply _|..]].
  apply bool_decide_eq_true in Es. destruct (i_transaction_id row); [|done].
  eapply reads_bind; [apply reads_load|]. done.
Qed.

Lemma answers_replayed row res D :
  idempotency_records D !! idem_key i = Some row → answers row res → replayed i res D.
Proof. intros Hrow (? & ? & ? & ? & ?). split; [done|]. by exists row. Qed.
End replays.

(** * Open sessions *)

(** From [P] the program does its work, or turns to reading the record its key
    has. *)
Fixpoint follows `{Ext} (i : Idem) (P : assertion) (p : prog Result) : Prop :=
  match p with
  | Done a => ∀ h, P h → settled a h
  | Act m k =>
      (∃ R, act_ok P [] m R ∧ ∀ x, follows i (R x) (k x)) ∨
      ((∀ h, P h → key_held i h) ∧ p = reading_steps i)
  end.

Section follows.
Context `{Ext, !UuidLaw}.

Lemma triple_follows i P p : triple P p settled → follows i P p.
Proof.
  revert P. induction p as [a|X m k IH]; intros P Hp; [done|].
  destruct Hp as (R & Hm & Hk). left. exists R. split; [done|]. intros x. by apply IH.
Qed.

Lemma follows_False i p : follows i (λ _, False) p.
Proof. apply triple_follows. eapply triple_post; [apply triple_False|done]. Qed.

Lemma follows_claim i work :
  triple (working i None None) work settled →
  follows i untried (claim_or_replay_steps i work).
Proof.
  intros Hw. left. exists (λ _, key_held i). split; [apply act_LockKey|]. intros [].
  left. eexists. split; [apply act_claim|]. intros rows. simpl.
  destruct (rows =? 1) eqn:E.
  - apply Z.eqb_eq in E as ->. apply triple_follows. eapply triple_pre; [exact Hw|].
    by intros h [[_ ?]|[? _]].
  - right. split; [|done]. intros h [[-> _]|[_ ?]]; done.
Qed.

Lemma program_follows c : follows (idem_of c) untried (program c).
Proof.
  destruct c; simpl; apply follows_claim;
    [by apply triple_create|by apply triple_transfer|by apply triple_reverse].
Qed.

(** The session has written nothing, and reads the record its key has. *)
Definition reading (D : DB) (s : session) (h : held) : Prop :=
  s_own s = empty_db ∧ key_lock (idem_of (s_command s)) ∈ h_locks h ∧
  (s_prog s = reading_steps (idem_of (s_command s)) ∨
   ∃ row, idempotency_records D !! idem_key (idem_of (s_command s)) = Some row ∧
     reads (answers (idem_of (s_command s)) row) (s_prog s)).

(** What is true of an open session: either run alone on any database it may find
    at its commit, its command would be where it is now; or it has written
    nothing and only reads. *)
Definition session_ok (D : DB) (s : session) (h : held) : Prop :=
  h_own h = s_own s ∧ same_locks (w_locks (s_world s)) (h_locks h) ∧ tidy h D ∧
  valid (s_command s) = true ∧ w_locks (s_start s) = [] ∧
  ((∃ P : assertion, P h ∧ follows (idem_of (s_command s)) P (s_prog s) ∧
     ∀ D', held_rely h D D' → h_pending h D' →
       exec (program (s_command s)) (set_db D' (s_start s)) = exec (s_prog s) (sees s D')) ∨
   reading D s h).

Lemma session_ok_stable D D' s h : held_rely h D D' → session_ok D s h → session_ok D' s h.
Proof.
  intros R (Ho & Hl & T & Hv & Hs & Hcase). split_and!; try done; [by eapply tidy_stable|].
  destruct Hcase as [(P & HP & Hf & Hrun)|(He & Hk & Hr)].
  - left. exists P. split_and!; [done..|]. intros D2 R2 Hp. apply Hrun; [|done]. by eapply rely_trans.
  - right. split_and!; [done..|]. destruct Hr as [Hr|(row & Hrow & Hr)]; [by left|right].
    exists row. split; [|done]. rewrite <-Hrow. by apply (rl_idem _ _ _ _ R).
Qed.

Lemma new_session_ok D c w :
  valid c = true → session_ok D (new_session c w) (mkHeld empty_db [] (λ _, True) []).
Proof.
  intros Hv. split_and!; try done.
  - split; simpl; try (by intros ? [? ?%lookup_empty_Some]); try (by intros ? ?%not_elem_of_nil).
    + by intros ? ? ? ?%lookup_empty_Some.
    + by intros ? ? [? ?%lookup_empty_Some].
  - left. exists untried. split_and!; [done|apply program_follows|].
    intros D' _ _. unfold sees, new_session. simpl. by rewrite lay_empty.
Qed.

(** ** Its next statement *)

Lemma advance_inv s D s' :
  advance s D = Some s' →
  ∃ X (m : M X) k x w', s_prog s = Act m k ∧ m (sees s D) = (Ok x, w') ∧
    s' = mkSession (s_command s) (s_start s) (after (s_own s) (lay (s_own s) D) (w_db w')) w' (k x).
Proof.
  unfold advance. destruct (s_prog s) as [a|X m k] eqn:Ep; [done|]. simpl.
  unfold mbind, ST_bind. destruct (m (sees s D)) as [[x|e|p] w'] eqn:Em; [|done..].
  intros [= <-]. by exists X, m, k, x, w'.
Qed.

Lemma Fetch_locks i w : w_locks (Fetch (IdempotencyScope i) (IdempotencyKey i) w).2 = w_locks w.
Proof.
  unfold Fetch. rewrite <-(query_locks (λ db, PgOk (idempotency_records db !! idem_key i)) w).
  unfold mbind, ST_bind, map_err, idem_key. destruct (query _ w) as [[[]|e|p] w1]; done.
Qed.

Lemma advance_quiet {X} (m : M X) s D h x w' :
  Respects (keeps id) m → (∀ w, w_locks (m w).2 = w_locks w) →
  m (sees s D) = (Ok x, w') → s_own s = empty_db → same_locks (w_locks (s_world s)) (h_locks h) →
  after (s_own s) (lay (s_own s) D) (w_db w') = empty_db ∧ same_locks (w_locks w') (h_locks h).
Proof.
  intros Hm Hl E Ho Hs. specialize (Hm (sees s D)). specialize (Hl (sees s D)).
  rewrite E in Hm, Hl. unfold keeps in Hm. simpl in *. rewrite Hm, after_same. split; [done|].
  intros l. rewrite Hl. apply Hs.
Qed.

Lemma advance_reading s D s' h :
  reading D s h → same_locks (w_locks (s_world s)) (h_locks h) → advance s D = Some s' →
  reading D s' h ∧ same_locks (w_locks (s_world s')) (h_locks h) ∧
  s_command s' = s_command s ∧ s_start s' = s_start s.
Proof.
  intros (Ho & Hk & Hr) Hl Ha. set (i := idem_of (s_command s)) in *.
  destruct Hr as [Hr|(row & Hrow & Hr)].
  - unfold advance in Ha. rewrite Hr in Ha. simpl in Ha. unfold mbind, ST_bind in Ha.
    destruct (Fetch _ _ (sees s D)) as [[rec|e|p] w'] eqn:Ef; [|done..]. injection Ha as <-. simpl.
    assert (Respects (keeps id) (Fetch (IdempotencyScope i) (IdempotencyKey i))) as Hf
      by (unfold Fetch; respects_tac).
    destruct (advance_quiet _ s D h rec w' Hf (Fetch_locks i) Ef Ho Hl) as [Eo El].
    apply Fetch_Ok in Ef as (row & Hrow & ->). unfold sees in Hrow. rewrite Ho, lay_empty in Hrow.
    split_and!; [|done..]. split_and!; [done|done|]. right. exists row. split; [exact Hrow|].
    apply reads_replay.
  - apply advance_inv in Ha as (X & m & k & x & w' & Ep & Em & ->). rewrite Ep in Hr. simpl in Hr.
    destruct Hr as (Hm & Hlk & Hx).
    destruct (advance_quiet m s D h x w' Hm Hlk Em Ho Hl) as [Eo El].
    split_and!; [|done..]. split_and!; [done|done|]. right. exists row. split; [done|]. by eapply Hx.
Qed.

(** A statement keeps the session in order, whichever it is. *)
Lemma advance_ok s D s' h :
  session_ok D s h → advance s D = Some s' → ∃ h', session_ok D s' h'.
Proof.
  intros (Ho & Hl & T & Hv & Hs & Hcase) Ha.
  assert (reading D s h → ∃ h', session_ok D s' h') as Hreading.
  { intros Hr. destruct (advance_reading s D s' h Hr Hl Ha) as (Hr' & Hl' & Ec & Es).
    exists h. split_and!; [|done|done|by rewrite Ec|by rewrite Es|by right].
    rewrite Ho. destruct Hr as (-> & _). by destruct Hr' as (-> & _). }
  destruct Hcase as [(P & HP & Hf & Hrun)|Hr]; [|by apply Hreading].
  apply advance_inv in Ha as (X & m & k & x & w' & Ep & Em & ->). rewrite Ep in Hf, Hrun.
  destruct Hf as [(R & Hm & Hk)|[Hkey Hr]].
  - unfold sees in Em. rewrite <-Ho in Em.
    destruct (Hm h D (s_world s) x w' HP T Hl Em) as (h1 & HR & Eo & El & Hlk & Hle & T1 & Hrun1).
    exists h1. split_and!; simpl; try done.
    + by rewrite <-Ho.
    + intros l. by rewrite (El l), app_nil_r.
    + left. exists (R x). split_and!; [done|apply Hk|]. intros D' R1 Hp1.
      destruct (Hrun1 D' R1 Hp1) as [Hp Er]. simpl.
      rewrite Hrun; [|by eapply rely_weaken|done].
      unfold sees. simpl. rewrite <-Ho. erewrite bind_run by exact Er. by rewrite Eo.
  - apply Hreading. destruct (Hkey h HP) as (He & _ & Hin). split_and!; [congruence|done|].
    left. by rewrite Ep.
Qed.

(** ** Its end *)

(** A session that is done was, at this moment, either the command run alone or
    a replay. *)
Lemma session_done s D h res :
  session_ok D s h → s_prog s = Done res → commit_check D (lay (s_own s) D) = PgOk tt →
  runs_alone (s_command s) D res (lay (s_own s) D) ∨
  (lay (s_own s) D = D ∧ replayed (idem_of (s_command s)) res D).
Proof.
  intros (Ho & Hl & T & Hv & Hs & Hcase) Ep Hc.
  destruct Hcase as [(P & HP & Hf & Hrun)|(He & Hk & Hr)]; rewrite Ep in *.
  - left. exists (set_db D (s_start s)), (sees s D). split_and!; try done.
    rewrite <-program_performs, Hrun; [done|apply rely_refl|]. by apply (Hf h HP).
  - right. rewrite He, lay_empty. split; [done|].
    destruct Hr as [|(row & Hrow & Hr)]; [done|]. by eapply answers_replayed.
Qed.

(** * All sessions together *)

Definition separate (s s2 : session) : Prop :=
  keys_apart (s_own s) (s_own s2) ∧ ∀ l, l ∈ w_locks (s_world s) → l ∉ w_locks (s_world s2).

Lemma compatible_separate s s2 : compatible s s2 = true → separate s s2.
Proof.
  unfold compatible. intros [Hl Hk]%andb_true_iff. split; [by apply distinct_keys_apart|].
  intros l Hin. rewrite forallb_forall in Hl. specialize (Hl l).
  rewrite <-list_elem_of_In in Hl. by apply Hl, bool_decide_eq_true in Hin.
Qed.

Lemma separate_sym s s2 : separate s s2 → separate s2 s.
Proof. intros [Hk Hl]. split; [by apply keys_apart_sym|]. intros l H2 H1. by apply (Hl l). Qed.

Record cluster_ok (D : DB) (ss : gmap nat session) : Prop := {
  cl_sessions : ∀ i s, ss !! i = Some s → ∃ h, session_ok D s h;
  cl_separate : ∀ i j s s2, i ≠ j → ss !! i = Some s → ss !! j = Some s2 → separate s s2;
}.

(** One session changes, or is new. *)
Lemma cluster_put i s D ss :
  cluster_ok D ss → (∃ h, session_ok D s h) →
  (∀ j s2, j ≠ i → ss !! j = Some s2 → separate s s2) → cluster_ok D (<[i := s]> ss).
Proof.
  intros [Hss Hap] Hok Hother. split.
  - intros j s2 [[<- <-]|[Hne Hj]]%lookup_insert_Some; [done|by eapply Hss].
  - intros j1 j2 s1 s2 Hne [[<- <-]|[N1 H1]]%lookup_insert_Some [[<- <-]|[N2 H2]]%lookup_insert_Some;
      [done|by eapply Hother|by eapply separate_sym, Hother|by eapply (Hap j1 j2)].
Qed.

Lemma cluster_delete i D ss : cluster_ok D ss → cluster_ok D (delete i ss).
Proof.
  intros [Hss Hap]. split.
  - intros j s [_ Hj]%lookup_delete_Some. by eapply Hss.
  - intros j1 j2 s1 s2 Hne [_ H1]%lookup_delete_Some [_ H2]%lookup_delete_Some. by eapply (Hap j1 j2).
Qed.

(** The committed database changes as every session allows. *)
Lemma cluster_move D D' ss :
  cluster_ok D ss → (∀ i s h, ss !! i = Some s → session_ok D s h → held_rely h D D') →
  cluster_ok D' ss.
Proof.
  intros [Hss Hap] Hrel. split; [|done]. intros i s Hi. destruct (Hss i s Hi) as [h Hh].
  exists h. eapply session_ok_stable; [|done]. by eapply Hrel.
Qed.

Lemma commit_allowed s s2 h h2 D :
  session_ok D s h → session_ok D s2 h2 → separate s s2 → held_rely h D (lay (s_own s2) D).
Proof.
  intros (Ho & Hl & T & _) (Ho2 & Hl2 & T2 & _) [Hk Hlk]. rewrite <-Ho2.
  apply commit_rely; [done|done|by rewrite Ho, Ho2|].
  intros l H1%(Hl l) H2%(Hl2 l). by apply (Hlk l).
Qed.

Lemma cstep_ok c c' : cstep c c' → cluster_ok (committed c) (sessions c) →
  cluster_ok (committed c') (sessions c').
Proof.
  intros [i cmd w D ss l Hi Hv|i s s' D ss l Hi Ha Hf|i D ss l|i s res D ss l Hi Ep Hc|D D' ss l Ha] Hok;
    simpl in *.
  - apply cluster_put; [done|by eexists; apply new_session_ok|]. intros j s2 _ _. split; [|by intros l0 ?%not_elem_of_nil].
    split; simpl; try (by intros ? [? ?%lookup_empty_Some]); try (by intros ? ? ?%not_elem_of_nil);
      by intros ? ? ? ? ?%lookup_empty_Some.
  - destruct (cl_sessions _ _ Hok i s Hi) as [h Hh]. apply cluster_put; [done|by eapply advance_ok|].
    intros j s2 Hne Hj. apply compatible_separate. eapply (Hf j s2). by rewrite lookup_delete_ne.
  - by apply cluster_delete.
  - destruct (cl_sessions _ _ Hok i s Hi) as [h Hh].
    apply (cluster_move D); [by apply cluster_delete|]. intros j s2 h2 [Hne Hj]%lookup_delete_Some Hh2.
    eapply commit_allowed; [done..|]. by eapply (cl_separate _ _ Hok j i).
  - apply (cluster_move D); [done|]. intros j s h _ _. by apply aside_rely.
Qed.

(** What a step commits is what the command does alone. *)
Lemma cstep_serial c c' D0 :
  cstep c c' → cluster_ok (committed c) (sessions c) →
  serial D0 (answered c) (committed c) → serial D0 (answered c') (committed c').
Proof.
  intros [i cmd w D ss l Hi Hv|i s s' D ss l Hi Ha Hf|i D ss l|i s res D ss l Hi Ep Hc|D D' ss l Ha] Hok Hs;
    simpl in *; try done.
  - destruct (cl_sessions _ _ Hok i s Hi) as [h Hh].
    assert (valid (s_command s) = true) as Hv by apply Hh.
    destruct (session_done _ _ _ _ Hh Ep Hc) as [Hr|[E Hr]]; [by eapply serial_command|].
    rewrite E. by eapply serial_replay.
  - by eapply serial_worker.
Qed.

Lemma cluster_reached D0 c :
  rtc cstep (no_sessions D0) c →
  cluster_ok (committed c) (sessions c) ∧ serial D0 (answered c) (committed c).
Proof.
  intros Hs. pattern c. revert Hs. apply rtc_ind_r.
  - split; [|apply serial_nil]. split; simpl; [by intros ? ? ?%lookup_empty_Some|].
    by intros ? ? ? ? ? ?%lookup_empty_Some.
  - intros c1 c2 _ Hst [Hok Hse]. split; [by eapply cstep_ok|by eapply cstep_serial].
Qed.

(** A schedule that can be executed is a run. *)
Lemma perform_step e c c' : perform e c = Some c' → cstep c c'.
Proof.
  destruct c as [D ss l], e as [i cmd w|i|i|i]; simpl; intros E.
  - destruct (bool_decide _ && valid cmd) eqn:Ec; [|done]. injection E as <-.
    apply andb_true_iff in Ec as [Hn%bool_decide_eq_true Hv]. by constructor.
  - apply bind_Some in E as (s & Hi & E). apply bind_Some in E as (s' & Ha & E).
    case_bool_decide; [|done]. injection E as <-. by eapply cstep_statement.
  - injection E as <-. constructor.
  - apply bind_Some in E as (s & Hi & E). destruct (s_prog s) as [res|] eqn:Ep; [|done].
    destruct (commit_check _ _) as [[]|] eqn:Ec; [|done]. injection E as <-. by eapply cstep_commit.
Qed.

Lemma schedule_runs es c c' : schedule es c = Some c' → rtc cstep c c'.
Proof.
  revert c. induction es as [|e es IH]; intros c; simpl; [by intros [= ->]|].
  intros (c1 & E1 & E)%bind_Some. eapply rtc_l; [by apply perform_step in E1|]. by apply IH.
Qed.
End follows.

(** * What a serial history guarantees *)

Section serial.
Context `{Ext}.

(** A closure that ran replayed the record, or did the work and recorded it. *)
Lemma closure_cases c w res w' :
  closure c w = (Ok res, w') →
  (w_db w' = w_db w ∧ replayed (idem_of c) res (w_db w)) ∨
  (idempotency_records (w_db w) !! idem_key (idem_of c) = None ∧
   recorded (idem_of c) res (w_db w') ∧
   ∀ k, k ≠ idem_key (idem_of c) →
     idempotency_records (w_db w') !! k = idempotency_records (w_db w) !! k).
Proof.
  assert (∀ i now txn cid row rows t d d', posted i now txn cid row rows t d d' →
    idempotency_records d !! idem_key i = None ∧ recorded i (committed_result t) d' ∧
    ∀ k, k ≠ idem_key i → idempotency_records d' !! k = idempotency_records d !! k) as Hposted.
  { intros i now txn cid row rows t d d' Hp. split_and!; [apply Hp| |].
    - eexists. by rewrite (ps_idem _ _ _ _ _ _ _ _ _ Hp), lookup_insert_eq.
    - intros k Hk. by rewrite (ps_idem _ _ _ _ _ _ _ _ _ Hp), lookup_insert_ne. }
  destruct c as [cmd|cfg ctx txID cmd|cfg ctx rid cmd]; simpl.
  - intros [?|(_ & Hrec & (now & Hk & _ & _ & E))]%create_closure_Ok; [by left|right].
    split_and!; [done..|]. intros k Hne. rewrite E. simpl. by rewrite lookup_insert_ne.
  - intros [?|(t & -> & He)]%transfer_closure_Ok; [by left|right].
    destruct He as (? & ? & ? & ? & ? & ? & ? & ? & _ & _ & _ & Hp & _). by eapply Hposted.
  - intros [?|(t & -> & He)]%reverse_closure_Ok; [by left|right].
    destruct He as (? & ? & ? & ? & ? & ? & ? & ? & _ & _ & _ & _ & ? & _ & Hp & _). by eapply Hposted.
Qed.

Lemma closure_writes c : Respects writes (closure c).
Proof. destruct c; simpl; apply _. Qed.

Lemma runs_alone_inv `{!UuidLaw} c D res D' :
  valid c = true → runs_alone c D res D' → ledger_inv D → ledger_inv D'.
Proof.
  intros Hv (w & w' & <- & _ & E & <- & Hc) Hinv.
  assert (written (w_db w')) as Hw.
  { eapply written_raw; [apply Hinv| |exact Hc]. pose proof (closure_writes c w) as Hs. by rewrite E in Hs. }
  destruct c as [cmd|cfg ctx txID cmd|cfg ctx rid cmd]; simpl in E, Hv.
  - apply create_closure_Ok in E as [[-> _]|(_ & _ & He)]; [done|by eapply account_effect_inv].
  - destruct (ValidateTransfer cmd) eqn:Ev; [done|].
    apply transfer_closure_Ok in E as [[-> _]|(t & _ & He)]; [done|by eapply transfer_effect_inv].
  - apply reverse_closure_Ok in E as [[-> _]|(t & _ & He)]; [done|by eapply reversal_effect_inv].
Qed.

Lemma aside_db_written D D' : aside_db D D' → keeps_written D D'.
Proof.
  intros (Hs & Hl & _) Hw. eapply written_raw; [done..|]. injection Hl as _ _ _ Ee _ _.
  unfold commit_check. by rewrite Ee, drop_all.
Qed.

Lemma serial_inv `{!UuidLaw} D l D' : serial D l D' → ledger_inv D → ledger_inv D'.
Proof.
  intros Hs Hinv. induction Hs as [D|D l D1 c res D2 _ IH Hv Hr|D l D1 c res _ IH _ _|D l D1 D2 _ IH Ha].
  - done.
  - by eapply runs_alone_inv, IH.
  - by apply IH.
  - eapply ledger_inv_beside; [by apply aside_db_written|apply Ha|apply Ha|by apply IH].
Qed.

(** Every answer given so far is in the database. *)
Definition remembered (l : list (command * Result)) (D : DB) : Prop :=
  ∀ c res, (c, res) ∈ l → recorded (idem_of c) res D.

Lemma recorded_replayed i res D : replayed i res D → recorded i res D.
Proof. intros (_ & row & ? & ? & _ & ? & ?). by exists row. Qed.

Lemma serial_command_cases l D c res D' :
  runs_alone c D res D' → remembered l D →
  remembered (l ++ [(c, res)]) D' ∧
  (replayed (idem_of c) res D ∨ idempotency_records D !! idem_key (idem_of c) = None).
Proof.
  intros (w & w' & <- & _ & E & <- & _) Hl.
  apply closure_cases in E as [[-> Hr]|(Hn & Hr & Hsame)]; (split; [|by auto]).
  - intros c' res' [Hin|[= -> ->]%list_elem_of_singleton]%elem_of_app; [by apply Hl|].
    by apply recorded_replayed.
  - intros c' res' [Hin|[= -> ->]%list_elem_of_singleton]%elem_of_app; [|done].
    destruct (Hl c' res' Hin) as (row & Hrow & Hrest). exists row. split; [|done].
    rewrite Hsame; [done|]. intros Hk. congruence.
Qed.

Lemma serial_remembered D l D' : serial D l D' → remembered l D'.
Proof.
  induction 1 as [D|D l D1 c res D2 _ IH _ Hr|D l D1 c res _ IH _ Hr|D l D1 D2 _ IH Ha].
  - by intros c res ?%not_elem_of_nil.
  - by destruct (serial_command_cases _ _ _ _ _ Hr IH).
  - intros c' res' [Hin|[= -> ->]%list_elem_of_singleton]%elem_of_app; [by apply IH|].
    by apply recorded_replayed.
  - destruct Ha as (_ & Hl & _). injection Hl as _ _ _ _ _ Ei. intros c res Hin.
    destruct (IH c res Hin) as (row & Hrow & ?). exists row. by rewrite Ei.
Qed.

Lemma recorded_same i j res res' D :
  idem_key i = idem_key j → recorded i res D → recorded j res' D →
  ResStatus res' = ResStatus res ∧ ResBody res' = ResBody res.
Proof.
  intros Ek (row & Hrow & _ & Hs & Hb) (row' & Hrow' & _ & Hs' & Hb').
  rewrite Ek in Hrow. rewrite Hrow in Hrow'. injection Hrow' as <-. split; congruence.
Qed.

(** An answer after another to the same key is a replay of it. *)
Lemma serial_once D0 l D i j c1 c2 r1 r2 :
  serial D0 l D → l !! i = Some (c1, r1) → l !! j = Some (c2, r2) → (i < j)%nat →
  idem_key (idem_of c1) = idem_key (idem_of c2) → Replayed r2 = true.
Proof.
  intros Hs. revert i j. induction Hs as [D|D l D1 c res D2 Hs IH _ Hr|D l D1 c res Hs IH _ Hr|D l D1 D2 _ IH Ha];
    intros i j Hi Hj Hij Hk; [done| | |by eapply IH].
  - apply lookup_snoc_Some in Hj as [[Hlt Hj]|[-> [= -> ->]]].
    { rewrite lookup_app_l in Hi by lia. by eapply IH. }
    rewrite lookup_app_l in Hi by lia. apply list_elem_of_lookup_2 in Hi.
    destruct (serial_remembered _ _ _ Hs c1 r1 Hi) as (row & Hrow & _).
    destruct (serial_command_cases _ _ _ _ _ Hr (serial_remembered _ _ _ Hs)) as [_ [[? _]|Hn]]; [done|].
    rewrite Hk in Hrow. congruence.
  - apply lookup_snoc_Some in Hj as [[Hlt Hj]|[-> [= -> ->]]]; [|by apply Hr].
    rewrite lookup_app_l in Hi by lia. by eapply IH.
Qed.
End serial.

(** * The properties *)

(** C7. However the statements of CreateAccount, Transfer and Reverse sessions
    interleave, with workers' statements, rollbacks and waits between them, the
    committed database and the answers are those of the same commands run one at
    a time, each whole, in the order of their commits; an answer that is not a
    command's own work repeats the record its key has. *)
Theorem statements_interleave_serially `{Ext, !UuidLaw} D0 c :
  rtc cstep (no_sessions D0) c → serial D0 (answered c) (committed c).
Proof. by intros [_ ?]%cluster_reached. Qed.

(** C8. Concurrent sessions keep every invariant of the ledger: started on any
    state the system reaches, whatever the interleaving of their statements, the
    committed balances are the sums of their entries, transactions balance and
    have one event, reversals mirror what they reverse. *)
Theorem concurrency_keeps_the_ledger `{Ext, !UuidLaw} w c :
  reachable w → rtc cstep (no_sessions (w_db w)) c → ledger_inv (committed c).
Proof.
  intros Hw [_ Hs]%cluster_reached. eapply serial_inv; [exact Hs|]. by apply reachable_inv.
Qed.

(** C9. Of concurrent requests with one idempotency key at most one does the work:
    every answer committed after another to the same key is a replay, with the
    same status and body. *)
Theorem concurrent_retries_agree `{Ext, !UuidLaw} D0 c i j c1 c2 r1 r2 :
  rtc cstep (no_sessions D0) c →
  answered c !! i = Some (c1, r1) → answered c !! j = Some (c2, r2) → (i < j)%nat →
  idem_key (idem_of c1) = idem_key (idem_of c2) →
  Replayed r2 = true ∧ ResStatus r2 = ResStatus r1 ∧ ResBody r2 = ResBody r1.
Proof.
  intros [_ Hs]%cluster_reached Hi Hj Hij Hk. split; [exact (serial_once _ _ _ _ _ _ _ _ _ Hs Hi Hj Hij Hk)|].
  pose proof (serial_remembered _ _ _ Hs) as Hr.
  apply list_elem_of_lookup_2 in Hi, Hj.
  by eapply recorded_same; [exact Hk|apply Hr..].
Qed.

(** ** A concrete interleaving *)

Section demo.
#[local] Existing Instances demo_ext demo_uuid.

(** Two accounts and a funding transfer. *)
#[local] Abbreviation demo_db := (w_db demo3).

(** A process that has drawn [n] UUIDs. *)
Definition process (n : nat) : World := set_uuid n demo_world.

Definition pay_bank := mkTransfer "alice" "bank" 30 "USD" "rent" "" (key "k6").
Definition pay_bank_cmd := CmdTransfer cfg Background "uuid-100" pay_bank.
Definition pay_again_cmd := CmdTransfer cfg Background "uuid-200" pay_bank.
Definition refund := mkTransfer "bank" "alice" 5 "USD" "refund" "" (key "k7").
Definition refund_cmd := CmdTransfer cfg Background "uuid-300" refund.
Definition open_carol := mkCreateAccount "carol" "USD" "user" false None (key "k8").

(** Two payments of the same accounts, a retry of the first, a new account: the
    second payment has claimed its key when the first locks the rows; the account
    is created, and committed, in the middle; the retry waits for the key. *)
Definition demo_schedule : list event :=
  [Begin 1 pay_bank_cmd (process 101); Begin 2 refund_cmd (process 301);
   Begin 3 (CmdCreate open_carol) (process 401); Begin 4 pay_again_cmd (process 201);
   Run 1; Run 2; Run 3; Run 1; Run 2; Run 1; Run 3; Run 1] ++
  repeat (Run 1) 8 ++ [Run 3; Run 3; Run 3; Commit 3] ++ repeat (Run 1) 11 ++ [Commit 1] ++
  [Run 4; Run 4] ++ repeat (Run 2) 21 ++ repeat (Run 4) 3 ++ [Commit 2; Commit 4].

Definition demo_end : cluster :=
  default (no_sessions demo_db) (schedule demo_schedule (no_sessions demo_db)).

(** The [n]-th answer. *)
Definition answer (n : nat) : Result :=
  match answered demo_end !! n with
  | Some (_, res) => res
  | None => mkResult None 0 None false
  end.

Lemma demo_interleaving : rtc cstep (no_sessions demo_db) demo_end.
Proof.
  apply (schedule_runs demo_schedule). unfold demo_end.
  assert (is_Some (schedule demo_schedule (no_sessions demo_db))) as [c ->]; [|done].
  destruct (schedule _ _) eqn:E; [by eexists|]. exfalso. revert E. by vm_compute.
Qed.

(** With the payment under way, the refund waits for the rows and the retry for
    the key. *)
Example demo_waits :
  match schedule (take 30 demo_schedule) (no_sessions demo_db) with
  | Some c => (perform (Run 2) c, perform (Run 4) c)
  | None => (Some demo_end, Some demo_end)
  end = (None, None).
Proof. by vm_compute. Qed.

Lemma statements_interleave_serially_witness :
  length (answered demo_end) = 4%nat ∧
  serial demo_db (answered demo_end) (committed demo_end).
Proof.
  split; [by vm_compute|]. apply statements_interleave_serially, demo_interleaving.
Defined.

Lemma concurrency_keeps_the_ledger_witness :
  (b_amount <$> balances (committed demo_end)) !! "alice" = Some 75 ∧
  ledger_inv (committed demo_end).
Proof.
  split; [by vm_compute|].
  exact (concurrency_keeps_the_ledger demo3 demo_end demo3_reachable demo_interleaving).
Defined.

Lemma concurrent_retries_agree_witness :
  Replayed (answer 1) = false ∧ Replayed (answer 3) = true ∧
  ResStatus (answer 3) = ResStatus (answer 1) ∧ ResBody (answer 3) = ResBody (answer 1).
Proof.
  split; [by vm_compute|].
  apply (concurrent_retries_agree demo_db demo_end 1 3 pay_bank_cmd pay_again_cmd);
    [apply demo_interleaving|by vm_compute|by vm_compute|lia|done].
Defined.
End demo.
