(* ===== verification/ReconcileTheorems.v ===== *)
(** The audit of [reconcile.go]: what a clean report means, and that the ledger
    always gets one. *)
From S2P Require Import Prelude GoStrings Json Apperr Failpoint Schema SchemaFacts Monad World Storage LedgerModel LedgerService Reconciliation LedgerInvariant System Demo LedgerTheorems.
Local Open Scope Z_scope.

Lemma fmap_nil_iff {A B} (f : A → B) (l : list A) : f <$> l = [] ↔ l = [].
Proof. by destruct l. Qed.

Section audit.
Context `{Ext}.

Definition mismatched (x : string * Z * Z) : Prop := x.1.2 ≠ x.2.
#[export] Instance mismatched_dec x : Decision (mismatched x).
Proof. unfold mismatched. apply _. Defined.

Definition unbalanced (x : string * Z * Z) : Prop := x.1.2 ≠ 0 ∨ x.2 < 2.
#[export] Instance unbalanced_dec x : Decision (unbalanced x).
Proof. unfold unbalanced. apply _. Defined.

(** What the two scans add to a report. *)
Lemma scan_balances_run rows r w :
  Forall (λ x, in_int64 x.2 = true) rows →
  ∃ r', scan_balances rows r w = (Ok r', w) ∧ UnbalancedTxIDs r' = UnbalancedTxIDs r ∧
    TransactionsChecked r' = TransactionsChecked r ∧
    AccountsChecked r' = AccountsChecked r + Z.of_nat (length rows) ∧
    MmAccountID <$> Mismatches r' =
      (MmAccountID <$> Mismatches r) ++ ((λ x, x.1.1) <$> filter mismatched rows).
Proof.
  revert r. induction rows as [|[[id s] c] rows IH]; intros r Hall.
  { exists r. rewrite app_nil_r. split_and!; try done. simpl. lia. }
  inversion_clear Hall as [|? ? Hc Hrest]. simpl in Hc. cbn [scan_balances]. rewrite Hc. cbn [negb].
  destruct (IH (if s =? c then account_checked r
                else add_mismatch (mkMismatch id s c (wrap64 (s - c))) (account_checked r)) Hrest)
    as (r' & E & Hu & Ht & Ha & Hm).
  exists r'. split; [exact E|]. rewrite Hu, Ht, Ha, Hm, filter_cons. simpl length.
  destruct (decide (mismatched (id, s, c))) as [Hd|Hd]; unfold mismatched in Hd; simpl in Hd;
    destruct (Z.eqb_spec s c); try done; simpl.
  - rewrite fmap_app, <-app_assoc. split_and!; try done. lia.
  - split_and!; try done. lia.
Qed.

Lemma scan_transactions_run rows r w :
  Forall (λ x, in_int64 x.1.2 = true) rows →
  ∃ r', scan_transactions rows r w = (Ok r', w) ∧ Mismatches r' = Mismatches r ∧
    AccountsChecked r' = AccountsChecked r ∧
    TransactionsChecked r' = TransactionsChecked r + Z.of_nat (length rows) ∧
    UnbalancedTxIDs r' = UnbalancedTxIDs r ++ ((λ x, x.1.1) <$> filter unbalanced rows).
Proof.
  revert r. induction rows as [|[[id s] c] rows IH]; intros r Hall.
  { exists r. rewrite app_nil_r. split_and!; try done. simpl. lia. }
  inversion_clear Hall as [|? ? Hc Hrest]. simpl in Hc. cbn [scan_transactions]. rewrite Hc.
  cbn [negb].
  destruct (IH (if negb (s =? 0) || (c <? 2) then add_unbalanced id (transaction_checked r)
                else transaction_checked r) Hrest) as (r' & E & Hm & Ha & Ht & Hu).
  exists r'. split; [exact E|]. rewrite Hu, Ht, Ha, Hm, filter_cons. simpl length.
  destruct (decide (unbalanced (id, s, c))) as [Hd|Hd]; unfold unbalanced in Hd; simpl in Hd;
    destruct (Z.eqb_spec s 0), (Z.ltb_spec c 2); try lia; simpl;
    rewrite <-?app_assoc; split_and!; try done; lia.
Qed.

(** A scan only ends well when every sum fits. *)
Lemma scan_balances_fits rows r w r' w' :
  scan_balances rows r w = (Ok r', w') → Forall (λ x, in_int64 x.2 = true) rows.
Proof.
  revert r. induction rows as [|[[id s] c] rows IH]; intros r; [done|]. cbn [scan_balances].
  destruct (in_int64 c) eqn:Hc; simpl; [|done]. intros Hr. constructor; [done|by eapply IH].
Qed.

Lemma scan_transactions_fits rows r w r' w' :
  scan_transactions rows r w = (Ok r', w') → Forall (λ x, in_int64 x.1.2 = true) rows.
Proof.
  revert r. induction rows as [|[[id s] c] rows IH]; intros r; [done|]. cbn [scan_transactions].
  destruct (in_int64 s) eqn:Hc; simpl; [|done]. intros Hr. constructor; [done|by eapply IH].
Qed.

Lemma counted_query_Ok {A} what (f : DB → pg A) w a w' :
  counted_query what f w = (Ok a, w') → f (w_db w) = PgOk a ∧ w_db w' = w_db w.
Proof.
  unfold counted_query. intros (r & w1 & E1 & Hr)%bind_Ok. destruct r as [err|rows]; [ok_inv|].
  apply ret_Ok in Hr as [-> ->]. apply try_Ok_inr, query_Ok in E1 as [E1 ->]. done.
Qed.

Lemma rows_Err_Ok what w w' : rows_Err what w = (Ok tt, w') → w_db w' = w_db w.
Proof.
  unfold rows_Err. intros (n & w1 & E1 & Hr)%bind_Ok. apply stable_run in E1 as [<- _]; [|apply _].
  destruct (stmt_fault n); ok_inv. done.
Qed.

(** The report of a run that succeeds. *)
Lemma Run_Ok w rep w' :
  Reconciliation.Run w = (Ok rep, w') →
  w_db w' = w_db w ∧
  AccountsChecked rep = Z.of_nat (length (balance_sums (w_db w))) ∧
  TransactionsChecked rep = Z.of_nat (length (transaction_sums (w_db w))) ∧
  MmAccountID <$> Mismatches rep = (λ x, x.1.1) <$> filter mismatched (balance_sums (w_db w)) ∧
  UnbalancedTxIDs rep = (λ x, x.1.1) <$> filter unbalanced (transaction_sums (w_db w)).
Proof.
  unfold Reconciliation.Run. intros (start & w1 & E1 & Hr)%bind_Ok. apply gets_Ok in E1 as [-> ->].
  apply bind_Ok in Hr as (rows & w2 & E2 & Hr). apply counted_query_Ok in E2 as [[= <-] Hd2].
  apply bind_Ok in Hr as (r1 & w3 & E3 & Hr). apply scan_balances_fits in E3 as Hf1.
  destruct (scan_balances_run _ (mkReport (w_clock w1) 0 0 [] [] "") w2 Hf1)
    as (r1' & E3' & Hu1 & Ht1 & Ha1 & Hm1). rewrite E3' in E3. injection E3 as <- <-.
  apply bind_Ok in Hr as ([] & w4 & E4 & Hr). apply rows_Err_Ok in E4 as Hd4.
  apply bind_Ok in Hr as (rows2 & w5 & E5 & Hr). apply counted_query_Ok in E5 as [[= <-] Hd5].
  apply bind_Ok in Hr as (r2 & w6 & E6 & Hr). apply scan_transactions_fits in E6 as Hf2.
  destruct (scan_transactions_run _ r1' w5 Hf2) as (r2' & E6' & Hm2 & Ha2 & Ht2 & Hu2).
  rewrite E6' in E6. injection E6 as <- <-.
  apply bind_Ok in Hr as ([] & w7 & E7 & Hr). apply rows_Err_Ok in E7 as Hd7.
  apply bind_Ok in Hr as (stop & w7' & [-> ->]%gets_Ok & Hr).
  apply bind_Ok in Hr as ([] & w8 & E8 & Hr). apply ret_Ok in Hr as [<- <-]. simpl.
  assert (w_db w8 = w_db w7') as Hd8 by (destruct (_ <? _); by stable_inv).
  rewrite Hm2, Ha2, Ht2, Hu2, Hm1, Ha1, Ht1, Hu1. rewrite Hd4, Hd2 in *. simpl in *.
  split_and!; [congruence|lia|lia|done|done].
Qed.

Lemma filter_nil_iff {A} (P : A → Prop) `{∀ x, Decision (P x)} (l : list A) :
  filter P l = [] ↔ Forall (λ x, ¬ P x) l.
Proof.
  split; [|apply list_filter_none]. intros E. apply Forall_forall. intros x Hx HP.
  by apply (filter_nil_not_elem_of P l x) in E.
Qed.

Lemma OK_iff rep : OK rep = true ↔ Mismatches rep = [] ∧ UnbalancedTxIDs rep = [].
Proof.
  unfold OK. rewrite andb_true_iff, !Nat.eqb_eq. by rewrite !length_zero_iff_nil.
Qed.

(** C23. A report is clean exactly when the ledger is consistent: every stored
    balance equals the sum of the account's entries and every transaction has
    at least two entries that sum to zero; and the audit changes nothing. *)
Theorem clean_report_iff_consistent w rep w' :
  Reconciliation.Run w = (Ok rep, w') →
  w_db w' = w_db w ∧
  AccountsChecked rep = Z.of_nat (size (balances (w_db w))) ∧
  TransactionsChecked rep = Z.of_nat (size (ledger_transactions (w_db w))) ∧
  (OK rep = true ↔
     (∀ a b, balances (w_db w) !! a = Some b →
        b_amount b = sum_with e_amount (entries_at a (ledger_entries (w_db w)))) ∧
     (∀ id, is_Some (ledger_transactions (w_db w) !! id) → balanced_tx (w_db w) id)).
Proof.
  intros (Hd & Ha & Ht & Hm & Hu)%Run_Ok. split; [done|].
  unfold balance_sums, transaction_sums in *. rewrite length_map, length_map_to_list in Ha. rewrite length_map in Ht. rewrite length_map_to_list in Ht.
  split; [done|]. split; [done|].
  rewrite OK_iff, Hu, fmap_nil_iff. rewrite <-(fmap_nil_iff MmAccountID), Hm, fmap_nil_iff.
  rewrite !filter_nil_iff, !Forall_map, !Forall_forall. split.
  - intros [H1 H2]. split.
    + intros a b Hb. specialize (H1 (a, b)). rewrite elem_of_map_to_list in H1.
      specialize (H1 Hb). unfold mismatched in H1. simpl in H1. by apply dec_stable.
    + intros id [t Ht']. specialize (H2 (id, t)). rewrite elem_of_map_to_list in H2.
      specialize (H2 Ht'). unfold unbalanced in H2. simpl in H2. unfold balanced_tx. lia.
  - intros [H1 H2]. split.
    + intros [a b] Hb%elem_of_map_to_list. unfold mismatched. simpl. intros Hn. by apply Hn, H1.
    + intros [id t] Ht'%elem_of_map_to_list. destruct (H2 id) as [??]; [by eexists|].
      unfold unbalanced. simpl. lia.
Qed.
End audit.

Lemma clean_report_iff_consistent_witness :
  ∃ rep, Reconciliation.Run (H:=demo_ext) (demo3 (H:=demo_ext)) =
           (Ok rep, (Reconciliation.Run (H:=demo_ext) (demo3 (H:=demo_ext))).2) ∧
    AccountsChecked rep = Z.of_nat (size (balances (w_db (demo3 (H:=demo_ext))))).
Proof.
  destruct (run_Ok (Reconciliation.Run (H:=demo_ext) (demo3 (H:=demo_ext)))
              ltac:(vm_compute; reflexivity)) as [rep E].
  exists rep. split; [exact E|]. apply (clean_report_iff_consistent (H:=demo_ext) _ _ _ E).
Defined.

(** The audit with no database fault, on a ledger whose sums fit in 64 bits. *)
Lemma Run_runs `{Ext} w :
  (∀ n, stmt_fault n = None) →
  Forall (λ x, in_int64 x.2 = true) (balance_sums (w_db w)) →
  Forall (λ x, in_int64 x.1.2 = true) (transaction_sums (w_db w)) →
  ∃ rep w', Reconciliation.Run w = (Ok rep, w').
Proof.
  intros Hn Hf1 Hf2. unfold Reconciliation.Run.
  assert (∀ A what (f : DB → pg A) w a, f (w_db w) = PgOk a →
    ∃ w', counted_query what f w = (Ok a, w') ∧ w_db w' = w_db w) as Hq.
  { intros A what f w0 a Hf. exists (set_tick (S (w_tick w0)) w0). split; [|done].
    unfold counted_query. unfold mbind, ST_bind, try. by rewrite (query_run f w0 a). }
  assert (∀ what w, ∃ w', rows_Err what w = (Ok tt, w') ∧ w_db w' = w_db w) as He.
  { intros what w0. exists (set_tick (S (w_tick w0)) w0). split; [|done].
    unfold rows_Err, mbind, ST_bind. simpl. by rewrite Hn. }
  erewrite bind_run by done.
  destruct (Hq _ "balances" (λ db, PgOk (balance_sums db)) w _ eq_refl) as (w2 & E2 & Hd2).
  erewrite bind_run by exact E2.
  destruct (scan_balances_run _ (mkReport (w_clock w) 0 0 [] [] "") w2 Hf1) as (r1 & E3 & _).
  erewrite bind_run by exact E3.
  destruct (He "balances" w2) as (w4 & E4 & Hd4). erewrite bind_run by exact E4.
  destruct (Hq _ "transactions" (λ db, PgOk (transaction_sums db)) w4 _ eq_refl) as (w5 & E5 & Hd5).
  erewrite bind_run by exact E5. rewrite Hd4, Hd2.
  destruct (scan_transactions_run _ r1 w5 Hf2) as (r2 & E6 & _). erewrite bind_run by exact E6.
  destruct (He "transactions" w5) as (w7 & E7 & Hd7). erewrite bind_run by exact E7.
  simpl. by destruct (_ <? _); eexists _, _.
Qed.

(** The ledger always passes its audit: in every reachable state, when the
    database answers, [Run] gives a report and the report is clean. *)
Theorem audit_of_reachable_state_is_clean `{UuidLaw} w :
  reachable w → (∀ n, stmt_fault n = None) →
  ∃ rep w', Reconciliation.Run w = (Ok rep, w') ∧ OK rep = true.
Proof.
  intros Hr Hn. destruct (reachable_wf w Hr) as [Hwf Hbal]. apply reachable_inv in Hr as Hinv.
  destruct (Run_runs w Hn) as (rep & w' & E).
  - unfold balance_sums. rewrite Forall_map. apply Forall_forall. intros [a b] Hb%elem_of_map_to_list.
    simpl. rewrite <-(li_balances _ Hinv a b Hb). by destruct (wf_balances _ Hwf a b Hb) as [[? _] _].
  - unfold transaction_sums. rewrite Forall_map. apply Forall_forall.
    intros [id t] Ht%elem_of_map_to_list. simpl.
    destruct (Hbal id) as [_ ->]; [apply (li_txs _ Hinv); eauto|done].
  - exists rep, w'. split; [done|]. apply Run_Ok in E as (_ & _ & _ & Hm & Hu).
    rewrite OK_iff, Hu, fmap_nil_iff. rewrite <-(fmap_nil_iff MmAccountID), Hm, fmap_nil_iff.
    unfold balance_sums, transaction_sums.
    rewrite !filter_nil_iff, !Forall_map, !Forall_forall. split.
    + intros [a b] Hb%elem_of_map_to_list. unfold mismatched. simpl.
      rewrite (li_balances _ Hinv a b Hb). tauto.
    + intros [id t] Ht%elem_of_map_to_list. unfold unbalanced. simpl.
      destruct (Hbal id) as [Hl ->]; [apply (li_txs _ Hinv); eauto|lia].
Qed.

Lemma audit_of_reachable_state_is_clean_witness :
  ∃ rep w', Reconciliation.Run (H:=demo_ext) (demo4 (H:=demo_ext)) = (Ok rep, w') ∧ OK rep = true.
Proof.
  apply (audit_of_reachable_state_is_clean (H:=demo_ext) (H0:=demo_uuid)).
  - apply demo4_reachable.
  - intros n. reflexivity.
Defined.
