(* ===== verification/OutboxFacts.v ===== *)
(** The life of an outbox row, as a step relation, and the proof that the
    publisher only takes those steps. *)
From S2P Require Import Prelude GoStrings Json Apperr Failpoint Schema SchemaFacts Monad World Storage Idempotency Event Config Outbox Kafka Publisher Replay Writers.
Local Open Scope Z_scope.

(** Claimed, published or failed, in a system whose budget is [maxAttempts]. *)
Inductive outbox_step (maxAttempts : Z) : outbox_row → outbox_row → Prop :=
  | os_claim o worker now :
      o_status o = OPending ∨ o_status o = OPublishing →
      outbox_step maxAttempts o (claim_row worker now o)
  | os_publish o now :
      o_status o ≠ OPublished → outbox_step maxAttempts o (publish_row now o)
  | os_fail o cause backoff now :
      o_status o ≠ OPublished →
      outbox_step maxAttempts o (fail_row cause backoff maxAttempts now o).

(** Every row takes such steps, and no row comes or goes. *)
Definition rows_step (maxAttempts : Z) (d d' : DB) : Prop :=
  ∀ ev, match outbox_events d !! ev, outbox_events d' !! ev with
        | Some o, Some o' => rtc (outbox_step maxAttempts) o o'
        | None, None => True
        | _, _ => False
        end.

#[export] Instance rows_step_preorder m : PreOrder (rows_step m).
Proof.
  split.
  - intros d ev. by destruct (outbox_events d !! ev).
  - intros d1 d2 d3 H1 H2 ev. specialize (H1 ev). specialize (H2 ev).
    destruct (outbox_events d1 !! ev), (outbox_events d2 !! ev), (outbox_events d3 !! ev);
      try done. by etrans.
Qed.

Lemma rows_step_same m d d' : outbox_events d' = outbox_events d → rows_step m d d'.
Proof. intros E ev. rewrite E. by destruct (outbox_events d !! ev). Qed.

Lemma rows_step_update m id o o' d d' :
  outbox_events d !! id = Some o → outbox_step m o o' →
  exec_dml (UpdateOutbox id o') d = PgOk d' → rows_step m d d'.
Proof.
  intros Ho Hs E ev. simpl in E. unfold update_outbox in E. rewrite Ho in E. pg_inv. simpl.
  destruct (decide (id = ev)) as [<-|Hne].
  - rewrite Ho, lookup_insert_eq. by apply rtc_once.
  - rewrite lookup_insert_ne by done. by destruct (outbox_events d !! ev).
Qed.

Lemma check_outbox_timestamp o :
  check_outbox o = PgOk tt → (o_status o = OPublished ↔ is_Some (o_published_at o)).
Proof.
  unfold check_outbox, published_has_timestamp. intros. pg_inv. by rewrite bool_eq_iff in *.
Qed.

(** The CHECK on [published_at] refuses to take a row out of [published]. *)
Lemma failing_is_not_published m id o cause b now d d' :
  wf d → outbox_events d !! id = Some o →
  exec_dml (UpdateOutbox id (fail_row cause b m now o)) d = PgOk d' → o_status o ≠ OPublished.
Proof.
  intros Hwf Ho E Hp. simpl in E. unfold update_outbox in E. rewrite Ho in E.
  apply pg_bind_Ok in E as ([] & Hnew & _). apply check_outbox_timestamp in Hnew.
  pose proof (wf_outbox _ Hwf id o Ho) as Hold. apply check_outbox_timestamp in Hold.
  destruct Hnew as [_ Hn]. simpl in Hn. apply Hold, Hn in Hp. by destruct (m <=? o_attempts o + 1).
Qed.

(** What a publisher with budget [m] may do to the database. *)
Definition publishes (m : Z) (d d' : DB) : Prop :=
  wf d → wf d' ∧ rows_step m d d'.

#[export] Instance publishes_preorder m : PreOrder (publishes m).
Proof.
  split; [intros d Hwf; split; [done|reflexivity]|]. intros d1 d2 d3 H1 H2 Hwf.
  destruct (H1 Hwf) as [Hwf2 S1]. destruct (H2 Hwf2) as [Hwf3 S2]. split; [done|by etrans].
Qed.

Definition publisher_step (m : Z) (w w' : World) : Prop := publishes m (w_db w) (w_db w').

#[export] Instance publisher_step_preorder m : PreOrder (publisher_step m).
Proof.
  unfold publisher_step. split; [intros w; reflexivity|]. intros ??? H1 H2. by etrans.
Qed.

Lemma publishes_intro m d d' :
  by_statements d d' → (wf d → rows_step m d d') → publishes m d d'.
Proof. intros [ss E] Hs Hwf. split; [|auto]. by apply exec_all_safe in E as [? _]. Qed.

Lemma publishes_claim_all m wid now ids d d' :
  (∀ id o, id ∈ ids → outbox_events d !! id = Some o →
     o_status o = OPending ∨ o_status o = OPublishing) →
  claim_all wid now ids d = PgOk d' → publishes m d d'.
Proof.
  revert d. induction ids as [|id ids IH]; intros d Hst; simpl; [intros [= <-]; reflexivity|].
  destruct (outbox_events d !! id) as [o|] eqn:Eo.
  2:{ apply IH. intros i x Hi. apply Hst. by right. }
  intros (d1 & Hd & Hr)%pg_bind_Ok. transitivity d1.
  - apply publishes_intro; [by apply (by_one (UpdateOutbox _ _) _ _ Hd)|]. intros _.
    eapply rows_step_update; [exact Eo| |exact Hd]. apply os_claim. eapply Hst; [left|done].
  - apply IH; [|done]. intros i x Hi Hx. simpl in Hd. unfold update_outbox in Hd.
    rewrite Eo in Hd. pg_inv. simpl in Hx.
    apply lookup_insert_Some in Hx as [[<- <-]|[_ Hx]]; [by right|]. eapply Hst; [|done]. by right.
Qed.

(** The rows the claim query finds: due, and not locked by another session. *)
Lemma claimed_ids_rows {locked} d now n ttl ids id :
  claimed_ids locked d now n ttl = PgOk ids → id ∈ ids →
  id ∉ locked ∧ ∃ o, outbox_events d !! id = Some o ∧ claimable now ttl o = true.
Proof.
  unfold claimed_ids. intros (rows & Hl & [= <-])%pg_bind_Ok Hid.
  unfold limit in Hl. destruct (n <? 0); [done|]. injection Hl as <-.
  apply list_elem_of_fmap in Hid as ([i o] & -> & Hin). simpl.
  assert ((i, o) ∈ by_created (map_to_list (filter (λ p, p.1 ∉ locked ∧ claimable now ttl p.2 = true)
            (outbox_events d)))) as Hin'.
  { eapply elem_of_submseteq; [exact Hin|]. apply sublist_submseteq, sublist_take. }
  unfold by_created in Hin'. rewrite merge_sort_Permutation, elem_of_map_to_list in Hin'.
  apply map_lookup_filter_Some in Hin' as [Ho [Hl Hc]]. eauto.
Qed.

Lemma claimed_ids_Ok {locked} d now n ttl ids id :
  claimed_ids locked d now n ttl = PgOk ids → id ∈ ids →
  ∃ o, outbox_events d !! id = Some o ∧ claimable now ttl o = true.
Proof. intros Hids Hid. by apply (claimed_ids_rows _ _ _ _ _ _ Hids). Qed.

Lemma claimable_status now ttl o :
  claimable now ttl o = true → o_status o = OPending ∨ o_status o = OPublishing.
Proof.
  unfold claimable. rewrite !andb_true_iff, orb_true_iff, !bool_decide_eq_true. tauto.
Qed.

Section publisher.
Context `{Ext} (m : Z).

#[export] Instance publisher_keeps {A} (x : M A) :
  Respects (keeps id) x → Respects (publisher_step m) x.
Proof.
  intros Hx w. specialize (Hx w). unfold keeps in Hx. simpl in Hx. unfold publisher_step.
  by rewrite Hx.
Qed.

Lemma publisher_pool_sql {A} (f : Z → DB → pg (A * DB)) :
  (∀ now db a db', f now db = PgOk (a, db') → publishes m db db') →
  Respects (publisher_step m) (pool_sql f).
Proof.
  intros Hf. unfold pool_sql. apply respects_bind; [apply _..|]. intros n.
  destruct (stmt_fault n); [apply _|]. intros w. unfold publisher_step. simpl.
  destruct (f _ _) as [[a db']|] eqn:E; [|done]. apply Hf in E.
  by destruct (commit_fault n) as [[[] ?]|].
Qed.

Ltac by_pool := apply publisher_pool_sql; intros now db x db' Hs.

#[export] Instance publisher_ClaimBatch wid n ttl :
  Respects (publisher_step m) (ClaimBatch wid n ttl).
Proof.
  unfold ClaimBatch. apply respects_bind; [apply _..|]. intros tick.
  apply respects_map_err; by_pool. unfold sql_claim_batch in Hs.
  apply pg_bind_Ok in Hs as (ids & Hids & Hs). apply pg_bind_Ok in Hs as (d & Hd & [= _ <-]).
  eapply publishes_claim_all; [|exact Hd]. intros id o Hid Ho.
  destruct (claimed_ids_Ok _ _ _ _ _ _ Hids Hid) as (o' & Ho' & Hc). simplify_eq.
  by eapply claimable_status.
Qed.
#[export] Instance publisher_MarkPublished id : Respects (publisher_step m) (MarkPublished id).
Proof.
  unfold MarkPublished. apply respects_map_err; by_pool. unfold sql_mark_published in Hs.
  apply pg_bind_Ok in Hs as (c & _ & Hs).
  destruct (outbox_events db !! c) as [o|] eqn:Eo; [|injection Hs as _ <-; reflexivity].
  destruct (decide _); [injection Hs as _ <-; reflexivity|].
  apply pg_bind_Ok in Hs as (d & Hd & [= _ <-]).
  apply publishes_intro; [by eapply by_one|]. intros _.
  eapply rows_step_update; [exact Eo| |exact Hd]. by apply os_publish.
Qed.
#[export] Instance publisher_MarkFailed id c b : Respects (publisher_step m) (MarkFailed id c b m).
Proof.
  unfold MarkFailed. apply respects_map_err.
  apply respects_bind; [apply _|by_pool|respects_tac].
  unfold sql_mark_failed in Hs. apply pg_bind_Ok in Hs as (i & _ & Hs).
  destruct (outbox_events db !! i) as [o|] eqn:Eo; [|injection Hs as _ <-; reflexivity].
  apply pg_bind_Ok in Hs as (d & Hd & [= _ <-]).
  apply publishes_intro; [by eapply by_one|]. intros Hwf.
  eapply rows_step_update; [exact Eo| |exact Hd]. apply os_fail.
  by eapply failing_is_not_published.
Qed.
End publisher.

#[export] Instance publisher_RunOnce `{Ext} cfg ctx :
  Respects (publisher_step (OutboxMaxAttempts cfg)) (RunOnce cfg ctx).
Proof.
  assert (∀ rec, Respects (publisher_step (OutboxMaxAttempts cfg)) (publishOne cfg ctx rec)).
  { intros rec. unfold publishOne, fail, publishToDLQ. respects_tac. }
  assert (∀ batch n, Respects (publisher_step (OutboxMaxAttempts cfg)) (publish_batch cfg ctx batch n)).
  { intros batch. induction batch; intros n; simpl; respects_tac. }
  assert (Respects (keeps id) Backlog) by (unfold Backlog; respects_tac).
  unfold RunOnce. respects_tac.
Qed.

(** ** What the steps imply *)

Lemma outbox_step_core m o o' :
  outbox_step m o o' → event_core o' = event_core o ∧ o_attempts o ≤ o_attempts o'.
Proof. intros []; simpl; (split; [done|lia]). Qed.

Lemma outbox_steps_core m o o' :
  rtc (outbox_step m) o o' → event_core o' = event_core o ∧ o_attempts o ≤ o_attempts o'.
Proof.
  induction 1 as [|o1 o2 o3 Hs _ [IH1 IH2]]; [done|].
  apply outbox_step_core in Hs as [? ?]. split; [congruence|lia].
Qed.

Lemma outbox_steps_published m o o' :
  rtc (outbox_step m) o o' → o_status o = OPublished → o' = o.
Proof.
  induction 1 as [|o1 o2 o3 Hs _ IH]; [done|]. intros Hp.
  destruct Hs as [o w now [?|?]|o now ?|o c b now ?]; congruence.
Qed.

Lemma outbox_steps_dead m o o' :
  rtc (outbox_step m) o o' → o_status o' = ODeadLetter →
  o_status o = ODeadLetter ∨ m ≤ o_attempts o'.
Proof.
  induction 1 as [|o1 o2 o3 Hs Hrest IH]; [by left|]. intros Hd.
  destruct (IH Hd) as [H2|?]; [|by right]. right.
  apply outbox_steps_core in Hrest as [_ Hle].
  destruct Hs as [o w now ?|o now ?|o c b now ?]; simpl in *; try done.
  destruct (Z.leb_spec m (o_attempts o + 1)); [lia|done].
Qed.

(** An error text that is cut inside a character is no text any more, and the failure of
    a row that is there cannot be recorded. *)
Lemma bad_text_is_not_recorded `{Ext} id id' o cause backoff maxAttempts now db :
  as_uuid id = PgOk id' → outbox_events db !! id' = Some o → text_ok cause = false →
  sql_mark_failed id cause backoff maxAttempts now db = PgErr invalid_text.
Proof.
  intros Hid Ho Hc. unfold sql_mark_failed. rewrite Hid. simpl. rewrite Ho. simpl.
  unfold exec_dml, update_outbox, check_outbox. rewrite Ho. simpl. by rewrite Hc.
Qed.

Definition long_cause : string :=
  String.concat "" (repeat "kafka: délai " 0) +:+ "k" +:+ String.concat "" (repeat "é" 1000).

Example cut_text_is_no_text :
  text_ok long_cause = true ∧ text_ok (truncate long_cause 2000) = false.
Proof. by vm_compute. Qed.
