(* ===== verification/WorkerTheorems.v ===== *)
(** The publisher, the replayer and the webhook worker: what they leave alone
    and what they promise, with concrete instances. *)
From S2P Require Import Prelude GoStrings Json Apperr Failpoint Schema SchemaFacts Monad World Storage Idempotency Event Config Outbox LedgerModel LedgerRepo LedgerService Kafka Publisher Replay Reconciliation Webhook Writers LedgerInvariant System Demo OutboxFacts LedgerTheorems.
Local Open Scope Z_scope.

(** C24. Publishing, replaying, recording and delivering events, and auditing, never
    change an account, a balance, a transaction, an entry, a reversal or an
    idempotency record, nor the content of an event, whatever fails. *)
Theorem workers_never_touch_the_ledger `{Ext} cfg ctx req msg w :
  let untouched w' := ledger_view (w_db w') = ledger_view (w_db w) ∧
                      event_view (w_db w') = event_view (w_db w) in
  untouched (RunOnce cfg ctx w).2 ∧ untouched (RunReplay req w).2 ∧
  untouched (HandleEvent cfg ctx msg w).2 ∧ untouched (DeliverOnce cfg ctx w).2 ∧
  untouched (Reconciliation.Run w).2.
Proof.
  intros untouched. unfold untouched.
  split_and!; by apply (respects (R:=aside) w).
Qed.

(** ** The outbox *)

(** A round of the publisher never adds, drops or rewrites an event; an event
    once published stays exactly as it is; the attempts of an event never
    decrease; and an event becomes a dead letter only with its budget spent. *)
Theorem publisher_keeps_events `{Ext} cfg ctx w ev o :
  wf (w_db w) → outbox_events (w_db w) !! ev = Some o →
  ∃ o', outbox_events (w_db (RunOnce cfg ctx w).2) !! ev = Some o' ∧
    event_core o' = event_core o ∧ o_attempts o ≤ o_attempts o' ∧
    (o_status o = OPublished → o' = o) ∧
    (o_status o' = ODeadLetter → o_status o = ODeadLetter ∨ OutboxMaxAttempts cfg ≤ o_attempts o').
Proof.
  intros Hwf Ho.
  destruct (respects (R:=publisher_step (OutboxMaxAttempts cfg)) (m:=RunOnce cfg ctx) w Hwf)
    as [_ Hs].
  specialize (Hs ev). rewrite Ho in Hs.
  destruct (outbox_events (w_db (RunOnce cfg ctx w).2) !! ev) as [o'|]; [|done].
  exists o'. destruct (outbox_steps_core _ _ _ Hs). split_and!; try done.
  - by eapply outbox_steps_published.
  - by eapply outbox_steps_dead.
Qed.

Lemma publisher_keeps_events_witness :
  ∃ o o', outbox_events (w_db (demo3 (H:=demo_ext))) !! "uuid-3" = Some o ∧
    outbox_events (w_db (RunOnce (H:=demo_ext) cfg Background (demo3 (H:=demo_ext))).2) !! "uuid-3"
      = Some o' ∧ o_status o = OPending ∧ event_core o' = event_core o.
Proof.
  destruct (outbox_events (w_db (demo3 (H:=demo_ext))) !! "uuid-3") as [o|] eqn:Eo;
    [|vm_compute in Eo; discriminate].
  destruct (publisher_keeps_events (H:=demo_ext) cfg Background (demo3 (H:=demo_ext)) "uuid-3" o)
    as (o' & Ho' & Hc & _).
  - apply (reachable_wf (H:=demo_ext) (H0:=demo_uuid)), demo3_reachable.
  - exact Eo.
  - exists o, o'. split; [done|]. split; [exact Ho'|]. split; [|exact Hc].
    vm_compute in Eo. injection Eo as <-. reflexivity.
Defined.

(** ** Claims *)

(** A claim touches its own rows. *)
Lemma claim_all_other wid now ids d d' id :
  claim_all wid now ids d = PgOk d' → id ∉ ids → outbox_events d' !! id = outbox_events d !! id.
Proof.
  revert d. induction ids as [|i ids IH]; intros d; simpl; [by intros [= <-]|].
  intros Hr [Hne Hin]%not_elem_of_cons. destruct (outbox_events d !! i) as [x|] eqn:Ei; [|by apply IH].
  apply pg_bind_Ok in Hr as (d1 & Hd & Hr). unfold update_outbox in Hd. rewrite Ei in Hd. pg_inv.
  rewrite (IH _ Hr Hin). simpl. by rewrite lookup_insert_ne.
Qed.

Lemma claim_all_claimed wid now ids d d' id :
  claim_all wid now ids d = PgOk d' → id ∈ ids → is_Some (outbox_events d !! id) →
  claimed_since d' id = Some now.
Proof.
  assert (∀ ids d d', claim_all wid now ids d = PgOk d' → claimed_since d id = Some now →
    claimed_since d' id = Some now) as Hkeep.
  { clear. intros ids. induction ids as [|i ids IH]; intros d d'; simpl; [by intros [= <-]|].
    destruct (outbox_events d !! i) as [x|] eqn:Ei; [|apply IH].
    intros (d1 & Hd & Hr)%pg_bind_Ok Hs. eapply IH; [exact Hr|].
    unfold update_outbox in Hd. rewrite Ei in Hd. pg_inv. unfold claimed_since in *. simpl.
    destruct (decide (i = id)) as [<-|]; [by rewrite lookup_insert_eq|by rewrite lookup_insert_ne]. }
  revert d. induction ids as [|i ids IH]; intros d; simpl; [by intros _ ?%not_elem_of_nil|].
  intros Hr Hin [x Hx]. destruct (outbox_events d !! i) as [y|] eqn:Ei.
  - apply pg_bind_Ok in Hr as (d1 & Hd & Hr). unfold update_outbox in Hd. rewrite Ei in Hd. pg_inv.
    destruct (decide (i = id)) as [<-|Hne].
    + eapply Hkeep; [exact Hr|]. unfold claimed_since. simpl. by rewrite lookup_insert_eq.
    + apply elem_of_cons in Hin as [->|Hin]; [done|]. eapply IH; [exact Hr|done|].
      simpl. rewrite lookup_insert_ne by done. eauto.
  - apply elem_of_cons in Hin as [->|Hin]; [congruence|]. eapply IH; eauto.
Qed.

(** A claimed row is due again when its claim has outlived the TTL. *)
Lemma claimable_since now ttl db id o t :
  outbox_events db !! id = Some o → claimable now ttl o = true → claimed_since db id = Some t →
  t < now - ttl.
Proof.
  unfold claimed_since, claimable. intros -> Hc. simpl.
  destruct (decide (o_status o = OPublishing)) as [Hst|]; [|done]. simpl. intros Ht.
  rewrite Hst, Ht in Hc. simpl in Hc. apply andb_true_iff in Hc as [_ Hc]. by apply Z.ltb_lt.
Qed.

Lemma elem_of_locked s id :
  id ∈ locked_ids s ↔ ∃ i f, cl_flights s !! i = Some f ∧ id ∈ fl_ids f.
Proof.
  unfold locked_ids. rewrite list_elem_of_In, in_concat. split.
  - intros (l & Hl%list_elem_of_In & Hid%list_elem_of_In).
    apply list_elem_of_fmap in Hl as (f & -> & Hf). apply list_elem_of_fmap in Hf as ([i f'] & -> & Hf).
    apply elem_of_map_to_list in Hf. eauto.
  - intros (i & f & Hf%elem_of_map_to_list & Hid). exists (fl_ids f).
    split; apply list_elem_of_In; [|done]. apply list_elem_of_fmap_2, list_elem_of_fmap. by exists (i, f).
Qed.

Lemma hand_out_lookup f held id :
  hand_out f held !! id = if decide (id ∈ fl_ids f) then Some (fl_worker f, fl_now f) else held !! id.
Proof.
  unfold hand_out. induction (fl_ids f) as [|i ids IH]; simpl; [done|].
  destruct (decide (i = id)) as [->|Hne].
  - rewrite lookup_insert_eq, decide_True; [done|left].
  - rewrite lookup_insert_ne, IH by done. apply decide_ext. rewrite elem_of_cons. naive_solver.
Qed.

(** Rows under way exist and are under way once; what is handed out is claimed, and
    under way only when that claim has expired. *)
Record claims_inv (s : claims) : Prop := {
  ci_apart : ∀ i j f g id, i ≠ j → cl_flights s !! i = Some f → cl_flights s !! j = Some g →
    id ∈ fl_ids f → id ∉ fl_ids g;
  ci_expired : ∀ i f id v t, cl_flights s !! i = Some f → id ∈ fl_ids f →
    cl_held s !! id = Some (v, t) → t < fl_now f - fl_ttl f;
  ci_rows : ∀ i f id, cl_flights s !! i = Some f → id ∈ fl_ids f → is_Some (outbox_events (cl_db s) !! id);
  ci_held : ∀ id v t, cl_held s !! id = Some (v, t) → claimed_since (cl_db s) id = Some t;
}.

Lemma claims_inv_locks s i wid n ttl now ids :
  claims_inv s → claimed_ids (locked_ids s) (cl_db s) now n ttl = PgOk ids →
  claims_inv (mkClaims (cl_db s) (<[i := mkFlight wid now ttl ids]> (cl_flights s)) (cl_held s)).
Proof.
  intros [Ha He Hr Hh] Hids.
  assert (∀ j g id, cl_flights s !! j = Some g → id ∈ ids → id ∉ fl_ids g) as Hfree.
  { intros j g id Hg [Hl _]%(claimed_ids_rows _ _ _ _ _ _ Hids) Hin. apply Hl, elem_of_locked. eauto. }
  split; simpl.
  - intros i1 j f g id Hij [[<- <-]|[_ Hf]]%lookup_insert_Some [[<- <-]|[_ Hg]]%lookup_insert_Some; simpl.
    + done.
    + by eapply Hfree.
    + intros Hid Hin. by eapply Hfree.
    + by eapply Ha.
  - intros i1 f id v t [[<- <-]|[_ Hf]]%lookup_insert_Some Hid Hheld; simpl in *; [|by eapply He].
    apply (claimed_ids_rows _ _ _ _ _ _ Hids) in Hid as (_ & o & Ho & Hc).
    eapply claimable_since; [exact Ho|exact Hc|by eapply Hh].
  - intros i1 f id [[<- <-]|[_ Hf]]%lookup_insert_Some Hid; [|by eapply Hr].
    apply (claimed_ids_rows _ _ _ _ _ _ Hids) in Hid as (_ & o & Ho & _). by eexists.
  - done.
Qed.

Lemma claims_inv_commits s i f db :
  claims_inv s → cl_flights s !! i = Some f →
  claim_all (fl_worker f) (fl_now f) (fl_ids f) (cl_db s) = PgOk db →
  claims_inv (mkClaims db (delete i (cl_flights s)) (hand_out f (cl_held s))).
Proof.
  intros [Ha He Hr Hh] Hf Hall. split; simpl.
  - intros i1 j f1 g id Hij [_ ?]%lookup_delete_Some [_ ?]%lookup_delete_Some. by eapply Ha.
  - intros j g id v t [Hij Hg]%lookup_delete_Some Hid. rewrite hand_out_lookup, decide_False.
    + by eapply He.
    + intros Hin. by eapply (Ha i j).
  - intros j g id [Hij Hg]%lookup_delete_Some Hid. rewrite (claim_all_other _ _ _ _ _ _ Hall).
    + by eapply Hr.
    + intros Hin. by eapply (Ha i j).
  - intros id v t. rewrite hand_out_lookup. case_decide as Hin.
    + intros [= <- <-]. eapply claim_all_claimed; [exact Hall|done|by eapply Hr].
    + intros Hheld%Hh. unfold claimed_since in *. by rewrite (claim_all_other _ _ _ _ _ _ Hall).
Qed.

Lemma claims_inv_step s s' : claim_step s s' → claims_inv s → claims_inv s'.
Proof.
  intros [s0 i wid n ttl now ids _ Hids|s0 i f db Hf Hall|s0 i|s0 db Hsame] Hinv.
  - by eapply claims_inv_locks.
  - by apply claims_inv_commits.
  - destruct Hinv as [Ha He Hr Hh]. split; simpl; [| | |done].
    + intros i1 j f g id Hij [_ ?]%lookup_delete_Some [_ ?]%lookup_delete_Some. by eapply Ha.
    + intros j f id v t [_ ?]%lookup_delete_Some. by eapply He.
    + intros j f id [_ ?]%lookup_delete_Some. by eapply Hr.
  - destruct Hinv as [Ha He Hr Hh]. split; simpl; [done| | |].
    + intros i f id v t Hf Hid [? _]%map_lookup_filter_Some. by eapply He.
    + intros i f id Hf Hid. rewrite Hsame by (apply elem_of_locked; eauto). by eapply Hr.
    + by intros id v t [_ ?]%map_lookup_filter_Some.
Qed.

Lemma claims_inv_reachable db s : rtc claim_step (mkClaims db ∅ ∅) s → claims_inv s.
Proof.
  intros Hs. assert (claims_inv (mkClaims db ∅ ∅)) as Hinv.
  { split; simpl; [by intros ? ? ? ? ? _ ?%lookup_empty_Some|by intros ? ? ? ? ? ?%lookup_empty_Some
      |by intros ? ? ? ?%lookup_empty_Some|by intros ? ? ? ?%lookup_empty_Some]. }
  induction Hs as [s|s1 s2 s3 H12 _ IH]; [done|]. apply IH. by eapply claims_inv_step.
Qed.

Lemma ClaimBatch_Ok `{Ext} wid n ttl w recs w' :
  ClaimBatch wid n ttl w = (Ok recs, w') →
  ∃ ids, claimed_ids [] (w_db w) (w_clock w) n ttl = PgOk ids ∧
    claim_all wid (w_clock w) ids (w_db w) = PgOk (w_db w') ∧
    (∀ rec, rec ∈ recs → ID rec ∈ returning_order (w_tick w) ids).
Proof.
  unfold ClaimBatch. intros (tick & w1 & [-> <-]%gets_Ok & Hr)%bind_Ok.
  apply map_err_Ok, pool_sql_Ok in Hr as (db' & Hs & ->). unfold sql_claim_batch in Hs.
  apply pg_bind_Ok in Hs as (ids & Hids & Hs). apply pg_bind_Ok in Hs as (d & Hd & [= <- <-]).
  exists ids. split_and!; [done|done|].
  intros rec (id & Hin & Hrec)%list_elem_of_omap.
  destruct (outbox_events d !! id); [|done]. by injection Hrec as <-.
Qed.

(** A call of [ClaimBatch] is a claim that locks its rows and commits, while no other
    is under way. *)
Lemma ClaimBatch_is_a_claim `{Ext} wid n ttl w recs w' s :
  (∀ k l, returning_order k l ≡ₚ l) → cl_flights s = ∅ → w_db w = cl_db s →
  ClaimBatch wid n ttl w = (Ok recs, w') →
  ∃ s', rtc claim_step s s' ∧ cl_db s' = w_db w' ∧ cl_flights s' = ∅ ∧
    ∀ r, r ∈ recs → cl_held s' !! ID r = Some (wid, w_clock w).
Proof.
  intros Hret Hfl Hdb (ids & Hids & Hall & Hin)%ClaimBatch_Ok. rewrite Hdb in *.
  set (f := mkFlight wid (w_clock w) ttl ids).
  exists (mkClaims (w_db w') (delete 0%nat (<[0%nat := f]> (cl_flights s))) (hand_out f (cl_held s))).
  split_and!; [|done|simpl; by rewrite Hfl, insert_empty, delete_singleton_eq|].
  - eapply rtc_l; [apply (claim_locks s 0 wid n ttl (w_clock w) ids)|].
    + by rewrite Hfl.
    + assert (locked_ids s = []) as -> by (unfold locked_ids; by rewrite Hfl, map_to_list_empty). done.
    + apply rtc_once.
      refine (claim_commits (mkClaims (cl_db s) (<[0%nat := f]> (cl_flights s)) (cl_held s)) 0 f
                (w_db w') _ _); [apply lookup_insert_eq|done].
  - intros r Hr. simpl. rewrite hand_out_lookup, decide_True; [done|].
    specialize (Hin r Hr). by rewrite Hret in Hin.
Qed.

(** Marking an event is a write of a row that is not locked. *)
Lemma MarkPublished_is_a_write `{Ext} id now s db :
  sql_mark_published id now (cl_db s) = PgOk (tt, db) →
  (∀ c, uuid_in id = Some c → c ∉ locked_ids s) →
  ∃ held, claim_step s (mkClaims db (cl_flights s) held).
Proof.
  intros (c & Hc%as_uuid_Ok & Hs)%pg_bind_Ok Hfree. eexists. apply other_writes. intros i Hi.
  assert (i ≠ c) as Hne by (intros ->; by eapply Hfree).
  destruct (outbox_events (cl_db s) !! c) as [o|] eqn:Eo; [|by injection Hs as <-].
  destruct (decide _); [by injection Hs as <-|].
  apply pg_bind_Ok in Hs as (d & Hd & [= <-]). simpl in Hd. unfold update_outbox in Hd. rewrite Eo in Hd.
  pg_inv. simpl. by rewrite lookup_insert_ne.
Qed.

Lemma MarkFailed_is_a_write `{Ext} id cause backoff m now s r db :
  sql_mark_failed id cause backoff m now (cl_db s) = PgOk (r, db) →
  (∀ c, uuid_in id = Some c → c ∉ locked_ids s) →
  ∃ held, claim_step s (mkClaims db (cl_flights s) held).
Proof.
  intros (c & Hc%as_uuid_Ok & Hs)%pg_bind_Ok Hfree. eexists. apply other_writes. intros i Hi.
  assert (i ≠ c) as Hne by (intros ->; by eapply Hfree).
  destruct (outbox_events (cl_db s) !! c) as [o|] eqn:Eo; [|by injection Hs as _ <-].
  apply pg_bind_Ok in Hs as (d & Hd & [= _ <-]). simpl in Hd. unfold update_outbox in Hd. rewrite Eo in Hd.
  pg_inv. simpl. by rewrite lookup_insert_ne.
Qed.

(** C25. Publishers never share a row. Among any number of claim statements running
    side by side, each skipping the rows that others have locked, and whatever other
    sessions write to rows that are not locked: no row is in two claims under way;
    and a row that is handed out, and not marked since, is in another claim, or in
    the batch that [ClaimBatch] returns, only when the first claim is older than the
    TTL. *)
Theorem claims_are_exclusive `{Ext} db s :
  (∀ k l, returning_order k l ≡ₚ l) → rtc claim_step (mkClaims db ∅ ∅) s →
  (∀ i j f g id, i ≠ j → cl_flights s !! i = Some f → cl_flights s !! j = Some g →
     id ∈ fl_ids f → id ∉ fl_ids g) ∧
  (∀ i f id v t, cl_flights s !! i = Some f → id ∈ fl_ids f → cl_held s !! id = Some (v, t) →
     t < fl_now f - fl_ttl f) ∧
  (∀ wid n ttl w recs w' r v t, w_db w = cl_db s → ClaimBatch wid n ttl w = (Ok recs, w') →
     r ∈ recs → cl_held s !! ID r = Some (v, t) → t < w_clock w - ttl).
Proof.
  intros Hret Hs%claims_inv_reachable. split_and!.
  - apply (ci_apart _ Hs).
  - apply (ci_expired _ Hs).
  - intros wid n ttl w recs w' r v t Hdb (ids & Hids & _ & Hin)%ClaimBatch_Ok Hr Hheld.
    specialize (Hin r Hr). rewrite Hret in Hin. rewrite Hdb in Hids.
    destruct (claimed_ids_Ok _ _ _ _ _ _ Hids Hin) as (o & Ho & Hc).
    eapply claimable_since; [exact Ho|exact Hc|by eapply (ci_held _ Hs)].
Qed.

(** Two claims side by side on the events of the demonstration: the second one finds
    the rows locked. *)
Lemma two_claims db wid wid' n ttl now ids ids' :
  claimed_ids [] db now n ttl = PgOk ids → claimed_ids ids db now n ttl = PgOk ids' →
  rtc claim_step (mkClaims db ∅ ∅)
    (mkClaims db (<[2%nat := mkFlight wid' now ttl ids']> (<[1%nat := mkFlight wid now ttl ids]> ∅)) ∅).
Proof.
  intros H1 H2. transitivity (mkClaims db (<[1%nat := mkFlight wid now ttl ids]> ∅) ∅); apply rtc_once.
  { by refine (claim_locks (mkClaims db ∅ ∅) 1 wid n ttl now ids _ _). }
  refine (claim_locks (mkClaims db (<[1%nat := mkFlight wid now ttl ids]> ∅) ∅) 2 wid' n ttl now ids' _ _);
    [done|].
  unfold locked_ids. simpl. rewrite insert_empty, map_to_list_singleton. simpl. by rewrite app_nil_r.
Qed.

Definition demo_claimed (locked : list string) : list string :=
  match claimed_ids locked (w_db (demo3 (H:=demo_ext))) 1000 10 30 with PgOk ids => ids | PgErr _ => [] end.

Lemma claims_are_exclusive_witness :
  demo_claimed [] ≠ [] ∧ ∀ id, id ∈ demo_claimed [] → id ∉ demo_claimed (demo_claimed []).
Proof.
  split; [by vm_compute|]. intros id.
  assert (claimed_ids [] (w_db (demo3 (H:=demo_ext))) 1000 10 30 = PgOk (demo_claimed [])) as H1
    by (vm_compute; reflexivity).
  assert (claimed_ids (demo_claimed []) (w_db (demo3 (H:=demo_ext))) 1000 10 30 =
    PgOk (demo_claimed (demo_claimed []))) as H2 by (vm_compute; reflexivity).
  revert H1 H2. generalize (demo_claimed []). intros ids. generalize (demo_claimed ids). intros ids' H1 H2.
  apply (proj1 (claims_are_exclusive (H:=demo_ext) _ _ (λ k l, reflexivity l)
    (two_claims _ "A" "B" 10 30 1000 ids ids' H1 H2)) 1%nat 2%nat (mkFlight "A" 1000 30 ids)
    (mkFlight "B" 1000 30 ids') id); [done|reflexivity|reflexivity].
Defined.

(** The marks name the row alone: a publisher that outlives its TTL puts back a row that
    another one has claimed since, and a third may claim it while the second works. *)
Lemma late_failure_frees_the_row :
  ∃ recs db recs' db' r db'' recs'' db3,
    sql_claim_batch (H:=demo_ext) "A" 10 30 0 1000 (w_db (demo3 (H:=demo_ext))) = PgOk (recs, db) ∧
    sql_claim_batch (H:=demo_ext) "B" 10 30 0 2000 db = PgOk (recs', db') ∧
    sql_mark_failed (H:=demo_ext) "uuid-3" "timeout" 1 5 2001 db' = PgOk (r, db'') ∧
    sql_claim_batch (H:=demo_ext) "C" 10 30 0 2010 db'' = PgOk (recs'', db3) ∧
    "uuid-3" ∈ ID <$> recs' ∧ "uuid-3" ∈ ID <$> recs''.
Proof.
  do 8 eexists. split_and!; [vm_compute; reflexivity..| |];
    apply (bool_decide_unpack (_ ∈ _)); vm_compute; reflexivity.
Qed.

(** ** Webhooks *)

(** A delivery row exists for the event and the endpoint. *)
Definition has_delivery (db : DB) (ev endpoint : string) : Prop :=
  event_endpoint_exists ev endpoint db = true.

Lemma has_delivery_iff db ev endpoint :
  has_delivery db ev endpoint ↔
  ∃ id d, webhook_deliveries db !! id = Some d ∧ d_event_id d = ev ∧ d_endpoint d = endpoint.
Proof. unfold has_delivery, event_endpoint_exists. by rewrite bool_decide_eq_true. Qed.

Lemma Enqueue_Ok `{Ext} d w b w' :
  Enqueue d w = (Ok b, w') →
  ∃ ev, uuid_in (DEventID d) = Some ev ∧ has_delivery (w_db w') ev (Endpoint d) ∧
    webhook_deliveries (w_db w) ⊆ webhook_deliveries (w_db w').
Proof.
  unfold Enqueue. intros (db' & Hs & ->)%map_err_Ok%pool_sql_Ok. unfold sql_enqueue in Hs.
  apply pg_bind_Ok in Hs as (id & Hid & Hs). apply pg_bind_Ok in Hs as (ev & Hev & Hs). uuid_inv.
  exists ev. split; [done|]. destruct (event_endpoint_exists _ _ _) eqn:Ex.
  - injection Hs as _ <-. done.
  - apply pg_bind_Ok in Hs as (d' & Hd & [= _ <-]). simpl in Hd. unfold insert_delivery in Hd.
    pg_inv. split; [|by apply insert_subseteq]. apply has_delivery_iff.
    simpl. eexists id, _. rewrite lookup_insert_eq. done.
Qed.

Lemma enqueue_all_Ok `{Ext} env p es w w' :
  enqueue_all env p es w = (Ok tt, w') →
  webhook_deliveries (w_db w) ⊆ webhook_deliveries (w_db w') ∧
  ∀ e, e ∈ es → ∃ ev, uuid_in (EventID env) = Some ev ∧ has_delivery (w_db w') ev e.
Proof.
  revert w. induction es as [|e es IH]; intros w; simpl; intros Hr.
  { apply ret_Ok in Hr as [_ <-]. split; [done|]. by intros ? ?%not_elem_of_nil. }
  apply bind_Ok in Hr as (id & w1 & [= <- <-] & Hr).
  apply bind_Ok in Hr as (b & w2 & E2 & Hr). apply Enqueue_Ok in E2 as (ev & Hev & Hhas & Hsub).
  apply bind_Ok in Hr as ([] & w3 & E3 & Hr).
  assert (w_db w3 = w_db w2) as Hd3 by (destruct b; by stable_inv).
  apply IH in Hr as [Hsub2 Hall]. rewrite Hd3 in Hsub2. split; [by etrans|].
  intros e' [->|He']%elem_of_cons; [|by apply Hall].
  exists ev. split; [done|]. apply has_delivery_iff. apply has_delivery_iff in Hhas as (i & d & Hi & ?).
  exists i, d. split; [by eapply lookup_weaken|done].
Qed.

Lemma enqueue_all_again `{Ext} env p es w :
  (∀ e, e ∈ es → ∃ ev, uuid_in (EventID env) = Some ev ∧ has_delivery (w_db w) ev e) →
  w_db (enqueue_all env p es w).2 = w_db w.
Proof.
  revert w. induction es as [|e es IH]; intros w Hall; simpl; [done|].
  destruct (Hall e) as (ev & Hev & Hhas); [by left|].
  assert (∀ d w, DEventID d = EventID env → Endpoint d = e → w_db w = w_db w →
            has_delivery (w_db w) ev e → w_db (Enqueue d w).2 = w_db w) as Hno.
  { intros d w0 Hd He _ Hh. unfold Enqueue. rewrite map_err_state. unfold pool_sql, mbind, ST_bind.
    simpl. destruct (stmt_fault _); [done|]. unfold sql_enqueue. simpl.
    unfold mbind, pg_bind. destruct (as_uuid (DID d)); [|done].
    rewrite Hd. unfold as_uuid. rewrite Hev, He. unfold has_delivery in Hh. simpl. rewrite Hh.
    by destruct (commit_fault _) as [[[] ?]|]. }
  unfold mbind at 1, ST_bind at 1. unfold NewString at 1. set (w1 := set_uuid _ w).
  unfold mbind at 1, ST_bind at 1.
  specialize (Hno (pending_delivery (NewString_nth (w_uuid w)) e env p) w1 eq_refl eq_refl eq_refl Hhas).
  destruct (Enqueue _ w1) as [[b|err|pn] w2]; simpl in *; [|done..].
  assert (∀ e, e ∈ es → ∃ ev, uuid_in (EventID env) = Some ev ∧ has_delivery (w_db w2) ev e) as Hall'.
  { intros e' He'. rewrite Hno. apply Hall. by right. }
  unfold mbind, ST_bind. destruct b; simpl; rewrite IH; done.
Qed.

(** Redelivered and replayed events create nothing: once a message has been
    handled, handling any message of the same event again, under whatever faults,
    leaves the delivery rows (and everything else in the database) as they are. *)
Theorem redelivery_creates_nothing `{Ext} cfg ctx ctx' msg msg' w w1 w2 env env' :
  HandleEvent cfg ctx msg w = (Ok tt, w1) →
  Value msg ≫= decode (A:=Envelope) = Some env → Value msg' ≫= decode (A:=Envelope) = Some env' →
  EventID env' = EventID env →
  webhook_deliveries (w_db w1) ⊆ webhook_deliveries (w_db w2) →
  w_db (HandleEvent cfg ctx' msg' w2).2 = w_db w2.
Proof.
  intros Hr Hv Hv' Hid Hsub. unfold HandleEvent in *.
  destruct (Value msg) as [j|]; [|done]. destruct (Value msg') as [j'|]; [|done].
  change (decode (A:=Envelope) j = Some env) in Hv. change (decode (A:=Envelope) j' = Some env') in Hv'.
  rewrite Hv in Hr. rewrite Hv', Hid.
  destruct (String.eqb (EventID env) ""); [done|].
  apply bind_Ok in Hr as ([] & w3 & _ & Hr). apply enqueue_all_Ok in Hr as [_ Hall].
  set (ctx2 := if String.eqb (EnvCorrelationID env') "" then _ else _).
  unfold mbind, ST_bind.
  pose proof (keeps_failpoint id ctx2 BeforeWebhookPersist
    (λ err, EFmt "webhook: failpoint before persist: " (Some err) "") w2) as Hk.
  unfold keeps in Hk. simpl in Hk.
  destruct (failpoint ctx2 BeforeWebhookPersist _ w2) as [[[]|err|pn] w4]; simpl in *; [|done..].
  rewrite enqueue_all_again; [done|]. intros e He. destruct (Hall e He) as (ev & Hev & Hh).
  exists ev. rewrite Hid. split; [done|]. rewrite Hk. apply has_delivery_iff.
  apply has_delivery_iff in Hh as (i & d & Hi & ?). exists i, d. split; [by eapply lookup_weaken|done].
Qed.

Definition demo_message : KafkaMessage :=
  mkMessage "payments.created" "uuid-0"
    (Some (marshal_Envelope (mkEnvelope "uuid-3" EventPaymentCreated 1 "uuid-0" 0 "" None JNull))) ∅.

Lemma redelivery_creates_nothing_witness :
  size (webhook_deliveries (w_db (HandleEvent (H:=demo_ext) cfg Background demo_message
          (demo3 (H:=demo_ext))).2)) = 1%nat ∧
  w_db (HandleEvent (H:=demo_ext) cfg Background demo_message
          (HandleEvent (H:=demo_ext) cfg Background demo_message (demo3 (H:=demo_ext))).2).2 =
  w_db (HandleEvent (H:=demo_ext) cfg Background demo_message (demo3 (H:=demo_ext))).2.
Proof.
  split; [vm_compute; reflexivity|].
  destruct (run_Ok (HandleEvent (H:=demo_ext) cfg Background demo_message (demo3 (H:=demo_ext)))
              ltac:(vm_compute; reflexivity)) as [[] E].
  eapply (redelivery_creates_nothing (H:=demo_ext) _ _ _ _ demo_message _ _ _ _ _ E);
    [vm_compute; reflexivity|vm_compute; reflexivity|reflexivity|reflexivity].
Defined.

(** There is never more than one delivery row for an event and an endpoint,
    whoever writes. *)
Theorem one_delivery_per_endpoint db id id' d d' :
  written db →
  webhook_deliveries db !! id = Some d → webhook_deliveries db !! id' = Some d' →
  d_event_id d = d_event_id d' → d_endpoint d = d_endpoint d' → id = id'.
Proof.
  intros [Hwf _]%written_safe Hd Hd' Hev Hep.
  destruct (decide (id = id')) as [|Hne]; [done|].
  destruct (wf_deliveries _ Hwf id d Hd) as [_ Hfree].
  destruct (event_endpoint_free db id d id' d' Hfree Hd'); [done|]. by rewrite Hev, Hep.
Qed.

Definition delivery_db : DB :=
  match raw_transaction
    [Row (InsertDelivery "d1" (DeliveryRow "e" "http://x" "t" "" JNull DPending 0 None None 0 None 0 0))]
    empty_db with PgOk db => db | PgErr _ => empty_db end.

Lemma one_delivery_per_endpoint_witness :
  ∃ d, webhook_deliveries delivery_db !! "d1" = Some d ∧
    ∀ id' d', webhook_deliveries delivery_db !! id' = Some d' → d_event_id d = d_event_id d' →
      d_endpoint d = d_endpoint d' → "d1" = id'.
Proof.
  eexists. split; [vm_compute; reflexivity|]. intros id' d' Hd' He Hp.
  eapply (one_delivery_per_endpoint delivery_db "d1" id' _ d');
    [|vm_compute; reflexivity|exact Hd'|exact He|exact Hp].
  eapply (written_commit empty_db
    [Row (InsertDelivery "d1" (DeliveryRow "e" "http://x" "t" "" JNull DPending 0 None None 0 None 0 0))]);
    [apply written_empty|vm_compute; reflexivity].
Defined.

(** ** Replay *)

Lemma Publish_kafka `{Ext} msg w :
  w_kafka (Publish msg w).2 = w_kafka w ∨ w_kafka (Publish msg w).2 = w_kafka w ++ [msg].
Proof.
  unfold Publish, mbind, ST_bind. simpl.
  destruct (publish_fault _) as [[[] err]|]; simpl; auto.
Qed.

Lemma Publish_Ok `{Ext} msg w u w' :
  Publish msg w = (Ok u, w') → w_db w' = w_db w ∧ w_kafka w' = w_kafka w ++ [msg].
Proof.
  unfold Publish. intros (n & w1 & [= <- <-] & Hr)%bind_Ok.
  destruct (publish_fault _) as [[b err]|].
  - by apply bind_Ok in Hr as (? & ? & _ & (? & ? & _ & ?%throw_Ok)%bind_Ok).
  - apply bind_Ok in Hr as ([] & w2 & [= <-] & [= <- <-]). done.
Qed.

(** A message that republishes [rec]: the same event, to the same topic and
    partition, marked as a replay. *)
Definition republishes (rec : OutboxRecord) (msg : KafkaMessage) : Prop :=
  Topic msg = RTopic rec ∧ Key msg = PartitionKey rec ∧
  Headers msg !! "event_id" = Some (ID rec) ∧ Headers msg !! "replay" = Some "true" ∧
  ∃ env meta, decode (A:=Envelope) (Payload rec) = Some env ∧ IsReplay meta = true ∧
    Value msg = Some (encode (mkEnvelope (EventID env) (EventType env) (EnvSchemaVersion env)
      (EnvTransactionID env) (OccurredAt env) (EnvCorrelationID env) (Some meta) (Data env))).

Lemma markReplayed_republishes rec rid meta payload :
  IsReplay meta = true → markReplayed (Payload rec) meta = Some payload →
  republishes rec (replay_message rec rid payload).
Proof.
  unfold markReplayed. intros Hm (env & Henv & [= <-])%bind_Some. split_and!; try done.
  - simpl. unfold withEventHeaders. rewrite !lookup_insert_ne by done.
    by rewrite lookup_insert_eq.
  - simpl. rewrite lookup_insert_ne by done. by rewrite lookup_insert_eq.
  - eauto.
Qed.

Lemma replay_loop_Ok `{Ext} req rid at_ recs i r w r' w' :
  replay_loop req rid at_ recs i r w = (Ok r', w') →
  w_db w' = w_db w ∧ EventIDs r' = EventIDs r ++ (ID <$> recs) ∧
  Matched r' = Matched r ∧
  Published r' + Failed r' = Published r + Failed r + (if DryRun req then 0 else Z.of_nat (length recs)) ∧
  ∃ msgs, w_kafka w' = w_kafka w ++ msgs ∧ (DryRun req = true → msgs = []) ∧
    Forall (λ m, ∃ rec, rec ∈ recs ∧ republishes rec m) msgs.
Proof.
  revert i r w. induction recs as [|rec recs IH]; intros i r w; cbn [replay_loop]; intros Hr.
  { apply ret_Ok in Hr as [<- <-]. rewrite !app_nil_r. split_and!; try done.
    - destruct (DryRun req); simpl; lia.
    - exists []. by rewrite app_nil_r. }
  assert (∀ w1 r1 msgs1,
    w_db w1 = w_db w → EventIDs r1 = EventIDs r ++ [ID rec] → Matched r1 = Matched r →
    Published r1 + Failed r1 = Published r + Failed r + (if DryRun req then 0 else 1) →
    w_kafka w1 = w_kafka w ++ msgs1 → (DryRun req = true → msgs1 = []) →
    Forall (republishes rec) msgs1 →
    replay_loop req rid at_ recs (i + 1) r1 w1 = (Ok r', w') →
    w_db w' = w_db w ∧ EventIDs r' = EventIDs r ++ (ID <$> rec :: recs) ∧
    Matched r' = Matched r ∧
    Published r' + Failed r' =
      Published r + Failed r + (if DryRun req then 0 else Z.of_nat (length (rec :: recs))) ∧
    ∃ msgs, w_kafka w' = w_kafka w ++ msgs ∧ (DryRun req = true → msgs = []) ∧
      Forall (λ m, ∃ rec', rec' ∈ rec :: recs ∧ republishes rec' m) msgs) as Hstep.
  { intros w1 r1 msgs1 Hd He Hm Hn Hk Hdry Hall Hrest.
    destruct (IH _ _ _ Hrest) as (Hd' & He' & Hm' & Hn' & msgs & Hk' & Hdry' & Hall').
    rewrite Hd', Hd, He', He, Hm', Hm, <-app_assoc. split_and!; try done.
    - rewrite Hn', Hn. simpl length. destruct (DryRun req); lia.
    - exists (msgs1 ++ msgs). rewrite Hk', Hk, <-app_assoc. split; [done|]. split.
      + intros Ht. by rewrite Hdry, Hdry'.
      + apply Forall_app_2.
        * eapply Forall_impl; [exact Hall|]. intros m Hrep. exists rec. split; [left|done].
        * eapply Forall_impl; [exact Hall'|]. intros m (x & Hx & ?). exists x. split; [by right|done]. }
  destruct (DryRun req) eqn:Edry.
  { eapply (Hstep w (add_id (ID rec) r) []); try done; [simpl; lia|by rewrite app_nil_r]. }
  destruct (markReplayed _ _) as [payload|] eqn:Em.
  - apply bind_Ok in Hr as (res & w1 & E1 & Hr).
    pose proof (Publish_kafka (replay_message rec rid payload) w) as Hk.
    pose proof (keeps_Publish id (replay_message rec rid payload) w) as Hkd.
    unfold keeps in Hkd. simpl in Hkd.
    rewrite <-(try_state (Publish (replay_message rec rid payload))) in Hk, Hkd.
    rewrite E1 in Hk, Hkd. simpl in Hk, Hkd.
    apply markReplayed_republishes with (rid:=rid) in Em; [|done].
    assert (∃ msgs1, w_kafka w1 = w_kafka w ++ msgs1 ∧ Forall (republishes rec) msgs1)
      as (msgs1 & Hk1 & Hall1).
    { destruct Hk as [->| ->]; [exists []; by rewrite app_nil_r|].
      exists [replay_message rec rid payload]. split; [done|]. by constructor. }
    destruct res; apply bind_Ok in Hr as ([] & w2 & [= <-] & Hr).
    + refine (Hstep _ _ msgs1 _ _ _ _ _ _ _ Hr); try done; simpl; lia.
    + refine (Hstep _ _ msgs1 _ _ _ _ _ _ _ Hr); try done; simpl; lia.
  - apply bind_Ok in Hr as ([] & w2 & [= <-] & Hr).
    refine (Hstep _ _ [] _ _ _ _ _ _ _ Hr); try done; simpl; [lia|by rewrite app_nil_r].
Qed.

Lemma ListForReplay_Ok `{Ext} tid from to n w recs w' :
  ListForReplay tid from to n w = (Ok recs, w') →
  w_db w' = w_db w ∧ w_kafka w' = w_kafka w ∧
  recs = map (λ p, scanRecord p.1 p.2) (take (Z.to_nat n) (by_created (map_to_list
           (filter (λ p, replay_match tid from to p.2 = true) (outbox_events (w_db w)))))).
Proof.
  unfold ListForReplay. intros [Hq ->]%map_err_Ok%query_Ok. split_and!; [done..|].
  apply pg_bind_Ok in Hq as ([] & _ & Hq). apply pg_bind_Ok in Hq as (rows & Hl & [= <-]). unfold limit in Hl.
  destruct (n <? 0); [done|]. by injection Hl as <-.
Qed.

(** A replay in which nothing failed has republished every record, in order. *)
Lemma replay_loop_complete `{Ext} req rid at_ recs i r w r' w' :
  replay_loop req rid at_ recs i r w = (Ok r', w') →
  Failed r ≤ Failed r' ∧
  (DryRun req = false → Failed r' = Failed r → ∃ msgs, w_kafka w' = w_kafka w ++ msgs ∧ Forall2 republishes recs msgs).
Proof.
  revert i r w. induction recs as [|rec recs IH]; intros i r w; cbn [replay_loop]; intros Hr.
  { apply ret_Ok in Hr as [<- <-]. split; [lia|]. exists []. by rewrite app_nil_r. }
  destruct (DryRun req) eqn:Edry; [by destruct (IH _ _ _ Hr)|]. destruct (markReplayed _ _) as [payload|] eqn:Em.
  - apply bind_Ok in Hr as ([err|[]] & w1 & E1 & Hr); apply bind_Ok in Hr as ([] & w2 & [= <-] & Hr);
      destruct (IH _ _ _ Hr) as [Hle Hall]; simpl in Hle, Hall; (split; [lia|intros Hlive He]); [lia|].
    destruct (Hall Hlive He) as (msgs & Hk & Hf). exists (replay_message rec rid payload :: msgs). split.
    + rewrite Hk. apply try_Ok_inr, Publish_Ok in E1 as [_ ->]. by rewrite <-app_assoc.
    + constructor; [by eapply markReplayed_republishes; [|exact Em]|exact Hf].
  - apply bind_Ok in Hr as ([] & w2 & [= <-] & Hr). destruct (IH _ _ _ Hr) as [Hle _]. simpl in Hle. lia.
Qed.

(** The events a request selects, and what a replay of them does. *)
Definition history_of (req : ReplayRequest) (d : DB) : list (string * outbox_row) :=
  take (Z.to_nat (if Limit req =? 0 then 1000 else Limit req)) (by_created (map_to_list (filter
    (λ p, replay_match (RrTransactionID req) (RrFrom req) (RrTo req) p.2 = true) (outbox_events d)))).

Definition replays (req : ReplayRequest) (w : World) (res : ReplayResult) (w' : World) : Prop :=
  let history := history_of req (w_db w) in
  w_db w' = w_db w ∧ EventIDs res = history.*1 ∧ Matched res = Z.of_nat (length history) ∧
  Published res + Failed res = (if DryRun req then 0 else Matched res) ∧ 0 ≤ Failed res ∧
  ∃ msgs, w_kafka w' = w_kafka w ++ msgs ∧ (DryRun req = true → msgs = []) ∧
    Forall (λ m, ∃ id o, (id, o) ∈ history ∧ republishes (scanRecord id o) m) msgs ∧
    (DryRun req = false → Failed res = 0 →
       Forall2 (λ p m, republishes (scanRecord p.1 p.2) m) history msgs).

Lemma RunReplay_Ok `{Ext} req w res w' : RunReplay req w = (Ok res, w') → replays req w res w'.
Proof.
  unfold RunReplay, replays. destruct (ValidateReplay req); [done|]. intros Hr.
  apply bind_Ok in Hr as (recs & w1 & E1 & Hr). apply ListForReplay_Ok in E1 as (Hd1 & Hk1 & Hrecs).
  apply bind_Ok in Hr as (rid & w2 & [= <- <-] & Hr).
  apply bind_Ok in Hr as (at_ & w3 & [= <- <-] & Hr).
  fold (history_of req (w_db w)) in Hrecs. set (history := history_of req (w_db w)) in *.
  destruct (replay_loop_complete _ _ _ _ _ _ _ _ _ Hr) as [Hpos Hall2].
  apply replay_loop_Ok in Hr as (Hd & He & Hm & Hn & msgs & Hk & Hdry & Hall). simpl in *.
  split_and!.
  - congruence.
  - rewrite He, Hrecs. clear. induction history as [|[id o] l IH]; [done|]. simpl. by f_equal.
  - by rewrite Hm, Hrecs, length_map.
  - rewrite Hn, Hm. destruct (DryRun req); lia.
  - exact Hpos.
  - exists msgs. split_and!; [congruence|done| |].
    + eapply Forall_impl; [exact Hall|]. intros m (rec & Hin & Hrep). rewrite Hrecs in Hin.
      apply list_elem_of_fmap in Hin as ([id o] & -> & Hin). eauto.
    + intros Hlive Hf. destruct (Hall2 Hlive Hf) as (msgs' & Hk' & H2).
      rewrite Hk in Hk'. apply app_inv_head in Hk' as <-. rewrite Hrecs in H2. exact (proj1 (Forall2_fmap_l _ _ _ _) H2).
Qed.

(** A replay changes nothing in the database; it goes through the recorded
    events that match, in (created_at, id) order, and every message it appends to
    Kafka republishes one of them under its original event id. When none is
    counted as failed, the messages are those of all the matching events, in
    order. *)
Theorem replay_republishes_history `{Ext} req w res w' :
  RunReplay req w = (Ok res, w') → replays req w res w'.
Proof. apply RunReplay_Ok. Qed.

Definition demo_replay : ReplayRequest := mkReplayRequest "uuid-0" None None 0 "ops" false.

Lemma replay_republishes_history_witness :
  ∃ res, RunReplay (H:=demo_ext) demo_replay (demo3 (H:=demo_ext)) =
      (Ok res, (RunReplay (H:=demo_ext) demo_replay (demo3 (H:=demo_ext))).2) ∧
    Matched res = 1 ∧
    w_db (RunReplay (H:=demo_ext) demo_replay (demo3 (H:=demo_ext))).2 = w_db (demo3 (H:=demo_ext)).
Proof.
  destruct (run_Ok (RunReplay (H:=demo_ext) demo_replay (demo3 (H:=demo_ext)))
              ltac:(vm_compute; reflexivity)) as [res E].
  exists res. split; [exact E|].
  destruct (replay_republishes_history (H:=demo_ext) _ _ _ _ E) as (Hd & _ & Hm & _).
  split; [|exact Hd]. rewrite Hm. vm_compute. reflexivity.
Defined.
