(* ===== verification/WebhookFacts.v ===== *)
(** From the delivery rows to the endpoints: what a pass of the webhook worker
    posts, and which rows it may settle. *)
From S2P Require Import Prelude GoStrings Json Apperr Failpoint Schema SchemaFacts Monad World Storage Idempotency Event Config Outbox Kafka Webhook Demo LedgerInvariant System WorkerTheorems.
Local Open Scope Z_scope.

(** ** Steps that touch neither the database nor the endpoints *)

Definition idle (w w' : World) : Prop := w_db w' = w_db w ∧ w_posts w' = w_posts w.

#[export] Instance idle_preorder : PreOrder idle.
Proof. split; [done|]. intros ??? [? ?] [? ?]. split; congruence. Qed.

Section idle.
Context `{Ext}.

#[export] Instance idle_next_tick : Respects idle next_tick.
Proof. by intros w. Qed.
#[export] Instance idle_Inc name labels : Respects idle (Inc name labels).
Proof. by intros w. Qed.
#[export] Instance idle_ctx_Err : Respects idle ctx_Err.
Proof. unfold ctx_Err. respects_tac. Qed.
#[export] Instance idle_EvalFailpoint ctx name : Respects idle (EvalFailpoint ctx name).
Proof. intros w. unfold EvalFailpoint. by destruct (Eval _ _ _) as [[] ?]. Qed.
#[export] Instance idle_Backoff a b c : Respects idle (Backoff a b c).
Proof. unfold Backoff, Float64. respects_tac. Qed.

#[export] Instance idle_Now : Respects idle Now.
Proof. by intros w. Qed.
#[export] Instance idle_query {A} (f : DB → pg A) : Respects idle (query f).
Proof.
  unfold query, sql. apply respects_bind; [apply _..|]. intros n. destruct (stmt_fault n); [apply _|].
  intros w. simpl. by destruct (f _).
Qed.
#[export] Instance idle_ClaimDue n : Respects idle (ClaimDue n).
Proof. unfold ClaimDue. respects_tac. Qed.

Lemma pool_sql_idle {A} (f : Z → DB → pg (A * DB)) w :
  w_posts (pool_sql f w).2 = w_posts w ∧
  (w_db (pool_sql f w).2 = w_db w ∨
   ∃ a, f (w_clock w) (w_db w) = PgOk (a, w_db (pool_sql f w).2)).
Proof.
  unfold pool_sql, mbind, ST_bind. simpl. destruct (stmt_fault _); [by auto|]. simpl.
  destruct (f _ _) as [[a db']|]; simpl; [|by auto].
  destruct (commit_fault _) as [[[] ?]|]; simpl; eauto.
Qed.
End idle.

(** ** What a pass may do *)

(** The columns of a delivery that are written once. *)
Definition delivery_core (d : delivery_row) :=
  (d_event_id d, d_endpoint d, d_event_type d, d_transaction_id d, d_payload d, d_created_at d).

Section passes.
Context `{Ext} {cfg : Config}.

(** Delivered with the success of a call among [posts]. *)
Definition acknowledged (rec : Delivery) (posts : list HttpPost) (d' : delivery_row) : Prop :=
  delivery_post cfg rec ∈ posts ∧ ∃ code, d_last_status_code d' = Some code ∧ 200 ≤ code < 300.

(** What working through [recs], making [posts], did to the row [id]. *)
Definition row_change (recs : list Delivery) (posts : list HttpPost) (id : string)
    (o o' : option delivery_row) : Prop :=
  match o, o' with
  | Some d, Some d' =>
      delivery_core d' = delivery_core d ∧
      (d' = d ∨ ∃ rec, rec ∈ recs ∧ DID rec = id ∧
         (d_status d' = DDelivered → acknowledged rec posts d'))
  | None, None => True
  | _, _ => False
  end.

Definition tries (recs : list Delivery) (w w' : World) : Prop :=
  ∃ posts, w_posts w' = w_posts w ++ posts ∧ posts `sublist_of` (delivery_post cfg <$> recs) ∧
    ∀ id, row_change recs posts id (webhook_deliveries (w_db w) !! id)
                                   (webhook_deliveries (w_db w') !! id).

Lemma row_change_refl recs posts id o : row_change recs posts id o o.
Proof. destruct o; simpl; auto. Qed.

Lemma acknowledged_more rec posts posts' d :
  posts ⊆ posts' → acknowledged rec posts d → acknowledged rec posts' d.
Proof. intros Hs [Hp Hc]. split; [by apply Hs|done]. Qed.

Lemma row_change_trans recs1 recs2 posts1 posts2 id o1 o2 o3 :
  row_change recs1 posts1 id o1 o2 → row_change recs2 posts2 id o2 o3 →
  row_change (recs1 ++ recs2) (posts1 ++ posts2) id o1 o3.
Proof.
  destruct o1 as [d1|], o2 as [d2|], o3 as [d3|]; simpl; try done.
  intros [C12 H12] [C23 H23]. split; [congruence|].
  destruct H23 as [->|(rec & Hin & Hid & Hd)].
  - destruct H12 as [->|(rec & Hin & Hid & Hd)]; [by left|right].
    exists rec. split_and!; [set_solver|done|]. intros Hd3.
    eapply acknowledged_more; [|by apply Hd]. set_solver.
  - right. exists rec. split_and!; [set_solver|done|]. intros Hd3.
    eapply acknowledged_more; [|by apply Hd]. set_solver.
Qed.

Lemma tries_trans recs1 recs2 w1 w2 w3 :
  tries recs1 w1 w2 → tries recs2 w2 w3 → tries (recs1 ++ recs2) w1 w3.
Proof.
  intros (p1 & K1 & S1 & R1) (p2 & K2 & S2 & R2). exists (p1 ++ p2).
  rewrite K2, K1, app_assoc, fmap_app. split_and!; [done|by apply sublist_app|].
  intros id. by eapply row_change_trans.
Qed.

Lemma idle_tries w w' recs : idle w w' → tries recs w w'.
Proof.
  intros [Hd Hp]. exists []. rewrite Hp, Hd, app_nil_r. split_and!; [done|apply sublist_nil_l|].
  intros id. apply row_change_refl.
Qed.

Lemma idle_tries_l recs w w1 w2 : idle w w1 → tries recs w1 w2 → tries recs w w2.
Proof. intros H1 H2. exact (tries_trans [] _ _ _ _ (idle_tries _ _ _ H1) H2). Qed.

Lemma idle_tries_r recs w w1 w2 : tries recs w w1 → idle w1 w2 → tries recs w w2.
Proof.
  intros H1 H2. rewrite <-(app_nil_r recs). exact (tries_trans _ [] _ _ _ H1 (idle_tries _ _ _ H2)).
Qed.

(** The calls [posts] made, the database as it was. *)
Definition posted (posts : list HttpPost) (w w' : World) : Prop :=
  w_db w' = w_db w ∧ w_posts w' = w_posts w ++ posts.

Lemma posted_tries rec posts w w' :
  posts `sublist_of` [delivery_post cfg rec] → posted posts w w' → tries [rec] w w'.
Proof.
  intros Hs [Hd Hp]. exists posts. rewrite Hd. split_and!; [done|done|].
  intros id. apply row_change_refl.
Qed.

(** Then one row moves. *)
Lemma update_tries rec posts w w' d d' :
  posts `sublist_of` [delivery_post cfg rec] → w_posts w' = w_posts w ++ posts →
  webhook_deliveries (w_db w) !! DID rec = Some d → delivery_core d' = delivery_core d →
  (d_status d' = DDelivered → acknowledged rec posts d') →
  exec_dml (UpdateDelivery (DID rec) d') (w_db w) = PgOk (w_db w') → tries [rec] w w'.
Proof.
  intros Hs Hp Hd Hc Ha He. exists posts. split_and!; [done|done|]. intros id.
  simpl in He. unfold update_delivery in He. rewrite Hd in He. pg_inv.
  match goal with E : _ = w_db w' |- _ => rewrite <-E end. simpl.
  destruct (decide (DID rec = id)) as [<-|Hne].
  - rewrite Hd, lookup_insert_eq. split; [done|]. right. exists rec. split; [by left|done].
  - rewrite lookup_insert_ne by done. apply row_change_refl.
Qed.

End passes.

(** ** The worker's steps *)

Section steps.
Context `{Ext} (cfg : Config).
Notation tries := (tries (cfg := cfg)).

Lemma MarkDelivered_tries rec code w w1 :
  uuid_in (DID rec) = Some (DID rec) → 200 ≤ code < 300 → posted [delivery_post cfg rec] w w1 →
  tries [rec] w (MarkDelivered (DID rec) code w1).2.
Proof.
  intros Hu Hcode [Hd1 Hp1]. unfold MarkDelivered. rewrite map_err_state.
  destruct (pool_sql_idle (sql_mark_delivered (DID rec) code) w1) as [Hp [Hd|[x Hs]]].
  { apply (posted_tries _ [delivery_post cfg rec]); [done|]. split; congruence. }
  unfold sql_mark_delivered in Hs at 1. unfold as_uuid in Hs. rewrite Hu in Hs. simpl in Hs.
  rewrite Hd1 in Hs.
  destruct (webhook_deliveries (w_db w) !! DID rec) as [d|] eqn:Ed.
  2: { injection Hs as _ Hd. apply (posted_tries _ [delivery_post cfg rec]); [done|]. split; congruence. }
  destruct (decide _).
  { injection Hs as _ Hd. apply (posted_tries _ [delivery_post cfg rec]); [done|]. split; congruence. }
  apply pg_bind_Ok in Hs as (db' & He & [= _ Hd]).
  eapply (update_tries rec [delivery_post cfg rec]); [done|congruence|exact Ed| | |by rewrite <-Hd]; [done|].
  intros _. split; [by left|by exists code].
Qed.

Lemma recordFailure_tries rec posts cause code w w1 :
  uuid_in (DID rec) = Some (DID rec) → posts `sublist_of` [delivery_post cfg rec] →
  posted posts w w1 → tries [rec] w (recordFailure cfg rec cause code w1).2.
Proof.
  intros Hu Hsub Hp1. unfold recordFailure, mbind, ST_bind.
  pose proof (respects (R:=idle) (m:=Backoff (DAttempts rec + 1) (WebhookBaseBackoff cfg)
    (WebhookMaxBackoff cfg)) w1) as Hb.
  destruct (Backoff _ _ _ w1) as [[delay|e|p] w2]; simpl in Hb; destruct Hb as [Hdb Hpb], Hp1 as [Hd1 Hp1];
    [|apply (posted_tries _ posts); [done|split; simpl; congruence]..].
  set (mark := MarkFailedDelivery _ _ _ _ _).
  assert (tries [rec] w (try mark w2).2) as Hm.
  { rewrite try_state. unfold mark, MarkFailedDelivery. rewrite map_err_state.
    unfold mbind, ST_bind.
    set (f := sql_mark_failed_delivery _ _ _ _ _).
    assert (tries [rec] w (pool_sql f w2).2) as Hm.
    { destruct (pool_sql_idle f w2) as [Hp [Hd|[x Hs]]].
      { apply (posted_tries _ posts); [done|]. split; congruence. }
      unfold f in Hs at 1. unfold sql_mark_failed_delivery, as_uuid in Hs. rewrite Hu in Hs. simpl in Hs.
      rewrite Hdb, Hd1 in Hs.
      destruct (webhook_deliveries (w_db w) !! DID rec) as [d|] eqn:Ed.
      2: { injection Hs as _ Hd. apply (posted_tries _ posts); [done|]. split; congruence. }
      apply pg_bind_Ok in Hs as (db' & He & [= _ Hd]).
      eapply (update_tries rec posts); [done|congruence|exact Ed| | |by rewrite <-Hd]; [done|].
      simpl. by destruct (_ <=? _). }
    destruct (pool_sql f w2) as [[r|e|p] w3]; simpl in Hm; [|done..].
    destruct r as [[n st]|]; exact Hm. }
  destruct (try mark w2) as [[[e|[n dead]]|e|p] w3]; simpl in Hm; [exact Hm| |exact Hm..].
  eapply idle_tries_r; [exact Hm|]. by destruct dead.
Qed.

Lemma deliver_tries ctx rec w :
  uuid_in (DID rec) = Some (DID rec) → tries [rec] w (deliver cfg ctx rec w).2.
Proof.
  intros Hu. unfold deliver. set (ctx' := WithTransactionID _ _). unfold mbind, ST_bind.
  pose proof (respects (R:=idle) (m:=EvalFailpoint ctx' BeforeWebhookSend) w) as Hf.
  assert (∀ posts cause code w1 w2, posts `sublist_of` [delivery_post cfg rec] → posted posts w1 w2 →
    tries [rec] w1 ((recordFailure cfg rec cause code;; mret false : M bool) w2).2) as Hfail.
  { intros posts cause code w1 w2 Hs Hp. pose proof (recordFailure_tries rec posts cause code w1 w2 Hu Hs Hp) as Ht.
    unfold mbind, ST_bind. by destruct (recordFailure _ _ _ _ w2) as [[] ?]. }
  destruct (EvalFailpoint ctx' BeforeWebhookSend w) as [[[err|]|e|p] w1]; simpl in Hf;
    [| |by apply idle_tries..].
  { eapply idle_tries_l; [exact Hf|]. apply (Hfail []); [apply sublist_nil_l|].
    split; [done|by rewrite app_nil_r]. }
  eapply idle_tries_l; [exact Hf|]. unfold post.
  destruct (NewRequest_err (Endpoint rec)) as [err|]; simpl.
  { apply (Hfail []); [apply sublist_nil_l|]. split; [done|by rewrite app_nil_r]. }
  unfold mbind, ST_bind. simpl. set (w2 := set_posts _ _).
  assert (posted [delivery_post cfg rec] w1 w2) as Hp by done.
  destruct (http_result _) as [err|code]; [by apply (Hfail [delivery_post cfg rec])|].
  destruct ((code <? 200) || (300 <=? code)) eqn:Ec; [by apply (Hfail [delivery_post cfg rec])|].
  assert (200 ≤ code < 300) as Hcode by lia. simpl.
  pose proof (MarkDelivered_tries rec code w1 w2 Hu Hcode Hp) as Hm.
  rewrite <-(try_state (MarkDelivered (DID rec) code)) in Hm.
  destruct (try (MarkDelivered (DID rec) code) w2) as [[[e|u]|e|p] w3]; simpl in *; done.
Qed.

Lemma deliver_batch_tries ctx batch n w :
  Forall (λ rec, uuid_in (DID rec) = Some (DID rec)) batch →
  tries batch w (deliver_batch cfg ctx batch n w).2.
Proof.
  intros Hall. revert n w. induction Hall as [|rec batch Hu _ IH]; intros n w; simpl.
  { by apply idle_tries. }
  unfold mbind, ST_bind. pose proof (respects (R:=idle) (m:=ctx_Err) w) as Hc.
  destruct (ctx_Err w) as [[[err|]|e|p] w1]; simpl in Hc; [by apply idle_tries| |by apply idle_tries..].
  eapply idle_tries_l; [exact Hc|]. pose proof (deliver_tries ctx rec w1 Hu) as Hd.
  destruct (deliver cfg ctx rec w1) as [[ok|e|p] w2]; simpl in Hd.
  - exact (tries_trans [rec] batch _ _ _ Hd (IH _ w2)).
  - exact (tries_trans [rec] batch _ _ _ Hd (idle_tries _ _ _ (reflexivity w2))).
  - exact (tries_trans [rec] batch _ _ _ Hd (idle_tries _ _ _ (reflexivity w2))).
Qed.

(** What the claim query returns: rows that are due, as they are. *)
Lemma due_deliveries_row now n db batch rec :
  due_deliveries now n db = PgOk batch → rec ∈ batch →
  ∃ d, webhook_deliveries db !! DID rec = Some d ∧ due now d = true ∧ rec = scanDelivery (DID rec) d.
Proof.
  unfold due_deliveries, limit. intros (rows & Hl & [= <-])%pg_bind_Ok Hin.
  destruct (n <? 0); [done|]. injection Hl as <-.
  apply list_elem_of_fmap in Hin as ([id d] & -> & Hin). simpl.
  assert ((id, d) ∈ merge_sort due_le
    (map_to_list (filter (λ p, due now p.2 = true) (webhook_deliveries db)))) as Hin'.
  { eapply elem_of_submseteq; [exact Hin|]. apply sublist_submseteq, sublist_take. }
  rewrite merge_sort_Permutation, elem_of_map_to_list in Hin'.
  apply map_lookup_filter_Some in Hin' as [Ho Hc]. eauto.
Qed.

Lemma ClaimDue_Ok n w batch w' :
  ClaimDue n w = (Ok batch, w') → due_deliveries (w_clock w) n (w_db w) = PgOk batch.
Proof.
  unfold ClaimDue. intros (now & w1 & [-> <-]%gets_Ok & Hq)%bind_Ok.
  by apply map_err_Ok, query_Ok in Hq as [? _].
Qed.

Lemma DeliverOnce_tries ctx w :
  (∀ id, is_Some (webhook_deliveries (w_db w) !! id) → uuid_in id = Some id) →
  ∃ batch, (batch = [] ∨ due_deliveries (w_clock w) (WebhookBatchSize cfg) (w_db w) = PgOk batch) ∧
    tries batch w (DeliverOnce cfg ctx w).2.
Proof.
  intros Hcan. unfold DeliverOnce, mbind, ST_bind.
  pose proof (respects (R:=idle) (m:=try (ClaimDue (WebhookBatchSize cfg))) w) as Hidle.
  destruct (try (ClaimDue (WebhookBatchSize cfg)) w) as [[[e|batch]|e|p] w1] eqn:E; simpl in Hidle.
  1, 3, 4: exists []; split; [by left|by apply idle_tries].
  apply try_Ok_inr, ClaimDue_Ok in E. exists batch. split; [by right|].
  eapply idle_tries_l; [exact Hidle|]. apply deliver_batch_tries, Forall_forall. intros rec Hin.
  destruct (due_deliveries_row _ _ _ _ _ E Hin) as (d & Hd & _). by apply Hcan.
Qed.
End steps.

(** C32. A pass of the webhook worker, whatever fails, posts at most once for each
    row that was due, in the order of the claim; it neither adds nor removes
    rows, leaves alone those not due, never changes what a row says, and marks
    a row delivered only when its own post was answered with a 2xx status,
    which the row records. *)
Theorem delivered_rows_were_posted `{Ext} cfg ctx w :
  (∀ id, is_Some (webhook_deliveries (w_db w) !! id) → uuid_in id = Some id) →
  let w' := (DeliverOnce cfg ctx w).2 in
  ∃ batch posts,
    (batch = [] ∨ due_deliveries (w_clock w) (WebhookBatchSize cfg) (w_db w) = PgOk batch) ∧
    w_posts w' = w_posts w ++ posts ∧ posts `sublist_of` (delivery_post cfg <$> batch) ∧
    ∀ id, match webhook_deliveries (w_db w) !! id, webhook_deliveries (w_db w') !! id with
          | Some d, Some d' =>
              delivery_core d' = delivery_core d ∧
              (d' = d ∨ due (w_clock w) d = true ∧
                 (d_status d' = DDelivered → acknowledged (cfg := cfg) (scanDelivery id d) posts d'))
          | None, None => True
          | _, _ => False
          end.
Proof.
  intros Hcan w'.
  destruct (DeliverOnce_tries cfg ctx w Hcan) as (batch & Hb & posts & Hp & Hs & Hrows). fold w' in Hp, Hrows.
  exists batch, posts. split_and!; [done..|]. intros id. specialize (Hrows id).
  destruct (webhook_deliveries (w_db w) !! id) as [d|] eqn:Ed,
    (webhook_deliveries (w_db w') !! id) as [d'|]; simpl in Hrows; try done.
  destruct Hrows as [Hc Hd']. split; [done|]. destruct Hd' as [->|(rec & Hin & Hid & Ha)]; [by left|right].
  destruct Hb as [->|Hb]; [by apply not_elem_of_nil in Hin|].
  destruct (due_deliveries_row _ _ _ _ _ Hb Hin) as (d0 & Hd0 & Hdue & Hrec).
  rewrite Hid, Ed in Hd0. injection Hd0 as <-. rewrite Hid in Hrec. rewrite <-Hrec. done.
Qed.

(** The event of the funding, received. *)
Definition delivery_world : World :=
  (HandleEvent (H:=demo_ext) cfg Background demo_message (demo3 (H:=demo_ext))).2.


Lemma delivered_rows_were_posted_witness :
  let w' := (DeliverOnce (H:=demo_ext) cfg Background delivery_world).2 in
  ∃ posts d d', w_posts w' = w_posts delivery_world ++ posts ∧
    webhook_deliveries (w_db delivery_world) !! "uuid-4" = Some d ∧
    webhook_deliveries (w_db w') !! "uuid-4" = Some d' ∧ d_status d' = DDelivered ∧
    acknowledged (H:=demo_ext) (cfg := cfg) (scanDelivery "uuid-4" d) posts d'.
Proof.
  intros w'. destruct (delivered_rows_were_posted (H:=demo_ext) cfg Background delivery_world)
    as (batch & posts & _ & Hp & _ & Hrows); [intros id _; reflexivity|].
  exists posts. specialize (Hrows "uuid-4").
  destruct (webhook_deliveries (w_db delivery_world) !! "uuid-4") as [d|] eqn:Ed;
    [|exfalso; clear -Ed; vm_compute in Ed; discriminate Ed].
  fold w' in Hp, Hrows.
  destruct (webhook_deliveries (w_db w') !! "uuid-4") as [d'|] eqn:Ed'; [|destruct Hrows].
  assert (d_status d' = DDelivered) as Hd.
  { clear -Ed'. vm_compute in Ed'. injection Ed' as <-. reflexivity. }
  exists d, d'. split_and!; [exact Hp|reflexivity|reflexivity|exact Hd|].
  destruct Hrows as [_ [->|[_ Ha]]]; [|exact (Ha Hd)].
  exfalso. clear -Ed Hd. vm_compute in Ed. injection Ed as <-. discriminate Hd.
Defined.
