(* ===== verification/LockOrder.v ===== *)
(** The order in which a ledger transaction takes its explicit locks (the
    advisory lock of its idempotency key, then balance rows), and what that
    order is for: transactions that wait for each other never form a cycle. *)
From S2P Require Import Prelude GoStrings Json Apperr Failpoint Schema SchemaFacts Monad World Storage Idempotency Event Config Outbox LedgerModel LedgerRepo LedgerService EntryOrder LedgerFacts LedgerEffects Once Kafka Publisher Replay Reconciliation Webhook Writers LedgerInvariant System Demo.
Local Open Scope Z_scope.

(** Advisory locks come before row locks, rows in ascending account order. *)
Definition lock_lt (l1 l2 : lock) : Prop :=
  match l1, l2 with
  | AdvisoryLock _, RowLock _ => True
  | RowLock a, RowLock b => String.le a b ∧ a ≠ b
  | _, AdvisoryLock _ => False
  end.

#[export] Instance lock_lt_trans : Transitive lock_lt.
Proof.
  intros [k1|a] [k2|b] [k3|c]; simpl; try done. intros [H1 N1] [H2 N2]. split; [by etrans|].
  intros ->. apply N1. by apply (anti_symm String.le).
Qed.

Lemma lock_lt_irrefl l : ¬ lock_lt l l.
Proof. destruct l as [k|a]; simpl; [tauto|]. by intros [_ ?]. Qed.

Definition in_order (ls : list lock) : Prop := StronglySorted lock_lt ls.

Lemma in_order_snoc ls l : in_order ls → Forall (λ l', lock_lt l' l) ls → in_order (ls ++ [l]).
Proof.
  unfold in_order. induction 1 as [|x ls Hls IH Hx]; intros Hall; simpl; [by repeat constructor|].
  inversion_clear Hall. constructor; [by apply IH|]. apply Forall_app_2; [done|by repeat constructor].
Qed.

(** ** Which steps take locks *)

(** The locks are the same, provided the rows of [ids] are locked already. *)
Definition quiet_locks (ids : list string) (w w' : World) : Prop :=
  (∀ a, a ∈ ids → RowLock a ∈ w_locks w) → w_locks w' = w_locks w.

#[export] Instance quiet_locks_preorder ids : PreOrder (quiet_locks ids).
Proof.
  split; [by intros w|]. intros w1 w2 w3 H1 H2 Hin. rewrite <-(H1 Hin). apply H2.
  by rewrite (H1 Hin).
Qed.

Section quiet.
Context `{Ext} (ids : list string).

#[export] Instance quiet_next_tick : Respects (quiet_locks ids) next_tick.
Proof. by intros w. Qed.
#[export] Instance quiet_Inc name labels : Respects (quiet_locks ids) (Inc name labels).
Proof. by intros w. Qed.
#[export] Instance quiet_NewString : Respects (quiet_locks ids) NewString.
Proof. by intros w. Qed.
#[export] Instance quiet_Now : Respects (quiet_locks ids) Now.
Proof. by intros w. Qed.
#[export] Instance quiet_EvalFailpoint ctx name : Respects (quiet_locks ids) (EvalFailpoint ctx name).
Proof. intros w. unfold EvalFailpoint. by destruct (Eval _ _ _) as [[] ?]. Qed.
#[export] Instance quiet_failpoint ctx name f : Respects (quiet_locks ids) (failpoint ctx name f).
Proof. unfold failpoint. respects_tac. Qed.
#[export] Instance quiet_ledger_failpoint ctx name :
  Respects (quiet_locks ids) (ledger_failpoint ctx name).
Proof. unfold ledger_failpoint. apply _. Qed.
#[export] Instance quiet_sql {A} (f : Z → DB → pg (A * DB)) : Respects (quiet_locks ids) (sql f).
Proof.
  unfold sql. apply respects_bind; [apply _..|]. intros n. destruct (stmt_fault n); [apply _|].
  intros w _. simpl. by destruct (f _ _) as [[a db']|].
Qed.
#[export] Instance quiet_query {A} (f : DB → pg A) : Respects (quiet_locks ids) (query f).
Proof. apply quiet_sql. Qed.
#[export] Instance quiet_query_row {A} (f : DB → pg (option A)) :
  Respects (quiet_locks ids) (query_row f).
Proof. unfold query_row. respects_tac. Qed.
#[export] Instance quiet_loadTransaction id : Respects (quiet_locks ids) (loadTransaction id).
Proof. unfold loadTransaction. respects_tac. Qed.
#[export] Instance quiet_listAccounts id :
  Respects (quiet_locks ids) (listAccountsForTransaction id).
Proof. unfold listAccountsForTransaction. respects_tac. Qed.
#[export] Instance quiet_Claim s k h : Respects (quiet_locks ids) (Claim s k h).
Proof. unfold Claim, Fetch. respects_tac. Qed.
#[export] Instance quiet_Complete s k st b t : Respects (quiet_locks ids) (Complete s k st b t).
Proof. unfold Complete. respects_tac. Qed.
#[export] Instance quiet_replayResult rec h k : Respects (quiet_locks ids) (replayResult rec h k).
Proof. unfold replayResult. respects_tac. Qed.
#[export] Instance quiet_complete_transaction i id :
  Respects (quiet_locks ids) (complete_transaction i id).
Proof. unfold complete_transaction. respects_tac. Qed.
#[export] Instance quiet_create cmd : Respects (quiet_locks ids) (executeCreateAccount cmd).
Proof. unfold executeCreateAccount. respects_tac. Qed.
#[export] Instance quiet_outbox cfg ctx txn ty d :
  Respects (quiet_locks ids) (writeOutboxEvent cfg ctx txn ty d).
Proof. unfold writeOutboxEvent, Insert. respects_tac. Qed.
#[export] Instance quiet_mirror tid es : Respects (quiet_locks ids) (mirror_entries tid es).
Proof. induction es; simpl; respects_tac. Qed.
#[export] Instance quiet_reversal_record id o r reason :
  Respects (quiet_locks ids) (insertReversalRecord id o r reason).
Proof. unfold insertReversalRecord. respects_tac. Qed.

(** Updating a balance locks its row, which is locked already. *)
Lemma quiet_applyBalanceDelta id delta :
  id ∈ ids → Respects (quiet_locks ids) (applyBalanceDelta id delta).
Proof.
  intros Hid. unfold applyBalanceDelta. apply respects_bind; [apply _|respects_tac|].
  intros amount. apply respects_bind; [apply _| |apply _].
  intros w Hin. unfold acquire, modify. simpl. rewrite decide_True; [done|]. by apply Hin.
Qed.

Lemma quiet_post_entries ctx txn :
  Forall (λ e, EntAccountID e ∈ ids) (Entries txn) →
  Respects (quiet_locks ids) (post_entries ctx txn).
Proof.
  intros Hall. rewrite <-(sortedEntries_perm (Entries txn)) in Hall. unfold post_entries.
  apply respects_bind; [apply _|unfold insertTransaction; respects_tac|intros _].
  apply respects_bind; [apply _|unfold insertEntries; respects_tac|intros _].
  apply respects_bind; [apply _..|intros _]. apply respects_bind; [apply _| |apply _].
  induction Hall as [|e es He Hes IH]; simpl; [apply _|].
  apply respects_bind; [apply _| |intros _; apply IH].
  apply respects_bind; [apply _|by apply quiet_applyBalanceDelta|apply _].
Qed.
End quiet.

(** ** The locking loop *)

(** What the transaction holds while [lock_ordered] runs: in order, and exactly
    the rows in [out]. *)
Definition holding (out : gmap string lockedAccount) (w : World) : Prop :=
  in_order (w_locks w) ∧ ∀ a, RowLock a ∈ w_locks w ↔ is_Some (out !! a).

Section locking.
Context `{Ext}.

Lemma acquire_row_locks a out acct w :
  holding out w → out !! a = None → (∀ b, is_Some (out !! b) → String.le b a) →
  holding (<[a := acct]> out) (acquire (RowLock a) w).2.
Proof.
  intros [Hord Hrows] Hn Hle. unfold acquire, modify. simpl. rewrite decide_False.
  2: { intros Hin%Hrows. rewrite Hn in Hin. by destruct Hin. }
  split; simpl.
  - apply in_order_snoc; [done|]. apply Forall_forall. intros [k|b] Hb; [done|].
    apply Hrows in Hb. split; [by apply Hle|]. intros ->. rewrite Hn in Hb. by destruct Hb.
  - intros b. rewrite elem_of_app, list_elem_of_singleton, Hrows. destruct (decide (b = a)) as [->|Hne].
    + rewrite lookup_insert_eq. split; [eauto|by right].
    + rewrite lookup_insert_ne by done. split; [|by left]. by intros [?|[= ->]].
Qed.

(** However the loop ends, the locks are in order; if it ends well, the rows of
    all its accounts are locked. *)
Lemma lock_ordered_locks ids out w :
  StronglySorted String.le ids → holding out w →
  (∀ b, is_Some (out !! b) → Forall (String.le b) ids) →
  in_order (w_locks (lock_ordered ids out w).2) ∧
  ∀ out', (lock_ordered ids out w).1 = Ok out' →
    ∀ a, a ∈ ids ∨ RowLock a ∈ w_locks w → RowLock a ∈ w_locks (lock_ordered ids out w).2.
Proof.
  intros Hs. revert out w. induction Hs as [|id ids Hs IH Hid]; intros out w Hh Hle.
  { split; [apply Hh|]. simpl. intros out' _ a [Hin|?]; [by apply not_elem_of_nil in Hin|done]. }
  simpl. assert (∀ b, is_Some (out !! b) → Forall (String.le b) ids) as Hle'.
  { intros b Hb. specialize (Hle b Hb). by inversion_clear Hle. }
  destruct (out !! id) as [x|] eqn:Eo.
  - destruct (IH out w Hh Hle') as [? Hin]. split; [done|]. intros out' Ho a Ha.
    apply (Hin out' Ho). destruct Ha as [[->|Ha]%elem_of_cons|Ha]; [|by left|by right].
    right. apply Hh. eauto.
  - unfold mbind, ST_bind.
    pose proof (respects (R:=quiet_locks []) (m:=map_err (lock_balance_err id)
                  (query_row (select_balance id))) w) as Hq.
    specialize (Hq ltac:(by intros ? ?%not_elem_of_nil)).
    destruct (map_err _ _ w) as [[acct|e|p] w1]; simpl in Hq |- *;
      [|by rewrite Hq; split; [apply Hh|]..].
    assert (holding out w1) as Hh1 by (split; rewrite Hq; apply Hh).
    apply (acquire_row_locks id out acct) in Hh1 as Hh2; [|done|].
    2: { intros b Hb. specialize (Hle b Hb). by inversion_clear Hle. }
    set (w2 := (acquire (RowLock id) w1).2) in *.
    destruct (IH _ w2 Hh2) as [Ho Hin].
    { intros b Hb. destruct (decide (b = id)) as [->|Hne]; [done|].
      rewrite lookup_insert_ne in Hb by done. by apply Hle'. }
    split; [exact Ho|]. intros out' Hout a Ha. apply (Hin out' Hout).
    destruct Ha as [[->|Ha]%elem_of_cons|Ha]; [right; apply Hh2; rewrite lookup_insert_eq; eauto|by left|].
    right. apply Hh2. apply Hh in Ha. destruct (decide (a = id)) as [->|]; [rewrite lookup_insert_eq; eauto|].
    by rewrite lookup_insert_ne.
Qed.

#[local] Instance String_le_total : Total String.le.
Proof.
  intros x y. destruct (String.ltb x y) eqn:E; [left; by apply ltb_true_le in E as [? _]|].
  right. by apply ltb_false_le.
Qed.

Lemma lockBalances_locks ids k w :
  w_locks w = [AdvisoryLock k] →
  in_order (w_locks (lockBalances ids w).2) ∧
  ∀ out, (lockBalances ids w).1 = Ok out →
    ∀ a, a ∈ ids → RowLock a ∈ w_locks (lockBalances ids w).2.
Proof.
  intros Hk. unfold lockBalances. destruct (lock_ordered_locks (sort_Strings ids) ∅ w) as [? Hin].
  - apply (StronglySorted_merge_sort String.le).
  - split; rewrite Hk; [by repeat constructor|]. intros a. rewrite list_elem_of_singleton, lookup_empty.
    split; [done|]. by intros [].
  - intros b. rewrite lookup_empty. by intros [].
  - split; [done|]. intros out Ho a Ha. apply (Hin out Ho). left. by rewrite sort_Strings_perm.
Qed.
End locking.

(** ** The transactions of the commands *)

(** [P] holds at the end of a sequence, wherever it stops. *)
Lemma bind_end {A B} (P : World → Prop) (m : M A) (f : A → M B) w :
  P (m w).2 → (∀ a w1, m w = (Ok a, w1) → P (f a w1).2) → P ((m ≫= f) w).2.
Proof.
  intros Hm Hf. unfold mbind, ST_bind. destruct (m w) as [[a|e|p] w1]; [|exact Hm..].
  by apply Hf.
Qed.

Definition ordered (w : World) : Prop := in_order (w_locks w).

Lemma quiet_run {A} ids (m : M A) `{!Respects (quiet_locks ids) m} w :
  (∀ a, a ∈ ids → RowLock a ∈ w_locks w) → w_locks (m w).2 = w_locks w.
Proof. apply (respects (R:=quiet_locks ids)). Qed.

Lemma quiet_nil {A} (m : M A) `{!Respects (quiet_locks []) m} w : w_locks (m w).2 = w_locks w.
Proof. apply (quiet_run [] m). by intros ? ?%not_elem_of_nil. Qed.

(** Skip a step that takes no lock. *)
Ltac quiet_step a w1 E R :=
  match goal with
  | |- ordered ((?m ≫= _) ?w).2 =>
      pose proof (quiet_nil m w) as E; apply bind_end;
      [unfold ordered; rewrite E; try assumption|
       intros a w1 R; rewrite R in E; simpl in E]
  end.

Section closures.
Context `{Ext}.

(** The locks of a closure that starts with none, however it ends. *)
Definition locks_of {A} (m : M A) (w : World) : list lock := w_locks (m w).2.

Lemma LockKey_locks s k w :
  w_locks w = [] →
  ordered (LockKey s k w).2 ∧
  ∀ u w', LockKey s k w = (Ok u, w') → w_locks w' = [AdvisoryLock (advisory_key s k)].
Proof.
  intros Hw. unfold LockKey.
  set (m := map_err _ _). pose proof (quiet_nil m w) as Hm. rewrite Hw in Hm. split.
  - apply bind_end; [unfold ordered; rewrite Hm; constructor|]. intros [] w1 E. rewrite E in Hm.
    unfold ordered, acquire, modify. simpl in *. rewrite Hm. simpl. repeat constructor.
  - intros [] w' (u & w1 & E & Hr)%bind_Ok. rewrite E in Hm. simpl in Hm.
    unfold acquire, modify in Hr. rewrite Hm in Hr. by injection Hr as <-.
Qed.

(** After the key's lock, only [work] takes locks. *)
Lemma claim_or_replay_locks i work w :
  w_locks w = [] →
  (∀ w1 k, w_locks w1 = [AdvisoryLock k] → ordered (work w1).2) →
  ordered (claim_or_replay i work w).2.
Proof.
  intros Hw Hwork. destruct (LockKey_locks (IdempotencyScope i) (IdempotencyKey i) w Hw) as [Ho Hk].
  unfold claim_or_replay. apply bind_end; [done|]. intros [] w1 E1%Hk.
  assert (ordered w1) as Ho1 by (unfold ordered; rewrite E1; repeat constructor).
  quiet_step o w2 E2 R2. rewrite E1 in E2. destruct o as [rec|]; [|by eapply Hwork].
  unfold ordered. by rewrite (quiet_nil _ w2), E2, <-E1.
Qed.

Lemma deref_Some {A B} (x : A) (f : A → M B) : deref (Some x) ≫= f = f x.
Proof. done. Qed.

Lemma listAccounts_Ok id w ids w' :
  listAccountsForTransaction id w = (Ok ids, w') →
  ∃ c, uuid_in id = Some c ∧
    ids = returning_order (w_tick w) (remove_dups (e_account_id <$> entries_of c (ledger_entries (w_db w)))).
Proof.
  unfold listAccountsForTransaction. intros (n & w1 & [= <- <-] & Hr)%bind_Ok.
  apply map_err_Ok, query_Ok in Hr as [Hs _]. unfold select_accounts_of in Hs.
  apply pg_bind_Ok in Hs as (c & Hc%as_uuid_Ok & [= <-]). by exists c.
Qed.

Lemma executeTransfer_locks cfg ctx txID cmd w k :
  w_locks w = [AdvisoryLock k] → ordered (executeTransfer cfg ctx txID cmd w).2.
Proof.
  intros Hk. destruct (lockBalances_locks [SourceAccountID cmd; DestinationAccountID cmd] k w Hk)
    as [Ho Hin]. unfold executeTransfer. apply bind_end; [done|]. intros accts w1 E1.
  pose proof (lockBalances_Ok _ _ _ _ E1) as Hl. rewrite E1 in Ho, Hin. simpl in Ho, Hin.
  specialize (Hin accts eq_refl).
  destruct (Hl (SourceAccountID cmd)) as (src & Es & Hs); [by left|].
  destruct (Hl (DestinationAccountID cmd)) as (dst & Ed & Hd); [by right; left|].
  apply select_balance_Ok in Hs as (? & ? & _ & _ & ->).
  apply select_balance_Ok in Hd as (? & ? & _ & _ & ->).
  unfold ordered. erewrite (quiet_run [SourceAccountID cmd; DestinationAccountID cmd]);
    [exact Ho| |intros a Ha; by apply Hin].
  apply respects_bind; [apply _..|intros _]. rewrite Es, Ed, !deref_Some.
  destruct (check_transfer _ _ _); [apply _|].
  apply respects_bind; [apply _..|intros now]. apply respects_bind; [apply _..|intros e0].
  apply respects_bind; [apply _..|intros e1]. apply respects_bind; [apply _| |respects_tac].
  apply quiet_post_entries. repeat constructor; simpl; set_solver.
Qed.

Lemma executeReverse_locks `{!UuidLaw} cfg ctx rid cmd w k :
  (∀ n l, returning_order n l ≡ₚ l) →
  w_locks w = [AdvisoryLock k] → ordered (executeReverse cfg ctx rid cmd w).2.
Proof.
  intros Hperm Hk. assert (ordered w) as Ho0 by (unfold ordered; rewrite Hk; repeat constructor).
  unfold executeReverse. quiet_step original w1 E1 R1.
  pose proof (loadTransaction_Ok _ _ _ _ R1) as (c & Hc & Hload).
  apply stable_run in R1 as [Hd1 _]; [|apply _].
  destruct (check_reversible original); [unfold ordered; simpl; by rewrite E1|].
  assert (ordered w1) as Ho1 by (unfold ordered; by rewrite E1).
  quiet_step ids w2 E2 R2. apply listAccounts_Ok in R2 as (c' & Hc' & Hids).
  assert (TxID original = c) as Hid by by destruct Hload as (? & _ & _ & ->).
  rewrite Hid in Hc'. rewrite (uuid_canonical _ _ Hc) in Hc'. injection Hc' as <-.
  rewrite E1, Hk in E2. destruct (lockBalances_locks ids k w2 E2) as [Ho Hin].
  apply bind_end; [done|]. intros accts w3 E3. rewrite E3 in Ho, Hin. simpl in Ho, Hin.
  specialize (Hin accts eq_refl).
  assert (∀ a, a ∈ e_account_id <$> entries_of c (ledger_entries (w_db w)) → RowLock a ∈ w_locks w3)
    as Hheld.
  { intros a Ha. apply Hin. rewrite Hids, Hperm, Hd1. by apply elem_of_remove_dups. }
  quiet_step u w4 E4 R4. rewrite <-E4 in Ho, Hheld. quiet_step now w5 E5 R5. rewrite <-E5 in Ho, Hheld.
  quiet_step ms w6 E6 R6. apply mirror_entries_Ok in R6 as Hms. rewrite <-E6 in Ho, Hheld.
  set (ids' := e_account_id <$> entries_of c (ledger_entries (w_db w))) in *.
  unfold ordered. erewrite (quiet_run ids'); [exact Ho| |exact Hheld].
  apply respects_bind; [apply _| |respects_tac].
  apply quiet_post_entries. simpl. apply loaded_entries_perm in Hload.
  assert (Forall (λ e, EntAccountID e ∈ ids') (Entries original)) as Hall.
  { rewrite Hload, Forall_map. apply Forall_forall. intros e He. simpl.
    apply list_elem_of_fmap. by exists e. }
  clear -Hms Hall. induction Hms as [|e m es ms (_ & Ha & _) _ IH]; [constructor|].
  inversion_clear Hall. constructor; [by rewrite Ha|]. by apply IH.
Qed.

(** A transaction of the service, and the locks it has asked for, in order. *)
Inductive transaction : list lock → Prop :=
  | tx_transfer cfg ctx id cmd w : w_locks w = [] →
      transaction (locks_of (transfer_closure cfg ctx id cmd) w)
  | tx_reverse cfg ctx id cmd w : w_locks w = [] →
      transaction (locks_of (reverse_closure cfg ctx id cmd) w)
  | tx_create cmd w : w_locks w = [] →
      transaction (locks_of (claim_or_replay (CaIdem cmd) (executeCreateAccount cmd)) w).

Lemma transaction_in_order `{!UuidLaw} ls :
  (∀ n l, returning_order n l ≡ₚ l) → transaction ls → in_order ls.
Proof.
  intros Hperm [cfg ctx id cmd w Hw|cfg ctx id cmd w Hw|cmd w Hw];
    (apply claim_or_replay_locks; [done|]; intros w1 k E).
  - by eapply executeTransfer_locks.
  - by eapply executeReverse_locks.
  - unfold ordered. rewrite (quiet_nil _ w1), E. repeat constructor.
Qed.

(** A session runs a transaction: it holds the first locks it asked for, and
    waits for the next one. *)
Record session := mkSession { asked : list lock; granted : nat }.

Definition held (s : session) : list lock := take (granted s) (asked s).
Definition waiting (s : session) : option lock := asked s !! granted s.

(** [s] waits for a lock that [s'] holds. *)
Definition waits_for (s s' : session) : Prop :=
  transaction (asked s) ∧ transaction (asked s') ∧ ∃ l, waiting s = Some l ∧ l ∈ held s'.

Lemma held_before_waiting s l l' :
  in_order (asked s) → l ∈ held s → waiting s = Some l' → lock_lt l l'.
Proof.
  unfold held, waiting, in_order. intros Hs Hl Hw.
  rewrite <-(take_drop_middle _ _ _ Hw) in Hs. apply StronglySorted_app in Hs as (Hall & _ & _).
  apply Hall; [done|by left].
Qed.
End closures.

(** C26. No deadlock: transactions that wait for each other's explicit locks
    never form a cycle, however many of them run and wherever each of them is. *)
Theorem lock_waits_are_acyclic `{UuidLaw} s :
  (∀ n l, returning_order n l ≡ₚ l) → ¬ tc waits_for s s.
Proof.
  intros Hperm Hc.
  assert (∀ s s', tc waits_for s s' → ∃ l, waiting s = Some l ∧
            ∀ l', waiting s' = Some l' → lock_lt l l') as Hlt.
  { induction 1 as [x y (_ & Hy & l & Hw & Hin)|x y z (_ & Hy & l & Hw & Hin) _ (ly & Hwy & Hz)].
    - exists l. split; [done|]. intros l' Hw'.
      eapply held_before_waiting; [by apply transaction_in_order|done|done].
    - exists l. split; [done|]. intros l' Hw'. etrans; [|by apply Hz].
      eapply held_before_waiting; [by apply transaction_in_order|done|done]. }
  destruct (Hlt _ _ Hc) as (l & Hw & Hl). by apply (lock_lt_irrefl l), Hl.
Qed.

(** Two opposite transfers ask for the same rows in the same order, after their
    own keys. *)
Definition paying_session : session :=
  mkSession (locks_of (transfer_closure (H:=demo_ext) cfg Background "uuid-9" fund_alice)
               (demo2 (H:=demo_ext))) 2.
Definition opposite_session : session :=
  mkSession (locks_of (transfer_closure (H:=demo_ext) cfg Background "uuid-9" overdraw)
               (demo2 (H:=demo_ext))) 1.

Lemma lock_waits_are_acyclic_witness :
  tail (asked paying_session) = [RowLock "alice"; RowLock "bank"] ∧
  tail (asked opposite_session) = [RowLock "alice"; RowLock "bank"] ∧
  waits_for (H:=demo_ext) opposite_session paying_session ∧
  ¬ tc (waits_for (H:=demo_ext)) opposite_session opposite_session.
Proof.
  split; [vm_compute; reflexivity|]. split; [vm_compute; reflexivity|]. split.
  - split; [apply tx_transfer; vm_compute; reflexivity|].
    split; [apply tx_transfer; vm_compute; reflexivity|].
    exists (RowLock "alice"). split; [vm_compute; reflexivity|].
    apply (list_elem_of_lookup_2 _ 1%nat). vm_compute. reflexivity.
  - apply (lock_waits_are_acyclic (H:=demo_ext) (H0:=demo_uuid)). intros n l. reflexivity.
Defined.
