(* ===== verification/LedgerSpec.v ===== *)
(** What the ledger promises, as a small abstract machine (accounts with
    balances, postings, used keys), and the proof that the whole system
    implements it: every step of the program is one step of the machine or
    none. *)
From S2P Require Import Prelude GoStrings Json Apperr Failpoint Schema SchemaFacts Monad World Storage Idempotency Event Config Outbox LedgerModel LedgerRepo LedgerService LedgerFacts LedgerEffects Once Kafka Publisher Replay Reconciliation ApiEffects Webhook Writers LedgerInvariant System Demo.
Local Open Scope Z_scope.

(** * The abstract machine *)

(** A posting: an account and the amount it gains. *)
Notation posting := (string * Z)%type (only parsing).

(** [book] holds each account's balance and whether it may be overdrawn; [posted_as]
    each transaction's postings and the transaction it reverses, if any. *)
Record ledger := mkLedger {
  book : gmap string (Z * bool);
  used : gset (string * string);
  posted_as : gmap string (list posting * option string);
}.

Definition amount_on (a : string) (ps : list posting) : Z :=
  sum_with snd (filter (λ p, p.1 = a) ps).

(** Every account of the book moves by its postings. *)
Definition post (ps : list posting) (b : gmap string (Z * bool)) : gmap string (Z * bool) :=
  map_imap (λ a p, Some (p.1 + amount_on a ps, p.2)) b.

Definition negated (ps : list posting) : list posting := map (λ p, (p.1, - p.2)) ps.

(** No account without overdraft is negative. *)
Definition solvent (b : gmap string (Z * bool)) : Prop :=
  map_Forall (λ _ p, p.2 = true ∨ 0 ≤ p.1) b.

Inductive spec_step : ledger → ledger → Prop :=
  | spec_open l k a o :
      k ∉ used l → book l !! a = None →
      spec_step l (mkLedger (<[a := (0, o)]> (book l)) ({[k]} ∪ used l) (posted_as l))
  | spec_pay l k id src dst n z o :
      k ∉ used l → posted_as l !! id = None → src ≠ dst → 0 < n →
      book l !! src = Some (z, o) → o = true ∨ n ≤ z → is_Some (book l !! dst) →
      let ps := [(src, - n); (dst, n)] in
      spec_step l (mkLedger (post ps (book l)) ({[k]} ∪ used l)
                     (<[id := (ps, None)]> (posted_as l)))
  | spec_undo l k id orig ps ps' :
      k ∉ used l → posted_as l !! id = None → posted_as l !! orig = Some (ps, None) →
      (∀ id' q, posted_as l !! id' = Some q → q.2 ≠ Some orig) →
      ps' ≡ₚ negated ps → solvent (post ps' (book l)) →
      spec_step l (mkLedger (post ps' (book l)) ({[k]} ∪ used l)
                     (<[id := (ps', Some orig)]> (posted_as l)))
  | spec_mark l k :
      k ∉ used l → spec_step l (mkLedger (book l) ({[k]} ∪ used l) (posted_as l)).

(** * The abstraction of a database *)

Definition posting_of (e : entry_row) : posting := (e_account_id e, e_amount e).

Definition abstract (db : DB) : ledger := mkLedger
  ((λ b, (b_amount b, b_allow_overdraft b)) <$> balances db)
  (dom (idempotency_records db))
  (map_imap (λ id t, Some (map posting_of (entries_of id (ledger_entries db)), t_reverses t))
     (ledger_transactions db)).

Lemma abstract_book db a :
  book (abstract db) !! a = (λ b, (b_amount b, b_allow_overdraft b)) <$> balances db !! a.
Proof. apply lookup_fmap. Qed.

Lemma abstract_posted db id :
  posted_as (abstract db) !! id =
    (λ t, (map posting_of (entries_of id (ledger_entries db)), t_reverses t)) <$>
      ledger_transactions db !! id.
Proof. simpl. rewrite map_lookup_imap. by destruct (ledger_transactions db !! id). Qed.

Lemma amount_on_rows a rows :
  amount_on a (map posting_of rows) = sum_with e_amount (entries_at a rows).
Proof.
  induction rows as [|r rows IH]; [done|]. unfold amount_on, entries_at in *. simpl map.
  by rewrite !sum_with_filter_cons, IH.
Qed.

Section refinement.
Context `{Ext}.

(** A posted transaction is one posting of its rows on the abstract side. *)
Lemma posted_abstract i now txn cid row rows t d d' :
  posted i now txn cid row rows t d d' → ledger_inv d →
  Forall (λ e, EntTransactionID e = TxID txn) (Entries txn) →
  abstract d' = mkLedger (post (map posting_of rows) (book (abstract d)))
    ({[idem_key i]} ∪ used (abstract d))
    (<[cid := (map posting_of rows, t_reverses row)]> (posted_as (abstract d))).
Proof.
  intros Hp Hinv Htid. unfold abstract at 1. f_equal.
  - apply map_eq. intros a. unfold post. rewrite map_lookup_imap. simpl. rewrite !lookup_fmap.
    pose proof (ps_balances _ _ _ _ _ _ _ _ _ Hp a) as Hs.
    destruct (balances d !! a) as [b|], (balances d' !! a) as [b'|]; simpl in *; try done.
    destruct Hs as (-> & -> & _). rewrite amount_on_rows.
    by rewrite (stored_sums now (Entries txn) rows) by apply Hp.
  - rewrite (ps_idem _ _ _ _ _ _ _ _ _ Hp). by rewrite dom_insert_L.
  - apply map_eq. intros id.
    change (posted_as (abstract d') !! id =
      <[cid := (map posting_of rows, t_reverses row)]> (posted_as (abstract d)) !! id).
    rewrite abstract_posted, (ps_txs _ _ _ _ _ _ _ _ _ Hp).
    destruct (decide (id = cid)) as [->|Hne].
    + rewrite !lookup_insert_eq. simpl. by rewrite (posted_entries_new _ _ _ _ _ _ _ _ _ Hp).
    + rewrite !lookup_insert_ne, abstract_posted by done.
      by rewrite (posted_entries_old _ _ _ _ _ _ _ _ _ Hp).
Qed.

Lemma posted_unused i now txn cid row rows t d d' :
  posted i now txn cid row rows t d d' →
  idem_key i ∉ used (abstract d) ∧ posted_as (abstract d) !! cid = None.
Proof.
  intros Hp. split; [apply not_elem_of_dom, Hp|].
  by rewrite abstract_posted, (ps_fresh _ _ _ _ _ _ _ _ _ Hp).
Qed.

Lemma abstract_account db a lk :
  select_balance a db = PgOk (Some lk) →
  LkID lk = a ∧ book (abstract db) !! a = Some (LkBalance lk, LkAllowOverdraft lk).
Proof.
  intros (b & r & Hb & _ & ->)%select_balance_Ok. simpl. by rewrite lookup_fmap, Hb.
Qed.

Lemma check_transfer_funds src dst cmd :
  check_transfer src dst cmd = None → LkAllowOverdraft src = true ∨ Amount cmd ≤ LkBalance src.
Proof.
  unfold check_transfer. do 2 (case_match; [done|]).
  destruct (LkAllowOverdraft src); [by left|]. simpl.
  destruct (Z.ltb_spec (LkBalance src) (Amount cmd)); [done|]. by right.
Qed.

Lemma transfer_rows now txID e0 e1 clock src dst cmd rows :
  0 < Amount cmd →
  Forall2 (entry_stored now) (Entries (transfer_transaction txID e0 e1 clock src dst cmd)) rows →
  map posting_of rows = [(LkID src, - Amount cmd); (LkID dst, Amount cmd)].
Proof.
  intros Hpos Hrows. simpl in Hrows. unfold transfer_entries in Hrows.
  inversion Hrows as [|? r0 ? rows' (_ & _ & A0 & M0 & _) Hrows2]; subst.
  inversion Hrows2 as [|? r1 ? rows2 (_ & _ & A1 & M1 & _ & _ & _ & I1) Hnil]; subst.
  inversion Hnil; subst. simpl in *. unfold posting_of. rewrite A0, A1, M0, M1.
  rewrite M1 in I1. apply in_int64_iff in I1. rewrite wrap64_id; [done|].
  unfold int64_min, int64_max in *. lia.
Qed.

Lemma transfer_refines cfg ctx txID cmd t d d' :
  ValidateTransfer cmd = None → ledger_inv d →
  transfer_effect cfg ctx txID cmd t d d' → spec_step (abstract d) (abstract d').
Proof.
  intros (_ & _ & Hne & Hpos & _)%ValidateTransfer_None Hinv
    (now & clock & e0 & e1 & src & dst & cid & rows & Hs & Hd & Hc & Hp & _ & _).
  apply abstract_account in Hs as [Hsid Hs], Hd as [Hdid Hd].
  destruct (posted_unused _ _ _ _ _ _ _ _ _ Hp) as [Hk Hid].
  rewrite (posted_abstract _ _ _ _ _ _ _ _ _ Hp Hinv) by by repeat constructor.
  rewrite (transfer_rows now txID e0 e1 clock src dst cmd) by (done || apply Hp).
  rewrite Hsid, Hdid. apply check_transfer_funds in Hc.
  exact (spec_pay _ _ _ _ _ _ _ _ Hk Hid Hne Hpos Hs Hc (ex_intro _ _ Hd)).
Qed.

Lemma mirrored_rows rid now es ms rows :
  Forall2 (mirrors rid) es ms → Forall2 (entry_stored now) ms rows →
  Forall (λ e, int64_min < EntAmount e ≤ int64_max) es →
  map posting_of rows = negated (map (λ e, (EntAccountID e, EntAmount e)) es).
Proof.
  intros Hms. revert rows. induction Hms as [|e m es ms (_ & Ha & Hm & _) _ IH]; intros rows Hrows Hall.
  { by inversion Hrows. }
  inversion Hrows as [|? r ? rows' (_ & _ & A & M & _) Hrows']; subst.
  inversion_clear Hall as [|? ? He Hes]. simpl. f_equal; [|by apply IH].
  unfold posting_of. rewrite A, M, Ha, Hm, wrap64_id; [done|]. unfold int64_min, int64_max in *. lia.
Qed.

Lemma check_reversible_None t :
  check_reversible t = None → TxKind t ≠ TxKindReversal ∧ ReversedByTransactionID t = None.
Proof.
  unfold check_reversible. destruct (String.eqb_spec (TxKind t) TxKindReversal); [done|].
  by destruct (ReversedByTransactionID t).
Qed.

Lemma abstract_solvent db : wf db → solvent (book (abstract db)).
Proof.
  intros Hwf a p. simpl. rewrite lookup_fmap. intros (b & Hb & ->)%fmap_Some_1. simpl.
  destruct (wf_balances _ Hwf a b Hb) as [(_ & _ & Hn) _]. unfold balances_non_negative in Hn.
  destruct (b_allow_overdraft b); [by left|right]. simpl in Hn. lia.
Qed.

Lemma unreversed db o :
  reversals_of (ledger_transactions db) o = [] →
  ∀ id q, posted_as (abstract db) !! id = Some q → q.2 ≠ Some o.
Proof.
  intros Hno id q. rewrite abstract_posted. intros (r & Hr & ->)%fmap_Some_1 Ho. simpl in Ho.
  assert (id ∈ reversals_of (ledger_transactions db) o) as Hin.
  { unfold reversals_of. apply list_elem_of_fmap. exists (id, r). split; [done|].
    rewrite elem_of_map_to_list. by apply map_lookup_filter_Some. }
  rewrite Hno in Hin. by apply not_elem_of_nil in Hin.
Qed.

Lemma reversal_refines `{!UuidLaw} cfg ctx rid cmd t d d' :
  ledger_inv d → written d' → reversal_effect cfg ctx rid cmd t d d' →
  spec_step (abstract d) (abstract d').
Proof.
  intros Hinv Hw (now & clock & orig & original & ms & cid & rows & recid & Horig & Hload & Hchk &
    Hms & corig & Hcorig & Hp & Hrfresh & Hrev & Hev).
  assert (TxID original = orig) as Hid by by destruct Hload as (? & _ & _ & ->).
  assert (corig = orig) as ->.
  { apply uuid_canonical in Horig. rewrite Hid in Hcorig. congruence. }
  pose proof (loaded_range _ _ _ Hinv Hload) as Hrange.
  pose proof (loaded_entries_perm _ _ _ Hload) as Hperm.
  apply check_reversible_None in Hchk as [Hkind Hnone].
  destruct (posted_unused _ _ _ _ _ _ _ _ _ Hp) as [Hk Hfresh].
  pose proof (abstract_solvent d' (proj1 (written_safe _ Hw))) as Hsolv.
  assert (Forall (λ e, EntTransactionID e = rid) ms) as Htid.
  { clear -Hms. induction Hms as [|e m es ms (Ht & _) _ IH]; constructor; done. }
  rewrite (posted_abstract _ _ _ _ _ _ _ _ _ Hp Hinv Htid) in Hsolv |- *. simpl t_reverses.
  destruct Hload as (row & Hrow & Hrevs & Heq). rewrite Hnone in Hrevs. simpl in Hrevs.
  eapply spec_undo; [exact Hk|exact Hfresh| |by apply unreversed| |exact Hsolv].
  - rewrite abstract_posted, Hrow. simpl. do 2 f_equal.
    pose proof (wf_txs _ (proj1 (written_safe _ (li_written _ Hinv))) orig row Hrow) as (_ & _ & Hpt).
    unfold reversal_points_check in Hpt. rewrite Heq in Hkind. simpl in Hkind.
    destruct (t_reverses row); [|done]. destruct Hkind.
    by destruct (String.eqb_spec (t_kind row) "reversal").
  - rewrite (mirrored_rows rid now (Entries original) ms rows) by (done || apply Hp).
    apply Permutation_map. etrans; [apply Permutation_map, Hperm|]. by rewrite map_map.
Qed.

Lemma create_refines cmd d d' : account_effect cmd d d' → spec_step (abstract d) (abstract d').
Proof.
  intros (now & Hk & Ha & Hb & ->).
  match goal with |- spec_step _ ?x => assert (x = mkLedger
    (<[CaID cmd := (0, CaAllowOverdraft cmd)]> (book (abstract d)))
    ({[idem_key (CaIdem cmd)]} ∪ used (abstract d)) (posted_as (abstract d))) as -> end.
  - unfold abstract. simpl. by rewrite fmap_insert, dom_insert_L.
  - apply spec_open; [by apply not_elem_of_dom|]. simpl. by rewrite lookup_fmap, Hb.
Qed.

Lemma abstract_view d d' : ledger_view d' = ledger_view d → abstract d' = abstract d.
Proof. intros [= _ Eb Et Ee _ Ei]. unfold abstract. by rewrite Eb, Et, Ee, Ei. Qed.

(** A key taken for work outside the ledger. *)
Lemma marked_refines scope key hash d d' :
  marked_any scope key hash d d' → spec_step (abstract d) (abstract d').
Proof.
  intros Hm. apply marked_fresh in Hm as Hn. apply marked_row in Hm as (row & _ & _ & _ & _ & ->).
  assert (abstract (set_idem (<[(scope, key) := row]> (idempotency_records d)) d) =
    mkLedger (book (abstract d)) ({[(scope, key)]} ∪ used (abstract d)) (posted_as (abstract d))) as ->.
  { unfold abstract. simpl. by rewrite dom_insert_L. }
  apply spec_mark. by apply not_elem_of_dom.
Qed.
End refinement.

(** C27. Refinement: seen through [abstract], every step the system takes from a
    reachable state (any command, worker, replay or audit, under any faults) is
    one step of the abstract ledger (an account opened, a payment, a payment undone,
    each under a key of its own, or a key used up by a replay), or nothing happened. *)
Theorem system_refines_ledger `{UuidLaw} w w' :
  reachable w → step w w' →
  abstract (w_db w') = abstract (w_db w) ∨ spec_step (abstract (w_db w)) (abstract (w_db w')).
Proof.
  intros Hinv%reachable_inv Hs. pose proof (step_written _ _ Hs (li_written _ Hinv)) as Hw.
  apply step_cases in Hs as [[cfg Ha]|(_ & Hv & _)]; [|by left; apply abstract_view].
  destruct Ha as [|cmd w0|ctx cmd w0|ctx cmd w0|scope key hash d d' Hm]; [by left|..].
  - destruct (CreateAccount_once cfg cmd w0) as [->|(_ & _ & (a & (_ & He) & _))]; [by left|].
    right. by eapply create_refines.
  - destruct (Transfer_once cfg ctx cmd w0)
      as [->|(_ & _ & Hv & txID & a & (t & _ & He) & _)]; [by left|].
    right. by eapply transfer_refines.
  - destruct (Reverse_once cfg ctx cmd w0)
      as [->|(_ & _ & rid & a & (t & _ & He) & _)]; [by left|].
    right. by eapply reversal_refines.
  - right. by eapply marked_refines.
Qed.

Lemma system_refines_ledger_witness :
  book (abstract (w_db (demo2 (H:=demo_ext)))) !! "alice" = Some (0, false) ∧
  book (abstract (w_db (demo3 (H:=demo_ext)))) !! "alice" = Some (100, false) ∧
  spec_step (abstract (w_db (demo2 (H:=demo_ext)))) (abstract (w_db (demo3 (H:=demo_ext)))).
Proof.
  assert (book (abstract (w_db (demo2 (H:=demo_ext)))) !! "alice" = Some (0, false)) as H2
    by (rewrite abstract_book; vm_compute; reflexivity).
  assert (book (abstract (w_db (demo3 (H:=demo_ext)))) !! "alice" = Some (100, false)) as H3
    by (rewrite abstract_book; vm_compute; reflexivity).
  split; [exact H2|]. split; [exact H3|].
  destruct (system_refines_ledger (H:=demo_ext) (H0:=demo_uuid) (demo2 (H:=demo_ext))
              (demo3 (H:=demo_ext))) as [E|?]; [..|assumption].
  - apply demo2_reachable.
  - apply step_call, (call_Transfer (H:=demo_ext) cfg Background fund_alice).
  - exfalso. rewrite E, H2 in H3. clear -H3. discriminate H3.
Defined.
