(* ===== verification/Runs.v ===== *)
(** Running code forward when nothing outside fails: what each step of a ledger
    transaction returns and leaves behind, given what it finds. *)
From S2P Require Import Prelude GoStrings Json Apperr Failpoint Schema SchemaFacts Monad World Storage Idempotency Event Config Outbox LedgerModel LedgerRepo LedgerService EntryOrder LedgerFacts LedgerEffects.
Local Open Scope Z_scope.

(** No statement, BEGIN or COMMIT is lost. *)
Definition calm `{Ext} : Prop :=
  (∀ n, stmt_fault n = None) ∧ (∀ n, begin_fault n = None) ∧ (∀ n, commit_fault n = None).

(** The state after a run: the database [d], [k] UUIDs drawn, the transaction's
    clock and the failpoints as they were. *)
Definition follows (w w' : World) (d : DB) (k : nat) : Prop :=
  w_db w' = d ∧ w_txnow w' = w_txnow w ∧ w_fp w' = w_fp w ∧ w_uuid w' = (w_uuid w + k)%nat.

(** [m] ends with [o] and leaves [d]. *)
Definition ends {A} (m : M A) (w : World) (o : outcome A) (d : DB) (k : nat) : Prop :=
  ∃ w', m w = (o, w') ∧ follows w w' d k.

Notation runs m w a d k := (ends m w (Ok a) d k).

Section runs.
Context `{Ext}.

Lemma follows_refl w : follows w w (w_db w) 0.
Proof. split_and!; first [done|simpl; lia]. Qed.

Lemma ends_ret {A} (a : A) w : runs (mret a) w a (w_db w) 0.
Proof. exists w. split; [done|apply follows_refl]. Qed.

Lemma ends_throw {A} e w : ends (throw (A:=A) e) w (Err e) (w_db w) 0.
Proof. exists w. split; [done|apply follows_refl]. Qed.

Lemma ends_bind {A B} (m : M A) (f : A → M B) w a o d1 d2 k1 k2 :
  runs m w a d1 k1 → (∀ w1, follows w w1 d1 k1 → ends (f a) w1 o d2 k2) →
  ends (m ≫= f) w o d2 (k1 + k2).
Proof.
  intros (w1 & E1 & F1) Hf. destruct (Hf w1 F1) as (w2 & E2 & F2).
  exists w2. split; [by rewrite (bind_run _ _ _ _ _ E1)|].
  destruct F1 as (? & ? & ? & ?), F2 as (? & ? & ? & ?). split_and!; [done|congruence..|lia].
Qed.

Lemma ends_bind_Err {A B} (m : M A) (f : A → M B) w e d k :
  ends m w (Err e) d k → ends (m ≫= f) w (Err e) d k.
Proof. intros (w1 & E1 & F1). exists w1. by rewrite (bind_run_Err _ _ _ _ _ E1). Qed.

Lemma runs_map_err {A} g (m : M A) w a d k : runs m w a d k → runs (map_err g m) w a d k.
Proof. intros (w1 & E1 & F1). exists w1. unfold map_err. by rewrite E1. Qed.

Lemma ends_map_err {A} g (m : M A) w e d k :
  ends m w (Err e) d k → ends (map_err g m) w (Err (g e)) d k.
Proof. intros (w1 & E1 & F1). exists w1. unfold map_err. by rewrite E1. Qed.

Lemma runs_modify w (f : World → World) d k : follows w (f w) d k → runs (modify f) w tt d k.
Proof. intros F. by exists (f w). Qed.

Lemma runs_Inc w name labels : runs (Inc name labels) w tt (w_db w) 0.
Proof. apply runs_modify. split_and!; first [done|simpl; lia]. Qed.

Lemma runs_acquire w l : runs (acquire l) w tt (w_db w) 0.
Proof. apply runs_modify. case_decide; [apply follows_refl|]. split_and!; first [done|simpl; lia]. Qed.

Lemma runs_Now w : runs Now w (w_clock w) (w_db w) 0.
Proof. exists w. split; [done|apply follows_refl]. Qed.

Lemma runs_NewString w : runs NewString w (NewString_nth (w_uuid w)) (w_db w) 1.
Proof. eexists. split; [done|]. split_and!; first [done|simpl; lia]. Qed.

Lemma runs_EvalFailpoint ctx name w :
  Enabled (w_fp w) = false → runs (EvalFailpoint ctx name) w None (w_db w) 0.
Proof.
  intros He. eexists. unfold EvalFailpoint, Eval. rewrite He. simpl. split; [done|].
  split_and!; first [done|simpl; lia].
Qed.

Lemma runs_failpoint ctx name f w :
  Enabled (w_fp w) = false → runs (failpoint ctx name f) w tt (w_db w) 0.
Proof.
  intros He. unfold failpoint. change 0%nat with (0 + 0)%nat.
  eapply ends_bind; [by apply runs_EvalFailpoint|]. intros w1 (<- & _). apply ends_ret.
Qed.

Context (Hcalm : calm).

Lemma runs_sql {A} (f : Z → DB → pg (A * DB)) w a d :
  f (w_txnow w) (w_db w) = PgOk (a, d) → runs (sql f) w a d 0.
Proof.
  intros Hf. eexists. split; [apply sql_run; [apply Hcalm|exact Hf]|].
  split_and!; first [done|simpl; lia].
Qed.

Lemma ends_sql_Err {A} (f : Z → DB → pg (A * DB)) w e :
  f (w_txnow w) (w_db w) = PgErr e → ends (sql f) w (Err (EPg e)) (w_db w) 0.
Proof.
  intros Hf. eexists. split; [apply sql_run_Err; [apply Hcalm|exact Hf]|].
  split_and!; first [done|simpl; lia].
Qed.

Lemma runs_query {A} (f : DB → pg A) w a :
  f (w_db w) = PgOk a → runs (query f) w a (w_db w) 0.
Proof. intros Hf. apply runs_sql. by rewrite Hf. Qed.

Lemma runs_query_row {A} (f : DB → pg (option A)) w a :
  f (w_db w) = PgOk (Some a) → runs (query_row f) w a (w_db w) 0.
Proof.
  intros Hf. unfold query_row. change 0%nat with (0 + 0)%nat.
  eapply ends_bind; [by apply runs_query|]. intros w1 (<- & _). apply ends_ret.
Qed.
End runs.

(** ** The steps of a ledger transaction *)

Section steps.
Context `{Ext} (Hcalm : calm).

Lemma ends_ret_at {A} (a : A) w d : w_db w = d → runs (mret a) w a d 0.
Proof. intros <-. apply ends_ret. Qed.
Lemma runs_acquire_at l w d : w_db w = d → runs (acquire l) w tt d 0.
Proof. intros <-. apply runs_acquire. Qed.

Lemma runs_LockKey s k w : runs (LockKey s k) w tt (w_db w) 0.
Proof.
  unfold LockKey. change 0%nat with (0 + 0)%nat.
  eapply ends_bind; [by apply runs_map_err, runs_sql|]. intros w1 (<- & _). apply runs_acquire.
Qed.

Lemma runs_Claim s k h w :
  text_ok s && text_ok k = true → idempotency_records (w_db w) !! (s, k) = None →
  runs (Claim s k h) w None
    (set_idem (<[(s, k) := claimed_row h (w_txnow w)]> (idempotency_records (w_db w))) (w_db w)) 0.
Proof.
  intros Ht Hk. unfold Claim. change 0%nat with (0 + 0)%nat. eapply ends_bind.
  - apply runs_map_err, runs_sql; [done|]. unfold sql_claim. rewrite Hk. simpl.
    unfold insert_idem. simpl. rewrite Ht, Hk. done.
  - intros w1 (E & _). by apply ends_ret_at.
Qed.

Lemma runs_lock_ordered db ids out :
  (∀ id, id ∈ ids → ∃ a, select_balance id db = PgOk (Some a)) →
  ∃ accts, ∀ w, w_db w = db → runs (lock_ordered ids out) w accts db 0.
Proof.
  revert out. induction ids as [|id ids IH]; intros out Hids; simpl.
  { exists out. intros w <-. apply ends_ret. }
  assert (∀ x, x ∈ ids → ∃ a, select_balance x db = PgOk (Some a)) as Hrest.
  { intros x Hx. apply Hids. by right. }
  destruct (out !! id); [by apply IH|]. destruct (Hids id) as [a Ha]; [by left|].
  destruct (IH (<[id := a]> out) Hrest) as [accts Hr]. exists accts. intros w Hd.
  rewrite <-Hd in Ha. change 0%nat with (0 + (0 + 0))%nat.
  eapply ends_bind; [by apply runs_map_err, runs_query_row|]. intros w1 (Hd1 & _).
  eapply ends_bind; [apply runs_acquire|]. intros w2 (Hd2 & _). apply Hr. congruence.
Qed.

(** Both rows of a transfer, locked. *)
Lemma runs_lock_pair w a b la lb :
  select_balance a (w_db w) = PgOk (Some la) → select_balance b (w_db w) = PgOk (Some lb) →
  ∃ accts, runs (lockBalances [a; b]) w accts (w_db w) 0 ∧
    accts !! a = Some la ∧ accts !! b = Some lb.
Proof.
  intros Ha Hb. destruct (runs_lock_ordered (w_db w) (sort_Strings [a; b]) ∅) as [accts Hr].
  { intros id. rewrite sort_Strings_perm. intros [->|[->|[]%not_elem_of_nil]%elem_of_cons]%elem_of_cons; eauto. }
  specialize (Hr w eq_refl). exists accts. split; [exact Hr|]. destruct Hr as (w' & E & _).
  pose proof (lockBalances_Ok [a; b] w accts w' E) as Hl.
  destruct (Hl a) as (la' & ? & ?); [by left|]. destruct (Hl b) as (lb' & ? & ?); [by right; left|].
  split; congruence.
Qed.

Lemma runs_insertTransaction t w cid :
  uuid_in (TxID t) = Some cid → ReversesTransactionID t = None →
  text_ok (TxDescription t) && opt_text_ok (ExternalReference t) = true →
  tx_kind_check (TxKind t) = true → String.eqb (TxKind t) "reversal" = false →
  currency_check (TxCurrency t) = true → ledger_transactions (w_db w) !! cid = None →
  runs (insertTransaction t) w tt (set_transactions
    (<[cid := header_row t None (w_txnow w)]> (ledger_transactions (w_db w))) (w_db w)) 0.
Proof.
  intros Hc Hr Ht Hk Hk' Hcur Hf. apply runs_map_err, runs_sql; [done|].
  unfold sql_insert_transaction, as_uuid. rewrite Hc, Hr. simpl. unfold insert_transaction.
  simpl. rewrite Ht, Hk, Hcur. unfold reversal_points_check. simpl. rewrite Hk'. simpl. by rewrite Hf.
Qed.

(** What the checks of an inserted entry ask. *)
Definition entry_fits (db : DB) (r : entry_row) : Prop :=
  in_int64 (e_amount r) && int4_ok (e_seq r) = true ∧ e_amount r ≠ 0 ∧ 0 ≤ e_seq r ∧
  has_entry (e_id r) db = false ∧
  Forall (λ x, e_transaction_id x = e_transaction_id r → e_seq x ≠ e_seq r) (ledger_entries db) ∧
  fk_tx_currency db r = true ∧ fk_account_currency db r = true.

Lemma insert_entry_run db r :
  entry_fits db r → insert_entry r db = PgOk (set_entries (ledger_entries db ++ [r]) db).
Proof.
  intros (Hi & Hz & Hs & Hid & Hseq & Ht & Ha). unfold insert_entry. rewrite Hi. simpl.
  rewrite (proj2 (Z.eqb_neq _ _) Hz), (proj2 (Z.leb_le _ _) Hs), Hid. simpl.
  assert (forallb (λ x, negb (String.eqb (e_transaction_id x) (e_transaction_id r) &&
            (e_seq x =? e_seq r))) (ledger_entries db) = true) as ->.
  { rewrite forallb_forall. intros x Hx%list_elem_of_In. rewrite Forall_forall in Hseq.
    specialize (Hseq x Hx). destruct (String.eqb_spec (e_transaction_id x) (e_transaction_id r)); [|done].
    simpl. rewrite (proj2 (Z.eqb_neq _ _)); [done|]. by apply Hseq. }
  simpl. rewrite Ht, Ha. unfold fk_tx_currency in Ht. unfold fk_account_currency in Ha.
  destruct (ledger_transactions db !! _); [|done]. by destruct (accounts db !! _).
Qed.

Lemma runs_insertEntry e r w :
  entry_stored (w_txnow w) e r → entry_fits (w_db w) r →
  runs (map_err (insert_entry_err e) (sql (sql_insert_entry e))) w tt
    (set_entries (ledger_entries (w_db w) ++ [r]) (w_db w)) 0.
Proof.
  intros (Hid & Ht & Ha & Hm & Hc & Hs & Hn & _) Hf. apply runs_map_err, runs_sql; [done|].
  unfold sql_insert_entry, as_uuid. rewrite Hid, Ht. simpl.
  replace (EntryRow _ _ _ _ _ _ _) with r by (destruct r; simpl in *; congruence).
  by rewrite insert_entry_run.
Qed.

Lemma runs_applyBalanceDelta id delta w b :
  balances (w_db w) !! id = Some b →
  let b' := BalanceRow (b_amount b + delta) (b_allow_overdraft b) (b_version b + 1) (w_txnow w) in
  balance_ok b' →
  runs (applyBalanceDelta id delta;; mret tt) w tt
    (set_balances (<[id := b']> (balances (w_db w))) (w_db w)) 0.
Proof.
  intros Hb b' Hok. change 0%nat with ((0 + (0 + 0)) + 0)%nat. eapply ends_bind.
  - unfold applyBalanceDelta. eapply ends_bind.
    + apply runs_map_err. change 0%nat with (0 + 0)%nat. eapply ends_bind.
      * apply runs_sql; [done|]. unfold sql_balance_delta. rewrite Hb. simpl. unfold update_balance.
        rewrite Hb. apply check_balance_ok in Hok. unfold b' in Hok. by rewrite Hok.
      * intros w1 (E & _). by apply ends_ret_at.
    + intros w1 (E & _). eapply ends_bind; [by apply runs_acquire_at|].
      intros w2 (E2 & _). by apply ends_ret_at.
  - intros w1 (E & _). by apply ends_ret_at.
Qed.
End steps.

Section steps2.
Context `{Ext} (Hcalm : calm).

(** The row [e] leaves behind. *)
Definition moved_row (now : Z) (e : Entry) (b : balance_row) : balance_row :=
  BalanceRow (b_amount b + EntAmount e) (b_allow_overdraft b) (b_version b + 1) now.

Lemma runs_deltas db now es :
  NoDup (EntAccountID <$> es) →
  Forall (λ e, ∃ b, balances db !! EntAccountID e = Some b ∧ balance_ok (moved_row now e b)) es →
  ∃ bal, ∀ w, w_db w = db → w_txnow w = now →
    runs (for_each (λ e, applyBalanceDelta (EntAccountID e) (EntAmount e);; mret tt) es) w tt
      (set_balances bal db) 0.
Proof.
  revert db. induction es as [|e es IH]; intros db Hnd Hall; simpl.
  { exists (balances db). intros w <- _. apply ends_ret_at. by destruct (w_db w). }
  apply NoDup_cons in Hnd as [Hne Hnd]. inversion Hall as [|? ? (b & Hb & Hok) Hes]; subst.
  destruct (IH (set_balances (<[EntAccountID e := moved_row now e b]> (balances db)) db)) as [bal Hr].
  - done.
  - apply Forall_forall. intros x Hx. rewrite Forall_forall in Hes.
    destruct (Hes x Hx) as (bx & Hbx & Hokx). exists bx. split; [|done]. simpl.
    rewrite lookup_insert_ne; [done|]. intros Eq. apply Hne. rewrite Eq. by apply list_elem_of_fmap_2.
  - exists bal. intros w <- <-. change 0%nat with (0 + 0)%nat.
    eapply ends_bind; [by apply runs_applyBalanceDelta|]. intros w1 (E1 & Et & _).
    refine (Hr w1 E1 Et).
Qed.

Lemma runs_post_entries ctx txn w cid r0 r1 e0 e1 :
  Enabled (w_fp w) = false → Entries txn = [e0; e1] →
  uuid_in (TxID txn) = Some cid → ReversesTransactionID txn = None →
  text_ok (TxDescription txn) && opt_text_ok (ExternalReference txn) = true →
  tx_kind_check (TxKind txn) = true → String.eqb (TxKind txn) "reversal" = false →
  currency_check (TxCurrency txn) = true → ledger_transactions (w_db w) !! cid = None →
  entry_stored (w_txnow w) e0 r0 → entry_stored (w_txnow w) e1 r1 →
  let d1 := set_transactions
    (<[cid := header_row txn None (w_txnow w)]> (ledger_transactions (w_db w))) (w_db w) in
  let d2 := set_entries (ledger_entries d1 ++ [r0]) d1 in
  entry_fits d1 r0 → entry_fits d2 r1 → EntAccountID e0 ≠ EntAccountID e1 →
  Forall (λ e, ∃ b, balances (w_db w) !! EntAccountID e = Some b ∧
                    balance_ok (moved_row (w_txnow w) e b)) [e0; e1] →
  ∃ bal, runs (post_entries ctx txn) w tt
    (set_balances bal (set_entries (ledger_entries (w_db w) ++ [r0; r1]) d1)) 0.
Proof.
  intros Hfp He Hc Hr Ht Hk Hk' Hcur Hf S0 S1 d1 d2 F0 F1 Hne Hbal.
  set (d3 := set_entries (ledger_entries (w_db w) ++ [r0; r1]) d1).
  destruct (runs_deltas d3 (w_txnow w) (sortedEntriesByAccount (Entries txn))) as [bal Hd].
  { rewrite sortedEntries_perm, He. simpl. apply NoDup_cons. split; [|apply NoDup_singleton].
    by rewrite list_elem_of_singleton. }
  { rewrite sortedEntries_perm, He. exact Hbal. }
  exists bal. unfold post_entries. change 0%nat with (0 + (0 + (0 + (0 + 0))))%nat.
  eapply ends_bind; [by apply runs_insertTransaction|]. intros w1 (D1 & T1 & P1 & _).
  eapply ends_bind.
  - unfold insertEntries. rewrite He. change 0%nat with (0 + (0 + 0))%nat. cbn [for_each].
    rewrite <-T1 in S0, S1. eapply ends_bind; [by apply runs_insertEntry; rewrite ?D1|].
    intros w2 (D2 & T2 & _). rewrite <-T2 in S1. rewrite D1 in D2.
    eapply ends_bind; [apply (runs_insertEntry Hcalm _ r1); [done|by rewrite D2]|].
    intros w3 (D3 & _). apply ends_ret_at. rewrite D3, D2. reflexivity.
  - intros w2 (D2 & T2 & P2 & _). eapply ends_bind; [apply runs_failpoint; congruence|].
    intros w3 (D3 & T3 & P3 & _). eapply ends_bind; [apply Hd|].
    + rewrite D3, D2. unfold d3, d1. simpl. by rewrite <-app_assoc.
    + congruence.
    + intros w4 (D4 & T4 & P4 & _).
      destruct (runs_failpoint ctx AfterBalancesUpdated (λ err, EApp (Internal err)) w4) as (w5 & E5 & F5).
      { congruence. } exists w5. split; [exact E5|]. by rewrite D4 in F5.
Qed.

(** ** Texts of an event *)

Lemma text_ok_no_nul s : text_ok s = true → no_nul s = true.
Proof.
  remember (String.length s) as n eqn:En. assert (String.length s ≤ n)%nat as Hn by lia. clear En.
  revert s Hn. induction n as [|n IH]; intros [|a s1] Hn; simpl in Hn; try done; try lia.
  assert (∀ s, (String.length s < String.length (String a s1))%nat → text_ok s = true → no_nul s = true)
    as Hrec by (intros s Hs; apply IH; simpl in Hs; lia).
  cbn [text_ok no_nul]. destruct (N.ltb_spec (byte_of a) 128).
  { intros [Ha Hs]%andb_true_iff. rewrite Ha. simpl. apply Hrec; [simpl; lia|done]. }
  assert (∀ c, continues c = true → (byte_of c =? 0)%N = false) as Hcont.
  { unfold continues. intros c [Hc _]%andb_true_iff. apply N.leb_le in Hc. apply N.eqb_neq. lia. }
  rewrite (proj2 (N.eqb_neq (byte_of a) 0)) by lia.
  destruct s1 as [|b s2]; [done|]. destruct ((194 <=? byte_of a) && (byte_of a <=? 223))%N.
  { intros [Hb Hs]%andb_true_iff. cbn [no_nul]. rewrite (Hcont b Hb). simpl. apply Hrec; [simpl; lia|done]. }
  destruct s2 as [|c s3]; [done|]. destruct ((224 <=? byte_of a) && (byte_of a <=? 239))%N.
  { intros [[[[Hb Hc]%andb_true_iff Hs]%andb_true_iff _]%andb_true_iff _]%andb_true_iff. cbn [no_nul].
    rewrite (Hcont b Hb), (Hcont c Hc). simpl. apply Hrec; [simpl; lia|done]. }
  destruct s3 as [|d s4]; [done|].
  intros [[[[[[_ Hb]%andb_true_iff Hc]%andb_true_iff Hd]%andb_true_iff Hs]%andb_true_iff
    _]%andb_true_iff _]%andb_true_iff. cbn [no_nul].
  rewrite (Hcont b Hb), (Hcont c Hc), (Hcont d Hd). simpl. apply Hrec; [simpl; lia|done].
Qed.

Definition fields_ok (fs : list (string * json)) : bool := forallb (λ p, no_nul p.1 && json_ok p.2) fs.

Lemma fields_ok_app l1 l2 : fields_ok (l1 ++ l2) = fields_ok l1 && fields_ok l2.
Proof. apply forallb_app. Qed.

Lemma fields_ok_omit k v : no_nul k = true → no_nul v = true → fields_ok (omit_str k v) = true.
Proof. intros Hk Hv. unfold omit_str. destruct (String.eqb v ""); [done|]. simpl. by rewrite Hk, Hv. Qed.

(** What the texts of an event come from. *)
Definition payment_texts_ok (d : PaymentData) : Prop :=
  Forall (λ s, no_nul s = true) [PdTransactionID d; PdKind d; PdCurrency d; PdSourceAccountID d;
    PdDestinationAccountID d; PdDescription d; PdExternalReference d; PdReversesTransactionID d; PdReason d] ∧
  Forall (λ e, no_nul (EdEntryID e) && no_nul (EdAccountID e) && no_nul (EdCurrency e) = true) (PdEntries d).

Lemma marshal_PaymentData_ok d : payment_texts_ok d → json_ok (marshal_PaymentData d) = true.
Proof.
  intros [Hs He]. rewrite !Forall_cons in Hs. destruct Hs as (S1 & S2 & S3 & S4 & S5 & S6 & S7 & S8 & S9 & _).
  unfold marshal_PaymentData. cbn [json_ok]. change (forallb _ ?l) with (fields_ok l).
  rewrite !fields_ok_app, !fields_ok_omit by done. simpl. rewrite S1, S2, S3. simpl.
  rewrite !andb_true_r. apply forallb_forall. intros j Hj%list_elem_of_In.
  apply list_elem_of_fmap in Hj as (e & -> & Hin). rewrite Forall_forall in He. specialize (He e Hin).
  apply andb_true_iff in He as [[H1 H2]%andb_true_iff H3]. simpl. by rewrite H1, H2, H3.
Qed.

Lemma event_fits evid ty at_ cid txid data :
  no_nul evid = true → no_nul ty = true → no_nul cid = true → no_nul txid = true → payment_texts_ok data →
  json_ok (marshal_Envelope (mkEnvelope evid ty SchemaVersion txid at_ cid None (marshal_PaymentData data))) &&
  text_map_ok (list_to_map [("event_type", ty); ("correlation_id", cid);
    ("schema_version", Sprintf "%d" [AInt SchemaVersion])]) = true.
Proof.
  intros He Hty Hc Ht Hd%marshal_PaymentData_ok. apply andb_true_iff. split.
  - unfold marshal_Envelope. cbn [json_ok]. change (forallb _ ?l) with (fields_ok l).
    rewrite !fields_ok_app, fields_ok_omit by done. cbn. rewrite He, Hty, Ht. simpl.
    change (json_ok (marshal_PaymentData data) && true = true). by rewrite Hd.
  - unfold text_map_ok. apply bool_decide_eq_true. simpl.
    repeat apply map_Forall_insert_2; [simpl; by rewrite ?Hty, ?Hc..|apply map_Forall_empty].
Qed.

Lemma runs_writeOutboxEvent cfg ctx txn ty data w evid :
  uuid_in (NewString_nth (w_uuid w)) = Some evid → outbox_events (w_db w) !! evid = None →
  no_nul (NewString_nth (w_uuid w)) = true → no_nul ty = true → no_nul (CorrelationID ctx) = true →
  no_nul (TxID txn) = true → payment_texts_ok data →
  ∃ o, runs (writeOutboxEvent cfg ctx txn ty data) w tt
    (set_outbox (<[evid := o]> (outbox_events (w_db w))) (w_db w)) 1.
Proof.
  intros Hu Hf Hev Hty Hcid Htx Hdata. eexists. unfold writeOutboxEvent. change 1%nat with (1 + 0)%nat.
  eapply ends_bind; [apply runs_NewString|]. intros w1 (D1 & T1 & _).
  apply runs_map_err, runs_sql; [done|]. unfold sql_insert, as_uuid. simpl. rewrite Hu. simpl.
  unfold insert_outbox, check_outbox. cbn [o_last_error o_payload o_headers opt_text_ok guard_pg].
  rewrite event_fits by done. simpl. rewrite D1, T1, Hf. reflexivity.
Qed.

Lemma runs_loadTransaction id c row w :
  uuid_in id = Some c → ledger_transactions (w_db w) !! c = Some row →
  (length (reversals_of (ledger_transactions (w_db w)) c) ≤ 1)%nat →
  ∃ t, TxID t = c ∧ ∀ w', w_db w' = w_db w → runs (loadTransaction id) w' t (w_db w) 0.
Proof.
  intros Hc Hrow Hrev. eexists (mkTransaction c _ _ _ _ _ (head (reversals_of _ c)) _ _).
  split; [done|]. intros w' Hd. unfold loadTransaction. change 0%nat with (0 + (0 + 0))%nat.
  eapply ends_bind with (a := (c, row, head (reversals_of (ledger_transactions (w_db w)) c))).
  - apply runs_map_err, runs_query_row; [done|]. unfold select_transaction, as_uuid. rewrite Hc.
    simpl. rewrite Hd, Hrow. by destruct (reversals_of _ c) as [|x [|y l]]; [..|simpl in Hrev; lia].
  - intros w1 (D1 & _). eapply ends_bind.
    + apply runs_map_err, runs_query; [done|]. unfold select_entries, as_uuid. rewrite Hc. done.
    + intros w2 (D2 & _). simpl. rewrite D1, Hd. apply ends_ret_at. congruence.
Qed.

Lemma runs_Complete s k st body id c row i w :
  uuid_in id = Some c → ledger_transactions (w_db w) !! c = Some row →
  idempotency_records (w_db w) !! (s, k) = Some i →
  ∃ i', runs (Complete s k st body (Some id)) w tt
    (set_idem (<[(s, k) := i']> (idempotency_records (w_db w))) (w_db w)) 0.
Proof.
  intros Hc Hrow Hi. eexists. apply runs_map_err, runs_sql; [done|].
  unfold sql_complete. simpl. unfold as_uuid. rewrite Hc. simpl. rewrite Hi.
  unfold update_idem. rewrite Hi. unfold check_idem. simpl. by rewrite Hrow.
Qed.
End steps2.
