(* ===== verification/LedgerProgress.v ===== *)
(** Progress: what the commands do when nothing outside fails. A valid transfer
    between funded accounts commits; the refusals are the ones the code means. *)
From S2P Require Import Prelude GoStrings Json Apperr Failpoint Schema SchemaFacts Monad World Storage Idempotency Event Config Outbox LedgerModel LedgerRepo LedgerService EntryOrder LedgerFacts LedgerEffects Once Kafka Publisher Replay Reconciliation Webhook Writers LedgerInvariant System Demo Runs.
Local Open Scope Z_scope.

(** ** A transfer that goes through *)

Section transfer.
Context `{Ext} (Hcalm : calm).

(** The accounts exist in the transfer's currency, the source has the funds,
    and neither balance nor version leaves its 64 bits. *)
Record fundable (cmd : TransferCommand) (d : DB) (rs rd : account_row) (bs bd : balance_row)
    : Prop := {
  fu_source : accounts d !! SourceAccountID cmd = Some rs;
  fu_dest : accounts d !! DestinationAccountID cmd = Some rd;
  fu_source_currency : a_currency rs = Currency cmd;
  fu_dest_currency : a_currency rd = Currency cmd;
  fu_source_balance : balances d !! SourceAccountID cmd = Some bs;
  fu_dest_balance : balances d !! DestinationAccountID cmd = Some bd;
  fu_funds : b_allow_overdraft bs = true ∨ Amount cmd ≤ b_amount bs;
  fu_low : int64_min ≤ b_amount bs - Amount cmd;
  fu_high : b_amount bd + Amount cmd ≤ int64_max;
  fu_versions : b_version bs < int64_max ∧ b_version bd < int64_max;
}.

(** The next UUIDs are well formed and new: [c0] for the transaction, [c1] and [c2]
    for the entries, [c3] for the event. *)
Record new_uuids (n : nat) (d : DB) (c0 c1 c2 c3 : string) : Prop := {
  nu_tx : uuid_in (NewString_nth n) = Some c0;
  nu_e0 : uuid_in (NewString_nth (n + 1)) = Some c1;
  nu_e1 : uuid_in (NewString_nth (n + 2)) = Some c2;
  nu_event : uuid_in (NewString_nth (n + 3)) = Some c3;
  nu_tx_new : ledger_transactions d !! c0 = None;
  nu_e0_new : has_entry c1 d = false;
  nu_e1_new : has_entry c2 d = false;
  nu_e_distinct : c1 ≠ c2;
  nu_event_new : outbox_events d !! c3 = None;
}.

(** PostgreSQL can hold the texts: valid UTF-8 without a zero byte, which JSON does not
    ask of a request. *)
Record transfer_texts_ok (n : nat) (ctx : Ctx) (cmd : TransferCommand) : Prop := {
  tt_key : text_ok (IdempotencyScope (TrIdem cmd)) && text_ok (IdempotencyKey (TrIdem cmd)) = true;
  tt_description : text_ok (Description cmd) = true;
  tt_reference : text_ok (TrExternalReference cmd) = true;
  tt_source : text_ok (SourceAccountID cmd) = true;
  tt_destination : text_ok (DestinationAccountID cmd) = true;
  tt_correlation : text_ok (CorrelationID ctx) = true;
  tt_uuids : ∀ i, (i < 4)%nat → text_ok (NewString_nth (n + i)) = true;
}.

(** [m] ends well, in a state where [Q] holds. *)
Definition wp {A} (m : M A) (w : World) (Q : A → World → Prop) : Prop :=
  ∃ a w', m w = (Ok a, w') ∧ Q a w'.

Lemma wp_bind {A B} (m : M A) (f : A → M B) w Q :
  wp m w (λ a w1, wp (f a) w1 Q) → wp (m ≫= f) w Q.
Proof. intros (a & w1 & E1 & b & w2 & E2 & HQ). exists b, w2. by rewrite (bind_run _ _ _ _ _ E1). Qed.

Lemma wp_runs {A} (m : M A) w a d k (Q : A → World → Prop) :
  runs m w a d k → (∀ w', follows w w' d k → Q a w') → wp m w Q.
Proof. intros (w' & E & F) HQ. exists a, w'. auto. Qed.

Lemma wp_ret {A} (a : A) w (Q : A → World → Prop) : Q a w → wp (mret a) w Q.
Proof. intros HQ. by exists a, w. Qed.

Lemma no_reversal_of_new db cid row :
  wf db → ledger_transactions db !! cid = None → t_reverses row = None →
  reversals_of (<[cid := row]> (ledger_transactions db)) cid = [].
Proof.
  intros Hwf Hc Hr. unfold reversals_of.
  rewrite (proj2 (map_empty_filter (λ p, t_reverses p.2 = Some cid) _)); [by rewrite map_to_list_empty|].
  intros id t [[<- <-]|[_ Ht]]%lookup_insert_Some Ho; simpl in Ho; [congruence|].
  pose proof (wf_reverses _ Hwf id t Ht) as Hfk. simpl in Hfk. rewrite Ho in Hfk.
  apply exists_in_true in Hfk as [x Hx]. congruence.
Qed.

Lemma fundable_select cmd d rs rd bs bd :
  fundable cmd d rs rd bs bd →
  select_balance (SourceAccountID cmd) d = PgOk (Some (mkLocked (SourceAccountID cmd)
    (a_currency rs) (a_kind rs) (b_allow_overdraft bs) (b_amount bs) (b_version bs))) ∧
  select_balance (DestinationAccountID cmd) d = PgOk (Some (mkLocked (DestinationAccountID cmd)
    (a_currency rd) (a_kind rd) (b_allow_overdraft bd) (b_amount bd) (b_version bd))).
Proof. intros []. unfold select_balance. by rewrite fu_source0, fu_dest0, fu_source_balance0, fu_dest_balance0. Qed.

Lemma fundable_check cmd d rs rd bs bd :
  fundable cmd d rs rd bs bd →
  check_transfer (mkLocked (SourceAccountID cmd) (a_currency rs) (a_kind rs)
      (b_allow_overdraft bs) (b_amount bs) (b_version bs))
    (mkLocked (DestinationAccountID cmd) (a_currency rd) (a_kind rd)
      (b_allow_overdraft bd) (b_amount bd) (b_version bd)) cmd = None.
Proof.
  intros []. unfold check_transfer. simpl.
  rewrite fu_source_currency0, fu_dest_currency0, !String.eqb_refl. simpl.
  destruct (b_allow_overdraft bs); [done|]. simpl.
  destruct (Z.ltb_spec (b_amount bs) (Amount cmd)); [|done]. destruct fu_funds0; [done|lia].
Qed.

(** The two entries' rows of the transfer. *)
Definition debit_row (c1 c0 : string) (now : Z) (cmd : TransferCommand) : entry_row :=
  EntryRow c1 c0 (SourceAccountID cmd) (- Amount cmd) (Currency cmd) 0 now.
Definition credit_row (c2 c0 : string) (now : Z) (cmd : TransferCommand) : entry_row :=
  EntryRow c2 c0 (DestinationAccountID cmd) (Amount cmd) (Currency cmd) 1 now.

(** What the attempt leaves in the database: exactly these two entries more. *)
Definition posted_pair (cmd : TransferCommand) (d d' : DB) : Prop :=
  ∃ c0 c1 c2 now, ledger_transactions d !! c0 = None ∧
    ledger_entries d' = ledger_entries d ++ [debit_row c1 c0 now cmd; credit_row c2 c0 now cmd].

Lemma has_entry_app id db r :
  has_entry id (set_entries (ledger_entries db ++ [r]) db) = has_entry id db || String.eqb (e_id r) id.
Proof. unfold has_entry. simpl. rewrite existsb_app. simpl. by rewrite orb_false_r. Qed.

Lemma pair_fits cmd w rs rd bs bd c0 c1 c2 n c3 txn :
  wf (w_db w) → 0 < Amount cmd ≤ int64_max → fundable cmd (w_db w) rs rd bs bd →
  new_uuids n (w_db w) c0 c1 c2 c3 → TxCurrency txn = Currency cmd →
  let now := w_txnow w in
  let d1 := set_transactions (<[c0 := header_row txn None now]> (ledger_transactions (w_db w))) (w_db w) in
  entry_fits d1 (debit_row c1 c0 now cmd) ∧
  entry_fits (set_entries (ledger_entries d1 ++ [debit_row c1 c0 now cmd]) d1) (credit_row c2 c0 now cmd).
Proof.
  intros Hwf Ham Hf Hu Hcur now d1.
  assert (in_int64 (Amount cmd) = true ∧ in_int64 (- Amount cmd) = true) as [Hi1 Hi2].
  { split; apply in_int64_iff; unfold int64_min, int64_max in *; lia. }
  assert (Forall (λ x, e_transaction_id x ≠ c0) (ledger_entries (w_db w))) as Hold.
  { eapply Forall_impl; [apply (wf_entries _ Hwf)|]. intros x (_ & _ & _ & Hfk & _) Hx.
    unfold fk_tx_currency in Hfk. rewrite Hx in Hfk. by rewrite (nu_tx_new _ _ _ _ _ _ Hu) in Hfk. }
  assert (fk_tx_currency d1 (debit_row c1 c0 now cmd) = true) as Hfk.
  { unfold fk_tx_currency. simpl. rewrite lookup_insert_eq. simpl. rewrite Hcur. apply String.eqb_refl. }
  split; split_and!; simpl; try done; try lia.
  - by rewrite Hi2.
  - apply (nu_e0_new _ _ _ _ _ _ Hu).
  - eapply Forall_impl; [exact Hold|]. intros x Hx Hx'. done.
  - unfold fk_account_currency. simpl. rewrite (fu_source _ _ _ _ _ _ Hf).
    rewrite (fu_source_currency _ _ _ _ _ _ Hf). apply String.eqb_refl.
  - by rewrite Hi1.
  - change (has_entry c2 (set_entries (ledger_entries d1 ++ [debit_row c1 c0 now cmd]) d1) = false).
    rewrite has_entry_app. simpl.
    change (has_entry c2 (w_db w) || String.eqb c1 c2 = false).
    rewrite (nu_e1_new _ _ _ _ _ _ Hu). simpl.
    destruct (String.eqb_spec c1 c2); [|done]. by destruct (nu_e_distinct _ _ _ _ _ _ Hu).
  - apply Forall_app_2; [|by repeat constructor].
    eapply Forall_impl; [exact Hold|]. intros x Hx Hx'. done.
  - unfold fk_account_currency. simpl. rewrite (fu_dest _ _ _ _ _ _ Hf).
    rewrite (fu_dest_currency _ _ _ _ _ _ Hf). apply String.eqb_refl.
Qed.

Lemma pair_balances cmd d rs rd bs bd now :
  wf d → 0 < Amount cmd ≤ int64_max → fundable cmd d rs rd bs bd →
  (∀ e, EntAmount e = - Amount cmd → balance_ok (moved_row now e bs)) ∧
  (∀ e, EntAmount e = Amount cmd → balance_ok (moved_row now e bd)).
Proof.
  intros Hwf Ham Hf. destruct (fu_versions _ _ _ _ _ _ Hf) as [V1 V2].
  destruct (wf_balances _ Hwf _ _ (fu_source_balance _ _ _ _ _ _ Hf)) as [(A1 & W1 & N1) _].
  destruct (wf_balances _ Hwf _ _ (fu_dest_balance _ _ _ _ _ _ Hf)) as [(A2 & W2 & N2) _].
  pose proof (fu_low _ _ _ _ _ _ Hf). pose proof (fu_high _ _ _ _ _ _ Hf).
  apply in_int64_iff in A1, A2, W1, W2. unfold balances_non_negative in *.
  split; intros e He; (split_and!; simpl; [apply in_int64_iff; lia|apply in_int64_iff; lia|]);
    unfold balances_non_negative; simpl; rewrite He.
  - destruct (fu_funds _ _ _ _ _ _ Hf) as [->|Hle]; [done|]. apply orb_true_intro. right.
    apply Z.leb_le. lia.
  - apply orb_true_iff in N2. apply orb_true_intro. destruct N2 as [->|N2]; [by left|right].
    apply Z.leb_le in N2. apply Z.leb_le. lia.
Qed.

Lemma currency_check_account d id r : wf d → accounts d !! id = Some r → currency_check (a_currency r) = true.
Proof. intros Hwf Hr. by destruct (wf_accounts _ Hwf id r Hr). Qed.

(** The event of a transfer whose texts can be held. *)
Lemma currency_no_nul c : currency_check c = true → no_nul c = true.
Proof.
  destruct c as [|a [|b [|x []]]]; try done. simpl.
  intros [[Ha Hb]%andb_true_iff Hx]%andb_true_iff.
  assert (∀ y, is_upper y = true → (byte_of y =? 0)%N = false) as Hup.
  { intros y. unfold is_upper. rewrite N.eqb_neq. destruct (N.eqb_spec (byte_of y) 0) as [E|]; [|done].
    rewrite E. done. }
  by rewrite !Hup.
Qed.

Lemma transfer_texts n ctx txID e0 e1 now cmd src dst :
  transfer_texts_ok n ctx cmd → no_nul txID = true → no_nul e0 = true → no_nul e1 = true →
  no_nul (Currency cmd) = true → LkID src = SourceAccountID cmd → LkID dst = DestinationAccountID cmd →
  let txn := transfer_transaction txID e0 e1 now src dst cmd in
  text_ok (TxDescription txn) && opt_text_ok (ExternalReference txn) = true ∧
  payment_texts_ok (transfer_data txn src dst cmd).
Proof.
  intros [] Ht H0 H1 Hc Es Ed txn. split.
  - simpl. rewrite tt_description0. simpl. by destruct (String.eqb _ "").
  - split; simpl; rewrite ?Es, ?Ed; repeat constructor; simpl;
      rewrite ?H0, ?H1, ?Hc, ?(text_ok_no_nul (SourceAccountID cmd)), ?(text_ok_no_nul (DestinationAccountID cmd))
        by done; try done; try by apply text_ok_no_nul.
    unfold transfer_kind. by destruct (String.eqb _ _).
Qed.

Lemma wp_executeTransfer cfg ctx n cmd w i rs rd bs bd c0 c1 c2 c3 :
  transfer_texts_ok n ctx cmd → Enabled (w_fp w) = false → wf (w_db w) → 0 < Amount cmd ≤ int64_max →
  SourceAccountID cmd ≠ DestinationAccountID cmd →
  fundable cmd (w_db w) rs rd bs bd → new_uuids n (w_db w) c0 c1 c2 c3 → w_uuid w = (n + 1)%nat →
  idempotency_records (w_db w) !! idem_key (TrIdem cmd) = Some i →
  wp (executeTransfer cfg ctx (NewString_nth n) cmd) w
    (λ res w', Replayed res = false ∧ Enabled (w_fp w') = false ∧ posted_pair cmd (w_db w) (w_db w')).
Proof.
  intros Htt Hfp Hwf Ham Hne Hf Hu Hn Hi. destruct (fundable_select _ _ _ _ _ _ Hf) as [Hs Hd].
  destruct (runs_lock_pair Hcalm w _ _ _ _ Hs Hd) as (accts & Hlock & Es & Ed).
  pose proof (fundable_check _ _ _ _ _ _ Hf) as Hchk. set (src := mkLocked _ _ _ _ _ _) in Es.
  set (dst := mkLocked (DestinationAccountID cmd) _ _ _ _ _) in Ed. fold src dst in Hchk.
  unfold executeTransfer. apply wp_bind. eapply wp_runs; [exact Hlock|]. intros w1 (D1 & T1 & P1 & U1).
  apply wp_bind. eapply wp_runs; [apply runs_failpoint; congruence|]. intros w2 (D2 & T2 & P2 & U2).
  rewrite Es, Ed. apply wp_bind, wp_ret, wp_bind, wp_ret. rewrite Hchk.
  apply wp_bind. eapply wp_runs; [apply runs_Now|]. intros w3 (D3 & T3 & P3 & U3).
  apply wp_bind. eapply wp_runs; [apply runs_NewString|]. intros w4 (D4 & T4 & P4 & U4).
  apply wp_bind. eapply wp_runs; [apply runs_NewString|]. intros w5 (D5 & T5 & P5 & U5).
  assert (w_uuid w3 = (n + 1)%nat ∧ w_uuid w4 = (n + 2)%nat ∧ w_uuid w5 = (n + 3)%nat) as (N3 & N4 & N5)
    by lia. rewrite N3, N4.
  assert (w_db w5 = w_db w) as D by congruence. assert (w_txnow w5 = w_txnow w) as T by congruence.
  assert (Enabled (w_fp w5) = false) as P by congruence.
  clear D1 D2 D3 D4 D5 T1 T2 T3 T4 T5 P1 P2 P3 P4 P5 U1 U2 U3 U4 U5.
  set (txn := transfer_transaction _ _ _ _ _ _ _). clear Hlock Hs Hd. rewrite <-D in Hwf, Hf, Hu, Hi |- *. clear D T.
  assert (∀ k, (k < 4)%nat → no_nul (NewString_nth (n + k)) = true) as Hnul
    by (intros k ?; by apply text_ok_no_nul, (tt_uuids _ _ _ Htt)).
  assert (currency_check (Currency cmd) = true) as Hcur.
  { rewrite <-(fu_source_currency _ _ _ _ _ _ Hf).
    eapply currency_check_account; [exact Hwf|apply (fu_source _ _ _ _ _ _ Hf)]. }
  destruct (transfer_texts n ctx (NewString_nth n) (NewString_nth (n + 1)) (NewString_nth (n + 2)) (w_clock w2)
    cmd src dst Htt) as [Htxt Hdata]; [rewrite <-(Nat.add_0_r n); apply Hnul; lia|apply Hnul; lia..
    |by apply currency_no_nul|done|done|]. fold txn in Htxt, Hdata.
  destruct (pair_fits cmd w5 rs rd bs bd c0 c1 c2 n c3 txn Hwf Ham Hf Hu eq_refl) as [F0 F1].
  destruct (pair_balances cmd (w_db w5) rs rd bs bd (w_txnow w5) Hwf Ham Hf) as [B0 B1].
  assert (wrap64 (- Amount cmd) = - Amount cmd) as Hwrap.
  { apply wrap64_id. unfold int64_min, int64_max in *. lia. }
  edestruct (runs_post_entries Hcalm ctx txn w5 c0 (debit_row c1 c0 (w_txnow w5) cmd)
               (credit_row c2 c0 (w_txnow w5) cmd)) as [bal Hpost].
  - exact P.
  - reflexivity.
  - apply (nu_tx _ _ _ _ _ _ Hu).
  - done.
  - exact Htxt.
  - simpl. unfold transfer_kind. by destruct (String.eqb (LkKind src) KindSystem).
  - simpl. unfold transfer_kind. by destruct (String.eqb (LkKind src) KindSystem).
  - exact Hcur.
  - apply (nu_tx_new _ _ _ _ _ _ Hu).
  - split_and!; simpl; try done; [apply Hu..|apply in_int64_iff; unfold int64_min, int64_max in *; lia].
  - split_and!; simpl; try done; [apply Hu..|apply in_int64_iff; unfold int64_min, int64_max in *; lia].
  - exact F0.
  - exact F1.
  - exact Hne.
  - repeat constructor; simpl.
    + eexists. split; [apply (fu_source_balance _ _ _ _ _ _ Hf)|]. by apply B0.
    + eexists. split; [apply (fu_dest_balance _ _ _ _ _ _ Hf)|]. by apply B1.
  - apply wp_bind. eapply wp_runs; [exact Hpost|]. intros w6 (D6 & T6 & P6 & U6).
    set (d6 := set_balances _ _) in *.
    edestruct (runs_writeOutboxEvent Hcalm cfg ctx txn EventPaymentCreated (transfer_data txn src dst cmd) w6)
      as [o Ho].
    { replace (w_uuid w6) with (n + 3)%nat by lia. apply (nu_event _ _ _ _ _ _ Hu). }
    { rewrite D6. apply (nu_event_new _ _ _ _ _ _ Hu). }
    { replace (w_uuid w6) with (n + 3)%nat by lia. apply Hnul. lia. }
    { done. }
    { by apply text_ok_no_nul, (tt_correlation _ _ _ Htt). }
    { simpl. rewrite <-(Nat.add_0_r n). apply Hnul. lia. }
    { exact Hdata. }
    apply wp_bind. eapply wp_runs; [exact Ho|]. intros w7 (D7 & T7 & P7 & U7).
    apply wp_bind. eapply wp_runs; [apply runs_failpoint; congruence|]. intros w8 (D8 & T8 & P8 & U8).
    assert (ledger_transactions (w_db w8) = <[c0 := header_row txn None (w_txnow w5)]>
              (ledger_transactions (w_db w5))) as Htx by by rewrite D8, D7, D6.
    unfold complete_transaction.
    edestruct (runs_loadTransaction Hcalm (TxID txn) c0 (header_row txn None (w_txnow w5)) w8) as (t & Ht & Hload).
    { apply (nu_tx _ _ _ _ _ _ Hu). }
    { rewrite Htx. apply lookup_insert_eq. }
    { rewrite Htx, no_reversal_of_new; [simpl; lia|done|apply (nu_tx_new _ _ _ _ _ _ Hu)|done]. }
    apply wp_bind, wp_bind. eapply wp_runs; [by apply Hload|]. intros w9 (D9 & T9 & P9 & U9).
    edestruct (runs_Complete Hcalm (IdempotencyScope (TrIdem cmd)) (IdempotencyKey (TrIdem cmd)) 201
                 (marshal_Transaction t) (TxID txn) c0 (header_row txn None (w_txnow w5)) i w9) as [i' Hi'].
    { apply (nu_tx _ _ _ _ _ _ Hu). }
    { rewrite D9, Htx. apply lookup_insert_eq. }
    { rewrite D9, D8, D7, D6. exact Hi. }
    apply wp_bind. eapply wp_runs; [exact Hi'|]. intros w10 (D10 & T10 & P10 & U10). apply wp_ret.
    apply wp_bind. eapply wp_runs; [apply runs_failpoint; congruence|]. intros w11 (D11 & T11 & P11 & U11).
    apply wp_ret. split_and!; [done|congruence|].
    exists c0, c1, c2, (w_txnow w5). split; [apply (nu_tx_new _ _ _ _ _ _ Hu)|].
    by rewrite D11, D10, D9, D8, D7, D6.
Qed.

Lemma fundable_tables cmd d d' rs rd bs bd :
  accounts d' = accounts d → balances d' = balances d →
  fundable cmd d rs rd bs bd → fundable cmd d' rs rd bs bd.
Proof. intros Ea Eb []. split; rewrite ?Ea, ?Eb; done. Qed.

Lemma new_uuids_tables n d d' c0 c1 c2 c3 :
  ledger_transactions d' = ledger_transactions d → ledger_entries d' = ledger_entries d →
  outbox_events d' = outbox_events d →
  new_uuids n d c0 c1 c2 c3 → new_uuids n d' c0 c1 c2 c3.
Proof. intros Et Ee Eo []. unfold has_entry in *. split; unfold has_entry; rewrite ?Et, ?Ee, ?Eo; done. Qed.

Lemma claimed_wf i now d : wf d → wf (claimed i now d).
Proof. intros Hwf. by apply wf_set_idem. Qed.

(** A fresh key is claimed and the work done. *)
Lemma wp_claim_or_replay i work w Q :
  text_ok (IdempotencyScope i) && text_ok (IdempotencyKey i) = true →
  idempotency_records (w_db w) !! idem_key i = None →
  (∀ w1, follows w w1 (claimed i (w_txnow w) (w_db w)) 0 → wp work w1 Q) →
  wp (claim_or_replay i work) w Q.
Proof.
  intros Ht Hk Hwork. unfold claim_or_replay.
  apply wp_bind. eapply wp_runs; [by apply runs_LockKey|]. intros w1 (D1 & T1 & P1 & U1).
  apply wp_bind. eapply wp_runs; [apply runs_Claim; [done|done|by rewrite D1]|].
  intros w2 (D2 & T2 & P2 & U2). apply Hwork. split_and!; [|congruence..|lia].
  rewrite D2, D1, T1. reflexivity.
Qed.

Lemma posted_pair_commits cmd d d' :
  wf d → 0 < Amount cmd ≤ int64_max → posted_pair cmd d d' → commit_check d d' = PgOk tt.
Proof.
  intros Hwf Ham (c0 & c1 & c2 & now & Hc & He). unfold commit_check.
  rewrite He, drop_app_length. simpl.
  assert (assert_transaction_balanced d' c0 = PgOk tt) as Hb.
  { unfold assert_transaction_balanced. rewrite He, entries_of_app, (entries_of_unknown d) by done.
    unfold entries_of. simpl. rewrite !filter_cons, filter_nil. simpl. rewrite !decide_True by done.
    unfold sum_with. simpl. replace (- Amount cmd + (Amount cmd + 0)) with 0 by lia. done. }
  by rewrite Hb.
Qed.

(** An attempt that ends well and satisfies the deferred checks commits, and the
    retry loop stops there. *)
Lemma wp_InTx_result {A} n (m : M A) w Q :
  0 < n →
  wp m (set_txnow (w_clock w) (set_locks [] (set_tick (S (w_tick w)) w)))
    (λ a w2, commit_check (w_db w) (w_db w2) = PgOk tt ∧ Q a w2) →
  ∃ a w2 w', InTx_result n m w = (Ok (Some a), w') ∧ Q a w2 ∧ w_db w' = w_db w2 ∧ w_fp w' = w_fp w2.
Proof.
  intros Hn (a & w2 & E & Hc & HQ). destruct Hcalm as (_ & Hbegin & Hcommit).
  unfold InTx_result, InTx_result_waiting, InTx_waiting. destruct (Z.to_nat n) as [|k] eqn:Ek; [lia|].
  cbn [InTx_loop]. unfold then_body at 1, pause. simpl Z.ltb. simpl.
  unfold runOnce. rewrite Hbegin. unfold assigning. rewrite E. unfold commit_result.
  rewrite Hc, Hcommit. unfold then_body. simpl. eexists a, w2, _. done.
Qed.
End transfer.

(** C28. Progress: when the database answers without faults, no failpoint is armed and
    at least one attempt is configured, a valid transfer under a fresh key, between
    two accounts that exist in the transfer's currency, with the funds at the source
    (or its overdraft allowed), with balances and versions that stay within 64 bits,
    in texts that PostgreSQL can hold (UTF-8 without a zero byte), with fresh UUIDs, is
    committed: the call returns a result that is not a replay, and exactly its two
    entries are appended. *)
Theorem Transfer_succeeds `{Ext} cfg ctx cmd w rs rd bs bd c0 c1 c2 c3 :
  calm → Enabled (w_fp w) = false → 0 < DBMaxTxRetries cfg → wf (w_db w) →
  ValidateTransfer cmd = None → Amount cmd ≤ int64_max →
  idempotency_records (w_db w) !! idem_key (TrIdem cmd) = None →
  fundable cmd (w_db w) rs rd bs bd → new_uuids (w_uuid w) (w_db w) c0 c1 c2 c3 →
  transfer_texts_ok (w_uuid w) ctx cmd →
  ∃ res w', Transfer cfg ctx cmd w = (Ok res, w') ∧ Replayed res = false ∧
    posted_pair cmd (w_db w) (w_db w').
Proof.
  intros Hcalm Hfp Hn Hwf Hv Ham Hk Hf Hu Htt.
  apply ValidateTransfer_None in Hv as Hv'. destruct Hv' as (_ & _ & Hne & Hpos & _).
  assert (wp (Transfer cfg ctx cmd) w (λ res w', Replayed res = false ∧
            posted_pair cmd (w_db w) (w_db w'))) as (res & w' & E & HQ); [|by exists res, w'].
  unfold Transfer. rewrite Hv. apply wp_bind.
  eapply wp_runs; [by apply runs_EvalFailpoint|]. intros w1 (D1 & T1 & P1 & U1).
  apply wp_bind. eapply wp_runs; [apply runs_NewString|]. intros w2 (D2 & T2 & P2 & U2).
  rewrite U1, Nat.add_0_r. set (txID := NewString_nth (w_uuid w)). set (ctx2 := WithTransactionID ctx txID).
  destruct (wp_InTx_result Hcalm (DBMaxTxRetries cfg) (transfer_closure cfg ctx2 txID cmd) w2
    (λ res w', Replayed res = false ∧ Enabled (w_fp w') = false ∧
               posted_pair cmd (w_db w2) (w_db w')) Hn) as (a & wa & wb & E & (Ha & Pa & Hpost) & Db & Pb).
  - apply wp_claim_or_replay; [done|apply Htt|simpl; by rewrite D2, D1|]. intros w3 (D3 & T3 & P3 & U3).
    simpl in D3, T3, P3, U3. rewrite D2, D1 in D3.
    destruct (wp_executeTransfer Hcalm cfg ctx2 (w_uuid w) cmd w3
      (claimed_row (IdemRequestHash (TrIdem cmd)) (w_clock w2)) rs rd bs bd c0 c1 c2 c3)
      as (res & w4 & E4 & Hres & Hp4 & Hpair).
    + by destruct Htt.
    + congruence.
    + rewrite D3. by apply claimed_wf.
    + lia.
    + done.
    + rewrite D3. eapply fundable_tables; [..|exact Hf]; done.
    + rewrite D3. eapply new_uuids_tables; [..|exact Hu]; done.
    + lia.
    + rewrite D3. apply lookup_insert_eq.
    + exists res, w4. split; [exact E4|].
      assert (posted_pair cmd (w_db w2) (w_db w4)) as Hpair2.
      { rewrite D2, D1. rewrite D3 in Hpair. exact Hpair. }
      split; [|done]. apply (posted_pair_commits cmd); [by rewrite D2, D1|lia|exact Hpair2].
  - apply wp_bind. exists (inr (Some a)), wb. split; [unfold try; by rewrite E|].
    apply wp_bind, wp_ret. rewrite Ha.
    apply wp_bind. eapply wp_runs; [apply runs_Inc|]. intros w5 (D5 & T5 & P5 & U5).
    apply wp_bind. eapply wp_runs; [apply runs_Inc|]. intros w6 (D6 & T6 & P6 & U6).
    apply wp_bind. eapply wp_runs; [apply runs_failpoint; congruence|]. intros w7 (D7 & T7 & P7 & U7).
    apply wp_ret. split; [done|]. rewrite D7, D6, D5, Db. rewrite D2, D1 in Hpost. exact Hpost.
Qed.

Lemma demo_calm : calm (H:=demo_ext).
Proof. split_and!; reflexivity. Qed.

Lemma Transfer_succeeds_witness :
  ∃ res w', Transfer (H:=demo_ext) cfg Background fund_alice (demo2 (H:=demo_ext)) = (Ok res, w') ∧
    Replayed res = false ∧
    posted_pair fund_alice (w_db (demo2 (H:=demo_ext))) (w_db w').
Proof.
  eapply (Transfer_succeeds (H:=demo_ext)).
  - exact demo_calm.
  - vm_compute. reflexivity.
  - vm_compute. reflexivity.
  - exact (proj1 (written_safe _ (li_written _ (reachable_inv (H:=demo_ext) (H0:=demo_uuid) _
             (demo2_reachable (H:=demo_ext)))))).
  - vm_compute. reflexivity.
  - vm_compute. discriminate.
  - vm_compute. reflexivity.
  - split; try (vm_compute; reflexivity); try (vm_compute; discriminate).
    + left. vm_compute. reflexivity.
    + vm_compute. split; reflexivity.
  - split; try (vm_compute; reflexivity). vm_compute. discriminate.
  - split; try (vm_compute; reflexivity). intros [|[|[|[|i]]]] Hi; try reflexivity. lia.
Defined.

(** A valid command whose description holds a zero byte, which JSON writes as an
    escape: PostgreSQL refuses the text, and the client is told of an internal error. *)
Lemma zero_byte_is_an_internal_error :
  let cmd := mkTransfer "bank" "alice" 100 "USD" (String Ascii.zero "") "" (mkIdem "scope" "k9" "h9") in
  ValidateTransfer cmd = None ∧
  match Transfer (H:=demo_ext) cfg Background cmd (demo2 (H:=demo_ext)) with
  | (Err e, w') => HTTPStatus <$> From (Some e) = Some 500 ∧ w_db w' = w_db (demo2 (H:=demo_ext))
  | _ => False
  end.
Proof. split; [reflexivity|]. vm_compute. by split. Qed.

(** ** Refusals *)

(** [m] fails with an error and in a state [Q] describes. *)
Definition fails {A} (m : M A) (w : World) (Q : error → World → Prop) : Prop :=
  ∃ e w', m w = (Err e, w') ∧ Q e w'.

Lemma fails_bind_now {A B} (m : M A) (f : A → M B) w Q : fails m w Q → fails (m ≫= f) w Q.
Proof. intros (e & w1 & E & HQ). exists e, w1. by rewrite (bind_run_Err _ _ _ _ _ E). Qed.

Lemma fails_bind {A B} (m : M A) (f : A → M B) w Q :
  wp m w (λ a w1, fails (f a) w1 Q) → fails (m ≫= f) w Q.
Proof. intros (a & w1 & E1 & e & w2 & E2 & HQ). exists e, w2. by rewrite (bind_run _ _ _ _ _ E1). Qed.

Section refusals.
Context `{Ext} (Hcalm : calm).

(** An error that is not worth a retry ends the transaction: nothing stays. *)
Lemma InTx_result_fails {A} n (m : M A) w err :
  0 < n → retryReason err = None →
  fails m (set_txnow (w_clock w) (set_locks [] (set_tick (S (w_tick w)) w))) (λ e _, e = err) →
  fails (InTx_result n m) w (λ e w', e = err ∧ w_db w' = w_db w).
Proof.
  intros Hn Hr (e & w2 & E & ->). destruct Hcalm as (_ & Hbegin & _).
  unfold fails, InTx_result, InTx_result_waiting, InTx_waiting.
  destruct (Z.to_nat n) as [|k] eqn:Ek; [lia|].
  cbn [InTx_loop]. unfold then_body at 1, pause. simpl Z.ltb. simpl.
  unfold runOnce. rewrite Hbegin. unfold assigning. rewrite E, Hr. simpl. eauto.
Qed.

(** A taken key, offered with another request. *)
Lemma claim_or_replay_conflict i work w row :
  idempotency_records (w_db w) !! idem_key i = Some row → i_request_hash row ≠ IdemRequestHash i →
  fails (claim_or_replay i work) w (λ e _, e = EApp (Conflict (IdempotencyKey i))).
Proof.
  intros Hrow Hh. unfold claim_or_replay. apply fails_bind.
  eapply wp_runs; [by apply runs_LockKey|]. intros w1 (D1 & _). apply fails_bind.
  assert (wp (Claim (IdempotencyScope i) (IdempotencyKey i) (IdemRequestHash i)) w1
    (λ o _, o = Some (record_of (IdempotencyScope i) (IdempotencyKey i) row))) as (o & w2 & E & ->).
  { unfold Claim. unfold idem_key in Hrow. apply wp_bind.
    eapply wp_runs; [apply runs_map_err, runs_sql; [done|unfold sql_claim; by rewrite D1, Hrow]|].
    intros w2 (D2 & _). simpl. apply wp_bind. unfold Fetch. apply wp_bind.
    eapply wp_runs; [by apply runs_map_err, runs_query|]. intros w3 (D3 & _).
    rewrite D2, Hrow. by apply wp_ret, wp_ret. }
  eexists _, w2. split; [exact E|]. unfold replayResult. simpl.
  destruct (String.eqb_spec (i_request_hash row) (IdemRequestHash i)); [done|]. simpl.
  unfold fails. eauto.
Qed.

Lemma executeTransfer_broke cfg ctx txID cmd w src dst :
  Enabled (w_fp w) = false →
  select_balance (SourceAccountID cmd) (w_db w) = PgOk (Some src) →
  select_balance (DestinationAccountID cmd) (w_db w) = PgOk (Some dst) →
  LkCurrency src = Currency cmd → LkCurrency dst = Currency cmd →
  LkAllowOverdraft src = false → LkBalance src < Amount cmd →
  fails (executeTransfer cfg ctx txID cmd) w (λ e _, e = EApp (funds_error src cmd)).
Proof.
  intros Hfp Hs Hd Cs Cd Ho Hlt.
  destruct (runs_lock_pair Hcalm w _ _ _ _ Hs Hd) as (accts & Hlock & Es & Ed).
  unfold executeTransfer. apply fails_bind. eapply wp_runs; [exact Hlock|]. intros w1 (D1 & T1 & P1 & U1).
  apply fails_bind. eapply wp_runs; [apply runs_failpoint; congruence|]. intros w2 _.
  rewrite Es, Ed. apply fails_bind, wp_ret, fails_bind, wp_ret. unfold check_transfer.
  rewrite Cs, Cd, Ho, !String.eqb_refl. simpl. rewrite (proj2 (Z.ltb_lt _ _) Hlt).
  unfold fails. eauto.
Qed.

(** The wrapper reports the closure's error. *)
Lemma Transfer_fails cfg ctx cmd w err :
  Enabled (w_fp w) = false → 0 < DBMaxTxRetries cfg → ValidateTransfer cmd = None →
  retryReason err = None →
  (∀ ctx txID w1, w_db w1 = w_db w → w_fp w1 = w_fp w →
     fails (transfer_closure cfg ctx txID cmd) w1 (λ e _, e = err)) →
  ∃ w', Transfer cfg ctx cmd w = (Err err, w') ∧ w_db w' = w_db w.
Proof.
  intros Hfp Hn Hv Hr Hclosure.
  assert (fails (Transfer cfg ctx cmd) w (λ e w', e = err ∧ w_db w' = w_db w))
    as (e & w' & E & -> & D); [|by exists w'].
  unfold Transfer. rewrite Hv. apply fails_bind.
  eapply wp_runs; [by apply runs_EvalFailpoint|]. intros w1 (D1 & T1 & P1 & U1).
  apply fails_bind. eapply wp_runs; [apply runs_NewString|]. intros w2 (D2 & T2 & P2 & U2).
  set (ctx2 := WithTransactionID ctx _). set (txID := NewString_nth _).
  destruct (InTx_result_fails (DBMaxTxRetries cfg) (transfer_closure cfg ctx2 txID cmd) w2 err Hn Hr)
    as (e & w3 & E & -> & D3).
  { apply Hclosure; simpl; congruence. }
  apply fails_bind. exists (inl err), w3. split; [unfold try; by rewrite E|].
  apply fails_bind. unfold failure. eapply wp_runs; [apply runs_Inc|]. intros w4 (D4 & _).
  exists err, w4. split; [done|]. split; [done|]. congruence.
Qed.
End refusals.

(** A transfer the source cannot pay for is refused with insufficient_funds
    (422), and changes nothing. *)
Theorem Transfer_without_funds `{Ext} cfg ctx cmd w src dst :
  calm → Enabled (w_fp w) = false → 0 < DBMaxTxRetries cfg → ValidateTransfer cmd = None →
  text_ok (IdempotencyScope (TrIdem cmd)) && text_ok (IdempotencyKey (TrIdem cmd)) = true →
  idempotency_records (w_db w) !! idem_key (TrIdem cmd) = None →
  select_balance (SourceAccountID cmd) (w_db w) = PgOk (Some src) →
  select_balance (DestinationAccountID cmd) (w_db w) = PgOk (Some dst) →
  LkCurrency src = Currency cmd → LkCurrency dst = Currency cmd →
  LkAllowOverdraft src = false → LkBalance src < Amount cmd →
  ∃ e w', Transfer cfg ctx cmd w = (Err (EApp e), w') ∧ w_db w' = w_db w ∧
    ErrCode e = CodeInsufficientFunds ∧ HTTPStatus e = 422.
Proof.
  intros Hcalm Hfp Hn Hv Ht Hk Hs Hd Cs Cd Ho Hlt. exists (funds_error src cmd).
  destruct (Transfer_fails Hcalm cfg ctx cmd w (EApp (funds_error src cmd))) as (w' & E & D); try done.
  - intros ctx' txID w1 D1 P1. unfold transfer_closure, claim_or_replay.
    apply fails_bind. eapply wp_runs; [by apply runs_LockKey|]. intros w2 (D2 & _ & P2 & _).
    apply fails_bind. eapply wp_runs; [apply runs_Claim; [done|done|by rewrite D2, D1]|].
    intros w3 (D3 & _ & P3 & _). eapply executeTransfer_broke; try done; [congruence|..];
      by rewrite D3, D2, D1.
  - exists w'. done.
Qed.

Lemma Transfer_without_funds_witness :
  ∃ e w', Transfer (H:=demo_ext) cfg Background overdraw (demo3 (H:=demo_ext)) = (Err (EApp e), w') ∧
    w_db w' = w_db (demo3 (H:=demo_ext)) ∧ ErrCode e = CodeInsufficientFunds ∧ HTTPStatus e = 422.
Proof.
  eapply (Transfer_without_funds (H:=demo_ext)); try (vm_compute; reflexivity).
  exact demo_calm.
Defined.

(** C29. A key that was used for one request is not accepted for another: whatever
    the command, its transaction fails with idempotency_conflict (409) and
    changes nothing. *)
Theorem key_reuse_conflicts `{Ext} n i work w row :
  calm → 0 < n →
  idempotency_records (w_db w) !! idem_key i = Some row → i_request_hash row ≠ IdemRequestHash i →
  ∃ e w', InTx_result n (claim_or_replay i work) w = (Err (EApp e), w') ∧ w_db w' = w_db w ∧
    ErrCode e = CodeIdempotencyConflict ∧ HTTPStatus e = 409.
Proof.
  intros Hcalm Hn Hrow Hh.
  destruct (InTx_result_fails Hcalm n (claim_or_replay i work) w (EApp (Conflict (IdempotencyKey i))) Hn)
    as (e & w' & E & -> & D); [done|by eapply claim_or_replay_conflict|].
  exists (Conflict (IdempotencyKey i)), w'. done.
Qed.

Lemma key_reuse_conflicts_witness :
  ∃ e w', InTx_result (H:=demo_ext) 5 (claim_or_replay (H:=demo_ext) (mkIdem "scope" "k3" "other")
      (executeTransfer (H:=demo_ext) cfg Background "uuid-9" fund_alice)) (demo3 (H:=demo_ext)) =
      (Err (EApp e), w') ∧ w_db w' = w_db (demo3 (H:=demo_ext)) ∧
    ErrCode e = CodeIdempotencyConflict ∧ HTTPStatus e = 409.
Proof.
  eapply (key_reuse_conflicts (H:=demo_ext)).
  - exact demo_calm.
  - reflexivity.
  - vm_compute. reflexivity.
  - vm_compute. discriminate.
Defined.
