(* ===== verification/Delivery.v ===== *)
(** From the outbox to Kafka: an event is marked published only after its
    message was appended, and what a round appends are events and dead
    letters. *)
From S2P Require Import Prelude GoStrings Json Apperr Failpoint Schema SchemaFacts Monad World Storage Idempotency Event Config Outbox LedgerModel LedgerRepo LedgerService Kafka Publisher Replay Writers LedgerInvariant System Demo OutboxFacts WorkerTheorems.
Local Open Scope Z_scope.

(** ** Steps that touch neither the database nor Kafka *)

Definition aloof (w w' : World) : Prop := w_db w' = w_db w ∧ w_kafka w' = w_kafka w.

#[export] Instance aloof_preorder : PreOrder aloof.
Proof. split; [done|]. intros ??? [? ?] [? ?]. split; congruence. Qed.

Section aloof.
Context `{Ext}.

#[export] Instance aloof_next_tick : Respects aloof next_tick.
Proof. by intros w. Qed.
#[export] Instance aloof_Inc name labels : Respects aloof (Inc name labels).
Proof. by intros w. Qed.
#[export] Instance aloof_SetGauge name v : Respects aloof (SetGauge name v).
Proof. by intros w. Qed.
#[export] Instance aloof_Now : Respects aloof Now.
Proof. by intros w. Qed.
#[export] Instance aloof_ctx_Err : Respects aloof ctx_Err.
Proof. unfold ctx_Err. respects_tac. Qed.
#[export] Instance aloof_EvalFailpoint ctx name : Respects aloof (EvalFailpoint ctx name).
Proof. intros w. unfold EvalFailpoint. by destruct (Eval _ _ _) as [[] ?]. Qed.
#[export] Instance aloof_query {A} (f : DB → pg A) : Respects aloof (query f).
Proof.
  unfold query, sql. apply respects_bind; [apply _..|]. intros n. destruct (stmt_fault n); [apply _|].
  intros w. simpl. by destruct (f _).
Qed.
#[export] Instance aloof_Backlog : Respects aloof Backlog.
Proof. unfold Backlog. respects_tac. Qed.
#[export] Instance aloof_Backoff a b c : Respects aloof (Backoff a b c).
Proof. unfold Backoff, Float64. respects_tac. Qed.
End aloof.

(** ** What a publisher may do to the outbox and to Kafka *)

Section sends.
Context `{Ext} (m : Z) (dlq : string).

(** The message of an event: it depends on the columns written once. *)
Definition message_of (id : string) (o : outbox_row) : KafkaMessage := record_message (scanRecord id o).

Lemma message_of_core id o o' : event_core o' = event_core o → message_of id o' = message_of id o.
Proof. destruct o, o'. unfold event_core. simpl. by intros [= -> -> -> -> -> -> ->]. Qed.

(** The record of a row, apart from the row's progress. *)
Definition record_core (rec : OutboxRecord) :=
  (RTopic rec, REventType rec, AggregateID rec, PartitionKey rec, Payload rec, RHeaders rec,
   CreatedAt rec).
Definition records (d : DB) (rec : OutboxRecord) : Prop :=
  ∃ o, outbox_events d !! ID rec = Some o ∧ record_core rec = event_core o.

Lemma records_message d rec :
  records d rec → ∃ o, outbox_events d !! ID rec = Some o ∧ record_message rec = message_of (ID rec) o.
Proof.
  intros (o & Ho & Hc). exists o. split; [done|]. destruct rec, o. unfold record_core, event_core in Hc.
  simpl in Hc. by injection Hc as -> -> -> -> -> -> ->.
Qed.

Lemma records_rows d d' rec : rows_step m d d' → records d rec → records d' rec.
Proof.
  intros Hs (o & Ho & Hc). specialize (Hs (ID rec)). rewrite Ho in Hs.
  destruct (outbox_events d' !! ID rec) as [o'|] eqn:Eo; [|done]. exists o'. split; [done|].
  rewrite Hc. symmetry. by eapply outbox_steps_core.
Qed.

(** The document sent when a record is given up. *)
Definition dead_letter (d : DB) (msg : KafkaMessage) : Prop :=
  ∃ rec cause now, records d rec ∧
    msg = mkMessage dlq (PartitionKey rec) (Some (dlq_payload rec cause now)) (withEventHeaders rec).

(** Some event's message, or its dead letter. *)
Definition rightful (d : DB) (msg : KafkaMessage) : Prop :=
  (∃ id o, outbox_events d !! id = Some o ∧ msg = message_of id o) ∨ dead_letter d msg.

Lemma rightful_rows d d' msg : rows_step m d d' → rightful d msg → rightful d' msg.
Proof.
  intros Hs [(id & o & Ho & ->)|(rec & c & t & Hr & ->)].
  - left. specialize (Hs id). rewrite Ho in Hs.
    destruct (outbox_events d' !! id) as [o'|] eqn:Eo; [|done]. exists id, o'. split; [done|].
    symmetry. apply message_of_core. by eapply outbox_steps_core.
  - right. exists rec, c, t. split; [by eapply records_rows|done].
Qed.

(** Every row published meanwhile was sent meanwhile, after [sent] were. *)
Definition accounted (sent : list KafkaMessage) (d d' : DB) : Prop :=
  ∀ id o', outbox_events d' !! id = Some o' → o_status o' = OPublished →
    (∃ o, outbox_events d !! id = Some o ∧ o_status o = OPublished) ∨ message_of id o' ∈ sent.

Definition sends (w w' : World) : Prop :=
  wf (w_db w) →
  wf (w_db w') ∧ rows_step m (w_db w) (w_db w') ∧
  ∃ msgs, w_kafka w' = w_kafka w ++ msgs ∧ Forall (rightful (w_db w')) msgs ∧
    accounted msgs (w_db w) (w_db w').

#[export] Instance sends_preorder : PreOrder sends.
Proof.
  split.
  - intros w Hwf. split; [done|]. split; [reflexivity|]. exists []. rewrite app_nil_r.
    split_and!; [done|constructor|]. intros id o Ho Hp. left. eauto.
  - intros w1 w2 w3 H12 H23 Hwf.
    destruct (H12 Hwf) as (Hwf2 & S12 & m12 & K12 & R12 & A12).
    destruct (H23 Hwf2) as (Hwf3 & S23 & m23 & K23 & R23 & A23).
    split; [done|]. split; [by etrans|]. exists (m12 ++ m23). rewrite K23, K12, app_assoc.
    split_and!; [done| |].
    + apply Forall_app_2; [|done]. eapply Forall_impl; [exact R12|]. intros x. by apply rightful_rows.
    + intros id o3 Ho3 Hp3. destruct (A23 id o3 Ho3 Hp3) as [(o2 & Ho2 & Hp2)|Hin].
      * destruct (A12 id o2 Ho2 Hp2) as [?|Hin]; [by left|]. right. apply elem_of_app. left.
        specialize (S23 id). rewrite Ho2, Ho3 in S23.
        rewrite (message_of_core id o2 o3); [done|]. by eapply outbox_steps_core.
      * right. apply elem_of_app. by right.
Qed.

Lemma aloof_sends w w' : aloof w w' → sends w w'.
Proof.
  intros [Hd Hk] Hwf. rewrite Hd. split; [done|]. split; [reflexivity|]. exists [].
  rewrite Hk, app_nil_r. split_and!; [done|constructor|]. intros id o Ho Hp. left. eauto.
Qed.

(** Only the outbox moves, and nothing gets published. *)
Lemma publishes_sends w w' :
  publishes m (w_db w) (w_db w') → w_kafka w' = w_kafka w →
  (wf (w_db w) → accounted [] (w_db w) (w_db w')) → sends w w'.
Proof.
  intros Hp Hk Ha Hwf. destruct (Hp Hwf) as [Hwf' Hs]. split; [done|]. split; [done|].
  exists []. rewrite Hk, app_nil_r. split_and!; [done|constructor|auto].
Qed.

Lemma accounted_update id o' sent d d' :
  exec_dml (UpdateOutbox id o') d = PgOk d' →
  (o_status o' = OPublished → message_of id o' ∈ sent) → accounted sent d d'.
Proof.
  intros E Hsent ev x Hx Hp. simpl in E. unfold update_outbox in E.
  destruct (outbox_events d !! id) as [o|] eqn:Eo; [|injection E as ->; left; eauto].
  pg_inv. simpl in Hx. apply lookup_insert_Some in Hx as [[<- <-]|[_ Hx]]; [right; auto|left; eauto].
Qed.
End sends.

(** ** The publisher's steps *)

Section steps.
Context `{Ext} (cfg : Config).

Let m := OutboxMaxAttempts cfg.
Let dlq := TopicPaymentsDLQ cfg.

#[local] Instance sends_aloof {A} (x : M A) : Respects aloof x → Respects (sends m dlq) x.
Proof. intros Hx w. by apply aloof_sends, Hx. Qed.

(** Appending rightful messages is allowed. *)
Lemma append_sends w w' msg :
  w_db w' = w_db w → w_kafka w' = w_kafka w ∨ w_kafka w' = w_kafka w ++ [msg] →
  rightful dlq (w_db w) msg → sends m dlq w w'.
Proof.
  intros Hd [Hk|Hk] Hr; [by apply aloof_sends|]. intros Hwf. rewrite Hd. split; [done|].
  split; [reflexivity|]. exists [msg]. split_and!; [done|by constructor|]. intros id o Ho Hp. left. eauto.
Qed.

Lemma Publish_effect msg w :
  w_db (Publish msg w).2 = w_db w ∧
  (w_kafka (Publish msg w).2 = w_kafka w ∨ w_kafka (Publish msg w).2 = w_kafka w ++ [msg]).
Proof.
  unfold Publish, mbind, ST_bind. simpl.
  destruct (publish_fault _) as [[[] err]|]; simpl; auto.
Qed.

Lemma sends_publishToDLQ rec cause w :
  records (w_db w) rec → sends m dlq w (publishToDLQ cfg rec cause w).2.
Proof.
  intros Hr. unfold publishToDLQ. apply (respects_bind_at (sends m dlq)); [by apply (respects (R:=sends m dlq))|].
  intros now w1 [= <- <-]. apply (respects_bind_at (sends m dlq)); [rewrite try_state|intros; reflexivity].
  set (msg := mkMessage _ _ _ _). destruct (Publish_effect msg w) as [Hd Hk].
  eapply append_sends; [exact Hd|exact Hk|]. right. by exists rec, cause, (w_clock w).
Qed.

(** A statement on the pool: nothing, or its effect. *)
Lemma pool_sql_end {A} (f : Z → DB → pg (A * DB)) w :
  w_kafka (pool_sql f w).2 = w_kafka w ∧
  (w_db (pool_sql f w).2 = w_db w ∨
   ∃ a, f (w_clock w) (w_db w) = PgOk (a, w_db (pool_sql f w).2)).
Proof.
  unfold pool_sql, mbind, ST_bind. simpl. destruct (stmt_fault _); [by auto|]. simpl.
  destruct (f _ _) as [[a db']|]; simpl; [|by auto].
  destruct (commit_fault _) as [[[] ?]|]; simpl; eauto.
Qed.

Lemma same_accounted d : accounted [] d d.
Proof. intros ev o Ho Hp. left. eauto. Qed.

#[local] Instance sends_MarkFailed id c b : Respects (sends m dlq) (MarkFailed id c b m).
Proof.
  unfold MarkFailed. apply respects_map_err. apply respects_bind; [apply _| |respects_tac].
  intros w. destruct (pool_sql_end (sql_mark_failed id (truncate c 2000) b m) w) as [Hk [Hd|[x Hs]]].
  { by apply aloof_sends. }
  unfold sql_mark_failed in Hs at 1. apply pg_bind_Ok in Hs as (i & _ & Hs).
  destruct (outbox_events (w_db w) !! i) as [o|] eqn:Eo.
  2: { injection Hs as _ Hd. by apply aloof_sends. }
  apply pg_bind_Ok in Hs as (d & Hd & [= _ Hd']). rewrite Hd' in Hd.
  apply publishes_sends; [|done|].
  - apply publishes_intro; [by eapply by_one|]. intros Hwf.
    eapply rows_step_update; [exact Eo| |exact Hd]. apply os_fail. by eapply failing_is_not_published.
  - intros _. eapply accounted_update; [exact Hd|]. simpl. by destruct (_ <=? _).
Qed.

Lemma sends_records w w' rec : wf (w_db w) → sends m dlq w w' → records (w_db w) rec → records (w_db w') rec.
Proof. intros Hwf Hs. destruct (Hs Hwf) as (_ & Hrows & _). by apply (records_rows m). Qed.

Lemma wf_first w w' : (wf (w_db w) → sends m dlq w w') → sends m dlq w w'.
Proof. intros Hs Hwf. by apply Hs. Qed.

(** What follows may rely on what the record still says. *)
Lemma sends_bind_records {A B} (x : M A) (f : A → M B) rec w :
  records (w_db w) rec → Respects (sends m dlq) x →
  (∀ a w1, x w = (Ok a, w1) → records (w_db w1) rec → sends m dlq w1 (f a w1).2) →
  sends m dlq w ((x ≫= f) w).2.
Proof.
  intros Hr Hx Hf. apply wf_first. intros Hwf.
  apply (respects_bind_at (sends m dlq)); [apply Hx|]. intros a w1 E.
  apply Hf; [done|]. specialize (Hx w). rewrite E in Hx. by eapply sends_records.
Qed.

Lemma sends_fail rec cause w : records (w_db w) rec → sends m dlq w (fail cfg rec cause w).2.
Proof.
  intros Hr. unfold fail. fold m. apply (sends_bind_records _ _ rec); [done|apply _|]. intros _ w1 _ Hr1.
  apply (sends_bind_records _ _ rec); [done|apply _|]. intros delay w2 _ Hr2.
  apply (sends_bind_records _ _ rec); [done|apply _|]. intros [e|[n []]] w3 _ Hr3; [reflexivity| |reflexivity].
  apply (sends_bind_records _ _ rec); [done|apply _|]. intros _ w4 _ Hr4. by apply sends_publishToDLQ.
Qed.

#[local] Instance sends_ClaimBatch wid n ttl : Respects (sends m dlq) (ClaimBatch wid n ttl).
Proof.
  unfold ClaimBatch. apply respects_bind; [apply _..|]. intros tick. apply respects_map_err. intros w.
  destruct (pool_sql_end (sql_claim_batch wid n ttl tick) w) as [Hk [Hd|[x Hs]]].
  { by apply aloof_sends. }
  unfold sql_claim_batch in Hs at 1. apply pg_bind_Ok in Hs as (ids & Hids & Hs).
  apply pg_bind_Ok in Hs as (d & Hd & [= _ Hd']). rewrite Hd' in Hd.
  apply publishes_sends; [|done|].
  - eapply publishes_claim_all; [|exact Hd]. intros id o Hid Ho.
    destruct (claimed_ids_Ok _ _ _ _ _ _ Hids Hid) as (o' & Ho' & Hc). simplify_eq.
    by eapply claimable_status.
  - intros _. clear -Hd. revert Hd. generalize (w_db (pool_sql (sql_claim_batch wid n ttl tick) w).2).
    generalize (w_db w). induction ids as [|i ids IH]; intros d0 d'; simpl; [intros [= <-]; apply same_accounted|].
    destruct (outbox_events d0 !! i) as [o|] eqn:Eo; [|apply IH].
    intros (d1 & H1 & H2)%pg_bind_Ok. apply IH in H2.
    apply (accounted_update i (claim_row wid (w_clock w) o) []) in H1; [|done].
    intros ev y Hy Hp. destruct (H2 ev y Hy Hp) as [(z & Hz & Hpz)|?]; [|by right].
    destruct (H1 ev z Hz Hpz) as [?|[]%not_elem_of_nil]. by left.
Qed.

(** The record of a row, as the claim returned it. *)
Definition known (d : DB) (rec : OutboxRecord) : Prop :=
  uuid_in (ID rec) = Some (ID rec) ∧ records d rec.

Lemma known_rows d d' rec : rows_step m d d' → known d rec → known d' rec.
Proof. intros Hs (Hu & Hr). split; [done|by eapply records_rows]. Qed.

(** Sent, then marked. *)
Lemma mark_after_send rec w w1 :
  known (w_db w) rec → w_db w1 = w_db w → w_kafka w1 = w_kafka w ++ [record_message rec] →
  sends m dlq w (MarkPublished (ID rec) w1).2.
Proof.
  intros (Hu & (o & Ho & Hm)%records_message) Hd1 Hk1. unfold MarkPublished. rewrite map_err_state.
  assert (rightful dlq (w_db w) (record_message rec)) as Hr by (left; eauto).
  destruct (pool_sql_end (sql_mark_published (ID rec)) w1) as [Hk [Hd|[x Hs]]].
  { eapply (append_sends w _ (record_message rec)); [congruence|right; congruence|done]. }
  unfold sql_mark_published in Hs at 1. unfold as_uuid in Hs. rewrite Hu in Hs. simpl in Hs. rewrite Hd1, Ho in Hs.
  destruct (decide (o_status o = OPublished)) as [|Hst].
  { injection Hs as _ Hd.
    eapply (append_sends w _ (record_message rec)); [by rewrite Hd|right; congruence|done]. }
  apply pg_bind_Ok in Hs as (d & Hd & [= _ Hd']).
  assert (publishes m (w_db w) d) as Hp.
  { apply publishes_intro; [by eapply (by_one (UpdateOutbox (ID rec) _))|]. intros _.
    eapply rows_step_update; [exact Ho| |exact Hd]. by apply os_publish. }
  intros Hwf. rewrite <-Hd', Hk, Hk1. destruct (Hp Hwf) as [Hwf' Hrows]. split; [done|]. split; [done|].
  exists [record_message rec]. split_and!; [done| |].
  - constructor; [|constructor]. by eapply rightful_rows.
  - eapply accounted_update; [exact Hd|]. intros _. rewrite Hm. left.
Qed.

Lemma sends_publishOne ctx rec w :
  known (w_db w) rec → sends m dlq w (publishOne cfg ctx rec w).2.
Proof.
  intros Hk. assert (rightful dlq (w_db w) (record_message rec)) as Hr.
  { left. destruct Hk as (_ & (o & ? & ?)%records_message). eauto. }
  assert (∀ e w1, w_db w1 = w_db w → sends m dlq w1 ((fail cfg rec e;; mret false : M bool) w1).2) as Hfail.
  { intros e w1 Hd1. apply (respects_bind_at (sends m dlq)); [|intros; reflexivity].
    apply sends_fail. rewrite Hd1. apply Hk. }
  unfold publishOne. set (ctx' := if String.eqb _ "" then _ else _).
  apply (respects_bind_at (sends m dlq)); [by apply (respects (R:=sends m dlq))|]. intros o w1 E1.
  pose proof (respects (R:=aloof) (m:=EvalFailpoint ctx' BeforeKafkaPublish) w) as [Hd1 Hk1].
  rewrite E1 in Hd1, Hk1. simpl in Hd1, Hk1. rewrite <-Hd1 in Hk, Hr.
  destruct o as [err|]; [by apply Hfail|].
  destruct (Publish (record_message rec) w1) as [[u|e|p] w2] eqn:E2.
  - apply Publish_Ok in E2 as E2'. destruct E2' as [Hd2 Hk2].
    unfold mbind, ST_bind. unfold try at 1. rewrite E2. simpl.
    pose proof (respects (R:=aloof) (m:=EvalFailpoint ctx' AfterKafkaPublish) w2) as [Hd3 Hk3].
    destruct (EvalFailpoint ctx' AfterKafkaPublish w2) as [[[err|]|e|p] w3]; simpl in Hd3, Hk3 |- *.
    + by eapply append_sends; [rewrite Hd3|right; rewrite Hk3|].
    + pose proof (mark_after_send rec w1 w3 Hk ltac:(congruence) ltac:(congruence)) as Hs.
      rewrite <-(try_state (MarkPublished (ID rec))) in Hs.
      by destruct (try (MarkPublished (ID rec)) w3) as [[[e|u']|e|p] w4].
    + by eapply append_sends; [rewrite Hd3|right; rewrite Hk3|].
    + by eapply append_sends; [rewrite Hd3|right; rewrite Hk3|].
  - pose proof (Publish_effect (record_message rec) w1) as [Hd2 Hk2]. rewrite E2 in Hd2, Hk2.
    unfold mbind, ST_bind. unfold try at 1. rewrite E2.
    etrans; [eapply append_sends; [exact Hd2|exact Hk2|exact Hr]|].
    apply Hfail. simpl in Hd2. congruence.
  - pose proof (Publish_effect (record_message rec) w1) as [Hd2 Hk2]. rewrite E2 in Hd2, Hk2.
    unfold mbind, ST_bind. unfold try at 1. rewrite E2.
    eapply append_sends; [exact Hd2|exact Hk2|exact Hr].
Qed.

Lemma sends_known w w' rec : wf (w_db w) → sends m dlq w w' → known (w_db w) rec → known (w_db w') rec.
Proof. intros Hwf Hs. destruct (Hs Hwf) as (_ & Hrows & _). by apply known_rows. Qed.

Lemma sends_publish_batch ctx batch n w :
  wf (w_db w) → Forall (known (w_db w)) batch → sends m dlq w (publish_batch cfg ctx batch n w).2.
Proof.
  intros Hwf Hall. revert n w Hwf Hall. induction batch as [|rec batch IH]; intros n w Hwf Hall; simpl.
  { reflexivity. }
  inversion Hall as [|? ? Hrec Hrest]; subst.
  pose proof (respects (R:=aloof) (m:=ctx_Err) w) as [Hd1 Hk1].
  apply (respects_bind_at (sends m dlq)); [by apply (respects (R:=sends m dlq))|]. intros o w1 E1.
  rewrite E1 in Hd1. simpl in Hd1. rewrite <-Hd1 in *. destruct o as [err|]; [reflexivity|].
  pose proof (sends_publishOne ctx rec w1 Hrec) as Hs. apply (respects_bind_at (sends m dlq)); [done|].
  intros ok w2 E2. rewrite E2 in Hs. simpl in Hs. destruct (Hs Hwf) as (Hwf2 & Hrows & _).
  apply IH; [done|]. eapply Forall_impl; [exact Hrest|]. intros r. by apply known_rows.
Qed.

(** [id] columns hold canonical UUIDs. *)
Definition canonical_keys (d : DB) : Prop :=
  ∀ id, is_Some (outbox_events d !! id) → uuid_in id = Some id.

Lemma ClaimBatch_known wid n ttl w recs w' :
  canonical_keys (w_db w) → wf (w_db w) → ClaimBatch wid n ttl w = (Ok recs, w') →
  Forall (known (w_db w')) recs.
Proof.
  intros Hcan Hwf Hr. pose proof (respects (R:=sends m dlq) (m:=ClaimBatch wid n ttl) w Hwf) as (_ & Hrows & _).
  rewrite Hr in Hrows. simpl in Hrows.
  unfold ClaimBatch in Hr. apply bind_Ok in Hr as (tick & w1 & [-> <-]%gets_Ok & Hr).
  apply map_err_Ok, pool_sql_Ok in Hr as (db' & Hs & ->). unfold sql_claim_batch in Hs.
  apply pg_bind_Ok in Hs as (ids & Hids & Hs). apply pg_bind_Ok in Hs as (d & Hd & [= <- <-]).
  simpl in *. apply Forall_forall. intros rec (id & Hin & Hrec)%list_elem_of_omap.
  destruct (outbox_events d !! id) as [o|] eqn:Eo; [|done]. injection Hrec as <-. split; simpl; [|by exists o].
  apply Hcan. specialize (Hrows id). rewrite Eo in Hrows. by destruct (outbox_events (w_db w) !! id).
Qed.

Lemma sends_RunOnce ctx w :
  canonical_keys (w_db w) → wf (w_db w) → sends m dlq w (RunOnce cfg ctx w).2.
Proof.
  intros Hcan Hwf. unfold RunOnce.
  pose proof (respects (R:=aloof) (m:=try Backlog) w) as [Hd1 _].
  apply (respects_bind_at (sends m dlq)); [by apply (respects (R:=sends m dlq))|]. intros r w1 E1.
  rewrite E1 in Hd1. simpl in Hd1. rewrite <-Hd1 in *.
  set (g := match r with inl _ => mret tt | inr n => SetGauge "ledger_outbox_backlog" n end).
  assert (Respects aloof g) as Hg by (unfold g; destruct r; apply _).
  pose proof (Hg w1) as [Hd2 _].
  apply (respects_bind_at (sends m dlq)); [by apply (respects (R:=sends m dlq))|]. intros u w2 E2.
  rewrite E2 in Hd2. simpl in Hd2. rewrite <-Hd2 in *.
  set (claim := ClaimBatch _ _ _).
  pose proof (respects (R:=sends m dlq) (m:=claim) w2) as Hs.
  apply (respects_bind_at (sends m dlq)); [by rewrite try_state|]. intros r3 w3 E3. destruct r3 as [err|batch]; [reflexivity|].
  apply try_Ok_inr in E3. rewrite E3 in Hs. simpl in Hs. destruct (Hs Hwf) as (Hwf3 & _).
  apply sends_publish_batch; [done|]. by eapply ClaimBatch_known.
Qed.
End steps.

(** C30. From the outbox to Kafka: a round of the publisher, whatever fails, only
    appends to Kafka; every message it appends is a recorded event's (its topic,
    key, payload and headers) or the dead letter of one, with its identifiers, its
    payload and the cause; and every event it newly marks published is among
    them. *)
Theorem published_events_were_sent `{Ext} cfg ctx w :
  canonical_keys (w_db w) → wf (w_db w) →
  let w' := (RunOnce cfg ctx w).2 in
  ∃ msgs, w_kafka w' = w_kafka w ++ msgs ∧
    Forall (λ msg, (∃ id o, outbox_events (w_db w') !! id = Some o ∧
                            msg = record_message (scanRecord id o)) ∨
                   dead_letter (TopicPaymentsDLQ cfg) (w_db w') msg) msgs ∧
    ∀ id o, outbox_events (w_db w') !! id = Some o → o_status o = OPublished →
      (∃ o0, outbox_events (w_db w) !! id = Some o0 ∧ o_status o0 = OPublished) ∨
      record_message (scanRecord id o) ∈ msgs.
Proof.
  intros Hcan Hwf w'. destruct (sends_RunOnce cfg ctx w Hcan Hwf Hwf) as (_ & _ & msgs & ?). by exists msgs.
Qed.

Lemma published_events_were_sent_witness :
  ∃ msgs o, w_kafka (RunOnce (H:=demo_ext) cfg Background (demo3 (H:=demo_ext))).2 = msgs ∧
    outbox_events (w_db (RunOnce (H:=demo_ext) cfg Background (demo3 (H:=demo_ext))).2) !! "uuid-3"
      = Some o ∧ o_status o = OPublished ∧ record_message (scanRecord "uuid-3" o) ∈ msgs.
Proof.
  destruct (published_events_were_sent (H:=demo_ext) cfg Background (demo3 (H:=demo_ext)))
    as (msgs & Hk & _ & Hall).
  - intros id _. reflexivity.
  - exact (proj1 (written_safe _ (li_written _ (reachable_inv (H:=demo_ext) (H0:=demo_uuid) _
             (demo3_reachable (H:=demo_ext)))))).
  - destruct (outbox_events (w_db (RunOnce (H:=demo_ext) cfg Background (demo3 (H:=demo_ext))).2) !! "uuid-3")
      as [o|] eqn:Eo; [|vm_compute in Eo; discriminate].
    assert (o_status o = OPublished) as Hp.
    { vm_compute in Eo. injection Eo as <-. reflexivity. }
    exists msgs, o. split; [exact Hk|]. split; [reflexivity|]. split; [exact Hp|].
    destruct (Hall "uuid-3" o Eo Hp) as [(o0 & Ho0 & Hp0)|Hin]; [|exact Hin].
    exfalso. clear -Ho0 Hp0. vm_compute in Ho0. injection Ho0 as <-. discriminate Hp0.
Defined.
