(* ===== verification/ToolTheorems.v ===== *)
(** The parts everything else leans on: number parsing, failpoints, backoff
    arithmetic, the order of balance updates, configuration, the event envelope,
    rollback of failed transactions, request validation. *)
From S2P Require Import Prelude GoStrings GoTime GoFloat Json Apperr Failpoint Schema Monad World Storage Idempotency Event Config Outbox LedgerModel LedgerRepo LedgerService EntryOrder Kafka Publisher Replay Demo.
Local Open Scope Z_scope.

(** ** Decimal numbers *)

Lemma pretty_char_digit y :
  (y < 10)%N →
  is_digit (pretty_N_char y) = true ∧ Z.of_N (byte_of (pretty_N_char y)) - 48 = Z.of_N y.
Proof.
  intros Hy.
  assert (y = 0 ∨ y = 1 ∨ y = 2 ∨ y = 3 ∨ y = 4 ∨ y = 5 ∨ y = 6 ∨ y = 7 ∨ y = 8 ∨ y = 9)%N as Hc by lia.
  repeat destruct Hc as [->|Hc]; subst; done.
Qed.

Lemma digits_val_pretty x s : digits_val 0 (pretty_N_go x s) = digits_val (Z.of_N x) s.
Proof.
  revert s. induction (N.lt_wf_0 x) as [x _ IH]; intros s.
  destruct (decide (x = 0)%N) as [->|Hx]; [by rewrite pretty_N_go_0|].
  rewrite pretty_N_go_step by lia. rewrite IH by (apply N.div_lt; lia).
  pose proof (N.mod_lt x 10 ltac:(done)) as Hm.
  pose proof (N.div_mod x 10 ltac:(done)) as Hd.
  destruct (pretty_char_digit _ Hm) as [H1 H2]. simpl. rewrite H1, H2. f_equal. lia.
Qed.

Lemma pretty_head x s :
  (0 < x)%N → ∃ c s', pretty_N_go x s = String c s' ∧ is_digit c = true.
Proof.
  revert s. induction (N.lt_wf_0 x) as [x _ IH]; intros s Hx.
  rewrite pretty_N_go_step by lia.
  destruct (pretty_char_digit (x `mod` 10)) as [Hd _]; [by apply N.mod_lt|].
  destruct (decide (x `div` 10 = 0)%N) as [->|Hq]; [rewrite pretty_N_go_0; eauto|].
  apply IH; [apply N.div_lt; lia|by apply N.neq_0_lt_0].
Qed.

(** A text of digits is read as the number it writes. *)
Lemma Atoi_digits c s n :
  is_digit c = true → digits_val 0 (String c s) = Some n →
  Atoi (String c s) = (if in_int64 n then Some n else None) ∧
  Atoi (String "-" (String c s)) = (if in_int64 (- n) then Some (- n) else None).
Proof.
  intros Hc Hv. unfold Atoi. split.
  - destruct c as [[] [] [] [] [] [] [] []]; try done; by rewrite Hv.
  - by rewrite Hv.
Qed.

(** [strconv.Atoi] reads back what [strconv.Itoa] writes. *)
Lemma Atoi_Itoa z : in_int64 z = true → Atoi (Itoa z) = Some z.
Proof.
  intros Hz. unfold Itoa. destruct z as [|p|p]; [done|..].
  - destruct (pretty_head (Npos p) "" ltac:(lia)) as (c & s & E & Hc).
    assert (pretty (Z.pos p) = String c s) as -> by exact E.
    assert (digits_val 0 (String c s) = Some (Z.pos p)) as Hv.
    { rewrite <-E. exact (digits_val_pretty (Npos p) ""). }
    by rewrite (proj1 (Atoi_digits c s _ Hc Hv)), Hz.
  - destruct (pretty_head (Npos p) "" ltac:(lia)) as (c & s & E & Hc).
    assert (pretty (Z.neg p) = String "-" (String c s)) as ->.
    { change (pretty (Z.neg p)) with ("-" +:+ pretty_N_go (Npos p) ""). by rewrite E. }
    assert (digits_val 0 (String c s) = Some (Z.pos p)) as Hv.
    { rewrite <-E. exact (digits_val_pretty (Npos p) ""). }
    rewrite (proj2 (Atoi_digits c s _ Hc Hv)). change (- Z.pos p) with (Z.neg p). by rewrite Hz.
Qed.

Lemma Atoi_nat n : (Z.of_nat n <= int64_max) → Atoi (Itoa (Z.of_nat n)) = Some (Z.of_nat n).
Proof. intros Hn. apply Atoi_Itoa, in_int64_iff. unfold int64_min. lia. Qed.

(** ** Failpoints *)

Lemma put_enabled r name a : Enabled r = true → ∃ r0, r = Some r0 ∧
  put_action r name a = Some (mkRegistry true (<[name := a]> (actions r0))).
Proof. destruct r as [[en m]|]; simpl; [|done]. intros ->. by eexists. Qed.

Lemma arm_counted r name n :
  Enabled r = true → isKnown name = true → Z.of_nat n ≤ int64_max →
  Arm r name ("error:" +:+ Itoa (Z.of_nat n)) =
    (None, put_action r name (mkAction actionError 0 (Z.of_nat n))).
Proof.
  intros He Hk Hn. unfold Arm. rewrite He, Hk. simpl negb.
  assert (Cut_or ":" ("error:" +:+ Itoa (Z.of_nat n)) = ("error", Itoa (Z.of_nat n))) as E by done.
  rewrite E, Atoi_nat by done. simpl.
  destruct (String.eqb_spec (Itoa (Z.of_nat n)) "") as [E0|].
  { pose proof (Atoi_nat n Hn) as Ha. by rewrite E0 in Ha. }
  destruct (Z.ltb_spec (Z.of_nat n) 0); [lia|done].
Qed.

(** A failpoint armed as [error:n] makes exactly the next [n] evaluations fail
    with the injected error, and is gone afterwards. *)
Theorem counted_failpoint_fires_n_times r name (n m : nat) :
  Enabled r = true → isKnown name = true → (0 < n)%nat → Z.of_nat n ≤ int64_max →
  ∃ r1 r2, Arm r name ("error:" +:+ Itoa (Z.of_nat n)) = (None, r1) ∧
    Eval_n r1 None name (n + m) =
      (replicate n (FpError (EFmt "" (Some EInjected) (" at " +:+ name))) ++ replicate m FpNone, r2) ∧
    Active r2 !! name = None.
Proof.
  intros He Hk Hn Hmax. rewrite arm_counted by done. eexists _, (Disarm r name). split; [done|].
  split; [by apply (Eval_n_counted r name actionError 0 n m)|].
  destruct r as [[en acts]|]; simpl; [|done]. by rewrite lookup_fmap, lookup_delete_eq.
Qed.

Lemma counted_failpoint_fires_n_times_witness :
  ∃ r1 r2, Arm (NewRegistry true) AfterCommit "error:2" = (None, r1) ∧
    Eval_n r1 None AfterCommit 3 =
      ([FpError (EFmt "" (Some EInjected) " at after_commit");
        FpError (EFmt "" (Some EInjected) " at after_commit"); FpNone], r2) ∧
    Active r2 !! AfterCommit = None.
Proof.
  apply (counted_failpoint_fires_n_times (NewRegistry true) AfterCommit 2 1);
    [reflexivity|reflexivity|lia|unfold int64_max; lia].
Defined.

(** A registry that is not enabled (production) injects nothing, whatever the
    request asks for, and refuses to arm anything. *)
Theorem disabled_registry_is_inert r ctx name spec :
  Enabled r = false →
  Eval r ctx name = (FpNone, r) ∧ (∃ err, Arm r name spec = (Some err, r)).
Proof. intros He. unfold Eval, Arm. rewrite He. simpl. eauto. Qed.

Lemma disabled_registry_is_inert_witness :
  Eval (NewRegistry false) (Some {[ BeforeCommit := mkAction actionPanic 0 (-1) ]}) BeforeCommit =
    (FpNone, NewRegistry false).
Proof. apply (disabled_registry_is_inert (NewRegistry false) _ _ ""). reflexivity. Defined.

(** ** Backoff *)

(** C40. [Backoff] of the outbox and the webhooks stays between half the base and
    the cap, for every attempt number and every random draw. *)
Theorem backoff_is_bounded attempt base maxDelay k :
  0 < base → base ≤ maxDelay < 2 ^ 52 → 0 ≤ k < 2 ^ 53 →
  base / 2 ≤ backoff_with attempt base maxDelay k ≤ maxDelay.
Proof.
  intros Hb Hm Hk. unfold backoff_with, backoff_exp.
  rewrite !of_int_exact by lia. set (a := if attempt <? 1 then 1 else attempt).
  assert (1 ≤ a) as Ha by (unfold a; destruct (Z.ltb_spec attempt 1); lia).
  assert (0 < one) as Hone by done.
  rewrite (proj2 (Z.eqb_neq (base * one) 0)), andb_false_r by nia.
  set (p := 2 ^ Z.min (a - 1) 1024). assert (1 ≤ p) as Hp.
  { unfold p. change 1 with (2 ^ 0) at 1. apply Z.pow_le_mono_r; lia. }
  set (exp := if maxDelay * one <? base * one * p then maxDelay * one else base * one * p).
  assert (∃ n, exp = n * one ∧ base ≤ n ≤ maxDelay) as (n & En & Hn).
  { unfold exp. destruct (Z.ltb_spec (maxDelay * one) (base * one * p)); [eauto with lia|].
    exists (base * p). split; [ring|]. nia. }
  rewrite En. assert (base * one / 2 = base * 2 ^ 53) as Emin.
  { unfold one. change (2 ^ 54) with (2 ^ 53 * 2). rewrite Z.mul_assoc. by apply Z.div_mul. }
  rewrite Emin. assert (n * one = 2 * n * 2 ^ 53) as En2 by (unfold one; lia).
  destruct (Z.leb_spec (n * one) (base * 2 ^ 53)) as [Hle|Hgt]; [nia|].
  assert (round (n * one - base * 2 ^ 53) = (2 * n - base) * 2 ^ 53) as Ediff.
  { rewrite En2, <-Z.mul_sub_distr_r. apply round_exact; lia. }
  rewrite Ediff. destruct (round_fraction k ((2 * n - base) * 2 ^ 53)) as [Hf1 Hf2]; [lia|nia|apply round_exact; lia|].
  unfold mul_fraction. set (f := round (k * ((2 * n - base) * 2 ^ 53) / 2 ^ 53)) in *.
  assert (base * 2 ^ 53 ≤ round (base * 2 ^ 53 + f) ≤ n * one) as Hr.
  { split.
    - rewrite <-(round_exact base 53) at 1 by lia. apply round_mono. nia.
    - transitivity (round (2 * n * 2 ^ 53)); [apply round_mono; nia|]. rewrite round_exact by lia. by rewrite En2. }
  apply to_int64_between; [apply Z.div_pos; lia|unfold int64_max; lia|].
  revert Hr. generalize (round (base * 2 ^ 53 + f)). intros r Hr. clear -Hr Hn Hone.
  pose proof (Z.mul_div_le base 2 ltac:(lia)) as Hhalf. split.
  - transitivity (base * 2 ^ 53); [|apply Hr]. unfold one. change (2 ^ 54) with (2 * 2 ^ 53). lia.
  - transitivity (n * one); [apply Hr|]. apply Z.mul_le_mono_nonneg_r; [done|apply Hn].
Qed.

Lemma backoff_is_bounded_witness :
  250 * Millisecond / 2 ≤ backoff_with 3 (250 * Millisecond) (60 * Second) (2 ^ 52) ≤ 60 * Second.
Proof. apply backoff_is_bounded; vm_compute; split; congruence || reflexivity. Defined.

(** The pause before retry number [attempt] of a transaction lasts between 5 and
    505 milliseconds, up to attempt 40; from 41 on the shift leaves the 64 bits
    and the process panics. *)
Theorem retry_pause_is_bounded `{Ext} attempt w :
  (∀ n d, 0 < d → 0 ≤ Int63n_nth n d < d) → 0 ≤ attempt →
  (attempt ≤ 40 → ∃ d, backoff attempt w = (Ok d, set_tick (S (w_tick w)) w) ∧
     5 * Millisecond ≤ d < 505 * Millisecond) ∧
  (attempt = 41 → ∃ msg, backoff attempt w = (Panic msg, w)).
Proof.
  intros Hrand Ha. split.
  - intros Hle. assert (0 < backoff_delay attempt ≤ 500 * Millisecond) as Hd.
    { unfold backoff_delay. rewrite Z.shiftl_mul_pow2 by lia.
      assert (1 ≤ 2 ^ attempt ≤ 2 ^ 40) as Hp.
      { split; [change 1 with (2 ^ 0) at 1|]; apply Z.pow_le_mono_r; lia. }
      rewrite wrap64_id by (unfold int64_min, int64_max, Millisecond; lia).
      destruct (Z.ltb_spec (500 * Millisecond) (5 * Millisecond * 2 ^ attempt)); unfold Millisecond in *; lia. }
    unfold backoff. destruct (Z.leb_spec (backoff_delay attempt) 0); [lia|].
    eexists. split; [reflexivity|]. destruct (Hrand (w_tick w) (backoff_delay attempt)); [lia|].
    rewrite wrap64_id; unfold int64_min, int64_max, Millisecond in *; lia.
  - intros ->. eexists. unfold backoff.
    assert (backoff_delay 41 <=? 0 = true) as -> by (vm_compute; reflexivity). reflexivity.
Qed.

Lemma retry_pause_is_bounded_witness :
  ∃ d, backoff (H:=demo_ext) 40 demo_world = (Ok d, set_tick (S (w_tick demo_world)) demo_world) ∧
     5 * Millisecond ≤ d < 505 * Millisecond.
Proof.
  refine (proj1 (retry_pause_is_bounded (H:=demo_ext) 40 demo_world _ _) _); [|lia|lia].
  intros n d Hd. simpl. lia.
Defined.

(** ** The order in which balances are updated *)

(** [sortedEntriesByAccount] is a stable sort: the same entries, in order of
    account, those of one account in their old order. *)
Theorem sortedEntriesByAccount_is_a_stable_sort es :
  sortedEntriesByAccount es ≡ₚ es ∧ StronglySorted account_le (sortedEntriesByAccount es) ∧
  ∀ a, filter (λ e, EntAccountID e = a) (sortedEntriesByAccount es) =
       filter (λ e, EntAccountID e = a) es.
Proof.
  split; [apply sortedEntries_perm|]. rewrite sortedEntries_insertion. split.
  - apply StronglySorted_reverse, sort_rev_sorted. constructor.
  - intros a. rewrite filter_reverse, sort_rev_stable. simpl. by rewrite app_nil_r, reverse_involutive.
Qed.

(** ** Configuration *)

Lemma envStr_nonempty env k def : def ≠ "" → envStr env k def ≠ "".
Proof. unfold envStr. by destruct (String.eqb_spec (getenv env k) ""). Qed.

Lemma envList_nonempty env k def : def ≠ [] → envList env k def ≠ [].
Proof.
  unfold envList. destruct (String.eqb _ _); [done|]. by destruct (List.filter _ _).
Qed.

Lemma envList_items env k def x :
  Forall (λ s, s ≠ "") def → x ∈ envList env k def → x ≠ "".
Proof.
  rewrite Forall_forall. intros Hdef. unfold envList. destruct (String.eqb _ _); [by apply Hdef|].
  destruct (List.filter _ _) as [|y l] eqn:E; [by apply Hdef|]. rewrite <-E.
  intros Hx. apply list_elem_of_In, filter_In in Hx as [_ Hx]. intros ->. done.
Qed.

(** A configuration that loads has a database, brokers and endpoints to talk to,
    a worker identity, and budgets of at least one attempt; and loading fails
    only for a budget below one. *)
Theorem Load_guarantees env serviceName :
  match Load env serviceName with
  | inr c =>
      DatabaseURL c ≠ "" ∧ OutboxWorkerID c ≠ "" ∧
      KafkaBrokers c ≠ [] ∧ Forall (λ s, s ≠ "") (KafkaBrokers c) ∧
      WebhookEndpoints c ≠ [] ∧ Forall (λ s, s ≠ "") (WebhookEndpoints c) ∧
      1 ≤ DBMaxTxRetries c ∧ 1 ≤ OutboxMaxAttempts c ∧ 1 ≤ WebhookMaxAttempts c
  | inl _ =>
      envInt env "LEDGER_DB_MAX_TX_RETRIES" 5 < 1 ∨ envInt env "LEDGER_OUTBOX_MAX_ATTEMPTS" 8 < 1 ∨
      envInt env "LEDGER_WEBHOOK_MAX_ATTEMPTS" 5 < 1
  end.
Proof.
  unfold Load. set (c := load_values env serviceName).
  assert (DatabaseURL c ≠ "") as Hdb by by apply envStr_nonempty.
  destruct (String.eqb_spec (DatabaseURL c) ""); [done|].
  destruct (Z.ltb_spec (DBMaxTxRetries c) 1); [by left|].
  destruct (Z.ltb_spec (OutboxMaxAttempts c) 1); [by right; left|].
  destruct (Z.ltb_spec (WebhookMaxAttempts c) 1); [by right; right|].
  assert (defaultWorkerID env ≠ "") as Hw.
  { unfold defaultWorkerID. destruct (hostname env) as [h|]; [|done].
    destruct (String.eqb_spec h "") as [->|Hh]; [done|]. by destruct h. }
  split_and!; try done; [by apply envStr_nonempty|by apply envList_nonempty| |by apply envList_nonempty|];
    apply Forall_forall; intros x; apply envList_items; by constructor.
Qed.

(** ** Events *)

(** An event's envelope survives its JSON encoding, replay metadata and
    omitted fields included. *)
Theorem envelope_round_trips env :
  in_int64 (EnvSchemaVersion env) = true →
  (∀ m, Event.Replay env = Some m → in_int64 (OriginalSeq m) = true) →
  unmarshal_Envelope (marshal_Envelope env) = Some env.
Proof.
  intros Hs Hm. apply unmarshal_marshal_Envelope. split; [done|].
  destruct (Event.Replay env); [by apply Hm|done].
Qed.

Lemma envelope_round_trips_witness :
  let env := mkEnvelope "e1" EventPaymentCreated 1 "t1" 1000 "" (Some (mkReplayMeta true "r1" 2000 "" 7)) JNull in
  unmarshal_Envelope (marshal_Envelope env) = Some env.
Proof.
  intros env. apply (envelope_round_trips env); [reflexivity|]. intros m Hm. injection Hm as <-. reflexivity.
Defined.

(** ** Transactions *)

Lemma runOnce_fails `{Ext} {L} (fn : body L) l w o l' w' :
  (∀ n e, commit_fault n ≠ Some (true, e)) →
  runOnce fn l w = (o, l', w') → o ≠ Ok tt → w_db w' = w_db w.
Proof.
  intros Hack. unfold runOnce. destruct (begin_fault _); [by intros [= <- <- <-]|].
  destruct (fn l _) as [[[[]|e|p] l1] w2]; [|by intros [= <- <- <-]..].
  destruct (commit_result _ _ _) as [[[] e]|] eqn:Ec; [|by intros [= <- <- <-]..].
  exfalso. unfold commit_result in Ec. destruct (commit_check _ _); [|done]. by eapply Hack.
Qed.

(** A transaction that ends with an error or a panic has changed nothing,
    whatever its closure does and however many attempts were made, unless the
    acknowledgement of a commit was lost. *)
Theorem failed_transaction_rolls_back `{Ext} {L} maxRetries (fn : body L) l w o l' w' :
  (∀ n e, commit_fault n ≠ Some (true, e)) →
  InTx maxRetries fn l w = (o, l', w') → o ≠ Ok tt → w_db w' = w_db w.
Proof.
  intros Hack. unfold InTx, InTx_waiting. generalize 0 as attempt. generalize (None : option error) as lastErr.
  generalize (Z.to_nat maxRetries) as fuel. intros fuel. revert l w.
  induction fuel as [|fuel IH]; intros l w lastErr attempt; simpl; [by intros [= <- <- <-]|].
  unfold then_body at 1. pose proof (pause_db attempt w) as Hp.
  destruct (pause attempt w) as [[[]|e|p] w1]; simpl in Hp; [|by intros [= <- <- <-]..].
  destruct (runOnce fn l w1) as [[[[]|e|p] l1] w2] eqn:Er; [by intros [= <- _ _]|..];
    apply (runOnce_fails _ _ _ _ _ _ Hack) in Er; try done.
  - destruct (retryReason e); unfold then_body; simpl.
    + intros HI Ho. apply IH in HI; [|done]. simpl in HI. congruence.
    + intros [= <- <- <-] _. simpl. congruence.
  - intros [= <- <- <-] _. congruence.
Qed.

Lemma failed_transaction_rolls_back_witness :
  w_db (InTx (H:=demo_ext) 5 (assigning (transfer_closure (H:=demo_ext) cfg Background "t1" overdraw))
    None (demo2 (H:=demo_ext))).2 = w_db (demo2 (H:=demo_ext)).
Proof.
  destruct (InTx (H:=demo_ext) 5 (assigning (transfer_closure (H:=demo_ext) cfg Background "t1" overdraw))
    None (demo2 (H:=demo_ext))) as [[o l'] w'] eqn:E.
  eapply (failed_transaction_rolls_back (H:=demo_ext) 5
    (assigning (transfer_closure (H:=demo_ext) cfg Background "t1" overdraw)) None); [done|exact E|].
  intros ->. assert (is_Ok (InTx (H:=demo_ext) 5 (assigning (transfer_closure (H:=demo_ext) cfg Background
    "t1" overdraw)) None (demo2 (H:=demo_ext))).1.1 = false) as Hno by (vm_compute; reflexivity).
  rewrite E in Hno. discriminate Hno.
Defined.

(** ** Requests *)

(** A transfer request that does not name two different accounts, a positive
    amount, a currency code and texts within their limits is answered with
    invalid_request, and touches nothing: no transaction begins, no call is made
    and no identifier is drawn. *)
Theorem Transfer_refuses_bad_requests `{Ext} cfg ctx cmd w :
  (SourceAccountID cmd ≠ "" ∧ DestinationAccountID cmd ≠ "" ∧
   SourceAccountID cmd ≠ DestinationAccountID cmd ∧ 0 < Amount cmd ∧
   currencyRe (Currency cmd) = true ∧
   (String.length (Description cmd) ≤ 512)%nat ∧
   (String.length (TrExternalReference cmd) ≤ 256)%nat) ∨
  ∃ e w', Transfer cfg ctx cmd w = (Err (EApp e), w') ∧ ErrCode e = CodeInvalidRequest ∧
    w_db w' = w_db w ∧ w_uuid w' = w_uuid w ∧ w_tick w' = w_tick w.
Proof.
  destruct (ValidateTransfer cmd) as [e|] eqn:Hv; [right|left; by apply ValidateTransfer_None].
  apply ValidateTransfer_code in Hv as Hc. destruct Hc as [Hc _].
  unfold Transfer. rewrite Hv. by eexists e, _.
Qed.
