(* ===== verification/Tame.v ===== *)
(** The commands, the transactions and the reads touch the process only behind
    the scenes: the database, the clock, the locks, the failpoints and the
    metrics. What such changes preserve, they preserve. *)
From S2P Require Import Prelude GoStrings Json Apperr Failpoint Schema Monad World Metrics Storage Idempotency Event Config Outbox LedgerModel LedgerRepo LedgerService Kafka Publisher Replay Reconciliation Cache Http Handlers Webhook.
Local Open Scope Z_scope.

(** Neither Redis, nor the response, nor Kafka, nor the webhook calls, nor the
    metrics changed. *)
Definition backstage (w w' : World) : Prop :=
  w_redis w' = w_redis w ∧ w_resp w' = w_resp w ∧ w_kafka w' = w_kafka w ∧
  w_posts w' = w_posts w ∧ w_metrics w' = w_metrics w.

(** The increments that claim a transaction of the ledger. *)
Definition a_success (m : metric) : bool :=
  (String.eqb m.1 "ledger_transfers_total" || String.eqb m.1 "ledger_reversals_total") &&
  match m.2 with outcome :: _ => String.eqb outcome "success" | [] => false end.

(** A relation that changes backstage respect, and increments that the collectors
    accept and that claim nothing. *)
Class Tame (R : World → World → Prop) : Prop := {
  tame_preorder :: PreOrder R;
  tame_backstage w w' : backstage w w' → R w w';
  tame_metric m w : recordable m → a_success m = false → R w (set_metrics (w_metrics w ++ [m]) w);
}.

(** Those that do claim one. *)
Class Tallying (R : World → World → Prop) : Prop :=
  tallying m w : recordable m → a_success m = true → R w (set_metrics (w_metrics w ++ [m]) w).

(** An increment of a known collector. *)
Class Recordable (name : string) (labels : list string) : Prop :=
  recordable_metric : recordable (name, labels) ∧ a_success (name, labels) = false.
#[export] Hint Extern 0 (Recordable _ _) =>
  split; [recordable_tac|reflexivity] : typeclass_instances.

Lemma retryReason_values err reason :
  retryReason err = Some reason → reason ∈ ["deadlock"; "serialization"; "lock_timeout"].
Proof.
  unfold retryReason. intros E. repeat case_match; simplify_eq; set_solver.
Qed.

#[export] Instance recordable_retry reason err :
  TCEq (retryReason err) (Some reason) → Recordable "ledger_postgres_retries_total" [reason].
Proof.
  intros E%TCEq_eq%retryReason_values. split; [|done]. eexists. split; [reflexivity|].
  rewrite !elem_of_cons in E. destruct E as [->|[->|[->|[]%not_elem_of_nil]]]; reflexivity.
Qed.
#[export] Instance recordable_transfer_failure c :
  Recordable "ledger_transfers_total" ["failure"; code_string c].
Proof. split; [|done]. eexists. split; [reflexivity|]. by destruct c. Qed.
#[export] Instance recordable_reversal_failure c :
  Recordable "ledger_reversals_total" ["failure"; code_string c].
Proof. split; [|done]. eexists. split; [reflexivity|]. by destruct c. Qed.

Section tame.
Context `{Ext} (R : World → World → Prop) `{!Tame R}.

#[export] Instance tame_next_tick : Respects R next_tick.
Proof. intros w. by apply tame_backstage. Qed.
#[export] Instance tame_Inc name labels : Recordable name labels → Respects R (Inc name labels).
Proof. intros [Hm Hs] w. by apply tame_metric. Qed.
#[export] Instance tame_ctx_Err : Respects R ctx_Err.
Proof. intros w. by apply tame_backstage. Qed.
#[export] Instance tame_SetGauge v : Respects R (SetGauge "ledger_outbox_backlog" v).
Proof. intros w. apply tame_metric; [recordable_tac|done]. Qed.
#[export] Instance tame_NewString : Respects R NewString.
Proof. intros w. by apply tame_backstage. Qed.
#[export] Instance tame_Now : Respects R Now.
Proof. intros w. by apply tame_backstage. Qed.
#[export] Instance tame_Sleep d : Respects R (Sleep d).
Proof. intros w. by apply tame_backstage. Qed.
#[export] Instance tame_acquire l : Respects R (acquire l).
Proof. intros w. apply tame_backstage. unfold acquire, modify. simpl. by case_decide. Qed.
#[export] Instance tame_EvalFailpoint ctx name : Respects R (EvalFailpoint ctx name).
Proof.
  intros w. apply tame_backstage. unfold EvalFailpoint. destruct (Eval _ _ _) as [[] ?]; done.
Qed.
#[export] Instance tame_failpoint ctx name f : Respects R (failpoint ctx name f).
Proof. unfold failpoint. respects_tac. Qed.
#[export] Instance tame_sql {A} (f : Z → DB → pg (A * DB)) : Respects R (sql f).
Proof.
  unfold sql. apply respects_bind; [apply _..|]. intros n.
  destruct (stmt_fault n); [apply _|]. intros w. apply tame_backstage. simpl.
  by destruct (f _ _) as [[]|].
Qed.
#[export] Instance tame_pool_sql {A} (f : Z → DB → pg (A * DB)) : Respects R (pool_sql f).
Proof.
  unfold pool_sql. apply respects_bind; [apply _..|]. intros n.
  destruct (stmt_fault n); [apply _|]. intros w. apply tame_backstage. simpl.
  destruct (f _ _) as [[]|]; [|done]. by destruct (commit_fault n) as [[[] ?]|].
Qed.
#[export] Instance tame_query {A} (f : DB → pg A) : Respects R (query f).
Proof. unfold query. apply tame_sql. Qed.
#[export] Instance tame_query_row {A} (f : DB → pg (option A)) : Respects R (query_row f).
Proof. unfold query_row. respects_tac. Qed.

(** ** Transactions *)

Lemma tame_runOnce {L} (fn : body L) l w :
  (∀ l w, R w (fn l w).2) → R w (runOnce fn l w).2.
Proof.
  intros Hfn. unfold runOnce. destruct (begin_fault _); [by apply tame_backstage|].
  match goal with |- context [fn l ?w1] => pose proof (Hfn l w1) as Hb;
    assert (R w w1) as H1 by (by apply tame_backstage);
    destruct (fn l w1) as [[[u|e|p] l'] w2] end; simpl in *.
  2, 3: by (etrans; [exact H1|]; etrans; [exact Hb|]; apply tame_backstage).
  destruct (commit_result _ _ _) as [[[] ?]|];
    (etrans; [exact H1|]; etrans; [exact Hb|]; by apply tame_backstage).
Qed.

#[export] Instance tame_pause attempt : Respects R (pause attempt).
Proof. unfold pause, backoff, sleepCtx. respects_tac. Qed.

Lemma tame_InTx_waiting {L} waiting (fn : body L) n l w :
  (∀ k, Respects R (waiting k)) → (∀ l w, R w (fn l w).2) →
  R w (InTx_waiting waiting n fn l w).2.
Proof.
  intros Hwait Hfn. unfold InTx_waiting. generalize 0 as attempt. generalize (None : option error) as lastErr.
  generalize (Z.to_nat n) as fuel. intros fuel. revert l w.
  induction fuel as [|fuel IH]; intros l w lastErr attempt; simpl.
  { unfold then_body. simpl. apply tame_metric; [recordable_tac|done]. }
  unfold then_body at 1. pose proof (respects (R:=R) (m:=waiting attempt) w) as Hp.
  destruct (waiting attempt w) as [[[]|e|p] w1]; simpl in Hp |- *; [|done..].
  pose proof (tame_runOnce fn l w1 Hfn) as Hone.
  destruct (runOnce fn l w1) as [[[[]|e|p] l'] w2]; simpl in Hone.
  - unfold then_body. simpl. etrans; [exact Hp|]. etrans; [exact Hone|].
    apply tame_metric; [recordable_tac|done].
  - destruct (retryReason e) eqn:Er; unfold then_body; simpl; (etrans; [exact Hp|]);
      (etrans; [exact Hone|]).
    + etrans; [|apply IH]. apply tame_metric; [|done]. apply (recordable_retry _ e). by rewrite Er.
    + apply tame_metric; [recordable_tac|done].
  - by etrans.
Qed.

Lemma tame_InTx {L} (fn : body L) n l w : (∀ l w, R w (fn l w).2) → R w (InTx n fn l w).2.
Proof. apply tame_InTx_waiting, _. Qed.

Lemma tame_InTx_result_waiting {A} waiting n (m : M A) :
  (∀ k, Respects R (waiting k)) → Respects R m → Respects R (InTx_result_waiting waiting n m).
Proof.
  intros Hwait Hm w. unfold InTx_result_waiting.
  pose proof (tame_InTx_waiting waiting (assigning m) n None w Hwait) as HI.
  destruct (InTx_waiting waiting n (assigning m) None w) as [[[] l] w']; simpl in *; apply HI; intros l1 w1;
    unfold assigning; specialize (Hm w1); by destruct (m w1) as [[] ?].
Qed.

#[export] Instance tame_InTx_result {A} n (m : M A) : Respects R m → Respects R (InTx_result n m).
Proof. apply tame_InTx_result_waiting, _. Qed.

(** ** The commands *)

#[export] Instance tame_loadTransaction id : Respects R (loadTransaction id).
Proof. unfold loadTransaction, query_row. respects_tac. Qed.
#[export] Instance tame_LockKey s k : Respects R (LockKey s k).
Proof. unfold LockKey. respects_tac. Qed.
#[export] Instance tame_Claim s k h : Respects R (Claim s k h).
Proof. unfold Claim, Fetch. respects_tac. Qed.
#[export] Instance tame_Complete s k st b t : Respects R (Complete s k st b t).
Proof. unfold Complete. respects_tac. Qed.
#[export] Instance tame_claim_or_replay i work :
  Respects R work → Respects R (claim_or_replay i work).
Proof. intros Hw. unfold claim_or_replay, replayResult. respects_tac. Qed.
#[export] Instance tame_lockBalances ids : Respects R (lockBalances ids).
Proof.
  unfold lockBalances. generalize (sort_Strings ids) as l. generalize (∅ : gmap string lockedAccount) as out.
  intros out l. revert out. induction l as [|id l IH]; intros out; simpl; [apply _|].
  destruct (out !! id); [apply IH|]. unfold query_row.
  apply respects_bind; [apply _..|]. intros a. apply respects_bind; [apply _..|]. intros _. apply IH.
Qed.
#[export] Instance tame_post_entries ctx txn : Respects R (post_entries ctx txn).
Proof.
  unfold post_entries, insertTransaction, insertEntries, applyBalanceDelta, ledger_failpoint.
  respects_tac.
Qed.
#[export] Instance tame_writeOutboxEvent cfg ctx txn ty data :
  Respects R (writeOutboxEvent cfg ctx txn ty data).
Proof. unfold writeOutboxEvent, Insert. respects_tac. Qed.
#[export] Instance tame_complete_transaction i id : Respects R (complete_transaction i id).
Proof. unfold complete_transaction. respects_tac. Qed.
#[export] Instance tame_deref {A} (o : option A) : Respects R (deref o).
Proof. unfold deref. respects_tac. Qed.

#[export] Instance tame_mirror_entries rid es : Respects R (mirror_entries rid es).
Proof. induction es as [|e es IH]; simpl; respects_tac. Qed.
#[export] Instance tame_executeTransfer cfg ctx id cmd :
  Respects R (executeTransfer cfg ctx id cmd).
Proof. unfold executeTransfer, ledger_failpoint. respects_tac. Qed.
#[export] Instance tame_executeReverse cfg ctx id cmd :
  Respects R (executeReverse cfg ctx id cmd).
Proof.
  unfold executeReverse, listAccountsForTransaction, insertReversalRecord, ledger_failpoint.
  respects_tac.
Qed.
#[export] Instance tame_executeCreateAccount cmd : Respects R (executeCreateAccount cmd).
Proof. unfold executeCreateAccount. respects_tac. Qed.

#[export] Instance tame_CreateAccount cfg cmd : Respects R (CreateAccount cfg cmd).
Proof. unfold CreateAccount. respects_tac. Qed.

Lemma tame_claim_waiting waiting s k h n l :
  (∀ i, Respects R (waiting i)) → Respects R (InTx_vars waiting n (claim_closure s k h) l).
Proof.
  intros Hwait w. unfold InTx_vars.
  pose proof (tame_InTx_waiting waiting (claim_closure s k h) n l w Hwait) as HI.
  destruct (InTx_waiting _ _ _ _ w) as [[[] l2] w']; simpl in *; apply HI; intros l1 w1; unfold claim_closure;
    (assert (Respects R (claim_external s k h)) as Hc by (unfold claim_external; respects_tac));
    specialize (Hc w1); by destruct (claim_external s k h w1) as [[[[]|]| |] ?].
Qed.

#[export] Instance tame_claim_external s k h n l :
  Respects R (InTx_vars pause n (claim_closure s k h) l).
Proof. apply tame_claim_waiting, _. Qed.

(** The two that count their successes. *)
Section tallied.
Context `{!Tallying R}.

#[export] Instance tame_success name :
  TCOr (TCEq name "ledger_transfers_total") (TCEq name "ledger_reversals_total") →
  Respects R (Inc name ["success"; ""]).
Proof. intros [E%TCEq_eq|E%TCEq_eq] w; subst name; (apply tallying; [recordable_tac|done]). Qed.
#[export] Instance tame_Transfer cfg ctx cmd : Respects R (Transfer cfg ctx cmd).
Proof. unfold Transfer, transfer_closure, failure. respects_tac. Qed.
#[export] Instance tame_Reverse cfg ctx cmd : Respects R (Reverse cfg ctx cmd).
Proof. unfold Reverse, reverse_closure, failure, ledger_failpoint. respects_tac. Qed.
End tallied.

(** ** Reads *)

#[export] Instance tame_GetAccount id : Respects R (GetAccount id).
Proof. unfold GetAccount, query_row. respects_tac. Qed.
#[export] Instance tame_GetBalance id : Respects R (GetBalance id).
Proof. unfold GetBalance, query_row. respects_tac. Qed.
#[export] Instance tame_ListEntries a n c : Respects R (ListEntries a n c).
Proof. unfold ListEntries. respects_tac. Qed.
#[export] Instance tame_GetTransaction id : Respects R (GetTransaction id).
Proof. apply tame_loadTransaction. Qed.
#[export] Instance tame_Run : Respects R Reconciliation.Run.
Proof.
  assert (∀ rows rep, Respects R (scan_balances rows rep)) as H1.
  { intros rows. induction rows as [|[[? ?] ?] rows IH]; intros rep; simpl; respects_tac. }
  assert (∀ rows rep, Respects R (scan_transactions rows rep)) as H2.
  { intros rows. induction rows as [|[[? ?] ?] rows IH]; intros rep; simpl; respects_tac. }
  unfold Reconciliation.Run, counted_query, rows_Err. respects_tac.
Qed.
End tame.

(** * Calls that reach the world *)

(** Relations that further effects respect: a message appended to Kafka, a call of
    an endpoint, a value stored in Redis, the parts of an answer. *)
Class Sending (R : World → World → Prop) : Prop :=
  sending_append msg :: Respects R (append_message msg).
Class Posting (R : World → World → Prop) : Prop :=
  posting_post p w : R w (set_posts (w_posts w ++ [p]) w).
Class Caching (R : World → World → Prop) : Prop :=
  caching_set k v :: Respects R (redis_set k v).
Class Answering (R : World → World → Prop) : Prop := {
  answering_SetHeader k v :: Respects R (SetHeader k v);
  answering_WriteHeader s :: Respects R (WriteHeader s);
  answering_Write b :: Respects R (Write b);
  answering_record_code c :: Respects R (record_code c);
}.

Section workers.
Context `{Ext} (R : World → World → Prop) `{!Tame R} (cfg : Config).

Section publisher.
Context `{!Sending R}.

#[export] Instance tame_Publish msg : Respects R (Publish msg).
Proof. unfold Publish. respects_tac. Qed.
#[export] Instance tame_MarkFailed id c b m : Respects R (MarkFailed id c b m).
Proof. unfold MarkFailed. respects_tac. Qed.
#[export] Instance tame_publishOne ctx rec : Respects R (publishOne cfg ctx rec).
Proof. unfold publishOne, fail, publishToDLQ, Kafka.Backoff, Float64, MarkPublished. respects_tac. Qed.
#[export] Instance tame_publish_batch ctx batch n :
  Respects R (publish_batch cfg ctx batch n).
Proof. revert n. induction batch; intros n; simpl; respects_tac. Qed.
#[export] Instance tame_RunOnce ctx : Respects R (RunOnce cfg ctx).
Proof. unfold RunOnce, ClaimBatch, Backlog. respects_tac. Qed.

#[export] Instance tame_replay_loop req rid at_ recs i r :
  Respects R (replay_loop req rid at_ recs i r).
Proof. revert i r. induction recs; intros i r; simpl; respects_tac. Qed.
#[export] Instance tame_RunReplay req : Respects R (RunReplay req).
Proof. unfold RunReplay, ListForReplay. respects_tac. Qed.
End publisher.

#[export] Instance tame_enqueue_all env p es : Respects R (enqueue_all env p es).
Proof. unfold enqueue_all. induction es; simpl; unfold Enqueue; respects_tac. Qed.
#[export] Instance tame_HandleEvent ctx msg : Respects R (HandleEvent cfg ctx msg).
Proof. unfold HandleEvent. respects_tac. Qed.

Section deliveries.
Context `{!Posting R}.

#[export] Instance tame_post d : Respects R (post cfg d).
Proof. unfold post. respects_tac. apply respects_modify. intros w. by apply posting_post. Qed.
#[export] Instance tame_deliver ctx d : Respects R (deliver cfg ctx d).
Proof.
  unfold deliver, recordFailure, MarkFailedDelivery, MarkDelivered, Kafka.Backoff, Float64. respects_tac.
Qed.
#[export] Instance tame_deliver_batch ctx b n : Respects R (deliver_batch cfg ctx b n).
Proof. revert n. induction b; intros n; simpl; respects_tac. Qed.
#[export] Instance tame_DeliverOnce ctx : Respects R (DeliverOnce cfg ctx).
Proof. unfold DeliverOnce, ClaimDue. respects_tac. Qed.
End deliveries.
End workers.

(** * Calls that reach neither Redis, Kafka, the endpoints nor the response *)

(** The commands, the transactions and the reads. *)
Definition secluded (w w' : World) : Prop :=
  w_redis w' = w_redis w ∧ w_resp w' = w_resp w ∧ w_kafka w' = w_kafka w ∧ w_posts w' = w_posts w.

#[export] Instance secluded_tame : Tame secluded.
Proof.
  split; [split; [done|]| |done].
  - intros ??? (?&?&?&?) (?&?&?&?). unfold secluded. split_and!; congruence.
  - by intros ?? (?&?&?&?&?).
Qed.
#[export] Instance secluded_tallying : Tallying secluded.
Proof. done. Qed.

Definition keeps_kafka (w w' : World) : Prop := w_kafka w' = w_kafka w.

#[export] Instance keeps_kafka_tame : Tame keeps_kafka.
Proof.
  split; [split; [done|]|by intros ?? (?&?&?&?)|done]. unfold keeps_kafka. intros ??? E1 E2. congruence.
Qed.
#[export] Instance keeps_kafka_tallying : Tallying keeps_kafka.
Proof. done. Qed.
#[export] Instance keeps_kafka_posting : Posting keeps_kafka.
Proof. done. Qed.
#[export] Instance keeps_kafka_caching : Caching keeps_kafka.
Proof. done. Qed.

Lemma WriteHeader_aside s w :
  w_redis (WriteHeader s w).2 = w_redis w ∧ w_kafka (WriteHeader s w).2 = w_kafka w ∧
  w_posts (WriteHeader s w).2 = w_posts w ∧ w_metrics (WriteHeader s w).2 = w_metrics w ∧
  w_db (WriteHeader s w).2 = w_db w.
Proof. unfold WriteHeader. destruct (rw_status _); [done|]. by destruct (_ || _). Qed.

#[export] Instance keeps_kafka_answering : Answering keeps_kafka.
Proof. split; [done| |done..]. intros s w. apply (WriteHeader_aside s w). Qed.

(** Nor are endpoints called but by the deliveries. *)
Definition keeps_posts (w w' : World) : Prop := w_posts w' = w_posts w.

#[export] Instance keeps_posts_tame : Tame keeps_posts.
Proof.
  split; [split; [done|]|by intros ?? (?&?&?&?&?)|done]. unfold keeps_posts. intros ??? E1 E2. congruence.
Qed.
#[export] Instance keeps_posts_tallying : Tallying keeps_posts.
Proof. done. Qed.
#[export] Instance keeps_posts_sending : Sending keeps_posts.
Proof. done. Qed.
#[export] Instance keeps_posts_caching : Caching keeps_posts.
Proof. done. Qed.
#[export] Instance keeps_posts_answering : Answering keeps_posts.
Proof. split; [done| |done..]. intros s w. apply (WriteHeader_aside s w). Qed.

Definition keeps_redis (w w' : World) : Prop := w_redis w' = w_redis w.

#[export] Instance keeps_redis_tame : Tame keeps_redis.
Proof.
  split; [split; [done|]|by intros ?? (?&?)|done]. unfold keeps_redis. intros ??? E1 E2. congruence.
Qed.
#[export] Instance keeps_redis_tallying : Tallying keeps_redis.
Proof. done. Qed.
#[export] Instance keeps_redis_sending : Sending keeps_redis.
Proof. done. Qed.
#[export] Instance keeps_redis_posting : Posting keeps_redis.
Proof. done. Qed.
#[export] Instance keeps_redis_answering : Answering keeps_redis.
Proof. split; [done| |done..]. intros s w. apply (WriteHeader_aside s w). Qed.
