(* ===== verification/HttpFacts.v ===== *)
(** How handlers end and what they leave in the response: they never return an
    error, the first status written stays, and a request is always answered.  How
    requests are routed: no two patterns match one request, and a path made from a
    pattern leads to it. *)
From S2P Require Import Prelude GoStrings GoTime Json Apperr Failpoint Schema Monad World Storage Idempotency Event Config Cache Outbox LedgerModel Http RateLimit LedgerRepo LedgerService Kafka Publisher Replay Reconciliation Handlers Server ApiEffects Webhook Tame.
Local Open Scope Z_scope.

(** * Handlers return nothing *)

(** A Go function without an error result: it returns or panics. *)
Class Handles {A} (m : M A) : Prop := handles w e w' : m w ≠ (Err e, w').

Section handles.
Context `{Ext}.

#[export] Instance handles_ret {A} (a : A) : Handles (mret a).
Proof. done. Qed.
#[export] Instance handles_gets {A} (f : World → A) : Handles (gets f).
Proof. done. Qed.
#[export] Instance handles_modify f : Handles (modify f).
Proof. done. Qed.
#[export] Instance handles_bind {A B} (m : M A) (f : A → M B) :
  Handles m → (∀ a, Handles (f a)) → Handles (m ≫= f).
Proof.
  intros Hm Hf w e w'. unfold mbind, ST_bind. specialize (Hm w).
  destruct (m w) as [[a|e'|p] w1]; [apply Hf|by destruct (Hm e' w1)|done].
Qed.
#[export] Instance handles_try {A} (m : M A) : Handles (try m).
Proof. intros w e w'. unfold try. by destruct (m w) as [[] ?]. Qed.
#[export] Instance handles_Inc name labels : Handles (Inc name labels).
Proof. done. Qed.
#[export] Instance handles_next_tick : Handles next_tick.
Proof. done. Qed.
#[export] Instance handles_NewString : Handles NewString.
Proof. done. Qed.
#[export] Instance handles_on_resp f : Handles (on_resp f).
Proof. done. Qed.
#[export] Instance handles_SetHeader k v : Handles (SetHeader k v).
Proof. done. Qed.
#[export] Instance handles_WriteHeader s : Handles (WriteHeader s).
Proof. intros w e w'. unfold WriteHeader. destruct (rw_status _); [done|]. by destruct (_ || _). Qed.
#[export] Instance handles_Write b : Handles (Write b).
Proof. done. Qed.
End handles.

(** Walk through the code. *)
Ltac handles_tac :=
  repeat (intros; first [solve [apply _] | apply handles_bind | case_match]).

Section handlers.
Context `{Ext} (cfg : Config).

#[export] Instance handles_writeJSON s b : Handles (writeJSON s b).
Proof. unfold writeJSON. handles_tac. Qed.
#[export] Instance handles_writeRaw s b : Handles (writeRaw s b).
Proof. unfold writeRaw. handles_tac. Qed.
#[export] Instance handles_writeError r err : Handles (writeError r err).
Proof. unfold writeError, record_code. handles_tac. Qed.
#[export] Instance handles_or_error {A} r (m : M A) k :
  (∀ a, Handles (k a)) → Handles (or_error r m k).
Proof. intros Hk. unfold or_error. handles_tac. Qed.
#[export] Instance handles_or_refuse {A} r (res : Error + A) k :
  (∀ a, Handles (k a)) → Handles (or_refuse r res k).
Proof. intros Hk. unfold or_refuse. handles_tac. Qed.
#[export] Instance handles_CacheGet s k : Handles (Cache.Get cfg s k).
Proof. unfold Cache.Get, redis_op. handles_tac. Qed.
#[export] Instance handles_Put s k c : Handles (Put cfg s k c).
Proof. unfold Put, redis_op, redis_set. handles_tac. Qed.
#[export] Instance handles_replayFromCache r s k h : Handles (replayFromCache cfg r s k h).
Proof. unfold replayFromCache. handles_tac. Qed.
#[export] Instance handles_run_command r s k h m : Handles (run_command cfg r s k h m).
Proof. unfold run_command, finishIdempotent. handles_tac. Qed.
#[export] Instance handles_Allow l key : Handles (Allow l key).
Proof. unfold Allow, redis_incr, redis_op, redis_set, Now. handles_tac. Qed.

Lemma handles_withRequestContext next r : (∀ r, Handles (next r)) → Handles (withRequestContext next r).
Proof. intros Hn. unfold withRequestContext. handles_tac. Qed.
Lemma handles_withObservability p next r : Handles (next r) → Handles (withObservability p next r).
Proof. intros Hn. unfold withObservability, record_code. handles_tac. Qed.
Lemma handles_withFailpoints next r : (∀ r, Handles (next r)) → Handles (withFailpoints next r).
Proof. intros Hn. unfold withFailpoints. handles_tac. Qed.
Lemma handles_withRateLimit l p next r : (∀ r, Handles (next r)) → Handles (withRateLimit l p next r).
Proof. intros Hn. unfold withRateLimit. handles_tac. Qed.
Lemma handles_route l p h b r : (∀ r, Handles (h r)) → Handles (route l p h b r).
Proof.
  intros Hh. unfold route. apply handles_withRequestContext. intros r1.
  apply handles_withObservability.
  destruct b; [apply handles_withRateLimit; intros r2|]; by apply handles_withFailpoints.
Qed.
Lemma handles_NotFound r : Handles (NotFound r).
Proof. unfold NotFound. handles_tac. Qed.
Lemma handles_debug_route h r : (∀ r, Handles (h r)) → Handles (debug_route h r).
Proof.
  intros Hh. unfold debug_route. apply handles_bind; [apply _|]. intros fp.
  destruct (Enabled fp); [by apply handles_withRequestContext|apply handles_NotFound].
Qed.

#[export] Instance handles_handleReplay r : Handles (handleReplay cfg r).
Proof.
  rewrite handleReplay_eq. apply handles_or_refuse; intros key. apply handles_or_refuse; intros req.
  handles_tac.
Qed.
#[export] Instance handles_handleArm r : Handles (handleArmFailpoint r).
Proof.
  unfold handleArmFailpoint, write_active. apply handles_or_refuse. intros req.
  apply handles_bind; [|handles_tac]. intros w e w'. unfold Arm_failpoint. by destruct (Arm _ _ _).
Qed.

Lemma handles_mux e r : Handles (mux cfg e r).
Proof.
  destruct e; cbn [mux];
    first [apply handles_route|apply handles_debug_route|apply handles_withRequestContext
          |apply handles_NotFound|idtac]; intros; try apply _.
  unfold handleReady. handles_tac.
Qed.

Lemma handles_routed `{NetHttp} {T} (serving : T → handler) d r :
  (∀ t r, Handles (serving t r)) → Handles (routed_handler serving d r).
Proof.
  intros Hs. unfold routed_handler, redirect, http_error, NotFound. destruct d; [..|apply Hs| |]; handles_tac.
Qed.
#[export] Instance handles_target `{NetHttp} t r : Handles (target_handler cfg t r).
Proof. destruct t; [apply handles_mux|]. unfold target_handler, metrics_page, http_error. handles_tac. Qed.
End handlers.

(** * Middleware *)

(** A relation that the primitives of the middleware respect is respected by the
    chain around a handler that respects it. *)
Section middleware.
Context `{Ext} (R : World → World → Prop) `{!PreOrder R}.
Context (Hheader : ∀ k v, Respects R (SetHeader k v)) (Herror : ∀ r e, Respects R (writeError r e))
  (Hcode : ∀ c, Respects R (record_code c)) (Hinc : ∀ n l, Recordable n l → Respects R (Inc n l))
  (Huuid : Respects R NewString) (Hallow : ∀ l k, Respects R (Allow l k))
  (Hstatus : ∀ s, Respects R (WriteHeader s)) (Hwrite : ∀ b, Respects R (Write b)).

Lemma respects_withRequestContext next r :
  (∀ ctx, Respects R (next (WithContext r ctx))) → Respects R (withRequestContext next r).
Proof using All. intros Hn. unfold withRequestContext. respects_tac. Qed.
Lemma respects_withRecovery next r : Respects R (next r) → Respects R (withRecovery next r).
Proof using All.
  intros Hn w. unfold withRecovery. specialize (Hn w).
  destruct (next r w) as [[u|e|p] w1]; [done..|]. simpl in Hn. etrans; [exact Hn|]. apply Herror.
Qed.
Lemma respects_withObservability p next r :
  Respects R (next r) → Respects R (withObservability p next r).
Proof using All. intros Hn. unfold withObservability. respects_tac. Qed.
Lemma respects_withFailpoints next r :
  Respects R (next r) → (∀ ctx, Respects R (next (WithContext r ctx))) →
  Respects R (withFailpoints next r).
Proof using All. intros Hn Hc. unfold withFailpoints. respects_tac. Qed.
Lemma respects_withRateLimit l p next r :
  Respects R (next r) → Respects R (withRateLimit l p next r).
Proof using All. intros Hn. unfold withRateLimit. respects_tac. Qed.
(** The handler sees the request, with another context. *)
Lemma respects_route l p h b r :
  (∀ ctx, Respects R (h (WithContext r ctx))) → Respects R (route l p h b r).
Proof using All.
  intros Hh. unfold route. apply respects_withRequestContext. intros ctx.
  apply respects_withObservability.
  destruct b; [apply respects_withRateLimit|]; (apply respects_withFailpoints; [done|]);
    intros ctx'; apply (Hh ctx').
Qed.
Lemma respects_NotFound r : Respects R (NotFound r).
Proof using All. unfold NotFound. respects_tac. Qed.
Lemma respects_debug_route h r : (∀ r, Respects R (h r)) → Respects R (debug_route h r).
Proof using All.
  intros Hh. unfold debug_route. apply respects_bind; [apply _..|]. intros fp.
  destruct (Enabled fp); [by apply respects_withRequestContext|apply respects_NotFound].
Qed.
Lemma respects_or_error {A} r (m : M A) k :
  Respects R m → (∀ a, Respects R (k a)) → Respects R (or_error r m k).
Proof using All. intros Hm Hk. unfold or_error. respects_tac. Qed.
Lemma respects_or_refuse {A} r (res : Error + A) k :
  (∀ a, Respects R (k a)) → Respects R (or_refuse r res k).
Proof using All. intros Hk. unfold or_refuse. destruct res; apply _. Qed.

(** Serving a request respects what its handler respects. *)
Lemma respects_mux cfg e r :
  (∀ r, Respects R (handleGetAccount r)) → (∀ r, Respects R (handleGetBalance r)) →
  (∀ r, Respects R (handleListEntries r)) →
  (∀ r, Respects R (handleGetTransaction r)) → (∀ r, Respects R (handleCreateAccount cfg r)) →
  (∀ r, Respects R (handleTransfer cfg r)) → (∀ r, Respects R (handleReverse cfg r)) →
  (∀ r, Respects R (handleReplay cfg r)) → (∀ r, Respects R (handleLive r)) →
  (∀ r, Respects R (handleReady cfg r)) → (∀ r, Respects R (handleReconcile r)) →
  (∀ r, Respects R (handleListFailpoints r)) → (∀ r, Respects R (handleArmFailpoint r)) →
  (∀ r, Respects R (handleResetFailpoints r)) → Respects R (mux cfg e r).
Proof using All.
  intros. destruct e; cbn [mux]; auto using respects_route, respects_debug_route,
    respects_withRequestContext, respects_NotFound.
Qed.
End middleware.

(** * Handlers *)

Section tame_handlers.
Context `{Ext} (R : World → World → Prop) `{!Tame R, !Answering R} (cfg : Config).

#[export] Instance tame_writeJSON s b : Respects R (writeJSON s b).
Proof. unfold writeJSON. respects_tac. Qed.
#[export] Instance tame_writeRaw s b : Respects R (writeRaw s b).
Proof. unfold writeRaw. respects_tac. Qed.
#[export] Instance tame_writeError r e : Respects R (writeError r e).
Proof. unfold writeError. respects_tac. Qed.
#[export] Instance tame_CacheGet s k : Respects R (Cache.Get cfg s k).
Proof. unfold Cache.Get, redis_op. respects_tac. Qed.
#[export] Instance tame_replayFromCache r s k h : Respects R (replayFromCache cfg r s k h).
Proof. unfold replayFromCache. respects_tac. Qed.
#[export] Instance tame_or_error {A} r (m : M A) k :
  Respects R m → (∀ a, Respects R (k a)) → Respects R (or_error r m k).
Proof. intros Hm Hk. unfold or_error. respects_tac. Qed.
#[export] Instance tame_or_refuse {A} r (res : Error + A) k :
  (∀ a, Respects R (k a)) → Respects R (or_refuse r res k).
Proof. intros Hk. unfold or_refuse. destruct res; apply _. Qed.
#[export] Instance tame_external s k h work :
  Respects R work → Respects R (runExternalIdempotent cfg s k h work).
Proof. intros Hw. rewrite runExternalIdempotent_eq. unfold Discard. respects_tac. Qed.
#[export] Instance tame_handleLive r : Respects R (handleLive r).
Proof. unfold handleLive. apply _. Qed.
#[export] Instance tame_handleReady r : Respects R (handleReady cfg r).
Proof. unfold handleReady, Ping, redis_ping. respects_tac. Qed.
#[export] Instance tame_set_fp f : Respects R (modify (λ w, set_fp (f w) w)).
Proof. apply respects_modify. intros w. by apply tame_backstage. Qed.
#[export] Instance tame_Arm name action : Respects R (Arm_failpoint name action).
Proof. intros w. apply tame_backstage. unfold Arm_failpoint. by destruct (Arm _ _ _). Qed.

(** ** Handlers that store in the cache *)

Context `{!Caching R}.

#[export] Instance tame_Put s k c : Respects R (Put cfg s k c).
Proof. unfold Put, redis_op. respects_tac. Qed.
#[export] Instance tame_Allow l k : Respects R (Allow l k).
Proof. unfold Allow, redis_incr, redis_op. respects_tac. Qed.
#[export] Instance tame_run_command r s k h m : Respects R m → Respects R (run_command cfg r s k h m).
Proof. intros Hm. unfold run_command, finishIdempotent. respects_tac. Qed.

(** ** Serving *)

Context `{!Sending R, !Tallying R}.

#[export] Instance tame_handleReplay r : Respects R (handleReplay cfg r).
Proof.
  rewrite handleReplay_eq. apply tame_or_refuse; intros key. apply tame_or_refuse; intros req.
  unfold replay_work. respects_tac.
Qed.

Lemma tame_mux e r : Respects R (mux cfg e r).
Proof.
  apply respects_mux; try apply _; intros r1;
    unfold handleArmFailpoint, handleResetFailpoints, write_active; try apply tame_or_refuse; respects_tac.
Qed.

Lemma tame_routed `{NetHttp} {T} (serving : T → handler) d r :
  (∀ t r, Respects R (serving t r)) → Respects R (routed_handler serving d r).
Proof.
  intros Hs. unfold routed_handler, redirect, http_error, NotFound. destruct d; [..|apply Hs| |]; respects_tac.
Qed.
#[export] Instance tame_target `{NetHttp} t r : Respects R (target_handler cfg t r).
Proof. destruct t; [apply tame_mux|]. unfold target_handler, metrics_page, http_error. respects_tac. Qed.

Lemma tame_serve e r : Respects R (modify (set_resp new_response)) → Respects R (serve cfg e r).
Proof.
  intros Hnew. unfold serve. apply respects_bind; [apply _..|]. intros _.
  apply respects_bind; [apply _| |intros; apply _].
  apply respects_withRecovery; try apply _. apply tame_mux.
Qed.
End tame_handlers.

(** * The status line *)

Definition status_code (s : Z) : Prop := 100 ≤ s ≤ 999.

(** A status that was written stays; one that is written is a status code. *)
Definition status_kept (w w' : World) : Prop :=
  (∀ s, rw_status (w_resp w) = Some s → rw_status (w_resp w') = Some s) ∧
  (∀ s, rw_status (w_resp w') = Some s → rw_status (w_resp w) = Some s ∨ status_code s).

#[export] Instance status_kept_preorder : PreOrder status_kept.
Proof.
  split; [by split; auto|]. intros w1 w2 w3 [K1 C1] [K2 C2]. split; [auto|].
  intros s Hs. destruct (C2 s Hs) as [Hs2|?]; auto.
Qed.

Lemma status_same w w' : w_resp w' = w_resp w → status_kept w w'.
Proof. intros E. unfold status_kept. rewrite E. auto. Qed.

#[export] Instance status_tame : Tame status_kept.
Proof. split; [apply _|by intros ?? (_&?&_); apply status_same|by intros; apply status_same]. Qed.
#[export] Instance status_tallying : Tallying status_kept.
Proof. intros m w _ _. by apply status_same. Qed.
#[export] Instance status_caching : Caching status_kept.
Proof. intros k v. apply respects_modify. intros w. by apply status_same. Qed.
#[export] Instance status_sending : Sending status_kept.
Proof. intros msg w. by apply status_same. Qed.
#[export] Instance status_answering : Answering status_kept.
Proof.
  split.
  - intros k v w. unfold status_kept. simpl. destruct (rw_status _) eqn:E; simpl; rewrite ?E; auto.
  - intros s w. unfold WriteHeader. destruct (rw_status (w_resp w)) eqn:E; [reflexivity|].
    destruct (Z.ltb_spec s 100); [reflexivity|]. destruct (Z.ltb_spec 999 s); [reflexivity|].
    split; simpl; rewrite E; [done|]. intros s' [= <-]. right. unfold status_code. lia.
  - intros b w. unfold status_kept, status_code. simpl.
    destruct (rw_status _) as [s0|]; simpl; [auto|]. split; [done|]. intros s [= <-]. right. lia.
  - intros c w. unfold status_kept. simpl. auto.
Qed.

(** * Routing *)

Definition no_slash (s : string) : bool := string_forallb (λ c, negb (Ascii.eqb c slash)) s.

(** A piece that cleaning keeps. *)
Definition plain (p : string) : bool :=
  no_slash p && negb (String.eqb p "") && negb (String.eqb p ".") && negb (String.eqb p "..").

Lemma Split_one p : no_slash p = true → Split slash p = [p].
Proof.
  induction p as [|c p IH]; [done|]. unfold no_slash; simpl; rewrite andb_true_iff, negb_true_iff.
  intros [-> Hp]. by rewrite IH.
Qed.

Lemma Split_piece p r : no_slash p = true → Split slash (p +:+ String slash r) = p :: Split slash r.
Proof.
  induction p as [|c p IH]; [done|]. unfold no_slash; simpl; rewrite andb_true_iff, negb_true_iff.
  intros [-> Hp]. by rewrite IH.
Qed.

Lemma Split_concat ps :
  ps ≠ [] → Forall (λ p, no_slash p = true) ps → Split slash (String.concat "/" ps) = ps.
Proof.
  intros Hne Hps. induction Hps as [|p ps Hp _ IH]; [done|]. destruct ps as [|q ps].
  - by apply Split_one.
  - change (String.concat "/" (p :: q :: ps)) with (p +:+ String slash (String.concat "/" (q :: ps))).
    rewrite Split_piece by done. by rewrite IH.
Qed.

Lemma Split_slash_end s : ∃ p l, Split slash (s +:+ "/") = p :: l ++ [""].
Proof.
  induction s as [|c s (p & l & IH)]; [by exists "", []|]. simpl. rewrite IH.
  destruct (Ascii.eqb c slash); [by exists "", (p :: l)|by exists (String c p), l].
Qed.

Lemma clean_plain kept ps :
  Forall (λ p, plain p = true) ps → clean_pieces kept ps = reverse kept ++ ps.
Proof.
  intros Hps. revert kept. induction Hps as [|p ps Hp _ IH]; intros kept; simpl; [by rewrite app_nil_r|].
  unfold plain in Hp. rewrite !andb_true_iff, !negb_true_iff in Hp. destruct Hp as [[[_ ->] ->] ->].
  simpl. by rewrite IH, reverse_cons, <-app_assoc.
Qed.

Lemma plain_slash p : plain p = true → no_slash p = true.
Proof. unfold plain. rewrite !andb_true_iff. tauto. Qed.
Lemma plain_last p : plain p = true → p ≠ "".
Proof. by intros H ->. Qed.
#[local] Hint Resolve plain_slash plain_last : core.

Lemma cleanPath_rooted x :
  let np := join (clean_pieces [] (Split slash x)) in
  cleanPath (String slash x) =
    if HasSuffix (String slash x) "/" && negb (String.eqb np "/") then np +:+ "/" else np.
Proof. reflexivity. Qed.

(** A path of plain pieces is left as it is. *)
Lemma cleanPath_join ps :
  ps ≠ [] → Forall (λ p, plain p = true) ps → cleanPath (join ps) = join ps.
Proof.
  intros Hne Hps. change (join ps) with (String slash (String.concat "/" ps)).
  assert (Split slash (String.concat "/" ps) = ps) as E
    by (apply Split_concat; [done|]; eapply Forall_impl; eauto).
  rewrite cleanPath_rooted, E, clean_plain by done.
  destruct (HasSuffix _ "/") eqn:Hs; [|done]. exfalso.
  apply HasSuffix_spec in Hs. destruct (TrimSuffix _ _) as [|c s]; [|injection Hs as _ Hs].
  - simpl in Hs. injection Hs as Hs. rewrite Hs in E. simpl in E. subst ps.
    by apply Forall_inv in Hps.
  - rewrite Hs in E. destruct (Split_slash_end s) as (p & l & E2). rewrite E2 in E. subst ps.
    by apply Forall_inv_tail, Forall_app in Hps as [_ Hps%Forall_inv].
Qed.

Lemma segments_plain ps :
  Forall (λ p, plain p = true) ps → segments ps = map pathUnescape ps.
Proof.
  induction 1 as [|p ps Hp Hps IH]; [done|]. simpl. rewrite IH. destruct ps; [|done].
  destruct (String.eqb_spec p ""); [by subst|done].
Qed.

Lemma path_segments_join ps :
  ps ≠ [] → Forall (λ p, plain p = true) ps → path_segments (join ps) = map pathUnescape ps.
Proof.
  intros Hne Hps. change (path_segments (join ps)) with (segments (Split slash (String.concat "/" ps))).
  rewrite Split_concat; [by apply segments_plain|done|]. eapply Forall_impl; eauto.
Qed.

(** ** Percent-encoding *)

Lemma PathUnescape_char c s : c ≠ "%"%char → PathUnescape (String c s) = String c <$> PathUnescape s.
Proof. destruct c as [[] [] [] [] [] [] [] []]; intros Hc; try reflexivity; by destruct Hc. Qed.

Lemma unreserved_char c : unreserved c = true → c ≠ "%"%char ∧ Ascii.eqb c slash = false.
Proof.
  intros H. split; [by intros ->|]. destruct (Ascii.eqb_spec c slash); [by subst|done].
Qed.

Lemma escape_hex c : unreserved c = false →
  let hi := hex_upper (Ascii.N_of_ascii c / 16) in let lo := hex_upper (Ascii.N_of_ascii c mod 16) in
  Ascii.eqb hi slash = false ∧ Ascii.eqb lo slash = false ∧
  ∃ x y, unhex hi = Some x ∧ unhex lo = Some y ∧ Ascii.ascii_of_N (16 * x + y) = c.
Proof.
  destruct c as [[] [] [] [] [] [] [] []]; vm_compute; try done; intros _;
    (split_and!; [done..|]); eexists _, _; (split_and!; [reflexivity..|done]).
Qed.

Lemma PathUnescape_PathEscape s : PathUnescape (PathEscape s) = Some s.
Proof.
  induction s as [|c s IH]; [done|]. cbn [PathEscape]. destruct (unreserved c) eqn:E.
  - destruct (unreserved_char c E) as [Hc _]. by rewrite PathUnescape_char, IH.
  - destruct (escape_hex c E) as (_ & _ & x & y & Hx & Hy & <-).
    cbn [PathUnescape]. rewrite Hx, Hy. cbn. by rewrite IH.
Qed.

Lemma no_slash_PathEscape s : no_slash (PathEscape s) = true.
Proof.
  unfold no_slash. induction s as [|c s IH]; [done|]. cbn [PathEscape].
  destruct (unreserved c) eqn:E; cbn [string_forallb].
  - destruct (unreserved_char c E) as [_ ->]. by rewrite IH.
  - destruct (escape_hex c E) as (-> & -> & _). by rewrite IH.
Qed.

Lemma pathUnescape_PathEscape s : pathUnescape (PathEscape s) = s.
Proof. unfold pathUnescape. by rewrite PathUnescape_PathEscape. Qed.

Lemma plain_PathEscape s : s ∉ ["."; ".."; ""] → plain (PathEscape s) = true.
Proof.
  intros Hs. unfold plain. rewrite no_slash_PathEscape. simpl.
  assert (∀ t u, u ∈ ["."; ".."; ""] → PathUnescape t = Some u → String.eqb (PathEscape s) t = false)
    as Hne.
  { intros t u Hu Ht. apply String.eqb_neq. intros <-. rewrite PathUnescape_PathEscape in Ht.
    injection Ht as ->. done. }
  rewrite (Hne "" ""), (Hne "." "."), (Hne ".." ".."); [done|..]; try reflexivity; set_solver.
Qed.

(** ** Matching *)

(** The literals of a pattern are pieces that neither cleaning nor decoding changes. *)
Definition literal_ok (s : segment) : bool :=
  match s with
  | Literal t => plain t && String.eqb (pathUnescape t) t
  | Wildcard _ => true
  end.

Lemma match_url segs id :
  forallb literal_ok segs = true → id ≠ "/" →
  match_segments segs (map pathUnescape (map (segment_path id) segs)) = Some (path_values segs id).
Proof.
  intros Hok Hid. induction segs as [|[t|n] segs IH]; [done| |]; simpl in *.
  - rewrite !andb_true_iff, String.eqb_eq in Hok. destruct Hok as [[_ E] Hok].
    rewrite E, String.eqb_refl. by apply IH.
  - rewrite pathUnescape_PathEscape. apply String.eqb_neq in Hid as ->. by rewrite IH.
Qed.

(** Two patterns that some path could match. *)
Fixpoint overlap (p q : list segment) : bool :=
  match p, q with
  | [], [] => true
  | Literal t :: p, Literal u :: q => String.eqb t u && overlap p q
  | _ :: p, _ :: q => overlap p q
  | _, _ => false
  end.

Lemma match_overlap p q path vs us :
  match_segments p path = Some vs → match_segments q path = Some us → overlap p q = true.
Proof.
  revert q path vs us. induction p as [|s p IH]; intros q path vs us Hp Hq; destruct path as [|x path].
  - by destruct q as [|[]].
  - done.
  - by destruct s.
  - assert (∃ vs, match_segments p path = Some vs) as [vs' Hp'].
    { destruct s; simpl in Hp; [destruct (String.eqb _ _); eauto; done|].
      destruct (String.eqb x "/"), (match_segments p path); eauto; done. }
    destruct q as [|u q]; [done|].
    assert (∃ us, match_segments q path = Some us) as [us' Hq'].
    { destruct u; simpl in Hq; [destruct (String.eqb _ _); eauto; done|].
      destruct (String.eqb x "/"), (match_segments q path); eauto; done. }
    specialize (IH _ _ _ _ Hp' Hq'). destruct s as [t|n], u as [t'|n']; simpl in *; try done.
    destruct (String.eqb_spec t x), (String.eqb_spec t' x); try done. subst. by rewrite String.eqb_refl.
Qed.

Definition conflict (a b : string) : bool :=
  let '(m, p) := parsePattern a in
  let '(m', q) := parsePattern b in
  String.eqb m m' && overlap p q.

(** ** Tables *)

(** A method that some pattern may have, and pieces that stay as they are. *)
Definition route_ok (a : string) : bool :=
  let '(m, segs) := parsePattern a in
  bool_decide (m ∈ ["DELETE"; "GET"; "POST"]) && negb (bool_decide (length segs = 0%nat)) &&
  forallb literal_ok segs.

(** No two patterns match the same request: registering them does not panic, and
    their order does not matter. *)
Fixpoint table_ok (rs : list string) : bool :=
  match rs with
  | [] => true
  | a :: rs => route_ok a && forallb (λ b, negb (conflict a b)) rs && table_ok rs
  end.

Lemma overlap_sym p q : overlap p q = overlap q p.
Proof.
  revert q. induction p as [|[t|n] p IH]; intros [|[u|n'] q]; simpl; try done.
  by rewrite IH, String.eqb_sym.
Qed.
Lemma conflict_sym a b : conflict a b = conflict b a.
Proof.
  unfold conflict. destruct (parsePattern a), (parsePattern b). by rewrite overlap_sym, String.eqb_sym.
Qed.

Lemma table_route_ok rs i a : table_ok rs = true → rs !! i = Some a → route_ok a = true.
Proof.
  revert i. induction rs as [|b rs IH]; [done|]. simpl. intros [|i] H Hi; rewrite !andb_true_iff in H.
  - injection Hi as <-. tauto.
  - eapply IH; [tauto|done].
Qed.

Lemma table_no_conflict rs i j a b :
  table_ok rs = true → rs !! i = Some a → rs !! j = Some b → conflict a b = true → i = j.
Proof.
  revert i j. induction rs as [|c rs IH]; [done|]. simpl. intros i j H Hi Hj Hc.
  rewrite !andb_true_iff, forallb_forall in H. destruct H as [[_ H] Hok].
  assert (∀ k d, rs !! k = Some d → conflict c d = false) as Hno.
  { intros k d Hk%list_elem_of_lookup_2%list_elem_of_In. by apply negb_true_iff, H. }
  destruct i as [|i], j as [|j]; simpl in *; [done| | |].
  - injection Hi as ->. apply Hno in Hj. congruence.
  - injection Hj as ->. apply Hno in Hi. rewrite conflict_sym in Hc. congruence.
  - f_equal. by apply IH.
Qed.

Section routes.
Context {T : Type} (rs : list (string * T)) (Hrs : table_ok rs.*1 = true).

Lemma one_route method path i j a b :
  rs !! i = Some a → rs !! j = Some b →
  is_Some (matches method path a.1) → is_Some (matches method path b.1) → i = j.
Proof using Hrs.
  intros Ha Hb [vs Hvs] [us Hus].
  apply (table_no_conflict _ i j a.1 b.1 Hrs); [by rewrite list_lookup_fmap, Ha|by rewrite list_lookup_fmap, Hb|].
  unfold matches, conflict in *.
  destruct (parsePattern a.1) as [m p], (parsePattern b.1) as [m' q].
  destruct (String.eqb_spec m method), (String.eqb_spec m' method); try done. subst.
  rewrite String.eqb_refl. by eapply match_overlap.
Qed.

Lemma find_route_unique (l : list (string * T)) method path i a vs :
  l !! i = Some a → matches method path a.1 = Some vs →
  (∀ j b, l !! j = Some b → is_Some (matches method path b.1) → i = j) →
  find_route l method path = Some (a.2, vs).
Proof.
  revert i. induction l as [|[p t] l IH]; intros i Hi Hm Hone; [done|]. simpl.
  destruct (matches method path p) as [us|] eqn:Hp.
  - specialize (Hone 0%nat (p, t) eq_refl ltac:(eauto)). subst i.
    simplify_eq/=. congruence.
  - destruct i as [|i]; [by simplify_eq/=|].
    apply (IH i); [done..|]. intros j b Hb Hbm. by specialize (Hone (S j) b Hb Hbm) as [= ->].
Qed.

(** A path made from a pattern leads to its target, with the identifier. *)
Lemma dispatch_reaches i p t id :
  rs !! i = Some (p, t) → id ∉ [""; "."; ".."; "/"] →
  dispatch rs (parsePattern p).1 (url_of p id) = RoutedTo t (path_values (parsePattern p).2 id).
Proof using Hrs.
  intros Hi Hid. assert (route_ok p = true) as Hok.
  { eapply table_route_ok; [exact Hrs|]. by rewrite list_lookup_fmap, Hi. }
  unfold route_ok in Hok. unfold url_of. destruct (parsePattern p) as [m segs] eqn:Ep. simpl.
  rewrite !andb_true_iff, negb_true_iff, bool_decide_eq_true, bool_decide_eq_false in Hok.
  destruct Hok as [[Hm Hne] Hok]. set (ps := map (segment_path id) segs).
  assert (ps ≠ []) as Hps by (subst ps; by destruct segs).
  assert (Forall (λ q, plain q = true) ps) as Hplain.
  { subst ps. apply Forall_forall. intros q. rewrite list_elem_of_In, in_map_iff.
    intros (s & <- & Hs). rewrite forallb_forall in Hok. specialize (Hok s Hs).
    destruct s; simpl in *; [by apply andb_true_iff in Hok as [? _]|].
    apply plain_PathEscape. set_solver. }
  assert (matches m (join ps) p = Some (path_values segs id)) as Hmatch.
  { unfold matches. rewrite Ep, String.eqb_refl, path_segments_join by done.
    apply match_url; [done|set_solver]. }
  unfold dispatch. rewrite (cleanPath_join ps) by done.
  assert (String.eqb (join ps) "*" = false) as -> by reflexivity.
  assert (String.eqb m "CONNECT" = false) as -> by (apply String.eqb_neq; intros ->; set_solver).
  rewrite String.eqb_refl. unfold match_route.
  rewrite (find_route_unique rs m (join ps) i (p, t) _ Hi Hmatch); [done|].
  intros j b Hb Hbm. by eapply one_route.
Qed.
End routes.

Lemma routes_ok debug : table_ok (routes debug).*1 = true.
Proof. by destruct debug; vm_compute. Qed.

Lemma routes_method debug i p t : routes debug !! i = Some (p, t) → (parsePattern p).1 ≠ "HEAD".
Proof.
  intros Hi. assert (route_ok p = true) as Hok.
  { eapply table_route_ok; [apply (routes_ok debug)|]. by rewrite list_lookup_fmap, Hi. }
  unfold route_ok in Hok. destruct (parsePattern p) as [m segs]. simpl. by intros ->.
Qed.

(** The identifier of an account is its own percent-encoding. *)
Lemma PathEscape_account id : accountIDRe id = true → PathEscape id = id ∧ id ∉ [""; "."; ".."; "/"].
Proof.
  intros H. split; [|intros Hin; repeat (apply elem_of_cons in Hin as [->|Hin]; [done|]); set_solver].
  assert (string_forallb account_id_char id = true) as Hall.
  { destruct id as [|c id]; [done|]. unfold accountIDRe in H. rewrite !andb_true_iff in H.
    destruct H as [[Hc _] H]. simpl. unfold account_id_char at 1. by rewrite Hc. }
  clear H. induction id as [|c id IH]; [done|]. simpl in *. apply andb_true_iff in Hall as [Hc Hall].
  rewrite IH by done. replace (unreserved c) with true; [done|]. symmetry. revert Hc.
  unfold account_id_char, unreserved. simpl. rewrite !orb_true_iff. tauto.
Qed.

(** A request that is routed to an endpoint is served by it. *)
Lemma ServeHTTP_routed `{Ext} `{NetHttp} cfg path r w e vals :
  dispatch (routes (Enabled (w_fp w))) (Method r) path = RoutedTo (Serves e) vals →
  ServeHTTP cfg path r w = (serve cfg e (set_path_values vals r);; discard_body r) w.
Proof.
  intros Hd. unfold ServeHTTP, serve, mbind, ST_bind, modify, gets. cbn [w_fp set_resp].
  rewrite Hd.
  change (withRecovery (routed_handler (target_handler cfg) (RoutedTo (Serves e) vals)) r)
    with (withRecovery (mux cfg e) (set_path_values vals r)).
  by destruct (withRecovery _ _ _) as [[[]|err|p] w1].
Qed.

Lemma ServeHTTP_serve `{Ext} `{NetHttp} cfg path r w e vals :
  dispatch (routes (Enabled (w_fp w))) (Method r) path = RoutedTo (Serves e) vals → Method r ≠ "HEAD" →
  ServeHTTP cfg path r w = serve cfg e (set_path_values vals r) w.
Proof.
  intros Hd Hm. rewrite (ServeHTTP_routed _ _ _ _ e vals Hd). unfold discard_body.
  apply String.eqb_neq in Hm as ->. unfold mbind, ST_bind.
  by destruct (serve _ _ _ _) as [[[]|err|p] w1].
Qed.

(** The status of a request that no endpoint serves. *)
Definition refusal {T} (d : routed T) : option Z :=
  match d with
  | BadRequestURI => Some 400
  | MovedTo _ => Some 301
  | RoutedTo _ _ => None
  | NotAllowed _ => Some 405
  | Unmatched => Some 404
  end.

Lemma routed_refusal `{Ext} `{NetHttp} {T} (serving : T → handler) d r w s :
  refusal d = Some s → rw_status (w_resp w) = None →
  ∃ resp, routed_handler serving d r w = (Ok tt, set_resp resp w) ∧ rw_status resp = Some s.
Proof.
  intros Hd Hn. destruct w. simpl in Hn.
  destruct d as [|path|t vals|methods|]; try done; injection Hd as <-; simpl;
    unfold redirect, http_error, NotFound, mbind, ST_bind, SetHeader, WriteHeader, Write, on_resp, modify;
    cbn; rewrite ?Hn; cbn;
    try (destruct (String.eqb _ "GET"); cbn; [|destruct (String.eqb _ "HEAD"); cbn]; rewrite ?Hn; cbn);
    (eexists; split; [reflexivity|done]).
Qed.
