(* ===== verification/CacheFacts.v ===== *)
(** What serving a request may put in the response cache: the answer of a
    completed idempotency record. *)
From S2P Require Import Prelude GoStrings GoTime Json Apperr Failpoint Schema SchemaFacts Monad World Storage Idempotency Event Config Cache Outbox LedgerModel Http RateLimit LedgerRepo LedgerService LedgerFacts LedgerEffects Kafka Publisher Replay Reconciliation Handlers Server ApiEffects Webhook Tame HttpFacts Writers Once LedgerInvariant System.
Local Open Scope Z_scope.

(** * Completed records stay *)

Definition answers_kept (d d' : DB) : Prop :=
  ∀ k row, idempotency_records d !! k = Some row → i_state row = CompletedState →
    idempotency_records d' !! k = Some row.

#[export] Instance answers_kept_preorder : PreOrder answers_kept.
Proof. split; [by intros d k row|]. intros d1 d2 d3 H1 H2 k row Hr Hs. eauto. Qed.

Lemma answers_kept_insert d d' k row :
  idempotency_records d !! k = None → idempotency_records d' = <[k := row]> (idempotency_records d) →
  answers_kept d d'.
Proof. intros Hn E k' row' Hr _. rewrite E, lookup_insert_ne; [done|]. intros ->. congruence. Qed.

Lemma answers_kept_same d d' : idempotency_records d' = idempotency_records d → answers_kept d d'.
Proof. intros E k row. by rewrite E. Qed.

Section kept.
Context `{Ext}.

Lemma posted_kept i now txn cid row rows t d d' :
  posted i now txn cid row rows t d d' → answers_kept d d'.
Proof. intros [_ _ Hk Hi]. by eapply answers_kept_insert. Qed.

Lemma action_kept cfg d d' : db_action cfg d d' → answers_kept d d'.
Proof.
  intros [|cmd w|ctx cmd w|ctx cmd w|scope key hash d0 d1 Hm]; [reflexivity|..].
  - destruct (CreateAccount_once cfg cmd w) as [->|(_ & _ & (a & (_ & He) & _))]; [reflexivity|].
    destruct He as (now & Hk & _ & _ & ->). by eapply answers_kept_insert.
  - destruct (Transfer_once cfg ctx cmd w)
      as [->|(_ & _ & _ & txID & a & (t & _ & He) & _)]; [reflexivity|].
    destruct He as (? & ? & ? & ? & ? & ? & ? & ? & _ & _ & _ & Hp & _). by eapply posted_kept.
  - destruct (Reverse_once cfg ctx cmd w)
      as [->|(_ & _ & rid & a & (t & _ & He) & _)]; [reflexivity|].
    destruct He as (? & ? & ? & ? & ? & ? & ? & ? & _ & _ & _ & _ & ? & _ & Hp & _).
    by eapply posted_kept.
  - apply marked_fresh in Hm as Hn. apply marked_row in Hm as (row & _ & _ & _ & _ & E).
    eapply answers_kept_insert; [exact Hn|by rewrite E].
Qed.

Lemma call_kept w w' : call w w' → answers_kept (w_db w) (w_db w').
Proof.
  intros [[cfg Ha]|(_ & Hl & _)]%step_call%step_cases; [by eapply action_kept|].
  apply answers_kept_same. by injection Hl.
Qed.

Lemma answers_persist s k h d d' st b :
  answers_kept d d' → answers s k h d st b → answers s k h d' st b.
Proof. intros Hk (row & Hr & Hs & Hrest). exists row. split; [by apply Hk|done]. Qed.
End kept.

(** * The answers of the commands *)

Section answers.
Context `{Ext} (cfg : Config).

Lemma replayed_answers i res d :
  replayed i res d →
  answers (IdempotencyScope i) (IdempotencyKey i) (IdemRequestHash i) d (ResStatus res) (ResBody res).
Proof. intros (_ & row & Hr & Hs & Hh & Est & Eb). exists row. by split_and!. Qed.

Lemma posted_answers i now txn cid row rows t d d' :
  posted i now txn cid row rows t d d' →
  answers (IdempotencyScope i) (IdempotencyKey i) (IdemRequestHash i) d' 201
    (Some (marshal_Transaction t)).
Proof.
  intros [_ _ _ Hi]. eexists. split; [rewrite Hi; apply lookup_insert_eq|]. by split_and!.
Qed.

(** What a command answers is what its key's record says. *)
Definition records_answer (i : Idem) (command : M Result) : Prop :=
  ∀ w res w', command w = (Ok res, w') →
    answers (IdempotencyScope i) (IdempotencyKey i) (IdemRequestHash i) (w_db w')
      (ResStatus res) (ResBody res).

Lemma Transfer_answers ctx cmd : records_answer (TrIdem cmd) (Transfer cfg ctx cmd).
Proof.
  intros w res w' [[-> Hr]|(_ & txID & t & He & _ & -> & ->)]%Transfer_Ok.
  - by apply replayed_answers.
  - destruct He as (? & ? & ? & ? & ? & ? & ? & ? & _ & _ & _ & Hp & _). by eapply posted_answers.
Qed.

Lemma Reverse_answers ctx cmd : records_answer (RvIdem cmd) (Reverse cfg ctx cmd).
Proof.
  intros w res w' [[-> Hr]|(rid & t & He & _ & -> & ->)]%Reverse_Ok.
  - by apply replayed_answers.
  - destruct He as (? & ? & ? & ? & ? & ? & ? & ? & _ & _ & _ & _ & ? & _ & Hp & _).
    by eapply posted_answers.
Qed.

Lemma executeCreateAccount_answers cmd w res w' :
  executeCreateAccount cmd w = (Ok res, w') →
  idempotency_records (w_db w) !! idem_key (CaIdem cmd) =
    Some (claimed_row (IdemRequestHash (CaIdem cmd)) (w_txnow w)) →
  answers (IdempotencyScope (CaIdem cmd)) (IdempotencyKey (CaIdem cmd)) (IdemRequestHash (CaIdem cmd))
    (w_db w') (ResStatus res) (ResBody res).
Proof.
  unfold executeCreateAccount. intros (acct & w1 & E1 & Hr)%bind_Ok Hrow.
  apply map_err_Ok, sql_Ok in E1 as (d1 & E1 & ->).
  unfold sql_insert_account in E1. simpl in E1. unfold insert_account in E1. pg_inv. simplify_eq.
  apply bind_Ok in Hr as ([] & w2 & E2 & Hr). apply map_err_Ok, sql_Ok in E2 as (d2 & E2 & ->).
  unfold sql_insert_balance in E2. simpl in E2. unfold insert_balance in E2. pg_inv. simplify_eq.
  apply bind_Ok in Hr as ([] & w3 & E3 & Hr). apply ret_Ok in Hr as [<- <-].
  apply (Complete_Ok _ _ _ _ _ _ (IdemRequestHash (CaIdem cmd))) in E3 as (c & [= <-] & _ & Hd).
  - eexists. rewrite Hd. simpl. rewrite lookup_insert_eq. by split_and!.
  - simpl. exact Hrow.
Qed.

#[local] Instance any_preorder : PreOrder (λ _ _ : DB, True).
Proof. by split. Qed.

Lemma CreateAccount_answers cmd : records_answer (CaIdem cmd) (CreateAccount cfg cmd).
Proof.
  intros w res w' E. unfold CreateAccount in E. destruct (ValidateCreateAccount cmd); [ok_inv|].
  apply bind_Ok in E as (o & w1 & E1 & E).
  destruct (InTx_result_Ok (λ _ _, True) _ (λ _ _ _ _ _, I) _ _ _ _ E1)
    as (a & w2 & w3 & -> & _ & Em & _ & _ & _ & Ed).
  apply ret_Ok in E as [<- <-]. rewrite Ed.
  apply claim_or_replay_Ok in Em as [(-> & Hr)|(_ & w4 & Ht & Hd & Hex)]; [by apply replayed_answers|].
  eapply executeCreateAccount_answers; [exact Hex|]. rewrite Hd, Ht. simpl. by rewrite lookup_insert_eq.
Qed.
End answers.

(** * What the cache says is true *)

(** The entry repeats the answer of a completed record. *)
Definition repeats (s k : string) (c : CachedResponse) (d : DB) : Prop :=
  ∃ b, answers s k (CrRequestHash c) d (CrStatus c) b ∧ CrBody c = default JNull b.

Lemma repeats_persist s k c d d' : answers_kept d d' → repeats s k c d → repeats s k c d'.
Proof. intros Hk (b & Ha & Hb). exists b. split; [by eapply answers_persist|done]. Qed.

(** Every entry that can be read repeats the record of its key. *)
Definition cache_true (w : World) : Prop :=
  ∀ s k raw c, colon_free s = true → w_redis w !! cacheKey s k = Some raw →
    decode (A:=CachedResponse) raw = Some c → repeats s k c (w_db w).

(** Records stay, and new entries are true. *)
Definition truthful (w w' : World) : Prop :=
  answers_kept (w_db w) (w_db w') ∧
  ∀ s k raw, colon_free s = true → w_redis w' !! cacheKey s k = Some raw →
    w_redis w !! cacheKey s k = Some raw ∨
    ∃ c, raw = encode c ∧ repeats s k c (w_db w').

#[export] Instance truthful_preorder : PreOrder truthful.
Proof.
  split.
  - intros w. split; [reflexivity|]. intros s k raw _ Hr. by left.
  - intros w1 w2 w3 [K1 R1] [K2 R2]. split; [by etrans|]. intros s k raw Hs Hr.
    destruct (R2 s k raw Hs Hr) as [Hr2|?]; [|by right].
    destruct (R1 s k raw Hs Hr2) as [?|(c & -> & Hc)]; [by left|]. right.
    exists c. split; [done|]. by eapply repeats_persist.
Qed.

(** What is stored is read back, or not readable. *)
Lemma decode_encode_cached (c c' : CachedResponse) : decode (encode c) = Some c' → c' = c.
Proof.
  destruct c as [st b h t]. simpl. unfold marshal_CachedResponse, omit_str. simpl.
  destruct (String.eqb_spec t "") as [->|]; cbv -[in_int64]; destruct (in_int64 st);
    intros [= <-]; done.
Qed.

Lemma truthful_cache w w' : truthful w w' → cache_true w → cache_true w'.
Proof.
  intros [Hk Hr] Hw s k raw c Hs Hraw Hc. destruct (Hr s k raw Hs Hraw) as [Hold|(c' & -> & Hc')].
  - eapply repeats_persist; [exact Hk|by eapply Hw].
  - by apply decode_encode_cached in Hc as ->.
Qed.

Lemma truthful_secluded w w' : answers_kept (w_db w) (w_db w') → w_redis w' = w_redis w → truthful w w'.
Proof. intros Hk Hr. split; [done|]. intros s k raw _ H. left. by rewrite <-Hr. Qed.

(** * Serving requests *)

Section serving.
Context `{Ext} (cfg : Config).

#[export] Instance truthful_still {A} (m : M A) :
  Respects (keeps id) m → Respects keeps_redis m → Respects truthful m.
Proof.
  intros Hd Hr w. apply truthful_secluded; [|apply Hr].
  specialize (Hd w). unfold keeps in Hd. simpl in Hd. by rewrite Hd.
Qed.

(** The limiter's counters are not cache entries. *)
Lemma rate_key_not_cached l key now s k : rate_key l key now ≠ cacheKey s k.
Proof. done. Qed.

#[export] Instance truthful_redis_incr l key now : Respects truthful (redis_incr (rate_key l key now)).
Proof.
  assert (∀ v, Respects truthful (redis_set (rate_key l key now) v)) as Hset.
  { intros v w. split; [reflexivity|]. intros s k raw _. simpl.
    rewrite lookup_insert_ne by apply rate_key_not_cached. by left. }
  unfold redis_incr. respects_tac.
Qed.
#[export] Instance truthful_Allow l key : Respects truthful (Allow l key).
Proof. unfold Allow, redis_op. respects_tac. Qed.

(** Only an answer the database holds is stored. *)
Lemma truthful_redis_set s k c w :
  colon_free s = true → repeats s k c (w_db w) →
  truthful w (redis_set (cacheKey s k) (encode c) w).2.
Proof.
  intros Hs Hc. split; [reflexivity|]. intros s' k' raw Hs' Hr. simpl in Hr.
  destruct (decide (cacheKey s k = cacheKey s' k')) as [E|Hne].
  - destruct (cacheKey_inj _ _ _ _ Hs Hs' E) as [<- <-]. rewrite lookup_insert_eq in Hr.
    injection Hr as <-. right. by exists c.
  - rewrite lookup_insert_ne in Hr by done. by left.
Qed.

Lemma truthful_Put s k c w :
  colon_free s = true → repeats s k c (w_db w) → truthful w (Put cfg s k c w).2.
Proof.
  intros Hs Hc. unfold Put. destruct (negb _); [done|].
  apply (respects_bind_at truthful); [by apply (respects (R:=truthful))|]. intros n w1 [= <- <-].
  assert (repeats s k c (w_db (set_tick (S (w_tick w)) w))) as Hc1 by done.
  pose proof (truthful_redis_set s k c _ Hs Hc1) as Hset. unfold redis_op.
  destruct (redis_fault _) as [[[] e]|];
    (apply (respects_bind_at truthful); [first [exact Hset|reflexivity]|intros; apply (respects (R:=truthful))]).
Qed.

#[export] Instance truthful_or_error {A} r (m : M A) k :
  Respects truthful m → (∀ a, Respects truthful (k a)) → Respects truthful (or_error r m k).
Proof. apply respects_or_error; apply _. Qed.
#[export] Instance truthful_or_refuse {A} r (res : Error + A) k :
  (∀ a, Respects truthful (k a)) → Respects truthful (or_refuse r res k).
Proof. apply respects_or_refuse; apply _. Qed.

Lemma truthful_or_error_at {A} r (m : M A) k w :
  truthful w (m w).2 → (∀ a w1, m w = (Ok a, w1) → truthful w1 (k a w1).2) →
  truthful w (or_error r m k w).2.
Proof.
  intros Hm Hk. unfold or_error. apply (respects_bind_at truthful); [by rewrite try_state|].
  intros [e|a] w1 E; [apply (respects (R:=truthful))|]. apply Hk. by apply try_Ok_inr in E.
Qed.

Lemma truthful_command {A} (m : M A) w :
  db_action cfg (w_db w) (w_db (m w).2) → w_redis (m w).2 = w_redis w → truthful w (m w).2.
Proof. intros Ha Hr. apply truthful_secluded; [by eapply action_kept|done]. Qed.

Lemma truthful_run_command r i command :
  colon_free (IdempotencyScope i) = true → records_answer i command →
  (∀ w, db_action cfg (w_db w) (w_db (command w).2)) → Respects secluded command →
  Respects truthful (run_command cfg r (IdempotencyScope i) (IdempotencyKey i) (IdemRequestHash i) command).
Proof.
  intros Hs Hans Hact Hsec. unfold run_command. apply respects_bind; [apply _..|].
  intros []; [apply _|]. intros w. apply truthful_or_error_at.
  - apply truthful_command; [apply Hact|apply Hsec].
  - intros res w1 E%Hans. unfold finishIdempotent.
    apply (respects_bind_at truthful); [|intros; respects_here].
    apply truthful_Put; [done|]. by exists (ResBody res).
Qed.

#[export] Instance truthful_handleTransfer r : Respects truthful (handleTransfer cfg r).
Proof.
  unfold handleTransfer. apply truthful_or_refuse; intros key. apply truthful_or_refuse; intros req.
  apply (truthful_run_command r (TrIdem (transfer_command key _ req)));
    [done|apply Transfer_answers|intros; apply act_transfer|apply _].
Qed.
#[export] Instance truthful_handleReverse r : Respects truthful (handleReverse cfg r).
Proof.
  unfold handleReverse. apply truthful_or_refuse; intros key. apply truthful_or_refuse; intros req.
  apply (truthful_run_command r (RvIdem (reverse_command key _ (mkReverseRequest req (PathValue r "id")))));
    [done|apply Reverse_answers|intros; apply act_reverse|apply _].
Qed.
#[export] Instance truthful_handleCreateAccount r : Respects truthful (handleCreateAccount cfg r).
Proof.
  unfold handleCreateAccount. apply truthful_or_refuse; intros key.
  apply truthful_or_refuse; intros req.
  apply (truthful_run_command r (CaIdem (create_command key _ (with_kind req))));
    [done|apply CreateAccount_answers|intros; apply act_create|apply _].
Qed.

#[export] Instance truthful_handleReplay r : Respects truthful (handleReplay cfg r).
Proof.
  rewrite handleReplay_eq. apply truthful_or_refuse; intros key. apply truthful_or_refuse; intros req.
  destruct (ValidateReplay req); [apply _|]. apply respects_bind; [apply _..|].
  intros []; [apply _|]. set (hash := HashRequest _ _). set (work := replay_work _).
  assert (Respects keeps_redis work) by (unfold work, replay_work; respects_tac).
  intros w. destruct (runExternalIdempotent cfg scopeReplay key hash work w) as [o w'] eqn:E.
  pose proof (runExternalIdempotent_effect cfg scopeReplay key hash work ltac:(apply _) w o w' E)
    as [Hd Hans].
  apply truthful_or_error_at.
  - apply truthful_command; [|by apply (respects (R:=keeps_redis))].
    rewrite E. destruct Hd as [Hd|Hm]; simpl; [rewrite Hd; constructor|by eapply act_mark].
  - intros [status b] w1 E1. rewrite E1 in E. injection E as <- <-.
    apply (respects_bind_at truthful); [|intros; respects_here].
    apply truthful_Put; [done|]. exists b. split; [by apply Hans|done].
Qed.

#[export] Instance truthful_set_fp f : Respects truthful (modify (λ w, set_fp (f w) w)).
Proof. apply respects_modify. intros w. by apply truthful_secluded. Qed.

Lemma serve_truthful e r w : truthful w (serve cfg e r w).2.
Proof.
  assert (Respects truthful (modify (set_resp new_response))) by (intros w0; by apply truthful_secluded).
  assert (Respects truthful (withRecovery (mux cfg e) r)) as Hm; [|unfold serve; respects_here].
  apply respects_withRecovery; try apply _. apply respects_mux; try apply _; intros r1.
  unfold handleArmFailpoint. apply truthful_or_refuse. intros req.
  apply respects_bind; [apply _| |].
  - intros w1. unfold Arm_failpoint. destruct (Arm _ _ _). by apply truthful_secluded.
  - intros []; [apply _|]. unfold write_active. respects_tac.
Qed.
End serving.
