(* ===== verification/HttpRuns.v ===== *)
(** Serving a retry forward: what a request finds and answers when its key has a
    completed record, whatever Redis holds. *)
From S2P Require Import Prelude GoStrings GoTime Json Apperr Failpoint Schema SchemaFacts Monad World Storage Idempotency Event Config Cache Outbox LedgerModel Http RateLimit LedgerRepo LedgerService LedgerFacts LedgerEffects Kafka Publisher Replay Reconciliation Handlers Server ApiEffects Webhook Tame HttpFacts Writers Once LedgerInvariant System CacheFacts Runs LedgerProgress.
Local Open Scope Z_scope.

(** * A completed record is replayed *)

Lemma at_most_one_reversal db c : wf db → (length (reversals_of (ledger_transactions db) c) ≤ 1)%nat.
Proof.
  intros Hwf. unfold reversals_of. rewrite length_fmap.
  set (f := filter _ (ledger_transactions db)).
  assert (∀ p q, p ∈ map_to_list f → q ∈ map_to_list f → p = q) as Heq.
  { intros [i t] [j u]. rewrite !elem_of_map_to_list.
    intros [Hi Ti]%map_lookup_filter_Some [Hj Tj]%map_lookup_filter_Some. simpl in *.
    assert (i = j) as -> by (by eapply wf_one_reversal). congruence. }
  pose proof (NoDup_map_to_list f) as Hnd. destruct (map_to_list f) as [|p [|q l]]; simpl; [lia..|].
  exfalso. apply NoDup_cons in Hnd as [Hn _]. apply Hn. rewrite (Heq p q); set_solver.
Qed.

Section replays.
Context `{Ext, !UuidLaw} (Hcalm : calm).

(** The key's record, and the response it holds. *)
Definition completed (i : Idem) (row : idem_row) (d : DB) : Prop :=
  idempotency_records d !! idem_key i = Some row ∧ i_state row = CompletedState ∧
  i_request_hash row = IdemRequestHash i.

Definition repeats_row (row : idem_row) (res : Result) : Prop :=
  Replayed res = true ∧ ResStatus res = default 0 (i_response_status row) ∧
  ResBody res = i_response_body row.

(** The transaction a record names can be loaded. *)
Lemma runs_load_recorded w id t :
  ledger_inv (w_db w) → ledger_transactions (w_db w) !! id = Some t →
  ∃ txn, ∀ w', w_db w' = w_db w → runs (loadTransaction id) w' txn (w_db w) 0.
Proof.
  intros Hinv Ht. destruct (li_event _ Hinv id t Ht) as (ev & o & _ & Hu%uuid_canonical & _).
  destruct (runs_loadTransaction Hcalm id id t w Hu Ht) as (txn & _ & Hrun); [|by exists txn].
  apply at_most_one_reversal. apply written_safe, Hinv.
Qed.

Lemma runs_replay i row work w :
  ledger_inv (w_db w) → completed i row (w_db w) →
  wp (claim_or_replay i work) w (λ res w',
    repeats_row row res ∧ w_db w' = w_db w ∧ w_fp w' = w_fp w).
Proof.
  intros Hinv (Hrow & Hst & Hh). unfold claim_or_replay. apply wp_bind.
  eapply wp_runs; [by apply runs_LockKey|]. intros w1 (D1 & _ & P1 & _). apply wp_bind.
  unfold Claim. apply wp_bind. unfold idem_key in Hrow.
  eapply wp_runs; [apply runs_map_err, runs_sql; [done|unfold sql_claim; by rewrite D1, Hrow]|].
  intros w2 (D2 & _ & P2 & _). simpl. apply wp_bind. unfold Fetch. apply wp_bind.
  eapply wp_runs; [by apply runs_map_err, runs_query|]. intros w3 (D3 & _ & P3 & _).
  rewrite D2, Hrow. apply wp_ret, wp_ret. unfold replayResult. simpl.
  rewrite Hh, String.eqb_refl, Hst. simpl. destruct (i_transaction_id row) as [tid|] eqn:Et.
  - pose proof (wf_idem _ (proj1 (written_safe _ (li_written _ Hinv))) _ _ Hrow) as Hchk.
    apply check_idem_ok in Hchk as [_ Hfk]. rewrite Et in Hfk. simpl in Hfk.
    apply exists_in_true in Hfk as [t Ht].
    destruct (runs_load_recorded w tid t Hinv Ht) as (txn & Hload). apply wp_bind.
    eapply wp_runs; [apply Hload; congruence|]. intros w4 (D4 & _ & P4 & _). apply wp_ret.
    split; [by split_and!|]. split; congruence.
  - apply wp_ret. split; [by split_and!|]. split; congruence.
Qed.
End replays.

(** A transaction that replays commits and changes nothing. *)
Lemma wp_InTx_replay `{Ext} (Hcalm : calm) (m : M Result) n row w :
  0 < n →
  (∀ w1, w_db w1 = w_db w → w_fp w1 = w_fp w →
     wp m w1 (λ res w2, repeats_row row res ∧ w_db w2 = w_db w1 ∧ w_fp w2 = w_fp w1)) →
  ∃ res w', InTx_result n m w = (Ok (Some res), w') ∧ repeats_row row res ∧
    w_db w' = w_db w ∧ w_fp w' = w_fp w.
Proof.
  intros Hn Hm. set (Q := λ (res : Result) w2, repeats_row row res ∧ w_db w2 = w_db w ∧ w_fp w2 = w_fp w).
  destruct (wp_InTx_result Hcalm n m w Q Hn) as (res & w2 & w' & E & (Hr & D2 & P2) & D & P).
  - destruct (Hm (set_txnow (w_clock w) (set_locks [] (set_tick (S (w_tick w)) w))) eq_refl eq_refl)
      as (res & w2 & E & Hr & D & P).
    exists res, w2. split; [exact E|]. split; [|by split].
    unfold commit_check. rewrite D. simpl. by rewrite drop_all.
  - exists res, w'. split_and!; [done|done|congruence..].
Qed.

Section commands.
Context `{Ext, !UuidLaw} (Hcalm : calm) (cfg : Config) (Hn : 0 < DBMaxTxRetries cfg).

Lemma wp_Transfer_replay ctx cmd row w :
  Enabled (w_fp w) = false → ValidateTransfer cmd = None → ledger_inv (w_db w) →
  completed (TrIdem cmd) row (w_db w) →
  wp (Transfer cfg ctx cmd) w (λ res w', repeats_row row res ∧ w_db w' = w_db w).
Proof using All.
  intros Hfp Hv Hinv Hrow. unfold Transfer. rewrite Hv. apply wp_bind.
  eapply wp_runs; [by apply runs_EvalFailpoint|]. intros w1 (D1 & _ & P1 & _).
  apply wp_bind. eapply wp_runs; [apply runs_NewString|]. intros w2 (D2 & _ & P2 & _).
  destruct (wp_InTx_replay Hcalm (transfer_closure cfg (WithTransactionID ctx (NewString_nth (w_uuid w1)))
              (NewString_nth (w_uuid w1)) cmd) (DBMaxTxRetries cfg) row w2 Hn) as (res & w3 & E & Hr & D3 & P3).
  { intros w3 D3 P3. apply runs_replay; [done|rewrite D3, D2, D1; done..]. }
  apply wp_bind. exists (inr (Some res)), w3. split; [unfold try; by rewrite E|].
  apply wp_bind, wp_ret. rewrite (proj1 Hr).
  apply wp_bind. eapply wp_runs; [apply runs_Inc|]. intros w4 (D4 & _). apply wp_ret.
  split; [done|congruence].
Qed.
End commands.

(** * The HTTP layer *)

(** What the steps before the handler's own leave alone. *)
Definition ready (w w' : World) : Prop :=
  w_db w' = w_db w ∧ w_fp w' = w_fp w ∧ w_redis w' = w_redis w ∧
  rw_status (w_resp w') = rw_status (w_resp w) ∧ rw_body (w_resp w') = rw_body (w_resp w) ∧
  w_kafka w' = w_kafka w.

#[export] Instance ready_preorder : PreOrder ready.
Proof. split; [done|]. intros ??? (?&?&?&?&?&?) (?&?&?&?&?&?). split_and!; congruence. Qed.

Definition quiet `{Ext} {A} (m : M A) : Prop := ∀ w, ∃ a w', m w = (Ok a, w') ∧ ready w w'.

Section http.
Context `{Ext}.

Lemma quiet_bind {A B} (m : M A) (f : A → M B) w Q :
  quiet m → (∀ a w', ready w w' → wp (f a) w' Q) → wp (m ≫= f) w Q.
Proof. intros Hm Hf. destruct (Hm w) as (a & w1 & E & Hr). apply wp_bind. exists a, w1. auto. Qed.

Lemma quiet_ret {A} (a : A) : quiet (mret a).
Proof. intros w. by exists a, w. Qed.
Lemma quiet_gets {A} (f : World → A) : quiet (gets f).
Proof. intros w. by exists (f w), w. Qed.
Lemma quiet_Inc name labels : quiet (Inc name labels).
Proof. intros w. by eexists _, _. Qed.
Lemma quiet_NewString : quiet NewString.
Proof. intros w. by eexists _, _. Qed.
Lemma quiet_record_code c : quiet (record_code c).
Proof. intros w. eexists _, _. split; [reflexivity|]. by split_and!. Qed.
Lemma quiet_SetHeader k v : quiet (SetHeader k v).
Proof.
  intros w. eexists _, _. split; [done|]. unfold ready. simpl.
  by destruct (rw_status (w_resp w)) eqn:E; simpl; rewrite ?E.
Qed.

(** A hit is an entry of Redis. *)
Lemma CacheGet_cases cfg s k w :
  ∃ o w', Cache.Get cfg s k w = (Ok o, w') ∧ ready w w' ∧
    ∀ c, o = Some c → ∃ raw, w_redis w !! cacheKey s k = Some raw ∧
      decode (A:=CachedResponse) raw = Some c.
Proof.
  unfold Cache.Get. destruct (negb _); [by exists None, w|].
  unfold mbind, ST_bind, next_tick, redis_op, Inc, modify, gets. cbn.
  destruct (redis_fault (w_tick w)); cbn; [by eexists None, _|].
  destruct (w_redis w !! cacheKey s k) as [raw|] eqn:Eraw; cbn; [|by eexists None, _].
  destruct (unmarshal_CachedResponse raw) as [c|] eqn:Ec; cbn; [|by eexists None, _].
  eexists (Some c), _. split_and!; [done..|]. intros ? [= <-]. by exists raw.
Qed.

Lemma Put_runs cfg s k c w :
  ∃ w', Put cfg s k c w = (Ok tt, w') ∧ w_db w' = w_db w ∧ w_resp w' = w_resp w.
Proof.
  unfold Put. destruct (negb _); [by exists w|].
  unfold mbind, ST_bind, next_tick, redis_op, redis_set, Inc, modify. cbn.
  destruct (redis_fault (w_tick w)) as [[[] e]|]; cbn; by eexists.
Qed.

(** The stored answer, marked as a replay. *)
Definition stored_answer (st : Z) (b : json) (rw : ResponseWriter) : Prop :=
  rw_status rw = Some st ∧ rw_body rw = [b] ∧ rw_header rw !! HeaderIdempotentHit = Some "true".

Lemma write_stored_answer st b w :
  status_code st → rw_status (w_resp w) = None → rw_body (w_resp w) = [] →
  wp (SetHeader HeaderIdempotentHit "true";; writeRaw st (Some b)) w
    (λ _ w', w_db w' = w_db w ∧ stored_answer st b (w_resp w')).
Proof.
  intros [Hlo Hhi] Hs Hb. unfold wp, writeRaw, mbind, ST_bind, SetHeader, WriteHeader, Write, on_resp, modify.
  cbn. rewrite Hs. cbn. destruct (Z.ltb_spec st 100); [lia|]. destruct (Z.ltb_spec 999 st); [lia|].
  cbn. eexists tt, _. split; [reflexivity|]. split; [done|]. unfold stored_answer. cbn.
  split_and!; [done|by rewrite Hb|]. by rewrite lookup_insert_ne, lookup_insert_eq.
Qed.
End http.

Section retries.
Context `{Ext} (cfg : Config).

(** The command is asked only when the cache has nothing; both answer with the
    record. *)
Lemma wp_run_command_replay r i row st b command w :
  cache_true w → colon_free (IdempotencyScope i) = true → completed i row (w_db w) →
  i_response_status row = Some st → i_response_body row = Some b → status_code st →
  rw_status (w_resp w) = None → rw_body (w_resp w) = [] → Respects secluded command →
  (∀ w1, w_db w1 = w_db w → w_fp w1 = w_fp w →
     wp command w1 (λ res w', repeats_row row res ∧ w_db w' = w_db w1)) →
  wp (run_command cfg r (IdempotencyScope i) (IdempotencyKey i) (IdemRequestHash i) command) w
    (λ _ w', w_db w' = w_db w ∧ stored_answer st b (w_resp w')).
Proof.
  intros Hcache Hs (Hrow & Hst & Hh) Est Eb Hcode Rs Rb Hsec Hcmd.
  destruct (CacheGet_cases cfg (IdempotencyScope i) (IdempotencyKey i) w)
    as (o & w1 & E1 & (D1 & P1 & _ & S1 & B1 & _) & Ho).
  unfold run_command, replayFromCache. apply wp_bind, wp_bind. exists o, w1. split; [exact E1|].
  destruct o as [c|].
  - destruct (Ho c eq_refl) as (raw & Hraw & Hdec).
    destruct (Hcache _ _ _ _ Hs Hraw Hdec) as (b' & (row' & Hrow' & _ & Hh' & Es' & Eb') & Ecb).
    unfold idem_key in Hrow. rewrite Hrow in Hrow'. injection Hrow' as <-.
    rewrite Est in Es'. rewrite Eb in Eb'. subst b'. simpl in Es', Ecb.
    rewrite <-Hh', Hh, String.eqb_refl. cbn [negb]. eapply quiet_bind; [apply quiet_Inc|].
    intros _ w2 (D2 & _ & _ & S2 & B2 & _).
    destruct (write_stored_answer st b w2 Hcode) as ([] & w3 & E3 & D3 & A3); [congruence..|].
    apply bind_Ok in E3 as ([] & w4 & E4 & E3). apply wp_bind. exists tt, w4. split; [exact E4|].
    apply wp_bind. exists tt, w3. rewrite <-Es', Ecb. split; [exact E3|].
    apply wp_ret, wp_ret. split; [congruence|done].
  - apply wp_ret. cbn. unfold or_error.
    destruct (Hcmd w1 D1 P1) as (res & w2 & E2 & (Hr & Es & Ebr) & D2). pose proof (Hsec w1) as Hw2.
    rewrite E2 in Hw2. destruct Hw2 as (_ & R2 & _). simpl in R2.
    apply wp_bind. exists (inr res), w2. split; [unfold try; by rewrite E2|].
    unfold finishIdempotent. rewrite Hr, Es, Ebr, Est, Eb. cbn [default].
    match goal with |- context [Put cfg ?s ?k ?c] =>
      destruct (Put_runs cfg s k c w2) as (w3 & E3 & D3 & R3) end.
    apply wp_bind. exists tt, w3. split; [exact E3|].
    destruct (write_stored_answer st b w3 Hcode) as ([] & w4 & E4 & D4 & A4);
      [rewrite R3, R2; congruence|rewrite R3, R2; congruence|].
    exists tt, w4. split; [exact E4|]. split; [congruence|done].
Qed.
End retries.

(** * Refusals *)

(** Nothing was changed, and the request was answered with one of [codes]. *)
Definition refused (codes : list Z) (w w' : World) : Prop :=
  w_db w' = w_db w ∧ w_kafka w' = w_kafka w ∧ ∃ s, rw_status (w_resp w') = Some s ∧ s ∈ codes.

Lemma HTTPStatus_is_a_code e : status_code (HTTPStatus e).
Proof. unfold status_code, HTTPStatus. destruct (ErrCode e); lia. Qed.

Section refusals.
Context `{Ext} (cfg : Config).

Lemma wp_refuse r e w0 w codes :
  w_db w = w_db w0 → w_kafka w = w_kafka w0 → rw_status (w_resp w) = None → HTTPStatus e ∈ codes →
  wp (writeError r (EApp e)) w (λ _ w', refused codes w0 w').
Proof.
  intros D K S Hin. destruct (HTTPStatus_is_a_code e) as [Hlo Hhi].
  unfold wp, writeError, writeJSON, mbind, ST_bind, record_code, SetHeader, WriteHeader, Write, on_resp,
    modify. cbn -[HTTPStatus]. rewrite S. cbn -[HTTPStatus].
  destruct (Z.ltb_spec (HTTPStatus e) 100); [lia|]. destruct (Z.ltb_spec 999 (HTTPStatus e)); [lia|].
  eexists tt, _. split; [reflexivity|]. split_and!; [done|done|]. by exists (HTTPStatus e).
Qed.

Lemma Allow_runs l k w :
  ∃ b d w', Allow l k w = (Ok (b, d), w') ∧ w_db w' = w_db w ∧ w_fp w' = w_fp w ∧
    w_kafka w' = w_kafka w ∧ w_resp w' = w_resp w ∧
    ∀ s k', w_redis w' !! cacheKey s k' = w_redis w !! cacheKey s k'.
Proof.
  unfold Allow. destruct l as [l|]; [|by exists true, 0, w].
  assert (∀ now c s k', <[rate_key l k now := JNum c]> (w_redis w) !! cacheKey s k' = w_redis w !! cacheKey s k')
    as Hkey by (intros; by rewrite lookup_insert_ne by apply rate_key_not_cached).
  unfold redis_incr, redis_op, redis_set, mbind, ST_bind, next_tick, Now, gets, Inc, modify.
  cbn -[incr rate_key cacheKey].
  match goal with |- context [incr ?v] => destruct (incr v) as [c|] end;
    destruct (redis_fault (w_tick w)) as [[[] e]|]; cbn -[rate_key cacheKey];
    try (eexists true, 0, _; split; [reflexivity|]; split_and!; (done || (intros; apply Hkey))).
  destruct (rl_limit l <? c); cbn -[rate_key cacheKey]; [eexists false, _, _|eexists true, 0, _];
    (split; [reflexivity|]; split_and!; (done || (intros; apply Hkey))).
Qed.

(** A request that its handler refuses at once: 429 when the limiter says so, 400
    for a bad [X-Failpoint] header. *)
Lemma wp_serve_refused e p h r w codes :
  mux cfg e = route (server_limiter cfg) p h true → 400 ∈ codes → 429 ∈ codes →
  (∀ ctx w1, w_db w1 = w_db w → w_kafka w1 = w_kafka w → rw_status (w_resp w1) = None →
     wp (h (WithContext r ctx)) w1 (λ _ w2, refused codes w w2)) →
  ∃ w', serve cfg e r w = (Ok tt, w') ∧ refused codes w w'.
Proof.
  intros Hmux H400 H429 Hh. set (w0 := set_resp new_response w).
  assert (wp (mux cfg e r) w0 (λ _ w', refused codes w w')) as ([] & w2 & E2 & D2 & K2 & s & S2 & Hs).
  { rewrite Hmux. unfold route, withRequestContext. eapply quiet_bind.
    { destruct (String.eqb _ ""); [apply quiet_NewString|apply quiet_ret]. }
    intros id w1 F1. eapply quiet_bind; [apply quiet_SetHeader|]. intros _ w2 F2.
    eapply quiet_bind; [apply quiet_SetHeader|]. intros _ w3 F3. unfold withObservability.
    eapply quiet_bind; [apply quiet_record_code|]. intros _ w4 F4.
    assert (ready w0 w4) as (D4 & _ & _ & S4 & _ & K4)
      by (etrans; [exact F1|]; etrans; [exact F2|]; by etrans).
    change (w_db w0) with (w_db w) in D4. change (w_kafka w0) with (w_kafka w) in K4.
    assert (∀ ctx w5, w_db w5 = w_db w → w_kafka w5 = w_kafka w → rw_status (w_resp w5) = None →
      wp (withFailpoints h (WithContext r ctx)) w5 (λ _ w', refused codes w w')) as Hinner.
    { intros ctx w5 D5 K5 S5. unfold withFailpoints. apply wp_bind. exists (w_fp w5), w5. split; [done|].
      destruct (_ || _); [by apply Hh|].
      destruct (WithRequestFailpoints _ _) as [err|o]; [|by apply (Hh _ w5)].
      by apply wp_refuse. }
    apply wp_bind.
    match goal with |- wp (withRateLimit _ _ _ (WithContext r ?c)) _ _ => set (ctx := c) end.
    assert (wp (withRateLimit (server_limiter cfg) p (withFailpoints h) (WithContext r ctx)) w4
              (λ _ w', refused codes w w')) as ([] & w5 & E5 & R5).
    { unfold withRateLimit. destruct (server_limiter cfg) as [l|]; [|by apply Hinner].
      destruct (Allow_runs (Some l) (clientKey (WithContext r ctx)) w4)
        as (b & d & w5 & E5 & D5 & _ & K5 & R5 & _).
      apply wp_bind. exists (b, d), w5. split; [exact E5|]. destruct b; cbn [negb].
      - apply Hinner; [congruence..|]. rewrite R5. exact S4.
      - eapply quiet_bind; [apply quiet_Inc|]. intros _ w6 (D6 & _ & _ & S6 & _ & K6).
        eapply quiet_bind; [apply quiet_SetHeader|]. intros _ w7 (D7 & _ & _ & S7 & _ & K7).
        apply wp_refuse; [congruence..| |done]. rewrite S7, S6, R5. exact S4. }
    exists tt, w5. split; [exact E5|]. unfold wp. cbn. eexists tt, _. split; [reflexivity|].
    exact R5. }
  unfold serve, withRecovery. erewrite bind_run by reflexivity. fold w0.
  erewrite bind_run by (rewrite E2; reflexivity). unfold WriteHeader. rewrite S2.
  exists w2. split; [done|]. split_and!; [done..|]. by exists s.
Qed.

(** What the handler finds: the state as it was, but for the limiter's counters. *)
Definition prepared (w w' : World) : Prop :=
  w_db w' = w_db w ∧ w_fp w' = w_fp w ∧
  (∀ s k, w_redis w' !! cacheKey s k = w_redis w !! cacheKey s k) ∧
  rw_status (w_resp w') = None ∧ rw_body (w_resp w') = [].

(** A rate-limited route hands the request, with a context of its own, to the handler,
    and what the handler wrote is the response; or its limiter refuses it. *)
Lemma wp_serve_limited e p h r w (Q : World → Prop) :
  mux cfg e = route (server_limiter cfg) p h true → Enabled (w_fp w) = false →
  (∀ ctx w1, prepared w w1 →
     wp (h (WithContext r ctx)) w1 (λ _ w2, Q w2 ∧ is_Some (rw_status (w_resp w2)))) →
  ∃ w', serve cfg e r w = (Ok tt, w') ∧
    ((∃ w2, Q w2 ∧ w_db w' = w_db w2 ∧ w_resp w' = w_resp w2) ∨
     server_limiter cfg ≠ None ∧ refused [429] w w').
Proof.
  intros Hmux Hfp Hh. set (w0 := set_resp new_response w).
  set (R := λ w', (∃ w2, Q w2 ∧ w_db w' = w_db w2 ∧ w_resp w' = w_resp w2) ∧ is_Some (rw_status (w_resp w')) ∨
                  server_limiter cfg ≠ None ∧ refused [429] w w').
  assert (wp (mux cfg e r) w0 (λ _ w', R w')) as ([] & w3 & E3 & HR).
  { rewrite Hmux. unfold route, withRequestContext. eapply quiet_bind.
    { destruct (String.eqb _ ""); [apply quiet_NewString|apply quiet_ret]. }
    intros id w1 F1. eapply quiet_bind; [apply quiet_SetHeader|]. intros _ w2 F2.
    eapply quiet_bind; [apply quiet_SetHeader|]. intros _ w3 F3. unfold withObservability.
    eapply quiet_bind; [apply quiet_record_code|]. intros _ w4 F4.
    assert (ready w0 w4) as (D4 & P4 & C4 & S4 & B4 & K4)
      by (etrans; [exact F1|]; etrans; [exact F2|]; by etrans). simpl in D4, P4, C4, S4, B4, K4.
    match goal with |- wp (_ (WithContext r ?c) ≫= _) _ _ => set (ctx := c) end.
    assert (∀ w5, prepared w w5 → wp (withFailpoints h (WithContext r ctx)) w5 (λ _ w', R w')) as Hinner.
    { intros w5 F5. unfold withFailpoints. apply wp_bind. exists (w_fp w5), w5. split; [done|].
      pose proof F5 as (_ & P5 & _). rewrite P5, Hfp, orb_true_r.
      destruct (Hh ctx w5 F5) as ([] & w6 & E6 & HQ & Hs). exists tt, w6. split; [exact E6|]. left.
      split; [by exists w6|done]. }
    apply wp_bind.
    assert (wp (withRateLimit (server_limiter cfg) p (withFailpoints h) (WithContext r ctx)) w4
              (λ _ w', R w')) as ([] & w5 & E5 & R5).
    { unfold withRateLimit. destruct (server_limiter cfg) as [l|] eqn:El.
      2: { apply Hinner. split_and!; try done. intros. by rewrite C4. }
      destruct (Allow_runs (Some l) (clientKey (WithContext r ctx)) w4)
        as (b & d & w5 & E5 & D5 & P5 & K5 & R5 & C5).
      apply wp_bind. exists (b, d), w5. split; [exact E5|]. destruct b; cbn [negb].
      - apply Hinner. split_and!; [congruence..|intros; by rewrite C5, C4|by rewrite R5|by rewrite R5].
      - eapply quiet_bind; [apply quiet_Inc|]. intros _ w6 (D6 & _ & _ & S6 & _ & K6).
        eapply quiet_bind; [apply quiet_SetHeader|]. intros _ w7 (D7 & _ & _ & S7 & _ & K7).
        match goal with |- wp (writeError ?r (EApp ?e)) _ _ =>
          destruct (wp_refuse r e w w7 [429]) as ([] & w8 & E8 & R8) end;
          [congruence..|by rewrite S7, S6, R5|by left|].
        exists tt, w8. split; [exact E8|]. right. by split. }
    exists tt, w5. split; [exact E5|]. unfold wp. cbn. eexists tt, _. split; [reflexivity|].
    destruct R5 as [[(w2' & HQ & D & Rw) Hs]|[Hl Hr]]; [left|right; by split].
    split; [by exists w2'|done]. }
  unfold serve, withRecovery. erewrite bind_run by reflexivity. fold w0.
  erewrite bind_run by (rewrite E3; reflexivity). unfold WriteHeader. unfold R in HR.
  destruct HR as [[HQ [s Hs]]|(Hl & D & K & s & Hs & Hin)]; rewrite Hs; exists w3; (split; [done|]); [by left|right].
  split; [done|]. split_and!; [done..|]. by exists s.
Qed.
End refusals.
