(* ===== verification/ApiTheorems.v ===== *)
(** What the HTTP API guarantees its clients: every request is answered, every
    endpoint can be reached, the cache repeats the database, Redis is never needed for a correct answer, and
    no request changes anything without an idempotency key. *)
From S2P Require Import Prelude GoStrings GoTime Json Apperr Failpoint Schema SchemaFacts Monad World Storage Idempotency Event Config Cache Outbox LedgerModel Http RateLimit LedgerRepo LedgerService LedgerFacts LedgerEffects Kafka Publisher Replay Reconciliation Handlers Server ApiEffects Webhook Tame HttpFacts Writers Once LedgerInvariant System CacheFacts Demo Runs LedgerProgress HttpRuns.
Local Open Scope Z_scope.

(** * Every request is answered *)

(** What [withRecovery] reports. *)
Definition internal_error : Error := New CodeInternal "internal error" [].

Section answered.
Context `{Ext} (cfg : Config).

Lemma writeError_internal r w :
  ∃ w', writeError r (EApp internal_error) w = (Ok tt, w') ∧
    (rw_status (w_resp w) = None →
     rw_status (w_resp w') = Some 500 ∧
     rw_body (w_resp w') =
       rw_body (w_resp w) ++ [marshal_errorResponse internal_error (RequestID (rq_ctx r))]).
Proof.
  unfold writeError, writeJSON, mbind, ST_bind, record_code, SetHeader, WriteHeader, Write, on_resp,
    modify. cbn. destruct (rw_status (w_resp w)); cbn; (eexists; split; [reflexivity|]); done.
Qed.

Lemma withRecovery_runs (next : handler) r w :
  Handles (next r) →
  ∃ w', withRecovery next r w = (Ok tt, w') ∧
    ∀ p w1, next r w = (Panic p, w1) → rw_status (w_resp w1) = None →
      rw_status (w_resp w') = Some 500 ∧
      rw_body (w_resp w') =
        rw_body (w_resp w1) ++ [marshal_errorResponse internal_error (RequestID (rq_ctx r))].
Proof.
  intros Hh. unfold withRecovery. destruct (next r w) as [[[]|e'|p] w1] eqn:E; [by exists w1| |].
  - by destruct (Hh w e' w1).
  - destruct (writeError_internal r w1) as (w' & E' & Hw). exists w'. split; [done|].
    by intros ? ? [= <- <-].
Qed.

(** What the server answers once the handler is done: a status that is a status code. *)
Lemma answered (m : M unit) w w1 :
  m w = (Ok tt, w1) → status_kept w w1 → rw_status (w_resp w) = None →
  ∃ w' s, (m;; WriteHeader 200) w = (Ok tt, w') ∧ rw_status (w_resp w') = Some s ∧
    100 ≤ s ≤ 999 ∧ rw_body (w_resp w') = rw_body (w_resp w1) ∧
    (∀ s1, rw_status (w_resp w1) = Some s1 → s = s1 ∧ w' = w1).
Proof.
  intros E [_ Hc] Hn. rewrite (bind_run _ _ _ tt w1) by done. unfold WriteHeader.
  destruct (rw_status (w_resp w1)) as [s|] eqn:Es.
  - exists w1, s. destruct (Hc s eq_refl) as [?|[]]; [congruence|].
    split_and!; [done..|]. by intros s1 [= <-].
  - eexists _, 200. by split_and!.
Qed.

Lemma discard_body_runs r w :
  ∃ w', discard_body r w = (Ok tt, w') ∧ rw_status (w_resp w') = rw_status (w_resp w) ∧
    (Method r ≠ "HEAD" → w' = w) ∧ ∃ resp, w' = set_resp resp w.
Proof.
  unfold discard_body. destruct (String.eqb_spec (Method r) "HEAD").
  - eexists. split_and!; [reflexivity|done|done|by eexists].
  - exists w. split_and!; try done. exists (w_resp w). by destruct w.
Qed.
End answered.

(** C15. Every request is answered: whatever the method, the path, the headers, the
    faults, the contents of Redis and the failpoints, serving a request ends without
    an error or a panic, with exactly one status that is a status code.  A handler
    that panics before it wrote anything is answered with 500 and the internal
    error; a request that no endpoint serves is answered with 404, with 405 when the
    path is served under another method, with 301 when the path is not clean, and
    changes nothing. *)
Theorem every_request_is_answered `{Ext} `{NetHttp} cfg path r w :
  let d := dispatch (routes (Enabled (w_fp w))) (Method r) path in
  ∃ w' s, ServeHTTP cfg path r w = (Ok tt, w') ∧ rw_status (w_resp w') = Some s ∧ 100 ≤ s ≤ 999 ∧
    (∀ p w1, routed_handler (target_handler cfg) d r (set_resp new_response w) = (Panic p, w1) →
      rw_status (w_resp w1) = None →
      s = 500 ∧ (Method r ≠ "HEAD" → rw_body (w_resp w') =
        rw_body (w_resp w1) ++ [marshal_errorResponse internal_error (RequestID (rq_ctx r))])) ∧
    (∀ s', refusal d = Some s' → s = s' ∧ ∃ resp, w' = set_resp resp w).
Proof.
  intros d. set (w0 := set_resp new_response w).
  destruct (withRecovery_runs (routed_handler (target_handler cfg) d) r w0 (handles_routed (target_handler cfg) d r _)) as (w1 & E1 & Hp).
  assert (status_kept w0 w1) as Hk.
  { assert (Respects status_kept (withRecovery (routed_handler (target_handler cfg) d) r)) as Hr
      by (apply respects_withRecovery; try apply _; apply tame_routed; intros; apply _).
    specialize (Hr w0). by rewrite E1 in Hr. }
  destruct (answered _ w0 w1 E1 Hk eq_refl) as (w2 & s & E2 & Hs & Hrange & Hb & Hsame).
  destruct (discard_body_runs r w2) as (w3 & E3 & Hs3 & Hh3 & Hr3). exists w3, s. split_and!; try lia.
  - unfold ServeHTTP. rewrite (bind_run _ _ _ tt w0) by done.
    rewrite (bind_run _ _ _ (w_fp w) w0) by done. fold d.
    rewrite (bind_run _ _ _ tt w1) by done.
    rewrite (bind_run _ _ _ tt w1) in E2 by done. by rewrite (bind_run _ _ _ tt w2).
  - by rewrite Hs3.
  - intros p w' Em En. destruct (Hp p w' Em En) as [Hs1 Hb1]. destruct (Hsame 500 Hs1) as [-> ->].
    split; [done|]. intros Hm. by rewrite (Hh3 Hm).
  - intros s' Hd. destruct (routed_refusal (target_handler cfg) d r w0 s' Hd eq_refl) as (resp & Er & Hresp).
    unfold withRecovery in E1. rewrite Er in E1. injection E1 as <-.
    destruct (Hsame s' Hresp) as [-> ->]. split; [done|]. destruct Hr3 as [resp' ->].
    exists resp'. by destruct w.
Qed.

Lemma every_request_runs `{Ext} `{NetHttp} cfg path r w : ∃ w', ServeHTTP cfg path r w = (Ok tt, w').
Proof.
  unfold ServeHTTP. rewrite (bind_run _ _ _ tt (set_resp new_response w)) by done.
  rewrite (bind_run _ _ _ (w_fp w) (set_resp new_response w)) by done.
  destruct (withRecovery_runs _ r (set_resp new_response w) (handles_routed (target_handler cfg)
    (dispatch (routes (Enabled (w_fp w))) (Method r) path) r _)) as (w1 & E1 & _).
  rewrite (bind_run _ _ _ tt w1) by done.
  assert (∃ w2, WriteHeader 200 w1 = (Ok tt, w2)) as [w2 E2].
  { unfold WriteHeader. destruct (rw_status _); by eexists. }
  rewrite (bind_run _ _ _ tt w2) by done. destruct (discard_body_runs r w2) as (w3 & E3 & _). by exists w3.
Qed.

(** Requests that come through the router are steps of the system. *)
Lemma ServeHTTP_steps `{Ext} `{NetHttp} cfg path r w : rtc step w (ServeHTTP cfg path r w).2.
Proof.
  assert (∀ d, refusal d = None → (∃ e vals, d = RoutedTo (Serves e) vals) ∨
                                  ∃ vals, d = RoutedTo MetricsPage vals) as Hcases.
  { intros [| |[e|] vals| |] Hd; try done; eauto. }
  destruct (refusal (dispatch (routes (Enabled (w_fp w))) (Method r) path)) as [s|] eqn:Hd.
  - destruct (routed_refusal (target_handler cfg) _ r (set_resp new_response w) s Hd eq_refl) as (resp & Er & Hs).
    apply rtc_once, step_environment. unfold ServeHTTP, mbind, ST_bind, modify, gets. cbn [w_fp set_resp].
    unfold withRecovery. rewrite Er. unfold WriteHeader. cbn [w_resp set_resp]. rewrite Hs.
    unfold discard_body. by destruct (String.eqb _ _).
  - destruct (Hcases _ Hd) as [(e & vals & Hm)|[vals Hm]].
    + rewrite (ServeHTTP_routed _ _ _ _ e vals Hm). eapply rtc_l; [apply step_call, (call_request cfg e (set_path_values vals r))|].
      apply rtc_once, step_environment. unfold mbind, ST_bind.
      destruct (serve _ _ _ _) as [[[]|err|p] w1]; [|done..].
      destruct (discard_body_runs r w1) as (w2 & -> & _ & _ & resp & ->). done.
    + apply rtc_once, step_environment. unfold ServeHTTP, mbind, ST_bind, modify, gets. cbn [w_fp set_resp].
      rewrite Hm. unfold withRecovery, routed_handler, target_handler, metrics_page, http_error, discard_body.
      unfold next_tick, SetHeader, WriteHeader, Write, on_resp, mbind, ST_bind, modify. cbn.
      destruct (Gather (w_tick w)); cbn; by destruct (String.eqb _ _).
Qed.

(** * Every endpoint is reached *)

(** C16. A path made from a pattern of the routing table, with an identifier
    percent-encoded for its wildcard, is served by the pattern's endpoint, and the
    handler reads back that identifier: any identifier but the empty one, the two
    that are dots, which the cleaning of a path removes, and the slash. And no two
    patterns of the table match the same request. *)
Theorem endpoints_are_reached `{Ext} `{NetHttp} cfg i p e id r w :
  routes (Enabled (w_fp w)) !! i = Some (p, Serves e) → id ∉ [""; "."; ".."; "/"] →
  Method r = (parsePattern p).1 →
  ServeHTTP cfg (url_of p id) r w =
    serve cfg e (set_path_values (path_values (parsePattern p).2 id) r) w ∧
  ∀ method path j k a b,
    routes (Enabled (w_fp w)) !! j = Some a → routes (Enabled (w_fp w)) !! k = Some b →
    is_Some (matches method path a.1) → is_Some (matches method path b.1) → j = k.
Proof.
  intros Hi Hid Hm. split; [|intros method path j k a b; apply one_route, routes_ok].
  apply ServeHTTP_serve; rewrite Hm.
  - by eapply dispatch_reaches; [apply routes_ok|..].
  - by eapply routes_method.
Qed.

(** A network library and a metrics page for concrete requests. *)
Definition demo_net : NetHttp := {|
  Location := λ _ path, path;
  MovedPage := λ url, "Moved Permanently: " +:+ url;
  Gather := λ _, Some "";
|}.

Definition get_request : Request :=
  mkRequest "GET" (λ _, "") (λ _, "") (λ _, "") 0 BodyUnreadable "10.0.0.1:4000" Background.

Lemma endpoints_are_reached_witness :
  url_of "GET /v1/accounts/{id}/balance" "alice" = "/v1/accounts/alice/balance" ∧
  url_of "GET /v1/accounts/{id}/balance" "a/b c" = "/v1/accounts/a%2Fb%20c/balance" ∧
  ServeHTTP (H:=demo_ext) (H0:=demo_net) api_cfg "/v1/accounts/alice/balance" get_request
      (http3 (H:=demo_ext)) =
    serve (H:=demo_ext) api_cfg GetBalanceEndpoint
      (set_path_values [("id", "alice")] get_request) (http3 (H:=demo_ext)) ∧
  rw_body (w_resp (serve (H:=demo_ext) api_cfg GetBalanceEndpoint
      (set_path_values [("id", "alice")] get_request) (http3 (H:=demo_ext))).2) ≠ [].
Proof.
  split; [reflexivity|]. split; [reflexivity|]. split; [|by vm_compute].
  refine (proj1 (endpoints_are_reached (H:=demo_ext) (H0:=demo_net) api_cfg 1
    "GET /v1/accounts/{id}/balance" GetBalanceEndpoint "alice" get_request (http3 (H:=demo_ext)) _ _ _));
    [by vm_compute| |by vm_compute].
  intros Hin. apply list_elem_of_In in Hin. by repeat destruct Hin as [Hin|Hin].
Defined.

(** * The response cache *)

(** A call of the program, or something outside: Redis may lose entries of the
    cache but does not invent any. *)
Inductive cached_step `{Ext} : World → World → Prop :=
  | cached_call w w' : call w w' → cached_step w w'
  | cached_environment w w' :
      w_db w' = w_db w → w_redis w' ⊆ w_redis w → cached_step w w'.

Definition cached_reachable `{Ext} (w : World) : Prop :=
  ∃ w0, initial w0 ∧ w_redis w0 = ∅ ∧ rtc cached_step w0 w.

Section cached.
Context `{Ext}.

Lemma call_truthful w w' : call w w' → truthful w w'.
Proof.
  intros Hc. apply call_kept in Hc as Hk.
  destruct Hc; first [apply serve_truthful|apply truthful_secluded; [exact Hk|]];
    apply (respects (R:=keeps_redis)).
Qed.

Lemma cached_step_true w w' : cached_step w w' → cache_true w → cache_true w'.
Proof.
  intros [w1 w2 Hc|w1 w2 Hd Hr] Hw; [by eapply truthful_cache, Hw; apply call_truthful|].
  intros s k raw c Hs Hraw Hc. rewrite Hd. eapply Hw; [exact Hs| |exact Hc].
  by eapply lookup_weaken.
Qed.

Lemma cached_reachable_true w : cached_reachable w → cache_true w.
Proof.
  intros (w0 & _ & Hr & Hs). assert (cache_true w0) as H0.
  { intros s k raw c _. by rewrite Hr, lookup_empty. }
  clear Hr. induction Hs as [|w1 w2 w3 Hst _ IH]; [done|]. by eapply IH, cached_step_true.
Qed.

Lemma cached_reachable_reachable w : cached_reachable w → reachable w.
Proof.
  intros (w0 & Hi & _ & Hs). exists w0. split; [done|]. clear Hi.
  induction Hs as [|w1 w2 w3 [? ? Hc|? ? Hd _] _ IH]; [done|..].
  - eapply rtc_l; [by apply step_call|done].
  - eapply rtc_l; [by apply step_environment|done].
Qed.
End cached.



(** * Retries *)

(** C13. Redis is never needed for a correct retry, and cannot spoil one. While the
    database answers without faults, no failpoint is armed and at least one attempt is
    configured, a repeated POST /v1/transfers whose key has a completed record changes
    nothing in the database and is answered with the recorded status and body, marked
    as a replay, or refused with 429 by the rate limiter, if there is one. It makes no
    difference what Redis, empty at the start, has lost of what the program wrote
    there, nor which of its commands fail. *)
Theorem retry_is_answered_from_the_record `{Ext, !UuidLaw} cfg r w key req row st b :
  calm → Enabled (w_fp w) = false → 0 < DBMaxTxRetries cfg →
  cached_reachable w → idempotencyKey r = inr key →
  decodeJSON "api.transferRequest" transferRequest_fields (mkTransferRequest "" "" 0 "" "" "") r =
    inr req →
  let cmd := transfer_command key (HashRequest scopeTransfer (marshal_transferRequest req)) req in
  ValidateTransfer cmd = None → completed (TrIdem cmd) row (w_db w) →
  i_response_status row = Some st → i_response_body row = Some b → status_code st →
  ∃ w', serve cfg TransferEndpoint r w = (Ok tt, w') ∧ w_db w' = w_db w ∧
    (stored_answer st b (w_resp w') ∨
     server_limiter cfg ≠ None ∧ rw_status (w_resp w') = Some 429).
Proof.
  intros Hcalm Hfp Hn Hw Hkey Hreq cmd Hv Hrow Est Eb Hcode.
  pose proof (cached_reachable_true w Hw) as Hcache.
  pose proof (reachable_inv w (cached_reachable_reachable w Hw)) as Hinv.
  destruct (wp_serve_limited cfg TransferEndpoint "POST /v1/transfers" (handleTransfer cfg) r w
    (λ w2, w_db w2 = w_db w ∧ stored_answer st b (w_resp w2)))
    as (w' & E & [(w2 & [D A] & D' & R')|(Hlim & D' & _ & s & Hs & Hin)]).
  - done.
  - done.
  - intros ctx w1 (D1 & P1 & R1 & S1 & B1). simpl in *. unfold handleTransfer.
    change (idempotencyKey (WithContext r ctx)) with (idempotencyKey r). rewrite Hkey. cbn [or_refuse].
    change (decodeJSON ?a ?b ?c (WithContext r ctx)) with (decodeJSON a b c r). rewrite Hreq.
    cbn [or_refuse].
    destruct (wp_run_command_replay cfg (WithContext r ctx) (TrIdem cmd) row st b
      (Transfer cfg (rq_ctx (WithContext r ctx)) cmd) w1) as ([] & w2 & E2 & D2 & A2); try done.
    + intros s k raw c Hs Hraw. rewrite D1. apply Hcache; [done|]. by rewrite <-R1.
    + by rewrite D1.
    + apply _.
    + intros w3 D3 P3. destruct (wp_Transfer_replay Hcalm cfg Hn ctx cmd row w3) as (res & w4 & E4 & Q4).
      * congruence.
      * done.
      * by rewrite D3, D1.
      * by rewrite D3, D1.
      * by exists res, w4.
    + exists tt, w2. split; [exact E2|]. split; [split; [congruence|done]|]. destruct A2 as [-> _]. done.
  - exists w'. split; [done|]. split; [congruence|]. left. by rewrite R'.
  - exists w'. split; [done|]. split; [done|]. right.
    apply list_elem_of_singleton in Hin as ->. by split.
Qed.

Section demo_run.
Context `{Ext}.

Lemma http3_reachable : cached_reachable http3.
Proof.
  exists demo_world. split; [done|]. split; [done|].
  eapply rtc_l; [apply cached_call, (call_request api_cfg CreateAccountEndpoint create_bank)|].
  eapply rtc_l; [apply cached_call, (call_request api_cfg CreateAccountEndpoint create_alice)|].
  apply rtc_once, cached_call, (call_request api_cfg TransferEndpoint pay_alice).
Qed.

Lemma emptied_reachable : cached_reachable emptied.
Proof.
  destruct http3_reachable as (w0 & Hi & Hr & Hs). exists w0. split; [done|]. split; [done|].
  eapply rtc_r; [exact Hs|]. apply cached_environment; [reflexivity|]. apply map_empty_subseteq.
Qed.
End demo_run.

(** A value that is there, without writing it out. *)
Lemma is_Some_eq {A} (o : option A) : bool_decide (is_Some o) = true → ∃ a, o = Some a.
Proof. intros Hs%bool_decide_eq_true. by destruct Hs as [a ->]; exists a. Qed.


Definition pay_alice_request : transferRequest :=
  mkTransferRequest "bank" "alice" 250 "USD" "" "".

Lemma retry_is_answered_from_the_record_witness :
  ∃ row w', serve (H:=demo_ext) api_cfg TransferEndpoint pay_alice
      (emptied (H:=demo_ext)) = (Ok tt, w') ∧
    w_db w' = w_db (emptied (H:=demo_ext)) ∧
    (stored_answer 201 (default JNull (i_response_body row)) (w_resp w') ∨
     server_limiter api_cfg ≠ None ∧ rw_status (w_resp w') = Some 429).
Proof.
  assert (∃ row, idempotency_records (w_db (emptied (H:=demo_ext))) !! (scopeTransfer, "t1") = Some row)
    as [row Hrow] by (apply is_Some_eq; vm_compute; reflexivity). exists row.
  assert (bool_decide (i_state row = CompletedState ∧
    i_request_hash row = HashRequest scopeTransfer (marshal_transferRequest pay_alice_request) ∧
    i_response_status row = Some 201 ∧ is_Some (i_response_body row)) = true) as Hfacts.
  { assert ((λ o, match o with Some row => bool_decide (i_state row = CompletedState ∧
      i_request_hash row = HashRequest scopeTransfer (marshal_transferRequest pay_alice_request) ∧
      i_response_status row = Some 201 ∧ is_Some (i_response_body row)) | None => true end)
      (idempotency_records (w_db (emptied (H:=demo_ext))) !! (scopeTransfer, "t1")) = true) as E
      by (vm_compute; reflexivity). by rewrite Hrow in E. }
  apply bool_decide_eq_true in Hfacts as (Hst & Hh & Es & [b Eb]).
  rewrite Eb.
  apply (retry_is_answered_from_the_record (H:=demo_ext) (H0:=demo_uuid) api_cfg pay_alice
    (emptied (H:=demo_ext)) "t1" pay_alice_request row 201 b).
  - exact demo_calm.
  - vm_compute. reflexivity.
  - vm_compute. reflexivity.
  - apply (emptied_reachable (H:=demo_ext)).
  - vm_compute. reflexivity.
  - vm_compute. reflexivity.
  - vm_compute. reflexivity.
  - split_and!; [exact Hrow|exact Hst|exact Hh].
  - exact Es.
  - exact Eb.
  - unfold status_code. lia.
Defined.

(** * Refusals *)

(** The endpoints that change something, and their handlers. *)
Definition mutating `{Ext} (cfg : Config) (e : endpoint) : option (string * handler) :=
  match e with
  | CreateAccountEndpoint => Some ("POST /v1/accounts", handleCreateAccount cfg)
  | TransferEndpoint => Some ("POST /v1/transfers", handleTransfer cfg)
  | ReverseEndpoint => Some ("POST /v1/transactions/{id}/reverse", handleReverse cfg)
  | ReplayEndpoint => Some ("POST /v1/replay", handleReplay cfg)
  | _ => None
  end.

Lemma idempotencyKey_400 r err : idempotencyKey r = inl err → HTTPStatus err = 400.
Proof.
  unfold idempotencyKey. destruct (String.eqb _ ""); [by intros [= <-]|].
  destruct (_ <? _)%nat; [by intros [= <-]|done].
Qed.

(** No request changes anything without an idempotency key: a POST whose key is
    absent or longer than 255 bytes is refused with 400 (or 429 by the rate
    limiter), and neither the database nor Kafka has changed. *)
Theorem mutations_need_a_key `{Ext} cfg e p h err r w :
  mutating cfg e = Some (p, h) → idempotencyKey r = inl err →
  ∃ w', serve cfg e r w = (Ok tt, w') ∧ refused [400; 429] w w'.
Proof.
  intros He Hkey. apply idempotencyKey_400 in Hkey as Hcode.
  assert (400 ∈ [400; 429] ∧ 429 ∈ [400; 429]) as [H400 H429] by (split; apply list_elem_of_In; simpl; auto).
  apply (wp_serve_refused cfg e p h); [|done|done|].
  - by destruct e; try done; injection He as <- <-.
  - intros ctx w1 D1 K1 S1.
    assert (h (WithContext r ctx) = writeError (WithContext r ctx) (EApp err)) as ->.
    { destruct e; try done; injection He as <- <-;
        unfold handleCreateAccount, handleTransfer, handleReverse, handleReplay, handleReplay_waiting;
        change (idempotencyKey (WithContext r ctx)) with (idempotencyKey r); by rewrite Hkey. }
    apply wp_refuse; [done..|]. by rewrite Hcode.
Qed.

Lemma mutations_need_a_key_witness :
  ∃ w', serve (H:=demo_ext) api_cfg TransferEndpoint (post_request "" []) (http3 (H:=demo_ext)) =
      (Ok tt, w') ∧ refused [400; 429] (http3 (H:=demo_ext)) w'.
Proof.
  eapply (mutations_need_a_key (H:=demo_ext)); reflexivity.
Defined.

(** * Replays over HTTP *)

(** Messages were sent only if the key went from free to taken; a taken key stays
    taken. *)
Definition sent_once (k : string * string) (w w' : World) : Prop :=
  (w_kafka w' = w_kafka w ∧
   (is_Some (idempotency_records (w_db w) !! k) → is_Some (idempotency_records (w_db w') !! k))) ∨
  (idempotency_records (w_db w) !! k = None ∧ is_Some (idempotency_records (w_db w') !! k)).

#[export] Instance sent_once_preorder k : PreOrder (sent_once k).
Proof.
  split; [by left|]. intros w1 w2 w3 [[K1 T1]|[N1 T1]] [[K2 T2]|[N2 T2]].
  - left. split; [congruence|auto].
  - right. split; [|done]. destruct (idempotency_records (w_db w1) !! k); [|done].
    destruct T1 as [x Hx]; [eauto|congruence].
  - right. auto.
  - destruct T1 as [x Hx]. congruence.
Qed.

Section replays.
Context `{Ext} (cfg : Config).

#[local] Instance sent_once_still k {A} (m : M A) :
  Respects (keeps id) m → Respects keeps_kafka m → Respects (sent_once k) m.
Proof.
  intros Hd Hk w. specialize (Hd w). unfold keeps in Hd. simpl in Hd. left. rewrite Hd.
  split; [apply Hk|done].
Qed.

(** A replay that fails has sent nothing. *)
Lemma RunReplay_fails req w o w' :
  RunReplay req w = (o, w') → (∃ e, o = Err e) ∨ (∃ p, o = Panic p) → w_kafka w' = w_kafka w.
Proof.
  assert (∀ rid at_ recs i r w, ∃ r' w', replay_loop req rid at_ recs i r w = (Ok r', w')) as Hloop.
  { intros rid at_ recs. induction recs as [|rec recs IH]; intros i r w0; simpl; [by eexists _, _|].
    destruct (DryRun req); [apply IH|]. destruct (markReplayed _ _) as [payload|].
    - unfold mbind at 1, ST_bind at 1, try, Publish, mbind, ST_bind, next_tick, append_message, Inc,
        modify, throw. cbn.
      destruct (publish_fault _) as [[[] e]|]; cbn; apply IH.
    - erewrite bind_run by reflexivity. apply IH. }
  unfold RunReplay. destruct (ValidateReplay req); [by intros [= <- <-] _|].
  unfold mbind, ST_bind.
  pose proof (respects (R:=keeps_kafka) (m:=ListForReplay (RrTransactionID req) (RrFrom req) (RrTo req)
    (if Limit req =? 0 then 1000 else Limit req)) w) as Hk.
  destruct (ListForReplay _ _ _ _ w) as [[recs|e|p] w1]; simpl in Hk; [|by intros [= <- <-] _..].
  unfold NewString, Now, gets. cbn.
  match goal with |- context [replay_loop ?a ?b ?c ?d ?e ?f ?g] =>
    destruct (Hloop b c d e f g) as (r' & w2 & ->) end.
  intros [= <- <-] [[? ?]|[? ?]]; done.
Qed.
Lemma replay_fails req w o w' :
  replay_work req w = (o, w') → (∃ e, o = Err e) ∨ (∃ p, o = Panic p) → w_kafka w' = w_kafka w.
Proof.
  unfold replay_work, mbind, ST_bind. destruct (RunReplay req w) as [[res|e|p] w1] eqn:E;
    [by intros [= <- <-] [[? [=]]|[? [=]]]|intros [= <- <-] _..]; eapply RunReplay_fails; eauto.
Qed.

(** ** Among other sessions *)

Context (others : nat → DB → DB) (key : string).
Definition replay_record (d : DB) : option idem_row := idempotency_records d !! (scopeReplay, key).
Context (Hothers : ∀ n d, replay_record (others n d) = replay_record d).

#[local] Instance waiting_sends_nothing i : Respects keeps_kafka (pause_among others i).
Proof.
  unfold pause_among, meanwhile. apply respects_bind; [apply _..|]. intros [].
  apply respects_bind; [apply _..|]. intros n. by apply (respects_modify keeps_kafka).
Qed.

Lemma waiting_keeps_key i w : replay_record (w_db (pause_among others i w).2) = replay_record (w_db w).
Proof.
  unfold pause_among, mbind, ST_bind. pose proof (pause_db i w) as Hp.
  destruct (pause i w) as [[[]|e|p] w1]; simpl in *; [by rewrite Hothers, Hp|by rewrite Hp..].
Qed.

Lemma waiting_now w :
  ∃ w', pause_among others 0 w = (Ok tt, w') ∧ w_kafka w' = w_kafka w ∧
    replay_record (w_db w') = replay_record (w_db w).
Proof. eexists. split; [reflexivity|]. split; [done|apply Hothers]. Qed.

(** The claim says it took the key only when it did, whatever attempts failed. *)
Lemma claim_among hash n w o l' w' :
  InTx_waiting (pause_among others) n (claim_closure scopeReplay key hash) (false, 0, None) w =
    (o, l', w') →
  w_kafka w' = w_kafka w ∧
  (is_Some (replay_record (w_db w)) → is_Some (replay_record (w_db w'))) ∧
  (o = Ok tt → l'.1.1 = true →
     replay_record (w_db w) = None ∧ is_Some (replay_record (w_db w'))).
Proof.
  intros E. set (K0 := replay_record (w_db w)). split.
  { assert (Respects keeps_kafka (claim_external scopeReplay key hash)) as Hc
      by (unfold claim_external; respects_tac).
    pose proof (tame_InTx_waiting keeps_kafka (pause_among others) (claim_closure scopeReplay key hash) n
      (false, 0, None) w _) as Hk. rewrite E in Hk. apply Hk. intros l w2. unfold claim_closure.
    specialize (Hc w2). by destruct (claim_external scopeReplay key hash w2) as [[[[]|]| |] ?]. }
  set (I := λ (l : external_vars) d,
    (replay_record d = K0 ∧ (l.1.1 = true → K0 = None)) ∨
    (K0 = None ∧ ∃ row, replay_record d = Some row ∧ i_state row = InProgressState)).
  set (J := λ (l : external_vars) d, l.1.1 = true → K0 = None ∧ is_Some (replay_record d)).
  destruct (InTx_waiting_inv I J (pause_among others) (claim_closure scopeReplay key hash)) with
    (maxRetries := n) (l := (false, 0, @None json)) (w := w) (o := o) (l' := l') (w' := w') as [HI HJ].
  - intros l i w1. unfold I. by rewrite waiting_keeps_key.
  - intros [[cl st] b] w1 l1 w2 HI. unfold claim_closure.
    destruct (claim_external scopeReplay key hash w1) as [[[[status b']|]|e|p] w3] eqn:Ec; intros [= <- <-];
      apply claim_external_Ok in Ec; simpl in *.
    + destruct Ec as [-> (row & Hrow & Hst & _)]. split; [exact HI|]. split; [exact HI|].
      intros Ht. simpl in Ht. exfalso. unfold I, replay_record in HI. rewrite Hrow in HI. simpl in HI.
      destruct HI as [[E1 H1]|(_ & row' & [= <-] & H1)]; [|congruence]. by rewrite (H1 Ht) in E1.
    + destruct Ec as (Hn & _ & row & Hst & _ & _ & _ & Ed).
      assert (K0 = None) as H0.
      { destruct HI as [[E1 _]|(? & _)]; [|done]. unfold replay_record in E1. by rewrite Hn in E1. }
      assert (replay_record (w_db w3) = Some row) as Hrow
        by (unfold replay_record; rewrite Ed; apply lookup_insert_eq).
      split_and!; [left; split; [by rewrite H0|done]|right; eauto|intros _; rewrite Hrow; eauto].
  - intros [[cl st] b] w1 o1 l1 w2 HI. unfold claim_closure.
    destruct (claim_external scopeReplay key hash w1) as [[[[status b']|]|e|p] w3]; intros [= <- <- <-] Ho; done.
  - by left.
  - exact E.
  - split; [|exact HJ]. intros Hs. destruct HI as [[-> _]|(_ & row & -> & _)]; [done|eauto].
Qed.

Lemma Complete_keeps_key status b w w' :
  Complete scopeReplay key status b None w = (Ok tt, w') → is_Some (replay_record (w_db w)) →
  is_Some (replay_record (w_db w')).
Proof.
  unfold Complete, replay_record. intros (db' & Hs & ->)%map_err_Ok%sql_Ok [row Hrow].
  unfold sql_complete in Hs. simpl in Hs. rewrite Hrow in Hs.
  apply pg_bind_Ok in Hs as (d & Hd & [= <-]). simpl in Hd. unfold update_idem in Hd. rewrite Hrow in Hd.
  pg_inv. simpl. rewrite lookup_insert_eq. eauto.
Qed.

Lemma completion_keeps_key status b w :
  is_Some (replay_record (w_db w)) →
  is_Some (replay_record (w_db (InTx_result_waiting (pause_among others) (DBMaxTxRetries cfg)
    (Complete scopeReplay key status b None) w).2)).
Proof.
  intros Hs. unfold InTx_result_waiting.
  destruct (InTx_waiting _ _ _ _ w) as [[o l'] w'] eqn:E.
  destruct (InTx_waiting_inv (λ (_ : option unit) d, is_Some (replay_record d)) (λ _ _, True)
    (pause_among others) (assigning (Complete scopeReplay key status b None))) with
    (maxRetries := DBMaxTxRetries cfg) (l := @None unit) (w := w) (o := o) (l' := l') (w' := w') as [HI _];
    [| |done|exact Hs|exact E|by destruct o].
  - intros l i w1. by rewrite waiting_keeps_key.
  - intros l w1 l1 w2 H1 (a & _ & Em)%assigning_Ok. split_and!; [done| |done].
    destruct a. by eapply Complete_keeps_key.
Qed.

Lemma sent_once_external hash req w :
  sent_once (scopeReplay, key) w
    (runExternalIdempotent_waiting cfg (pause_among others) scopeReplay key hash (replay_work req) w).2.
Proof.
  unfold runExternalIdempotent_waiting, InTx_vars, mbind, ST_bind.
  destruct (InTx_waiting _ _ _ _ w) as [[o1 l1] w1] eqn:E1.
  apply claim_among in E1 as (Hk1 & Hkeep & Hclaim).
  assert (sent_once (scopeReplay, key) w w1) as H1 by by left.
  destruct o1 as [[]|e|p]; [|done..]. destruct l1 as [[cl st] b]. simpl in Hclaim.
  destruct cl; [|exact H1]. destruct (Hclaim eq_refl eq_refl) as [Hn Hs]. clear Hkeep Hclaim H1.
  cbn [negb]. unfold Inc at 1, modify. set (w2 := set_metrics _ w1).
  destruct (waiting_now w2) as (w3 & -> & Hk3 & Hr3).
  assert (w_kafka w3 = w_kafka w) as Hkw by (rewrite Hk3; exact Hk1).
  assert (is_Some (replay_record (w_db w3))) as Hs3 by (rewrite Hr3; exact Hs). unfold try at 1.
  pose proof (respects (R:=keeps id) (m:=replay_work req) w3) as Hd. unfold keeps in Hd.
  destruct (replay_work req w3) as [o4 w4] eqn:E4. simpl in Hd.
  assert (∀ w', w_kafka w' = w_kafka w4 → o4 ≠ Ok (default (0, JNull) (match o4 with Ok a => Some a | _ => None end)) →
    sent_once (scopeReplay, key) w w') as Hfail.
  { intros w' Hk' Ho. left. split.
    - rewrite Hk', (replay_fails req w3 o4 w4 E4); [done|]. destruct o4; [done|eauto..].
    - intros [x Hx]. unfold replay_record in Hn. congruence. }
  destruct o4 as [[st' b']|e|p]; [| |by apply Hfail].
  - right. split; [exact Hn|]. rewrite <-Hd in Hs3. pose proof (completion_keeps_key st' b' w4 Hs3) as Hc.
    by destruct (InTx_result_waiting _ _ _ w4) as [[o5|e|p] w5].
  - destruct (waiting_now w4) as (w5 & -> & Hk5 & _). unfold try.
    assert (Respects keeps_kafka (Discard scopeReplay key)) as Hdis by (unfold Discard; respects_tac).
    specialize (Hdis w5). unfold keeps_kafka in Hdis.
    destruct (Discard scopeReplay key w5) as [[[]|e'|p] w6]; simpl in Hdis; apply Hfail; simpl; congruence.
Qed.

Lemma sent_once_handleReplay r :
  idempotencyKey r = inr key →
  Respects (sent_once (scopeReplay, key)) (handleReplay_waiting cfg (pause_among others) r).
Proof.
  intros Hkey. unfold handleReplay_waiting. rewrite Hkey. cbn [or_refuse].
  apply respects_or_refuse; try apply _. intros req. destruct (ValidateReplay req); [apply _|].
  apply respects_bind; [apply _..|]. intros []; [apply _|].
  apply respects_or_error; try apply _. intros w. apply sent_once_external.
Qed.

Lemma sent_once_serve r :
  idempotencyKey r = inr key →
  Respects (sent_once (scopeReplay, key)) (serve_replay_among cfg others r).
Proof.
  intros Hkey. unfold serve_replay_among. apply respects_bind; [apply _|by left|]. intros _.
  apply respects_bind; [apply _| |intros; apply _].
  apply respects_withRecovery; try apply _. apply respects_route; try apply _.
  intros ctx. by apply sent_once_handleReplay.
Qed.
End replays.

(** On its own, the request is served as ever. *)
Lemma serve_replay_alone `{Ext} cfg r :
  serve cfg ReplayEndpoint r =
  (modify (set_resp new_response);;
   withRecovery (route (server_limiter cfg) "POST /v1/replay" (handleReplay_waiting cfg pause) true) r;;
   WriteHeader 200).
Proof. reflexivity. Qed.

(** C17. A replay is run at most once per idempotency key, whatever fails and however
    many attempts its transactions need. Between those attempts, and between the claim
    of the key, the work and its completion, other sessions may commit anything but a
    change of this key's record ([stale_claim_runs_again] is what happens otherwise):
    POST /v1/replay sends messages to Kafka only when the key had no record before,
    and then it has one afterwards; for a taken key nothing is sent. *)
Theorem replay_runs_once_per_key `{Ext} cfg others r w key :
  idempotencyKey r = inr key →
  (∀ n d, idempotency_records (others n d) !! (scopeReplay, key) =
          idempotency_records d !! (scopeReplay, key)) →
  let w' := (serve_replay_among cfg others r w).2 in
  w_kafka w' ≠ w_kafka w →
  idempotency_records (w_db w) !! (scopeReplay, key) = None ∧
  is_Some (idempotency_records (w_db w') !! (scopeReplay, key)).
Proof.
  intros Hkey Hoth w' Hne.
  destruct (sent_once_serve cfg others key Hoth r Hkey w) as [[Hk _]|?]; [by destruct Hne|done].
Qed.

Lemma length_ne {A} (l l' : list A) : (length l =? length l')%nat = false → l ≠ l'.
Proof. intros Hl ->. by rewrite Nat.eqb_refl in Hl. Qed.

(** Other sessions empty the table of the deliveries meanwhile. *)
Definition deliveries_cleared (n : nat) (d : DB) : DB := set_deliveries ∅ d.

Lemma replay_runs_once_per_key_witness :
  let w := http3 (H:=demo_ext) in
  let w' := (serve_replay_among (H:=demo_ext) api_cfg deliveries_cleared replay_all w).2 in
  w_kafka w' ≠ w_kafka w ∧ idempotency_records (w_db w) !! (scopeReplay, "r1") = None ∧
  is_Some (idempotency_records (w_db w') !! (scopeReplay, "r1")).
Proof.
  intros w w'. assert (w_kafka w' ≠ w_kafka w) as Hne by (apply length_ne; vm_compute; reflexivity).
  split; [exact Hne|].
  apply (replay_runs_once_per_key (H:=demo_ext) api_cfg deliveries_cleared replay_all w "r1");
    [|done|exact Hne].
  vm_compute. reflexivity.
Defined.

(** The first COMMIT of the claim is refused; before the second attempt another session
    takes the key, runs the same replay ([http5]) and completes the record. The second
    attempt finds the completed record, but [claimed] is still set from the first one:
    the events are sent again. *)
Definition refused_once : Ext := {|
  NewString_nth := NewString_nth (Ext:=demo_ext);
  uuid_in := uuid_in (Ext:=demo_ext);
  PgError_Error := PgError_Error (Ext:=demo_ext);
  stmt_fault _ := None;
  begin_fault _ := None;
  commit_fault n := if (n =? 40)%nat
    then Some (false, EPg (mkPgError "40001" "" "could not serialize access")) else None;
  sleep_fault _ := None;
  ctx_fault _ := None;
  publish_fault _ := None;
  redis_fault _ := None;
  http_result _ := inr 200;
  time_error_text := time_error_text (Ext:=demo_ext);
  NewRequest_err _ := None;
  jsonb_text := jsonb_text (Ext:=demo_ext);
  Int63n_nth _ _ := 0;
  Float64_bits _ := 0;
  returning_order := returning_order (Ext:=demo_ext);
|}.

Definition replayed_meanwhile (n : nat) (d : DB) : DB :=
  if (n =? 43)%nat then set_idem (idempotency_records (w_db (http5 (H:=demo_ext)))) d else d.

Lemma stale_claim_runs_again :
  let w := http3 (H:=demo_ext) in
  let sent others := length (w_kafka
    (serve_replay_among (H:=refused_once) api_cfg others replay_all w).2) in
  idempotency_records (w_db w) !! (scopeReplay, "r1") = None ∧
  (idempotency_records (w_db (http5 (H:=demo_ext))) !! (scopeReplay, "r1") ≫= i_response_status) = Some 200 ∧
  sent replayed_meanwhile = S (length (w_kafka w)).
Proof. by split_and!; vm_compute. Qed.

(** The hash of a replay covers the request identifier, which is drawn anew for
    every request without an [X-Request-Id]: the same replay sent again, under the
    same key, is refused with 409 and not answered from its record. *)
Example replay_retry_conflicts :
  (λ w, (rw_status (w_resp (http5 (H:=demo_ext))), rw_status (w_resp w), rw_code (w_resp w)))
    (serve (H:=demo_ext) api_cfg ReplayEndpoint replay_all (http5 (H:=demo_ext))).2 =
  (Some 200, Some 409, "idempotency_conflict").
Proof. vm_compute. reflexivity. Qed.
