(* ===== verification/RateTheorems.v ===== *)
(** The rate limiter admits exactly its limit per client and window. *)
From S2P Require Import Prelude GoStrings GoTime Json Apperr Failpoint Schema Monad World Storage Idempotency Config Cache Http RateLimit Demo.
Local Open Scope Z_scope.

(** Requests, each a client and an instant, asking one after the other. *)
Fixpoint allow_all `{Ext} (l : RateLimiter) (reqs : list (string * Z)) : M (list bool) :=
  match reqs with
  | [] => mret []
  | (key, t) :: reqs =>
      modify (set_clock t);;
      '(ok, _) ← Allow (Some l) key;
      oks ← allow_all l reqs;
      mret (ok :: oks)
  end.

(** The reference: a client is admitted while it has been seen fewer than [limit]
    times. *)
Fixpoint first_of_each (limit : Z) (seen : list string) (reqs : list (string * Z)) : list bool :=
  match reqs with
  | [] => []
  | (key, _) :: reqs =>
      (Z.of_nat (count_occ String.string_dec seen key) <? limit) ::
        first_of_each limit (key :: seen) reqs
  end.

(** The number of the window an instant falls in. *)
Definition window_of (l : RateLimiter) (t : Z) : Z := Z.quot (UnixNano t) (rl_window l).

Section limiter.
Context `{Ext} (Hredis : ∀ n, redis_fault n = None) (l : RateLimiter) (n : Z).

Definition counter_key (key : string) : string := "ledger:rl:" +:+ key +:+ ":" +:+ Duration_String n.

Lemma counter_key_inj k k' : counter_key k = counter_key k' → k = k'.
Proof. intros E%app_cancel_l. by apply app_cancel_r in E. Qed.

(** The counters hold the requests seen in this window. *)
Definition counts (seen : list string) (w : World) : Prop :=
  ∀ k, w_redis w !! counter_key k =
    match count_occ String.string_dec seen k with
    | O => None
    | c => Some (JNum (Z.of_nat c))
    end.

Lemma Allow_counts seen key w :
  window_of l (w_clock w) = n → counts seen w → Z.of_nat (length seen) < int64_max →
  ∃ d w', Allow (Some l) key w =
      (Ok (Z.of_nat (count_occ String.string_dec seen key) <? rl_limit l, d), w') ∧
    counts (key :: seen) w'.
Proof using Hredis.
  intros Hw Hc Hlen. set (c := count_occ String.string_dec seen key).
  assert (Z.of_nat c < int64_max) as Hcl by (pose proof (count_occ_bound String.string_dec key seen); lia).
  assert (incr (w_redis w !! counter_key key) = Some (Z.of_nat (S c))) as Hincr.
  { rewrite (Hc key). fold c. destruct c as [|c']; [done|]. cbn [incr].
    destruct (Z.ltb_spec (Z.of_nat (S c')) int64_max); [f_equal; lia|lia]. }
  assert (rate_key l key (w_clock w) = counter_key key) as Hk
    by (unfold rate_key, counter_key; fold (window_of l (w_clock w)); by rewrite Hw).
  assert (∀ w1, w_redis w1 = <[counter_key key := JNum (Z.of_nat (S c))]> (w_redis w) →
    counts (key :: seen) w1) as Hafter.
  { intros w1 E k. rewrite E. cbn [count_occ]. destruct (String.string_dec key k) as [<-|Hne].
    - by rewrite lookup_insert_eq.
    - rewrite lookup_insert_ne; [apply Hc|]. by intros ?%counter_key_inj. }
  unfold Allow. rewrite (bind_run _ _ _ (w_clock w) w) by done. rewrite Hk.
  unfold redis_incr, redis_op, redis_set, mbind, ST_bind, next_tick, gets, Inc, modify.
  cbn -[incr Z.of_nat]. rewrite Hredis, Hincr. cbn -[Z.of_nat].
  destruct (Z.ltb_spec (rl_limit l) (Z.of_nat (S c))), (Z.ltb_spec (Z.of_nat c) (rl_limit l)); try lia;
    cbn; (eexists _, _; split; [reflexivity|]; by apply Hafter).
Qed.

Lemma allow_all_counts reqs seen w :
  Forall (λ r, window_of l r.2 = n) reqs → counts seen w →
  Z.of_nat (length seen + length reqs) ≤ int64_max →
  ∃ w', allow_all l reqs w = (Ok (first_of_each (rl_limit l) seen reqs), w').
Proof using Hredis.
  revert seen w. induction reqs as [|[key t] reqs IH]; intros seen w Hall Hc Hlen; simpl in *; [by exists w|].
  apply Forall_cons in Hall as [Hw Hall]. simpl in Hw.
  destruct (Allow_counts seen key (set_clock t w) Hw Hc ltac:(lia)) as (d & w1 & E1 & Hc1).
  destruct (IH (key :: seen) w1 Hall Hc1 ltac:(simpl; lia)) as (w2 & E2).
  exists w2. rewrite (bind_run _ _ _ tt (set_clock t w)) by done.
  rewrite (bind_run _ _ _ _ _ E1). by rewrite (bind_run _ _ _ _ _ E2).
Qed.
End limiter.

(** C34. While Redis works, the limiter admits exactly the first [limit] requests of
    each client within one window and refuses the others, however the clients
    interleave; nobody pays for another's requests. *)
Theorem limiter_admits_the_first_of_each `{Ext} l n reqs w :
  (∀ i, redis_fault i = None) → Forall (λ r, window_of l r.2 = n) reqs →
  (∀ k, w_redis w !! rate_key l k (snd (default ("", 0) (head reqs))) = None) →
  Z.of_nat (length reqs) ≤ int64_max →
  ∃ w', allow_all l reqs w = (Ok (first_of_each (rl_limit l) [] reqs), w').
Proof.
  intros Hredis Hall Hnone Hlen. destruct reqs as [|[key t] reqs]; [by exists w|].
  apply (allow_all_counts Hredis l n); [done| |done]. intros k. simpl. simpl in Hnone.
  apply Forall_cons in Hall as [Hw _]. specialize (Hnone k). unfold rate_key in Hnone.
  fold (window_of l t) in Hnone. simpl in Hw. by rewrite Hw in Hnone.
Qed.

Lemma limiter_admits_the_first_of_each_witness :
  ∃ w', allow_all (H:=demo_ext) (mkLimiter 2 Second)
      [("a", 100); ("a", 200); ("b", 250); ("a", 300)] demo_world =
    (Ok [true; true; true; false], w').
Proof.
  apply (limiter_admits_the_first_of_each (H:=demo_ext) (mkLimiter 2 Second)
           (window_of (mkLimiter 2 Second) 100)).
  - reflexivity.
  - repeat constructor; vm_compute; reflexivity.
  - reflexivity.
  - vm_compute. discriminate.
Defined.
