(* ===== verification/HistoryTheorems.v ===== *)
(** Account history: cursors survive the round trip through a client, and
    following them page by page gives the whole history, newest first, each
    entry once. *)
From S2P Require Import Prelude GoStrings GoTime Base64 GoTimeParse Json Apperr Failpoint Schema SchemaFacts Monad World Storage Idempotency Event Config Outbox LedgerModel LedgerRepo LedgerService EntryOrder LedgerFacts LedgerEffects Once LedgerInvariant System Demo Runs LedgerProgress LedgerTheorems.
Local Open Scope Z_scope.

(** * Cursors *)

Lemma decode_encodeCursor ts id : in_calendar ts → decodeCursor (encodeCursor ts id) = Some (ts, id).
Proof.
  intros Hts. unfold decodeCursor, encodeCursor. rewrite DecodeString_EncodeToString. cbn [mbind option_bind].
  change ("|" +:+ id) with (String "|" id). rewrite Cut_app by apply RFC3339Nano_plain.
  cbn [mbind option_bind]. by rewrite Parse_Format.
Qed.

(** A cursor read back from a client is the position it was made from: decoding
    what [encodeCursor] wrote gives the instant and the identifier, for every
    instant of the years 1 to 9999 and every identifier. *)
Theorem cursor_round_trips ts id :
  in_calendar ts → decodeCursor (encodeCursor ts id) = Some (ts, id).
Proof. apply decode_encodeCursor. Qed.

Lemma cursor_round_trips_witness :
  decodeCursor (encodeCursor (63863337600 * Second + 123456000) "uuid-7") =
    Some (63863337600 * Second + 123456000, "uuid-7").
Proof. apply cursor_round_trips. unfold in_calendar, Second. lia. Defined.

(** * Filtering a list with a boolean test *)

Section filter_b.
Context {A : Type} (f : A → bool).

Lemma elem_of_filter_b l x : x ∈ List.filter f l ↔ x ∈ l ∧ f x = true.
Proof. rewrite !list_elem_of_In. apply filter_In. Qed.

Lemma page_filter_all l : (∀ x, x ∈ l → f x = true) → List.filter f l = l.
Proof.
  induction l as [|x l IH]; intros Hl; [done|]. simpl. rewrite Hl by left. f_equal.
  apply IH. intros y Hy. apply Hl. by right.
Qed.

Lemma page_filter_none l : (∀ x, x ∈ l → f x = false) → List.filter f l = [].
Proof.
  induction l as [|x l IH]; intros Hl; [done|]. simpl. rewrite Hl by left.
  apply IH. intros y Hy. apply Hl. by right.
Qed.

Lemma filter_perm l1 l2 : l1 ≡ₚ l2 → List.filter f l1 ≡ₚ List.filter f l2.
Proof.
  induction 1 as [|x l1 l2 _ IH|x y l|l1 l2 l3 _ IH1 _ IH2]; simpl; [done|..].
  - destruct (f x); [by constructor|done].
  - destruct (f x), (f y); [constructor|done..].
  - by etrans.
Qed.

Lemma StronglySorted_filter_b (R : A → A → Prop) l :
  StronglySorted R l → StronglySorted R (List.filter f l).
Proof.
  induction 1 as [|x l _ IH Hx]; simpl; [constructor|]. destruct (f x); [|done].
  constructor; [done|]. apply Forall_forall. intros y [Hy _]%elem_of_filter_b.
  by eapply Forall_forall in Hx.
Qed.
End filter_b.

Lemma fmap_inj_on {A B} (f : A → B) l x y :
  NoDup (f <$> l) → x ∈ l → y ∈ l → f x = f y → x = y.
Proof.
  intros Hnd [i Hi]%list_elem_of_lookup [j Hj]%list_elem_of_lookup E.
  assert (i = j) as ->; [|congruence].
  eapply NoDup_lookup; [exact Hnd|..]; rewrite list_lookup_fmap; [rewrite Hi|rewrite Hj]; simpl;
    [done|by rewrite E].
Qed.

(** * History *)

Definition account_entries (account : string) (db : DB) : list entry_row :=
  List.filter (λ e, String.eqb (e_account_id e) account) (ledger_entries db).

(** The reference: all entries of the account, newest first. *)
Definition history (account : string) (db : DB) : list entry_row :=
  merge_sort newest_first (account_entries account db).

(** A client that follows the cursors. *)
Fixpoint list_all `{Ext} (fuel : nat) (account : string) (limit : Z) (cursor : string)
    : M (list Entry) :=
  match fuel with
  | O => mret []
  | S fuel =>
      page ← ListEntries account limit cursor;
      if String.eqb (NextCursor page) "" then mret (PageEntries page)
      else rest ← list_all fuel account limit (NextCursor page); mret (PageEntries page ++ rest)
  end.

Lemma ltb_asym s1 s2 : String.ltb s1 s2 = true → String.ltb s2 s1 = false.
Proof.
  intros [Hle Hne]%ltb_true_le. destruct (String.ltb s2 s1) eqn:E; [|done].
  apply ltb_true_le in E as [Hle' _]. destruct Hne. by apply (anti_symm String.le).
Qed.

#[local] Instance newest_first_trans : Transitive newest_first.
Proof.
  intros e1 e2 e3 [H1|[H1 L1]] [H2|[H2 L2]]; unfold newest_first; [lia..|].
  right. split; [congruence|]. by etrans.
Qed.
#[local] Instance newest_first_total : Total newest_first.
Proof.
  intros e1 e2. unfold newest_first. destruct (Z.lt_trichotomy (e_created_at e1) (e_created_at e2)) as [?|[E|?]];
    [by right; left| |by left; left].
  destruct (total String.le (e_id e1) (e_id e2)); [right|left]; right; split; done.
Qed.

(** Strictly before: what the query asks of an entry and a cursor. *)
Lemma older_spec x y :
  e_id x ≠ e_id y → older (e_created_at x) (Some (e_id x)) y = true ↔ newest_first x y.
Proof.
  intros Hne. unfold older, newest_first. rewrite orb_true_iff, andb_true_iff, Z.ltb_lt, Z.eqb_eq.
  split.
  - intros [?|[E L%ltb_true_le]]; [by left|right]. split; [done|apply L].
  - intros [?|[E L]]; [by left|right]. split; [done|].
    destruct (String.ltb (e_id y) (e_id x)) eqn:E'; [done|]. apply ltb_false_le in E'.
    destruct Hne. by apply (anti_symm String.le).
Qed.

Lemma older_irrefl x : older (e_created_at x) (Some (e_id x)) x = false.
Proof.
  unfold older. rewrite Z.ltb_irrefl, Z.eqb_refl. simpl.
  destruct (String.ltb (e_id x) (e_id x)) eqn:E; [|done]. pose proof (ltb_asym _ _ E). congruence.
Qed.


Section history.
Context (account : string) (db : DB) (Hwf : wf db).
Notation H := (history account db).

Lemma history_perm : H ≡ₚ account_entries account db.
Proof. apply merge_sort_Permutation. Qed.

Lemma history_sorted : StronglySorted newest_first H.
Proof. apply StronglySorted_merge_sort; apply _. Qed.

Lemma history_ids : NoDup (e_id <$> H).
Proof using Hwf.
  rewrite history_perm. unfold account_entries. pose proof (wf_entry_ids _ Hwf) as Hnd.
  induction (ledger_entries db) as [|e l IH]; simpl in *; [constructor|].
  apply NoDup_cons in Hnd as [Hn Hnd]. destruct (String.eqb _ _); [|by apply IH]. simpl.
  apply NoDup_cons. split; [|by apply IH]. intros (x & Ex & Hx)%list_elem_of_fmap. apply Hn.
  apply list_elem_of_fmap. exists x. split; [done|]. apply list_elem_of_In in Hx.
  apply list_elem_of_In. by apply filter_In in Hx as [? _].
Qed.

Lemma history_order x y : x ∈ H → y ∈ H → newest_first x y → newest_first y x → x = y.
Proof using Hwf.
  intros Hx Hy Hxy Hyx. apply (fmap_inj_on e_id H); [apply history_ids|done..|].
  destruct Hxy as [?|[? L1]], Hyx as [?|[? L2]]; [lia..|]. by apply (anti_symm String.le).
Qed.

(** Filtering the rows before sorting them is filtering the history. *)
Lemma history_filter f :
  merge_sort newest_first (List.filter f (account_entries account db)) = List.filter f H.
Proof using Hwf.
  pose proof (merge_sort_Permutation newest_first (List.filter f (account_entries account db))) as Hp.
  assert (List.filter f (account_entries account db) ≡ₚ List.filter f H) as Hf
    by (apply filter_perm; symmetry; apply history_perm).
  eapply StronglySorted_unique_strong with (R := newest_first).
  - intros x y Hx Hy. apply history_order.
    + rewrite Hp, Hf in Hx. by apply elem_of_filter_b in Hx as [? _].
    + by apply elem_of_filter_b in Hy as [? _].
  - apply StronglySorted_merge_sort; apply _.
  - apply StronglySorted_filter_b, history_sorted.
  - by rewrite Hp.
Qed.

(** What comes after position [k] is what is older than the entry there. *)
Lemma older_drop k x :
  H !! k = Some x →
  List.filter (older (e_created_at x) (Some (e_id x))) H = drop (S k) H.
Proof using Hwf.
  intros Hk. pose proof history_sorted as Hs. pose proof history_ids as Hnd.
  assert (∀ y, y ∈ H → newest_first x y → newest_first y x → x = y) as Hanti
    by (intros y; apply history_order; by eapply list_elem_of_lookup_2).
  rewrite <-(take_drop_middle H k x Hk) in Hs, Hnd, Hanti |- * at 1.
  rewrite fmap_app, fmap_cons in Hnd. apply NoDup_app in Hnd as (_ & Hn1 & [Hnx _]%NoDup_cons).
  apply StronglySorted_app in Hs as (Hcross & _ & [Hs2 Hx]%StronglySorted_inv).
  rewrite List.filter_app. simpl. rewrite older_irrefl, page_filter_none, page_filter_all; [done|..].
  - intros y Hy. apply older_spec.
    + intros E. apply Hnx. apply list_elem_of_fmap. eauto.
    + by eapply Forall_forall in Hx.
  - intros y Hy. apply not_true_is_false. intros Ho.
    assert (e_id x ≠ e_id y) as Hne.
    { intros E. apply (Hn1 (e_id y)); [apply list_elem_of_fmap; exists y; done|rewrite <-E; left]. }
    apply older_spec in Ho; [|done]. destruct Hne. f_equal. apply Hanti; [set_solver|done|].
    apply Hcross; [done|left].
Qed.
End history.

(** * Following the cursors *)

(** What a cursor can carry: PostgreSQL keeps microseconds and canonical
    identifiers, and the cursor's text the years 1 to 9999. *)
Definition readable `{Ext} (e : entry_row) : Prop :=
  in_calendar (e_created_at e) ∧ as_timestamptz (e_created_at e) = e_created_at e ∧
  e_id e ≠ "" ∧ uuid_in (e_id e) = Some (e_id e).

(** The cursor of the page that ends before position [n]. *)
Definition cursor_at (H : list entry_row) (n : nat) : string :=
  match H !! pred n with
  | Some e => if bool_decide (n < length H)%nat then encodeCursor (e_created_at e) (e_id e) else ""
  | None => ""
  end.

(** [cursor] is the one that continues at position [start]. *)
Definition continues (H : list entry_row) (start : nat) (cursor : string) : Prop :=
  (start = 0%nat ∧ cursor = "") ∨
  (∃ k x, start = S k ∧ H !! k = Some x ∧ cursor = encodeCursor (e_created_at x) (e_id x)).

Lemma encodeCursor_nonempty ts id : in_calendar ts → String.eqb (encodeCursor ts id) "" = false.
Proof.
  intros Hts. apply String.eqb_neq. intros E. pose proof (decode_encodeCursor ts id Hts) as Hd.
  by rewrite E in Hd.
Qed.

Section reads.
Context `{Ext}.

Lemma runs_query_at (Hcalm : calm) {A} (f : DB → pg A) a w db :
  w_db w = db → f db = PgOk a → runs (query f) w a db 0.
Proof. intros <- Hf. by apply runs_query. Qed.

Lemma runs_ret_at {A} (a : A) w db : w_db w = db → runs (mret a) w a db 0.
Proof. intros <-. apply ends_ret. Qed.
End reads.

Section pages.
Context `{Ext} (Hcalm : calm) (account : string) (db : DB) (Hwf : wf db).
Notation hist := (history account db).
Context (Hread : ∀ e, e ∈ hist → readable e).

Lemma select_history_first n :
  select_history account None n db = PgOk (take (Z.to_nat n) hist).
Proof.
  unfold select_history. simpl. do 2 f_equal. unfold history, account_entries. f_equal.
  apply filter_ext. intros e. by rewrite andb_true_r.
Qed.

Lemma select_history_next k x n :
  hist !! k = Some x →
  select_history account (Some (e_created_at x, e_id x)) n db = PgOk (take (Z.to_nat n) (drop (S k) hist)).
Proof using Hwf Hread.
  intros Hk. destruct (Hread x) as (_ & Hts & Hne & Hid); [by eapply list_elem_of_lookup_2|].
  unfold select_history, nullUUID. apply String.eqb_neq in Hne. rewrite Hne. unfold as_uuid_opt, as_uuid. rewrite Hid. simpl.
  rewrite Hts, <-(older_drop _ _ Hwf k x Hk), <-(history_filter _ _ Hwf).
  do 3 f_equal. unfold account_entries. induction (ledger_entries db) as [|e l IH]; [done|]. simpl.
  destruct (String.eqb (e_account_id e) account); simpl; [|done].
  destruct (older _ _ e); [|done]. by f_equal.
Qed.

(** The page's cut and its cursor, from one row more than asked for. *)
Lemma cut_page limit start :
  0 < limit →
  let entries := map entry_of_row (take (Z.to_nat (limit + 1)) (drop start hist)) in
  match entries !! Z.to_nat (limit - 1), bool_decide (limit < Z.of_nat (length entries)) with
  | Some last, true =>
      mkEntryPage (take (Z.to_nat limit) entries) (encodeCursor (EntCreatedAt last) (EntID last))
  | _, _ => mkEntryPage entries ""
  end =
  mkEntryPage (map entry_of_row (take (Z.to_nat limit) (drop start hist)))
    (cursor_at hist (start + Z.to_nat limit)).
Proof.
  intros Hl entries. set (n := Z.to_nat limit).
  assert (Z.to_nat (limit - 1) = pred n ∧ Z.to_nat (limit + 1) = S n ∧ (0 < n)%nat) as (E1 & E2 & Hn)
    by lia.
  assert (length entries = min (S n) (length hist - start)) as Elen
    by (unfold entries; rewrite length_map, length_take, length_drop, E2; done).
  rewrite E1. unfold cursor_at. replace (pred (start + n)) with (start + pred n)%nat by lia.
  assert (entries !! pred n = entry_of_row <$> hist !! (start + pred n)%nat) as ->.
  { unfold entries. rewrite E2. change (map entry_of_row) with (fmap (M:=list) entry_of_row).
    rewrite list_lookup_fmap, lookup_take_lt by lia. by rewrite lookup_drop. }
  case_bool_decide as Hlong.
  - rewrite bool_decide_true by lia.
    destruct (hist !! (start + pred n)%nat) as [e|] eqn:He; [|apply lookup_ge_None in He; lia].
    simpl. f_equal. unfold entries. change (map entry_of_row) with (fmap (M:=list) entry_of_row).
    rewrite <-fmap_take, take_take, E2. by rewrite Nat.min_l by lia.
  - assert (∀ l : list entry_row, (length l ≤ n)%nat → take n l = take (S n) l) as Hsame
      by (intros l ?; rewrite !take_ge by lia; done).
    rewrite (Hsame (drop start hist)) by (rewrite length_drop; lia). rewrite <-E2. fold entries.
    rewrite bool_decide_false by lia. by destruct (hist !! _).
Qed.

Lemma runs_page limit start cursor w a :
  w_db w = db → accounts db !! account = Some a → 0 < limit ≤ 500 → continues hist start cursor →
  runs (ListEntries account limit cursor) w
    (mkEntryPage (map entry_of_row (take (Z.to_nat limit) (drop start hist)))
                 (cursor_at hist (start + Z.to_nat limit))) db 0.
Proof using Hcalm Hwf Hread.
  intros Hdb Ha Hl Hc. unfold ListEntries. rewrite <-cut_page by lia. change 0%nat with (0 + 0)%nat.
  assert ((limit <=? 0) || (500 <? limit) = false) as -> by (apply orb_false_iff; lia).
  eapply ends_bind with (d1 := db).
  { unfold GetAccount. change 0%nat with (0 + 0)%nat. eapply ends_bind with (d1 := db).
    - apply runs_map_err. rewrite <-Hdb. apply runs_query_row; [done|]. by rewrite Hdb, Ha.
    - intros w1 (E1 & _). by apply runs_ret_at. }
  intros w1 (Hdb1 & _). change 0%nat with (0 + 0)%nat.
  eapply ends_bind with (a := match start with O => None | S k => (λ x, (e_created_at x, e_id x)) <$> hist !! k end).
  { destruct Hc as [[-> ->]|(k & x & -> & Hk & ->)]; [by apply runs_ret_at|].
    destruct (Hread x) as (Hx & _); [by eapply list_elem_of_lookup_2|].
    rewrite encodeCursor_nonempty, decode_encodeCursor, Hk by done. by apply runs_ret_at. }
  intros w2 (Hdb2 & _). change 0%nat with (0 + 0)%nat.
  eapply ends_bind; [by apply runs_map_err, (runs_query_at Hcalm)|]. intros w3 (Hdb3 & _).
  change 0%nat with (0 + 0)%nat. eapply ends_bind with (a := take (Z.to_nat (limit + 1)) (drop start hist)); [apply (runs_query_at Hcalm); [done|]|].
  - destruct Hc as [[-> ->]|(k & x & -> & Hk & ->)]; [apply select_history_first|].
    rewrite Hk. simpl. by apply select_history_next.
  - intros w4 (Hdb4 & _). by apply runs_ret_at.
Qed.

Lemma continues_at n :
  (0 < n)%nat → cursor_at hist n ≠ "" → continues hist n (cursor_at hist n) ∧ (n < length hist)%nat.
Proof.
  intros Hn. unfold cursor_at. destruct (hist !! pred n) as [x|] eqn:Hx; [|done].
  case_bool_decide as Hlt; [|done]. intros _. split; [|done]. right.
  exists (pred n), x. split; [lia|done].
Qed.

Lemma cursor_at_end n : (0 < n)%nat → cursor_at hist n = "" → drop n hist = [].
Proof using Hread.
  intros Hn. unfold cursor_at. destruct (hist !! pred n) as [x|] eqn:Hx.
  - case_bool_decide; intros Hc; [|by apply drop_ge; lia]. exfalso.
    destruct (Hread x) as (Ht & _); [by eapply list_elem_of_lookup_2|].
    pose proof (encodeCursor_nonempty _ (e_id x) Ht) as E. by rewrite Hc in E.
  - intros _. apply lookup_ge_None in Hx. apply drop_ge. lia.
Qed.

Lemma runs_list_all limit a :
  accounts db !! account = Some a → 0 < limit ≤ 500 →
  ∀ fuel start cursor w, w_db w = db → continues hist start cursor →
  (length hist - start < fuel)%nat →
  runs (list_all fuel account limit cursor) w (map entry_of_row (drop start hist)) db 0.
Proof using Hcalm Hwf Hread.
  intros Ha Hl. induction fuel as [|fuel IH]; intros start cursor w Hdb Hc Hf; [lia|]. simpl.
  change 0%nat with (0 + 0)%nat. eapply ends_bind; [by eapply runs_page|]. intros w1 (Hdb1 & _). simpl.
  set (n := (start + Z.to_nat limit)%nat).
  assert (map entry_of_row (drop start hist) =
    map entry_of_row (take (Z.to_nat limit) (drop start hist)) ++ map entry_of_row (drop n hist)) as ->.
  { rewrite <-map_app. f_equal. unfold n. by rewrite <-drop_drop, take_drop. }
  destruct (String.eqb_spec (cursor_at hist n) "") as [E|E].
  - rewrite (cursor_at_end n) by (done || lia). rewrite app_nil_r. by apply runs_ret_at.
  - destruct (continues_at n) as [Hc' Hn]; [lia|done|]. change 0%nat with (0 + 0)%nat.
    eapply ends_bind; [apply IH; [done..|lia]|]. intros w2 (Hdb2 & _). by apply runs_ret_at.
Qed.
End pages.

(** C33. Paging is complete: a client that starts without a cursor and asks again with
    the [next_cursor] of each answer, until it is empty, receives the account's
    entries newest first, every entry exactly once, whatever the page size from
    1 to 500, even among entries recorded at the same instant. *)
Theorem pages_are_the_history `{Ext} account limit w :
  calm → wf (w_db w) → is_Some (accounts (w_db w) !! account) → 0 < limit ≤ 500 →
  (∀ e, e ∈ account_entries account (w_db w) → readable e) →
  let all := history account (w_db w) in
  (∃ w', list_all (S (length all)) account limit "" w = (Ok (map entry_of_row all), w') ∧
         w_db w' = w_db w) ∧
  all ≡ₚ account_entries account (w_db w) ∧ NoDup (e_id <$> all) ∧ StronglySorted newest_first all.
Proof.
  intros Hcalm Hwf [a Ha] Hl Hread all. split_and!.
  - destruct (runs_list_all Hcalm account (w_db w) Hwf) with (limit := limit) (a := a)
      (fuel := S (length all)) (start := 0%nat) (cursor := "") (w := w)
      as (w' & E & Hd & _); [|done..|by left|unfold all; lia|by exists w'].
    intros e He. apply Hread. by rewrite <-history_perm.
  - apply history_perm.
  - by apply history_ids.
  - apply history_sorted.
Qed.

#[local] Instance readable_dec `{Ext} e : Decision (readable e).
Proof. unfold readable, in_calendar. apply _. Defined.

(** The bank's two entries, one to a page. *)
Lemma pages_are_the_history_witness :
  ∃ w', list_all (H := demo_ext) (S (length (history "bank" (w_db (demo4 (H := demo_ext))))))
          "bank" 1 "" (demo4 (H := demo_ext)) =
        (Ok (map entry_of_row (history "bank" (w_db (demo4 (H := demo_ext))))), w').
Proof.
  destruct (pages_are_the_history (H := demo_ext) "bank" 1 (demo4 (H := demo_ext))) as ((w' & E & _) & _).
  - apply demo_calm.
  - apply (reachable_wf (H := demo_ext) (H0 := demo_uuid)), demo4_reachable.
  - apply (bool_decide_unpack _). by vm_compute.
  - lia.
  - apply Forall_forall. apply (bool_decide_unpack _). by vm_compute.
  - by exists w'.
Defined.
