(* ===== verification/LoopTheorems.v ===== *)
(** The loops that run until they are told to stop: the publisher's, the delivery
    worker's and the consumer's. They end, they survive failures, and what the
    consumer commits it has handled. *)
From S2P Require Import Prelude GoStrings Json Apperr Failpoint Schema SchemaFacts Monad World Storage Idempotency Event Config Outbox LedgerModel LedgerRepo LedgerService Kafka Consumer Publisher Replay Webhook Writers LedgerInvariant System Demo LedgerTheorems OutboxFacts WorkerTheorems Delivery HttpFacts.
Local Open Scope Z_scope.

(** * Calls to the outside are counted upwards *)

Definition ticks (w w' : World) : Prop := (w_tick w ≤ w_tick w')%nat.

#[export] Instance ticks_preorder : PreOrder ticks.
Proof. unfold ticks. split; [intros w; lia|intros ???; lia]. Qed.

Section ticks.
Context `{Ext}.

#[export] Instance ticks_next_tick : Respects ticks next_tick.
Proof. intros w. unfold ticks. simpl. lia. Qed.
#[export] Instance ticks_Inc name labels : Respects ticks (Inc name labels).
Proof. intros w. apply Nat.le_refl. Qed.
#[export] Instance ticks_SetGauge name v : Respects ticks (SetGauge name v).
Proof. intros w. apply Nat.le_refl. Qed.
#[export] Instance ticks_Now : Respects ticks Now.
Proof. intros w. apply Nat.le_refl. Qed.
#[export] Instance ticks_NewString : Respects ticks NewString.
Proof. intros w. apply Nat.le_refl. Qed.
#[export] Instance ticks_Sleep d : Respects ticks (Sleep d).
Proof. intros w. apply Nat.le_refl. Qed.
#[export] Instance ticks_ctx_Err : Respects ticks ctx_Err.
Proof. unfold ctx_Err. respects_tac. Qed.
#[export] Instance ticks_EvalFailpoint ctx name : Respects ticks (EvalFailpoint ctx name).
Proof. intros w. unfold EvalFailpoint. destruct (Eval _ _ _) as [[] ?]; apply Nat.le_refl. Qed.
#[export] Instance ticks_sql {A} (f : Z → DB → pg (A * DB)) : Respects ticks (sql f).
Proof.
  unfold sql. apply respects_bind; [apply _..|]. intros n. destruct (stmt_fault n); [apply _|].
  intros w. destruct (f _ _) as [[]|]; apply Nat.le_refl.
Qed.
#[export] Instance ticks_query {A} (f : DB → pg A) : Respects ticks (query f).
Proof. unfold query. apply _. Qed.
#[export] Instance ticks_pool_sql {A} (f : Z → DB → pg (A * DB)) : Respects ticks (pool_sql f).
Proof.
  unfold pool_sql. apply respects_bind; [apply _..|]. intros n. destruct (stmt_fault n); [apply _|].
  intros w. destruct (f _ _) as [[]|]; [|apply Nat.le_refl].
  destruct (commit_fault n) as [[[] ?]|]; apply Nat.le_refl.
Qed.
#[export] Instance ticks_Publish msg : Respects ticks (Publish msg).
Proof.
  assert (Respects ticks (append_message msg)) by (intros w; apply Nat.le_refl). unfold Publish. respects_tac.
Qed.
#[export] Instance ticks_Backoff a b c : Respects ticks (Backoff a b c).
Proof. unfold Backoff, Float64. respects_tac. Qed.
#[export] Instance ticks_fetchBackoff n : Respects ticks (fetchBackoff n).
Proof. unfold fetchBackoff, Float64. respects_tac. Qed.

Context (cfg : Config).

#[export] Instance ticks_publishOne ctx rec : Respects ticks (publishOne cfg ctx rec).
Proof. unfold publishOne, fail, publishToDLQ, MarkPublished, MarkFailed. respects_tac. Qed.
#[export] Instance ticks_publish_batch ctx batch n : Respects ticks (publish_batch cfg ctx batch n).
Proof. revert n. induction batch; intros n; simpl; respects_tac. Qed.
#[export] Instance ticks_RunOnce ctx : Respects ticks (RunOnce cfg ctx).
Proof. unfold RunOnce, ClaimBatch, Backlog. respects_tac. Qed.
#[export] Instance ticks_post d : Respects ticks (post cfg d).
Proof. unfold post. respects_tac. intros w. apply Nat.le_refl. Qed.
#[export] Instance ticks_DeliverOnce ctx : Respects ticks (DeliverOnce cfg ctx).
Proof.
  assert (∀ d, Respects ticks (deliver cfg ctx d)).
  { intros d. unfold deliver, recordFailure, MarkFailedDelivery, MarkDelivered. respects_tac. }
  assert (∀ batch n, Respects ticks (deliver_batch cfg ctx batch n)).
  { intros batch. induction batch; intros n; simpl; respects_tac. }
  unfold DeliverOnce, ClaimDue. respects_tac.
Qed.

(** ** Passes return or panic *)

#[export] Instance handles_EvalFailpoint ctx name : Handles (EvalFailpoint ctx name).
Proof. intros w e w'. unfold EvalFailpoint. by destruct (Eval _ _ _) as [[] ?]. Qed.
#[export] Instance handles_Backoff a b c : Handles (Backoff a b c).
Proof. unfold Backoff, Float64. handles_tac. Qed.
#[export] Instance handles_RunOnce ctx : Handles (RunOnce cfg ctx).
Proof.
  assert (∀ rec, Handles (publishOne cfg ctx rec)).
  { intros rec. unfold publishOne, fail, publishToDLQ, Now. handles_tac. }
  assert (∀ batch n, Handles (publish_batch cfg ctx batch n)).
  { intros batch. induction batch; intros n; simpl; unfold ctx_Err; handles_tac. }
  unfold RunOnce, SetGauge. handles_tac.
Qed.
#[export] Instance handles_post d : Handles (post cfg d).
Proof. unfold post. handles_tac. Qed.
#[export] Instance handles_DeliverOnce ctx : Handles (DeliverOnce cfg ctx).
Proof.
  assert (∀ d, Handles (deliver cfg ctx d)).
  { intros d. unfold deliver, recordFailure. handles_tac. }
  assert (∀ batch n, Handles (deliver_batch cfg ctx batch n)).
  { intros batch. induction batch; intros n; simpl; unfold ctx_Err; handles_tac. }
  unfold DeliverOnce. handles_tac.
Qed.

(** Waiting makes one call to the outside. *)
Lemma wait_spec d w :
  ∃ b w', wait d w = (Ok b, w') ∧ w_tick w' = S (w_tick w) ∧ w_db w' = w_db w ∧
    (sleep_fault (w_tick w) ≠ None → b = true).
Proof.
  unfold wait, sleepCtx, mbind, ST_bind, try. simpl.
  destruct (sleep_fault (w_tick w)) as [err|]; by eexists _, _.
Qed.
End ticks.

(** * A pass that publishes [n] events leaves [n] fewer to publish *)

Definition unpublished (d : DB) : gset string :=
  dom (filter (λ p, o_status p.2 ≠ OPublished) (outbox_events d)).

Lemma elem_of_unpublished d id :
  id ∈ unpublished d ↔ ∃ o, outbox_events d !! id = Some o ∧ o_status o ≠ OPublished.
Proof.
  unfold unpublished. rewrite elem_of_dom. unfold is_Some. setoid_rewrite map_lookup_filter_Some. done.
Qed.

(** The rows [ids] are published. *)
Definition marked (d : DB) (ids : list string) : Prop :=
  ∀ id, id ∈ ids → ∃ o, outbox_events d !! id = Some o ∧ o_status o = OPublished.

Lemma marked_rows m d d' ids : rows_step m d d' → marked d ids → marked d' ids.
Proof.
  intros Hs Hm id Hid. destruct (Hm id Hid) as (o & Ho & Hp). specialize (Hs id). rewrite Ho in Hs.
  destruct (outbox_events d' !! id) as [o'|]; [|done]. exists o'. split; [done|].
  by rewrite (outbox_steps_published _ _ _ Hs Hp).
Qed.

Lemma unpublished_drop m d d' ids :
  rows_step m d d' → NoDup ids → (∀ id, id ∈ ids → id ∈ unpublished d) → marked d' ids →
  (size (unpublished d') + length ids ≤ size (unpublished d))%nat.
Proof.
  intros Hs Hnd Hin Hm. rewrite <-(size_list_to_set (C:=gset string) ids) by done.
  rewrite <-size_union.
  - apply subseteq_size. intros id [Hid|Hid%elem_of_list_to_set]%elem_of_union; [|by apply Hin].
    apply elem_of_unpublished in Hid as (o' & Ho' & Hp). apply elem_of_unpublished.
    specialize (Hs id). rewrite Ho' in Hs. destruct (outbox_events d !! id) as [o|]; [|done].
    exists o. split; [done|]. intros Hpub. by rewrite (outbox_steps_published _ _ _ Hs Hpub) in Hp.
  - intros id Hid Hids%elem_of_list_to_set. apply elem_of_unpublished in Hid as (o & Ho & Hp).
    destruct (Hm id Hids) as (o' & Ho' & Hp'). congruence.
Qed.

Section drain.
Context `{Ext} (cfg : Config).

Lemma MarkPublished_marks rec w w' :
  known (w_db w) rec → MarkPublished (ID rec) w = (Ok tt, w') → marked (w_db w') [ID rec].
Proof.
  intros (Hu & o & Ho & _) (db' & Hs & ->)%map_err_Ok%pool_sql_Ok id ->%list_elem_of_singleton.
  unfold sql_mark_published, as_uuid in Hs. rewrite Hu in Hs. simpl in Hs. rewrite Ho in Hs. simpl.
  destruct (decide (o_status o = OPublished)); [simplify_eq; eauto|].
  apply pg_bind_Ok in Hs as (d & Hd & Hs); simplify_eq. simpl in Hd. unfold update_outbox in Hd.
  rewrite Ho in Hd. pg_inv. simpl. rewrite lookup_insert_eq. eauto.
Qed.

Lemma publishOne_marks ctx rec w w' :
  known (w_db w) rec → publishOne cfg ctx rec w = (Ok true, w') → marked (w_db w') [ID rec].
Proof.
  intros Hk Hr. unfold publishOne in Hr. set (ctx' := if String.eqb _ "" then _ else _) in Hr.
  apply bind_Ok in Hr as (o & w1 & E1 & Hr).
  pose proof (respects (R:=aloof) (m:=EvalFailpoint ctx' BeforeKafkaPublish) w) as [Hd1 _].
  rewrite E1 in Hd1. simpl in Hd1.
  destruct o; [by apply bind_Ok in Hr as (? & ? & _ & ?%ret_Ok); naive_solver|].
  apply bind_Ok in Hr as (r & w2 & E2 & Hr).
  destruct r as [err|[]]; [by apply bind_Ok in Hr as (? & ? & _ & ?%ret_Ok); naive_solver|].
  apply try_Ok_inr, Publish_Ok in E2 as [Hd2 _].
  apply bind_Ok in Hr as (o & w3 & E3 & Hr).
  pose proof (respects (R:=aloof) (m:=EvalFailpoint ctx' AfterKafkaPublish) w2) as [Hd3 _].
  rewrite E3 in Hd3. simpl in Hd3. destruct o; [by apply ret_Ok in Hr as [? _]|].
  apply bind_Ok in Hr as (r & w4 & E4 & Hr).
  destruct r as [err|[]]; [by apply ret_Ok in Hr as [? _]|]. apply ret_Ok in Hr as [_ <-].
  apply try_Ok_inr in E4. eapply MarkPublished_marks; [|exact E4]. by rewrite Hd3, Hd2, Hd1.
Qed.

Lemma publish_batch_marks ctx batch : ∀ n w n' e w',
  wf (w_db w) → Forall (known (w_db w)) batch → publish_batch cfg ctx batch n w = (Ok (n', e), w') →
  ∃ ids, ids `sublist_of` (ID <$> batch) ∧ n' = n + Z.of_nat (length ids) ∧ marked (w_db w') ids.
Proof.
  induction batch as [|rec batch IH]; intros n w n' e w' Hwf Hk Hr; simpl in Hr.
  { apply ret_Ok in Hr as [[= <- <-] <-]. exists []. split_and!; [done|simpl; lia|by intros ? ?%not_elem_of_nil]. }
  apply Forall_cons in Hk as [Hrec Hk]. apply bind_Ok in Hr as (o & w1 & E1 & Hr).
  pose proof (respects (R:=aloof) (m:=ctx_Err) w) as [Hd1 _]. rewrite E1 in Hd1. simpl in Hd1.
  rewrite <-Hd1 in *. destruct o as [err|].
  { apply ret_Ok in Hr as [[= <- <-] <-]. exists [].
    split_and!; [apply sublist_nil_l|simpl; lia|by intros ? ?%not_elem_of_nil]. }
  apply bind_Ok in Hr as (ok & w2 & E2 & Hr).
  pose proof (sends_publishOne cfg ctx rec w1 Hrec Hwf) as (Hwf2 & Hrows & _). rewrite E2 in Hwf2, Hrows.
  simpl in Hwf2, Hrows.
  assert (Forall (known (w_db w2)) batch) as Hk2
    by (eapply Forall_impl; [exact Hk|]; intros r; by eapply known_rows).
  destruct (IH _ _ _ _ _ Hwf2 Hk2 Hr) as (ids & Hsub & -> & Hm).
  destruct ok; [|exists ids; split_and!; [by apply sublist_cons|done|done]].
  exists (ID rec :: ids). split_and!; [by apply sublist_skip|simpl; lia|].
  apply publishOne_marks in E2; [|done].
  pose proof (sends_publish_batch cfg ctx batch (n + 1) w2 Hwf2 Hk2 Hwf2) as (_ & Hrows2 & _).
  rewrite Hr in Hrows2. simpl in Hrows2.
  intros id [->|Hid]%elem_of_cons; [|by apply Hm].
  eapply marked_rows; [exact Hrows2|exact E2|left].
Qed.
(** RETURNING gives every updated row once. *)
Definition returns_each : Prop := ∀ n l, returning_order n l ≡ₚ l.

Lemma ClaimBatch_ids wid n ttl w recs w' :
  returns_each → ClaimBatch wid n ttl w = (Ok recs, w') →
  NoDup (ID <$> recs) ∧ ∀ id, id ∈ ID <$> recs → id ∈ unpublished (w_db w).
Proof.
  intros Hret Hr. unfold ClaimBatch in Hr. apply bind_Ok in Hr as (tick & w1 & [-> <-]%gets_Ok & Hr).
  apply map_err_Ok, pool_sql_Ok in Hr as (db' & Hs & ->). unfold sql_claim_batch in Hs.
  apply pg_bind_Ok in Hs as (ids & Hids & Hs). apply pg_bind_Ok in Hs as (d & Hd & [= <- <-]).
  set (l := returning_order (w_tick w) ids). assert (l ≡ₚ ids) as Hl by apply Hret.
  assert (ID <$> omap (λ id, scanRecord id <$> outbox_events d !! id) l `sublist_of` l) as Hsub.
  { clear Hl. induction l as [|id l IH]; simpl; [done|]. destruct (outbox_events d !! id); simpl;
      [by apply sublist_skip|by apply sublist_cons]. }
  split.
  - eapply sublist_NoDup; [|exact Hsub]. rewrite Hl. unfold claimed_ids, limit in Hids.
    destruct (n <? 0); [done|]. apply pg_bind_Ok in Hids as (rows & [= <-] & [= <-]).
    rewrite fmap_take. eapply sublist_NoDup; [|apply sublist_take]. unfold by_created.
    rewrite merge_sort_Permutation. apply NoDup_fst_map_to_list.
  - intros id Hid. assert (id ∈ ids) as Hin.
    { rewrite <-Hl. eapply elem_of_submseteq; [exact Hid|]. by apply sublist_submseteq. }
    destruct (claimed_ids_Ok _ _ _ _ _ _ Hids Hin) as (o & Ho & Hc). apply elem_of_unpublished.
    exists o. split; [done|]. by destruct (claimable_status _ _ _ Hc) as [-> | ->].
Qed.

(** What a loop of passes keeps. *)
Definition drainable (w : World) : Prop := wf (w_db w) ∧ canonical_keys (w_db w).

Lemma canonical_rows m d d' : rows_step m d d' → canonical_keys d → canonical_keys d'.
Proof.
  intros Hs Hc id [o Ho]. apply Hc. specialize (Hs id). rewrite Ho in Hs.
  by destruct (outbox_events d !! id).
Qed.

Lemma RunOnce_drains ctx w n e w' :
  returns_each → drainable w → RunOnce cfg ctx w = (Ok (n, e), w') →
  0 ≤ n ∧ drainable w' ∧ (w_tick w ≤ w_tick w')%nat ∧
  (size (unpublished (w_db w')) + Z.to_nat n ≤ size (unpublished (w_db w)))%nat.
Proof.
  intros Hret [Hwf Hcan] Hr.
  pose proof (sends_RunOnce cfg ctx w Hcan Hwf Hwf) as (Hwf' & Hrows & _).
  pose proof (respects (R:=ticks) (m:=RunOnce cfg ctx) w) as Ht. rewrite Hr in Hwf', Hrows, Ht. simpl in *.
  assert (∃ ids, n = Z.of_nat (length ids) ∧ NoDup ids ∧ (∀ id, id ∈ ids → id ∈ unpublished (w_db w)) ∧
    marked (w_db w') ids) as (ids & -> & Hnd & Hin & Hm).
  { unfold RunOnce in Hr. apply bind_Ok in Hr as (r & w1 & E1 & Hr).
    pose proof (respects (R:=aloof) (m:=try Backlog) w) as [Hd1 _]. rewrite E1 in Hd1. simpl in Hd1.
    apply bind_Ok in Hr as (u & w2 & E2 & Hr).
    assert (w_db w2 = w_db w1) as Hd2.
    { destruct r as [err|k]; [by apply ret_Ok in E2 as [_ <-]|].
      pose proof (aloof_SetGauge "ledger_outbox_backlog" k w1) as [Hd _].
      rewrite E2 in Hd. exact Hd. }
    rewrite <-Hd1, <-Hd2 in *. apply bind_Ok in Hr as (r3 & w3 & E3 & Hr). destruct r3 as [err|batch].
    - apply ret_Ok in Hr as [[= <- <-] <-]. exists [].
      split_and!; [done|constructor|by intros ? ?%not_elem_of_nil..].
    - apply try_Ok_inr in E3. destruct (ClaimBatch_ids _ _ _ _ _ _ Hret E3) as [Hnd Hin].
      pose proof (respects (R:=publisher_step (OutboxMaxAttempts cfg))
        (m:=ClaimBatch (OutboxWorkerID cfg) (OutboxBatchSize cfg) (OutboxClaimTTL cfg)) w2 Hwf) as [Hwf3 _].
      rewrite E3 in Hwf3. simpl in Hwf3.
      destruct (publish_batch_marks ctx batch _ _ _ _ _ Hwf3 (ClaimBatch_known cfg _ _ _ _ _ _ Hcan Hwf E3) Hr)
        as (ids & Hsub & -> & Hm).
      exists ids. split_and!; [done|by eapply sublist_NoDup| |done].
      intros id Hid. apply Hin. eapply elem_of_submseteq; [exact Hid|]. by apply sublist_submseteq. }
  split; [lia|]. split; [split; [done|by eapply canonical_rows]|]. split; [done|].
  rewrite Nat2Z.id. by eapply unpublished_drop.
Qed.

(** The context ends: from the [t]-th call to the outside on, no wait goes on. *)
Definition ends_by (t : nat) : Prop := ∀ n, (t ≤ n)%nat → sleep_fault n ≠ None.

Lemma publisher_loop_returns t ctx : 0 < OutboxBatchSize cfg → returns_each → ends_by t →
  ∀ fuel w, drainable w → (size (unpublished (w_db w)) + (t - w_tick w) < fuel)%nat →
  (∃ w', publisher_loop cfg fuel ctx w = (Ok true, w')) ∨
  (∃ p w', publisher_loop cfg fuel ctx w = (Panic p, w')).
Proof.
  intros Hb Hret Ht. induction fuel as [|fuel IH]; intros w Hw Hf; [lia|]. simpl.
  unfold mbind, ST_bind.
  destruct (RunOnce cfg ctx w) as [[[n e]|e|p] w1] eqn:E1; [|by destruct (handles w e w1 E1)|by right; eexists _, _].
  destruct (RunOnce_drains ctx w n e w1 Hret Hw E1) as (Hn & Hw1 & Htick & Hsize). simpl.
  destruct (OutboxBatchSize cfg <=? n) eqn:Efull; [apply IH; [done|lia]|].
  destruct (wait_spec (OutboxPollInterval cfg) w1) as (b & w2 & E2 & Ht2 & Hd2 & Hb2).
  rewrite E2. destruct b; [left; by eexists|].
  apply IH; [by unfold drainable; rewrite Hd2|]. rewrite Hd2, Ht2.
  destruct (decide (t ≤ w_tick w1)%nat) as [Hle|]; [|lia]. by specialize (Hb2 (Ht _ Hle)).
Qed.
End drain.

(** C38. The publisher shuts down: with a batch size of at least one it cannot
    drain for ever, since a full batch leaves that many fewer events to publish.
    Once waiting is interrupted by the end of the context, [Run] returns, within
    as many passes as there are events to publish and calls to the outside until
    then; the only other end is a panic armed by a failpoint or a bad
    configuration. *)
Theorem publisher_returns_on_shutdown `{Ext} cfg ctx w t fuel :
  0 < OutboxBatchSize cfg → returns_each → ends_by t → drainable w →
  (size (unpublished (w_db w)) + (t - w_tick w) < fuel)%nat →
  (∃ w', RunPublisher cfg fuel ctx w = (Ok true, w')) ∨
  (∃ p w', RunPublisher cfg fuel ctx w = (Panic p, w')).
Proof.
  intros Hb Hret Ht Hw Hf. unfold RunPublisher. destruct (_ <=? 0); [right; by eexists _, _|].
  by eapply publisher_loop_returns.
Qed.

(** The demonstration, shut down at the third call to the outside. *)
Definition shutdown_ext : Ext := {|
  NewString_nth := NewString_nth (Ext := demo_ext);
  uuid_in := uuid_in (Ext := demo_ext);
  PgError_Error := PgError_Error (Ext := demo_ext);
  stmt_fault _ := None;
  begin_fault _ := None;
  commit_fault _ := None;
  sleep_fault n := if (3 <=? n)%nat then Some ECanceled else None;
  ctx_fault _ := None;
  publish_fault _ := None;
  redis_fault _ := None;
  http_result _ := inr 200;
  time_error_text := time_error_text (Ext := demo_ext);
  NewRequest_err _ := None;
  jsonb_text := jsonb_text (Ext := demo_ext);
  Int63n_nth _ _ := 0;
  Float64_bits _ := 0;
  returning_order _ l := l;
|}.

Lemma shutdown_ends : ends_by (H := shutdown_ext) 3.
Proof. intros n Hn. destruct n as [|[|[|n]]]; [lia..|done]. Qed.

Lemma shutdown_drainable : drainable (H := shutdown_ext) (demo3 (H := demo_ext)).
Proof.
  split; [apply (reachable_wf (H := demo_ext) (H0 := demo_uuid)), demo3_reachable|by intros id _].
Qed.

Lemma publisher_returns_on_shutdown_witness :
  (∃ w', RunPublisher (H := shutdown_ext) cfg 10 Background (demo3 (H := demo_ext)) = (Ok true, w')) ∨
  (∃ p w', RunPublisher (H := shutdown_ext) cfg 10 Background (demo3 (H := demo_ext)) = (Panic p, w')).
Proof.
  apply (publisher_returns_on_shutdown (H := shutdown_ext) cfg Background (demo3 (H := demo_ext)) 3).
  - vm_compute. reflexivity.
  - intros n l. reflexivity.
  - apply shutdown_ends.
  - apply shutdown_drainable.
  - apply Nat.ltb_lt. vm_compute. reflexivity.
Defined.

(** A batch size of zero, which [Load] accepts, makes every pass a full one: the
    loop never comes to its wait, and no end of the context stops it. *)
Lemma zero_batch_never_returns `{Ext} cfg ctx fuel :
  OutboxBatchSize cfg ≤ 0 → returns_each → ∀ w, drainable w →
  (publisher_loop cfg fuel ctx w).1 ≠ Ok true.
Proof.
  intros Hb Hret. induction fuel as [|fuel IH]; intros w Hw; [done|]. simpl. unfold mbind, ST_bind.
  destruct (RunOnce cfg ctx w) as [[[n e]|e|p] w1] eqn:E1; [|done..].
  destruct (RunOnce_drains cfg ctx w n e w1 Hret Hw E1) as (Hn & Hw1 & _). simpl.
  rewrite (proj2 (Z.leb_le (OutboxBatchSize cfg) n)) by lia. by apply IH.
Qed.

(** * The consumer *)

Section consumer.
Context `{Ext} `{Broker}.

Lemma lift_run {A} (m : M A) w r : lift m (w, r) = ((m w).1, ((m w).2, r)).
Proof. unfold lift. simpl. by destruct (m w). Qed.

(** A promise about messages that a handler which returns no error has kept, and
    that no later call breaks; it is a fact about the database. *)
Record keeps_promise (handle : KafkaMessage → M unit) (P : KafkaMessage → DB → Prop) : Prop := {
  promise_made msg w w' : handle msg w = (Ok tt, w') → P msg (w_db w');
  promise_kept msg msg' w : P msg (w_db w) → P msg (w_db (handle msg' w).2);
}.

(** The messages from [start] up to [stop] were handled, or were logged as failed. *)
Definition handled (P : KafkaMessage → DB → Prop) (start stop : nat) (w : World) (r : Reader) : Prop :=
  ∀ i msg, (start ≤ i < stop)%nat → partition !! i = Some msg → P msg (w_db w) ∨ i ∈ rd_failed r.

(** Between two rounds: every message fetched. *)
Definition accounted_for (P : KafkaMessage → DB → Prop) (start : nat) (w : World) (r : Reader) : Prop :=
  (start ≤ rd_committed r ≤ rd_position r)%nat ∧ handled P start (rd_position r) w r.

Lemma accounted_db P start w w' r :
  w_db w' = w_db w → accounted_for P start w r → accounted_for P start w' r.
Proof. unfold accounted_for, handled. by intros ->. Qed.

(** One round with a message. *)
Lemma accounted_next handle P start w r msg o w1 :
  keeps_promise handle P → accounted_for P start w r →
  partition !! rd_position r = Some msg → handle msg w = (o, w1) →
  let r1 c f := mkReader (S (rd_position r)) c f in
  (o = Ok tt → ∀ c, c = rd_committed r ∨ c = S (rd_position r) →
     accounted_for P start w1 (r1 c (rd_failed r))) ∧
  accounted_for P start w1 (r1 (rd_committed r) (rd_failed r ++ [rd_position r])).
Proof.
  intros [Hmade Hkept] [Hc Hall] Hmsg Ho r1.
  assert (∀ m, P m (w_db w) → P m (w_db w1)) as Hstable.
  { intros m Hm. apply (Hkept m msg w) in Hm. by rewrite Ho in Hm. }
  split.
  - intros -> c Hcc. split; [simpl; lia|]. intros i m Hi Hm. simpl in *.
    destruct (decide (i = rd_position r)) as [->|].
    + simplify_eq. left. by eapply Hmade.
    + destruct (Hall i m) as [?|?]; [lia|done|left; auto|by right].
  - split; [simpl; lia|]. intros i m Hi Hm. simpl in *. rewrite elem_of_app.
    destruct (decide (i = rd_position r)) as [->|]; [right; right; left|].
    destruct (Hall i m) as [?|?]; [lia|done|left; auto|by right; left].
Qed.

(** The same database, and at least as many calls to the outside. *)
Definition later (w w' : World) : Prop := w_db w' = w_db w ∧ (w_tick w ≤ w_tick w')%nat.

Lemma FetchMessage_cases w r :
  (∃ e w', FetchMessage (w, r) = (Ok (inl e), (w', r)) ∧ later w w') ∨
  (∃ msg w', partition !! rd_position r = Some msg ∧ later w w' ∧
     FetchMessage (w, r) = (Ok (inr (rd_position r, msg)),
                            (w', mkReader (S (rd_position r)) (rd_committed r) (rd_failed r)))).
Proof.
  unfold FetchMessage, mbind, ST_bind, lift. simpl.
  assert (later w (set_tick (S (w_tick w)) w)) as Hl by (split; [done|simpl; lia]).
  destruct (fetch_fault _) as [e|]; [left; by eexists _, _|]. simpl.
  destruct (partition !! rd_position r) as [msg|]; [right|left]; by eexists _, _.
Qed.

Lemma CommitMessages_cases i w r :
  ∃ w' c, CommitMessages i (w, r) = (Ok tt, (w', mkReader (rd_position r) c (rd_failed r))) ∧
    (c = rd_committed r ∨ c = S i) ∧ later w w'.
Proof.
  unfold CommitMessages, mbind, ST_bind, lift. simpl.
  assert (later w (set_tick (S (w_tick w)) w)) as Hl by (split; [done|simpl; lia]).
  destruct (offset_fault _) as [[[] err]|]; eexists _.
  - exists (S i). split; [done|]. auto.
  - exists (rd_committed r). split; [by destruct r|]. auto.
  - exists (S i). split; [done|]. auto.
Qed.

Lemma pause_cases failures t w r : ends_by t →
  ∃ b w', lift (delay ← fetchBackoff failures; wait delay) (w, r) = (Ok b, (w', r)) ∧ later w w' ∧
    (w_tick w < w_tick w')%nat ∧ ((t ≤ w_tick w)%nat → b = true).
Proof.
  intros Ht. rewrite lift_run. unfold fetchBackoff, Float64. unfold mbind, ST_bind. simpl.
  set (w1 := set_tick (S (w_tick w)) w).
  destruct (wait_spec (fetch_backoff_with failures (Float64_bits (w_tick w) mod 2 ^ 53)) w1)
    as (b & w2 & E & Ht2 & Hd & Hb).
  rewrite E. simpl. exists b, w2. split; [done|]. unfold w1 in *. simpl in *.
  split_and!; [split; [exact Hd|lia]|lia|]. intros Hle. apply Hb, Ht. lia.
Qed.

(** How a run of the loop ends: by returning or by a panic of the handler, never
    with an error, and with [enough] fuel it does not run out of it; whatever the
    group will not read again was handled or logged. *)
Definition consumer_end (P : KafkaMessage → DB → Prop) (start : nat) (enough : Prop)
    (res : outcome bool * (World * Reader)) : Prop :=
  let '(o, (w, r)) := res in
  (start ≤ rd_committed r)%nat ∧ handled P start (rd_committed r) w r ∧
  match o with Ok b => enough → b = true | Err _ => False | Panic _ => True end.

Lemma consumer_end_weaken P start (A B : Prop) res :
  (B → A) → consumer_end P start A res → consumer_end P start B res.
Proof.
  destruct res as [o [w r]]. intros HAB (? & ? & He). split_and!; [done..|]. destruct o; auto.
Qed.

Lemma accounted_end P start enough o w r :
  accounted_for P start w r → match o with Ok b => enough → b = true | Err _ => False | Panic _ => True end →
  consumer_end P start enough (o, (w, r)).
Proof.
  intros [Hc Hh] Ho. split_and!; [lia| |done]. intros i msg Hi. apply Hh. lia.
Qed.

(** The rest of a round, after the handler. *)
Lemma round_end handle P start t w r msg (o : outcome unit) w1 failures fuel :
  keeps_promise handle P → accounted_for P start w r → partition !! rd_position r = Some msg →
  handle msg w = (o, w1) → ticks w w1 →
  (∀ w' r', accounted_for P start w' r' → rd_position r' = S (rd_position r) → ticks w w' →
     consumer_end P start ((length partition - rd_position r') + (t - w_tick w') < fuel)%nat
       (consumer_loop handle fuel failures (w', r'))) →
  let r1 := mkReader (S (rd_position r)) (rd_committed r) (rd_failed r) in
  consumer_end P start ((length partition - rd_position r) + (t - w_tick w) < S fuel)%nat
    ((r ← try (lift (handle msg));
      match r with
      | inl _ =>
          consumed (Topic msg) "failure";;
          on_reader (λ r, mkReader (rd_position r) (rd_committed r)
                            (rd_failed r ++ [pred (rd_position r1)]))
      | inr _ => CommitMessages (pred (rd_position r1));; consumed (Topic msg) "success"
      end;;
      consumer_loop handle fuel failures) (w, r1)).
Proof.
  intros HP Ha Hmsg E Ht IH r1. cbn [rd_position r1 pred].
  destruct (accounted_next handle P start w r msg o w1 HP Ha Hmsg E) as [Hok Herr].
  assert ((rd_position r < length partition)%nat) as Hpos by by eapply lookup_lt_Some.
  assert (∀ w', ticks w w' →
    (length partition - rd_position r + (t - w_tick w) < S fuel)%nat →
    (length partition - S (rd_position r) + (t - w_tick w') < fuel)%nat) as Hfuel
    by (unfold ticks; intros; lia).
  assert (try (lift (handle msg)) (w, r1) =
    match o with Ok u => (Ok (inr u), (w1, r1)) | Err e => (Ok (inl e), (w1, r1)) | Panic p => (Panic p, (w1, r1)) end)
    as Etry by (unfold try; rewrite lift_run, E; by destruct o).
  unfold mbind at 1, ST_bind at 1. rewrite Etry. destruct o as [[]|e|p].
  - destruct (CommitMessages_cases (rd_position r) w1 r1) as (w2 & c & E2 & Hc & Hl2).
    unfold mbind, ST_bind. rewrite E2. simpl. set (w3 := set_metrics _ w2).
    assert (ticks w w3) as Ht3 by (destruct Hl2; unfold ticks in *; simpl; lia).
    eapply consumer_end_weaken; [by apply (Hfuel w3)|]. apply (IH w3 (mkReader (S (rd_position r)) c (rd_failed r)));
      [|done..]. apply (accounted_db _ _ w1); [apply Hl2|]. by apply Hok.
  - unfold mbind, ST_bind. simpl. set (w3 := set_metrics _ w1).
    eapply consumer_end_weaken; [by apply (Hfuel w3)|].
    apply (IH w3 (mkReader (S (rd_position r)) (rd_committed r) (rd_failed r ++ [rd_position r])));
      [|done..]. by apply (accounted_db _ _ w1).
  - destruct Ha as [Hc Hh]. split_and!; [simpl; lia| |done]. intros i m Hi Hm. simpl in Hi.
    destruct (Hh i m) as [Hp|?]; [lia|done|left|by right].
    apply (promise_kept _ _ HP m msg w) in Hp. by rewrite E in Hp.
Qed.

Lemma consumer_loop_end handle P start t :
  keeps_promise handle P → (∀ msg, Respects ticks (handle msg)) → ends_by t →
  ∀ fuel failures w r, accounted_for P start w r →
  consumer_end P start ((length partition - rd_position r) + (t - w_tick w) < fuel)%nat
    (consumer_loop handle fuel failures (w, r)).
Proof.
  intros HP Hticks Ht. induction fuel as [|fuel IH]; intros failures w r Ha.
  { apply accounted_end; [done|lia]. }
  cbn [consumer_loop]. destruct (FetchMessage_cases w r) as [(e & w1 & E1 & Hl1)|(msg & w1 & Hmsg & Hl1 & E1)];
    rewrite (bind_run _ _ _ _ _ E1); apply (accounted_db _ _ _ w1) in Ha; [|apply Hl1| |apply Hl1].
  - destruct e; [by apply accounted_end..|].
    unfold consumed. rewrite (bind_run _ _ _ tt (set_metrics (w_metrics w1 ++ [("ledger_kafka_consume_total",
      [""; "fetch_error"])]) w1, r)) by done.
    set (w2 := set_metrics _ w1).
    destruct (pause_cases (wrap64 (failures + 1)) t w2 r Ht) as (b & w3 & E3 & Hl3 & Hlt & Hb).
    rewrite (bind_run _ _ _ _ _ E3). apply (accounted_db _ _ _ w3) in Ha; [|apply Hl3].
    destruct b; [by apply accounted_end|]. eapply consumer_end_weaken; [|by apply IH].
    destruct Hl1 as [_ Hl1], Hl3 as [_ Hl3]. simpl in Hl3, Hlt. intros Henough.
    destruct (decide (t ≤ w_tick w2)%nat) as [Hle|Hgt]; [by specialize (Hb Hle)|].
    simpl in Hgt. lia.
  - destruct (handle msg w1) as [o w2] eqn:E2.
    pose proof (respects (R:=ticks) (m:=handle msg) w1) as Ht2. rewrite E2 in Ht2.
    eapply consumer_end_weaken; [|by eapply (round_end handle P start t w1 r msg o w2 0 fuel); eauto].
    destruct Hl1. lia.
Qed.
End consumer.

(** * The webhook worker as a consumer *)

Section worker.
Context `{Ext} (cfg : Config).

(** A delivery is queued for every endpoint, if the message is an event at all. *)
Definition queued (msg : KafkaMessage) (db : DB) : Prop :=
  ∀ env, Value msg ≫= decode (A:=Envelope) = Some env → EventID env ≠ "" →
  ∀ e, e ∈ WebhookEndpoints cfg →
  ∃ ev, uuid_in (EventID env) = Some ev ∧ has_delivery db ev e.

Definition queue_grows (w w' : World) : Prop :=
  webhook_deliveries (w_db w) ⊆ webhook_deliveries (w_db w').

#[export] Instance queue_grows_preorder : PreOrder queue_grows.
Proof. unfold queue_grows. split; [by intros w|by intros ??? ? ?; etrans]. Qed.

#[local] Instance queue_grows_keeps {A} (m : M A) :
  Respects (keeps (λ d, webhook_deliveries d)) m → Respects queue_grows m.
Proof. intros Hm w. unfold queue_grows. by rewrite (Hm w). Qed.

#[local] Instance queue_grows_Enqueue d : Respects queue_grows (Enqueue d).
Proof.
  unfold Enqueue. apply respects_map_err. intros w. unfold queue_grows.
  destruct (pool_sql_end (sql_enqueue d) w) as [_ [->|[b Hs]]]; [done|].
  revert Hs. generalize (w_db (pool_sql (sql_enqueue d) w).2) as db'. intros db' Hs.
  unfold sql_enqueue in Hs. apply pg_bind_Ok in Hs as (id & _ & Hs). apply pg_bind_Ok in Hs as (ev & _ & Hs).
  destruct (event_endpoint_exists _ _ _); [by simplify_eq|].
  apply pg_bind_Ok in Hs as (d' & Hd & Hs). simplify_eq. simpl in Hd. unfold insert_delivery in Hd.
  pg_inv. by apply insert_subseteq.
Qed.

Lemma queue_grows_HandleEvent ctx msg : Respects queue_grows (HandleEvent cfg ctx msg).
Proof.
  assert (∀ env p es, Respects queue_grows (enqueue_all env p es)).
  { intros env p es. unfold enqueue_all. induction es; simpl; respects_tac. }
  unfold HandleEvent. respects_tac.
Qed.

Lemma HandleEvent_promise ctx : keeps_promise (HandleEvent cfg ctx) queued.
Proof.
  split.
  - intros msg w w' Hr env Hv Hid. unfold HandleEvent in Hr. destruct (Value msg) as [j|]; [|done].
    change (decode (A:=Envelope) j = Some env) in Hv. rewrite Hv in Hr.
    apply String.eqb_neq in Hid. rewrite Hid in Hr.
    apply bind_Ok in Hr as ([] & w1 & _ & Hr). by apply enqueue_all_Ok in Hr as [_ Hall].
  - intros msg msg' w Hq env Hv Hid e He. destruct (Hq env Hv Hid e He) as (ev & Hev & Hh).
    exists ev. split; [done|]. apply has_delivery_iff. apply has_delivery_iff in Hh as (i & d & Hi & ?).
    exists i, d. split; [|done]. eapply lookup_weaken; [exact Hi|]. by apply queue_grows_HandleEvent.
Qed.

#[export] Instance ticks_HandleEvent ctx msg : Respects ticks (HandleEvent cfg ctx msg).
Proof.
  assert (∀ env p es, Respects ticks (enqueue_all env p es)).
  { intros env p es. unfold enqueue_all. induction es; simpl; unfold Enqueue; respects_tac. }
  unfold HandleEvent, failpoint. respects_tac.
Qed.

Lemma delivery_loop_returns ctx t fuel w :
  ends_by t → (t - w_tick w < fuel)%nat →
  (∃ w', delivery_loop cfg fuel ctx w = (Ok true, w')) ∨
  (∃ p w', delivery_loop cfg fuel ctx w = (Panic p, w')).
Proof.
  intros Ht. revert w. induction fuel as [|fuel IH]; intros w Hf; [lia|]. simpl. unfold mbind, ST_bind.
  pose proof (respects (R:=ticks) (m:=DeliverOnce cfg ctx) w) as Hl.
  destruct (DeliverOnce cfg ctx w) as [[r|e|p] w1] eqn:E1; [|by destruct (handles w e w1 E1)|by right; eexists _, _].
  destruct (wait_spec (WebhookPollInterval cfg) w1) as (b & w2 & E2 & Ht2 & _ & Hb). rewrite E2.
  destruct b; [left; by eexists|]. apply IH. rewrite Ht2. unfold ticks in Hl. simpl in Hl.
  destruct (decide (t ≤ w_tick w1)%nat) as [Hle|]; [|lia]. by specialize (Hb (Ht _ Hle)).
Qed.
End worker.

(** C39. At least once, and until told to stop: a consumer that starts at its committed
    offset survives every failed fetch, handler and commit, and returns once the
    context ends (or panics at a failpoint); and every message the group will
    not read again has its deliveries queued, unless the loop logged its failure. *)
Theorem consumer_handles_what_it_commits `{Ext} `{Broker} cfg ctx t fuel w c :
  ends_by t → ((length partition - c) + (t - w_tick w) < fuel)%nat →
  ∃ o w' r, ConsumerRun (HandleEvent cfg ctx) fuel (w, mkReader c c []) = (o, (w', r)) ∧
    (o = Ok true ∨ ∃ p, o = Panic p) ∧ (c ≤ rd_committed r)%nat ∧
    ∀ i msg, (c ≤ i < rd_committed r)%nat → partition !! i = Some msg →
      queued cfg msg (w_db w') ∨ i ∈ rd_failed r.
Proof.
  intros Ht Hf.
  assert (accounted_for (queued cfg) c w (mkReader c c [])) as Ha
    by (split; [simpl; lia|intros i msg Hi; simpl in Hi; lia]).
  pose proof (consumer_loop_end (HandleEvent cfg ctx) (queued cfg) c t (HandleEvent_promise cfg ctx)
    _ Ht fuel 0 w _ Ha) as Hend.
  unfold ConsumerRun. destruct (consumer_loop _ fuel 0 _) as [o [w' r]].
  destruct Hend as (Hc & Hh & Ho). exists o, w', r. split_and!; [done| |done|done].
  destruct o as [b|e|p]; [|done|right; by eexists]. left. by rewrite Ho.
Qed.

(** Two events, the second of which is handled. *)
Definition other_message : KafkaMessage :=
  mkMessage "payments.created" "uuid-0"
    (Some (marshal_Envelope (mkEnvelope "uuid-9" EventPaymentCreated 1 "uuid-0" 0 "" None JNull))) ∅.

Definition two_messages : Broker := {|
  partition := [demo_message; other_message];
  fetch_fault _ := None;
  offset_fault _ := None;
|}.

Notation consumer_run e :=
  (ConsumerRun (H := e) (H0 := two_messages) (HandleEvent (H := e) cfg Background) 10
     (demo3 (H := demo_ext), mkReader 0 0 [])).

Lemma shutdown_run : (consumer_run shutdown_ext).1 = Ok true ∧ (consumer_run shutdown_ext).2.2 = mkReader 2 2 [].
Proof. split; vm_compute; reflexivity. Qed.

Lemma consumer_handles_what_it_commits_witness :
  ∃ w' r, consumer_run shutdown_ext = (Ok true, (w', r)) ∧ rd_committed r = 2%nat ∧ rd_failed r = [] ∧
    queued (H := shutdown_ext) cfg demo_message (w_db w').
Proof.
  destruct (consumer_handles_what_it_commits (H := shutdown_ext) (H0 := two_messages) cfg Background 3 10
              (demo3 (H := demo_ext)) 0) as (o & w' & r & E & _ & _ & Hall).
  - apply shutdown_ends.
  - apply Nat.ltb_lt. vm_compute. reflexivity.
  - assert (o = Ok true ∧ rd_committed r = 2%nat ∧ rd_failed r = []) as (-> & Hc & Hf).
    { destruct shutdown_run as [E1 E2]. rewrite E in E1, E2.
      simpl in E1, E2. rewrite E1, E2. repeat split; reflexivity. }
    exists w', r. split_and!; [exact E|exact Hc|exact Hf|].
    destruct (Hall 0%nat demo_message) as [Hq|Hin]; [rewrite Hc; clear; lia|reflexivity|exact Hq|].
    rewrite Hf in Hin. destruct (not_elem_of_nil _ Hin).
Defined.

(** Redelivery has a gap: the first event's handler meets a lost connection, the
    second event is handled and committed, and the group will never read the
    first one again, for which nothing is queued. *)
Definition flaky_ext : Ext := {|
  NewString_nth := NewString_nth (Ext := demo_ext);
  uuid_in := uuid_in (Ext := demo_ext);
  PgError_Error := PgError_Error (Ext := demo_ext);
  stmt_fault n := if (n =? S (w_tick (demo3 (H := demo_ext))))%nat then Some (EText "conn closed") else None;
  begin_fault _ := None;
  commit_fault _ := None;
  sleep_fault _ := None;
  ctx_fault _ := None;
  publish_fault _ := None;
  redis_fault _ := None;
  http_result _ := inr 200;
  time_error_text := time_error_text (Ext := demo_ext);
  NewRequest_err _ := None;
  jsonb_text := jsonb_text (Ext := demo_ext);
  Int63n_nth _ _ := 0;
  Float64_bits _ := 0;
  returning_order _ l := l;
|}.

Example failed_message_is_skipped :
  (consumer_run flaky_ext).1 = Ok true ∧
  rd_failed (consumer_run flaky_ext).2.2 = [0%nat] ∧
  rd_position (restart (consumer_run flaky_ext).2.2) = 2%nat ∧
  map (λ p, d_event_id p.2) (map_to_list (webhook_deliveries (w_db (consumer_run flaky_ext).2.1))) =
    ["uuid-9"].
Proof. split_and!; vm_compute; reflexivity. Qed.
