(* ===== verification/MetricsTheorems.v ===== *)
(** What the program records: every increment, of every process, is one the
    collectors of [NewMetrics] accept. *)
From S2P Require Import Prelude GoStrings Json Apperr Failpoint Schema SchemaFacts Monad World Metrics Storage Idempotency Event Config Outbox LedgerModel LedgerRepo LedgerService LedgerEffects Once Kafka Publisher Consumer Replay Reconciliation Cache Http Handlers Server ApiEffects Webhook Writers LedgerInvariant System Demo LedgerTheorems Tame HttpFacts.
Local Open Scope Z_scope.

(** ** Registration *)

(** Building the metrics does not panic on a fresh registry: no name is taken
    twice and every name and label is valid; the registry then holds the library's
    collectors and the program's, each once, and every field of the result is one
    of them. *)
Theorem NewMetrics_registers `{PrometheusLaw} :
  ∃ m, NewMetrics [] = (Ok m, [GoCollector; ProcessCollector] ++ map Own collectors) ∧
    NoDup (map c_name collectors) ∧
    collectors = [HTTPDuration m; HTTPRequests m; TransfersTotal m; ReversalsTotal m;
      IdempotencyTotal m; PostgresRetries m; PostgresTxTotal m; RedisOps m; KafkaPublishTotal m;
      KafkaRetryTotal m; KafkaConsumeTotal m; OutboxBacklog m; OutboxDeadLetters m;
      WebhookDeliveries m; WebhookDuplicates m; ReplayEvents m; ReconciliationMismatches m;
      ReconciliationRuns m; RateLimited m].
Proof.
  eexists. split; [|split; [by refine (bool_decide_eq_true_1 _ _); vm_compute|]].
  - unfold NewMetrics.
    rewrite (bind_run _ _ _ tt [GoCollector]) by (apply library_run; [by left|done|by intros ?%elem_of_nil]).
    rewrite (bind_run _ _ _ tt [GoCollector; ProcessCollector])
      by (apply (library_run [GoCollector]); [by right|done|by intros ?%list_elem_of_singleton]).
    do 19 (erewrite bind_run by (apply registered_run; vm_compute; reflexivity)).
    reflexivity.
  - reflexivity.
Qed.

(** A registry that refuses what is already there. *)
Definition demo_register : Prometheus := λ reg r,
  let refused := match r with
    | Own c => bool_decide (c_name c ∈ map c_name (own reg)) || negb (valid_collector c)
    | _ => bool_decide (r ∈ reg) end in
  if refused then Some (EText "duplicate metrics collector registration attempted") else None.

Lemma demo_register_law : PrometheusLaw (H:=demo_register).
Proof.
  split.
  - intros reg r Hr Hn _. unfold Register_err, demo_register.
    destruct Hr as [-> | ->]; by rewrite (bool_decide_eq_false_2 _ Hn).
  - intros reg c Hv _ Hn. unfold Register_err, demo_register. rewrite Hv, bool_decide_eq_false_2; [done|].
    intros (c' & E & Hc')%list_elem_of_fmap. by apply (Hn c').
Qed.

Lemma NewMetrics_registers_witness :
  ∃ m, NewMetrics (H:=demo_register) [] = (Ok m, [GoCollector; ProcessCollector] ++ map Own collectors).
Proof.
  destruct (NewMetrics_registers (H:=demo_register) (H0:=demo_register_law)) as (m & E & _). by exists m.
Defined.

(** ** Recording *)

(** The process only adds increments, and the collectors take them. *)
Definition metered (w w' : World) : Prop :=
  ∃ l, w_metrics w' = w_metrics w ++ l ∧ Forall recordable l.

Lemma metered_same w w' : w_metrics w' = w_metrics w → metered w w'.
Proof. intros E. exists []. by rewrite E, app_nil_r. Qed.

#[export] Instance metered_tame : Tame metered.
Proof.
  split; [split| |].
  - intros w. by apply metered_same.
  - intros w1 w2 w3 (l1 & E1 & H1) (l2 & E2 & H2). exists (l1 ++ l2).
    rewrite E2, E1, app_assoc. split; [done|by apply Forall_app_2].
  - intros w w' (_ & _ & _ & _ & E). by apply metered_same.
  - intros m w Hm _. exists [m]. by repeat constructor.
Qed.
#[export] Instance metered_tallying : Tallying metered.
Proof. intros m w Hm _. exists [m]. by repeat constructor. Qed.
#[export] Instance metered_sending : Sending metered.
Proof. intros msg w. by apply metered_same. Qed.
#[export] Instance metered_posting : Posting metered.
Proof. intros p w. by apply metered_same. Qed.
#[export] Instance metered_caching : Caching metered.
Proof. intros k v w. by apply metered_same. Qed.
#[export] Instance metered_answering : Answering metered.
Proof.
  split; [| |intros ? w; by apply metered_same..]; intros; intros w; apply metered_same.
  - done.
  - apply (WriteHeader_aside _ w).
Qed.

Section processes.
Context `{Ext} (cfg : Config).

#[export] Instance metered_serve e r : Respects metered (serve cfg e r).
Proof. apply tame_serve; try apply _. intros w. by apply metered_same. Qed.

(** Loops of the processes. *)
#[export] Instance tame_wait R `{!Tame R} d : Respects R (wait d).
Proof. unfold wait. respects_tac. Qed.
#[export] Instance metered_RunPublisher fuel ctx : Respects metered (RunPublisher cfg fuel ctx).
Proof.
  unfold RunPublisher. destruct (_ <=? _); [apply _|].
  induction fuel as [|fuel IH]; simpl; respects_tac.
Qed.
#[export] Instance metered_RunDeliveries fuel ctx : Respects metered (RunDeliveries cfg fuel ctx).
Proof.
  unfold RunDeliveries. destruct (_ <=? _); [apply _|].
  induction fuel as [|fuel IH]; simpl; respects_tac.
Qed.
End processes.

(** ** The consumer *)

Section consumer.
Context `{Ext} `{Broker}.

Definition metered_at (s s' : World * Reader) : Prop := metered s.1 s'.1.

#[export] Instance metered_at_preorder : PreOrder metered_at.
Proof. split; [by intros ?; unfold metered_at|]. intros ???. unfold metered_at. apply transitivity. Qed.
#[export] Instance metered_lift {A} (m : M A) : Respects metered m → Respects metered_at (lift m).
Proof. intros Hm [w r]. unfold metered_at, lift. specialize (Hm w). simpl. by destruct (m w). Qed.
#[export] Instance metered_on_reader f : Respects metered_at (on_reader f).
Proof. intros [w r]. by apply metered_same. Qed.

#[export] Instance metered_ConsumerRun handle fuel :
  (∀ msg, Respects metered (handle msg)) → Respects metered_at (ConsumerRun handle fuel).
Proof.
  intros Hh. unfold ConsumerRun. generalize 0 as failures.
  induction fuel as [|fuel IH]; intros failures; simpl; [apply _|].
  unfold FetchMessage, CommitMessages, consumed, fetchBackoff, Float64. respects_tac.
Qed.
End consumer.

(** What any call of the program adds to the metrics, however it ends, are
    increments that the collectors accept: the collector is declared, it has as
    many label values as labels, an added amount is not negative, and outcomes,
    results and reasons are among the values the source declares for them. The same
    holds of the publisher's, the deliveries' and the consumer's loops. So no
    increment panics, and no label outside topics and requests grows without
    bound. *)
Theorem increments_are_accepted `{Ext} `{Broker} :
  (∀ w w', call w w' → metered w w') ∧
  (∀ cfg fuel ctx w, metered w (RunPublisher cfg fuel ctx w).2) ∧
  (∀ cfg fuel ctx w, metered w (RunDeliveries cfg fuel ctx w).2) ∧
  (∀ cfg fuel ctx w r, metered w (ConsumerRun (HandleEvent cfg ctx) fuel (w, r)).2.1).
Proof.
  split_and!.
  - intros w w' []; apply (respects (R:=metered)).
  - intros. apply (respects (R:=metered)).
  - intros. apply (respects (R:=metered)).
  - intros cfg fuel ctx w r. apply (respects (R:=metered_at) (w, r)).
Qed.

(** What funding an account adds. *)
Lemma increments_are_accepted_witness :
  metered (demo2 (H:=demo_ext)) (demo3 (H:=demo_ext)) ∧
  drop (length (w_metrics (demo2 (H:=demo_ext)))) (w_metrics (demo3 (H:=demo_ext))) =
    [("ledger_postgres_transactions_total", ["commit"]); ("ledger_transfers_total", ["success"; ""]);
     ("ledger_idempotency_total", ["miss"; "postgres"])].
Proof.
  split; [|vm_compute; reflexivity].
  refine (proj1 (increments_are_accepted (H:=demo_ext)
    (H0:={| partition := []; fetch_fault _ := None; offset_fault _ := None |})) _ _ _).
  apply call_Transfer.
Defined.

(** ** What the success counters claim *)

(** The successful transfers and reversals counted since the process started. *)
Definition successes (w : World) : nat :=
  length (filter (λ m, a_success m = true) (w_metrics w)).

Definition transactions (d : DB) : nat := size (ledger_transactions d).

(** As many transactions are there as successes were counted. *)
Definition credit (w w' : World) : Prop :=
  (successes w' + transactions (w_db w) ≤ successes w + transactions (w_db w'))%nat.

#[export] Instance credit_preorder : PreOrder credit.
Proof. split; unfold credit; [intros w; lia|]. intros w1 w2 w3. lia. Qed.

Definition claims_nothing (w w' : World) : Prop := successes w' = successes w.

#[export] Instance claims_nothing_tame : Tame claims_nothing.
Proof.
  unfold claims_nothing. split; [split; [done|intros ???; congruence]| |].
  - intros w w' (_ & _ & _ & _ & E). unfold successes. by rewrite E.
  - intros m w _ Hm. unfold successes. simpl. rewrite filter_app, length_app.
    rewrite filter_cons_False, filter_nil by congruence. simpl. lia.
Qed.
#[export] Instance claims_nothing_sending : Sending claims_nothing.
Proof. done. Qed.
#[export] Instance claims_nothing_posting : Posting claims_nothing.
Proof. done. Qed.
#[export] Instance claims_nothing_caching : Caching claims_nothing.
Proof. done. Qed.
#[export] Instance claims_nothing_answering : Answering claims_nothing.
Proof.
  split; [done| |done..]. intros s w. unfold claims_nothing, successes.
  by destruct (WriteHeader_aside s w) as (_ & _ & _ & -> & _).
Qed.

Lemma credit_grows w w' :
  ledger_transactions (w_db w) ⊆ ledger_transactions (w_db w') → claims_nothing w w' → credit w w'.
Proof.
  intros Hsub Hc. unfold credit, transactions. rewrite Hc.
  pose proof (map_subseteq_size _ _ Hsub). lia.
Qed.

Section credits.
Context `{Ext} (cfg : Config).

#[export] Instance credit_still {A} (m : M A) :
  Respects (keeps id) m → Respects claims_nothing m → Respects credit m.
Proof.
  intros Hd Hc w. apply credit_grows; [|apply Hc]. specialize (Hd w). unfold keeps, id in Hd. by rewrite Hd.
Qed.

(** A guarded closure whose effect adds a transaction, and the success counted
    after it. *)
Lemma credit_guarded i (m : M Result) Q n w :
  guarded i m Q →
  (∀ a d d', Q a d d' → transactions d' = S (transactions d)) → Respects claims_nothing m →
  credit w (InTx_result n m w).2 ∧
  ∀ res w', InTx_result n m w = (Ok (Some res), w') → Replayed res = false →
    (S (successes w') + transactions (w_db w) ≤ successes w + transactions (w_db w'))%nat.
Proof.
  intros Hg HQ Hc.
  pose proof (respects (R:=claims_nothing) (m:=InTx_result n m) w) as Hsame. split.
  - destruct (InTx_once i m Q Hg n w) as [E|(_ & _ & a & Ha%HQ & _)];
      unfold credit, claims_nothing in *; [rewrite E|]; lia.
  - intros res w' E Hr. rewrite E in Hsame. unfold claims_nothing in Hsame. simpl in Hsame.
    apply (InTx_once_Ok i m Q Hg) in E as (a & [= <-] & [[_ [Hx _]]|[[Ha%HQ _]|[_ [Hx _]]]]); [congruence|lia|congruence].
Qed.

Lemma posted_transactions i now txn cid row rows t d d' :
  posted i now txn cid row rows t d d' → transactions d' = S (transactions d).
Proof.
  intros Hp. unfold transactions. rewrite (ps_txs _ _ _ _ _ _ _ _ _ Hp).
  apply map_size_insert_None, (ps_fresh _ _ _ _ _ _ _ _ _ Hp).
Qed.

(** The end of a command: the result of its transaction, then what it counts. *)
Lemma credit_commit {B} i (m : M Result) Q n (fail : error → M B) (success : Result → M B) w :
  guarded i m Q → (∀ a d d', Q a d d' → transactions d' = S (transactions d)) →
  Respects claims_nothing m → (∀ e, Respects credit (fail e)) →
  (∀ res, Replayed res = true → Respects credit (success res)) →
  (∀ res w1, Replayed res = false →
     (successes (success res w1).2 + transactions (w_db w1) ≤
      S (successes w1) + transactions (w_db (success res w1).2))%nat) →
  credit w ((r ← try (InTx_result n m);
             match r with
             | inl err => fail err
             | inr res => result ← deref res; success result
             end) w).2.
Proof.
  intros Hg HQ Hc Hfail Hrep Hsucc. destruct (credit_guarded i m Q n w Hg HQ Hc) as [H1 H2].
  unfold mbind at 1, ST_bind at 1, try.
  destruct (InTx_result n m w) as [[[res|]|e|p] w1] eqn:E; simpl in H1 |- *; [|done| |done].
  2: { etrans; [exact H1|apply Hfail]. }
  destruct (Replayed res) eqn:Er; [etrans; [exact H1|by apply Hrep]|].
  specialize (H2 res w1 eq_refl Er). specialize (Hsucc res w1 Er).
  unfold credit, mbind, ST_bind. simpl. lia.
Qed.

(** Counting one success and nothing else. *)
Lemma one_success {B} name (k : M B) w :
  a_success (name, ["success"; ""]) = true → Respects (keeps id) k → Respects claims_nothing k →
  let w' := ((Inc name ["success"; ""];; k) w).2 in
  (successes w' + transactions (w_db w) ≤ S (successes w) + transactions (w_db w'))%nat.
Proof.
  intros Hs Hk Hc. set (w1 := set_metrics (w_metrics w ++ [(name, ["success"; ""])]) w).
  change (((Inc name ["success"; ""];; k) w).2) with (k w1).2. simpl.
  specialize (Hk w1). specialize (Hc w1). unfold keeps, id, claims_nothing in *. rewrite Hk, Hc.
  unfold successes, w1. simpl. rewrite filter_app, length_app, filter_cons_True by done. simpl. lia.
Qed.

#[export] Instance credit_Transfer ctx cmd : Respects credit (Transfer cfg ctx cmd).
Proof.
  unfold Transfer, failure. destruct (ValidateTransfer cmd); [apply _|].
  apply respects_bind; [apply _..|]. intros []; [apply _|].
  apply respects_bind; [apply _..|]. intros txID w.
  eapply credit_commit; [apply transfer_guarded| |unfold transfer_closure; apply _|apply _|..].
  - intros a d d' (t & _ & ? & ? & ? & ? & ? & ? & ? & ? & _ & _ & _ & Hp & _).
    by eapply posted_transactions.
  - intros res ->. apply _.
  - intros res w1 ->. by apply one_success; [|respects_tac|respects_tac].
Qed.
#[export] Instance credit_Reverse ctx cmd : Respects credit (Reverse cfg ctx cmd).
Proof.
  unfold Reverse, failure, ledger_failpoint. destruct (String.eqb _ _); [apply _|].
  apply respects_bind; [apply _..|]. intros _.
  apply respects_bind; [apply _..|]. intros rid w.
  eapply credit_commit; [apply reverse_guarded| |unfold reverse_closure; apply _|apply _|..].
  - intros a d d' (t & _ & ? & ? & ? & ? & ? & ? & ? & ? & _ & _ & _ & _ & ? & _ & Hp & _).
    by eapply posted_transactions.
  - intros res ->. apply _.
  - intros res w1 ->. by apply one_success; [|respects_tac|respects_tac].
Qed.

(** An action of the API that counts no success. *)
Lemma credit_action w w' : db_action cfg (w_db w) (w_db w') → claims_nothing w w' → credit w w'.
Proof. intros Ha. apply credit_grows. apply (action_extends cfg _ _ Ha). Qed.

#[export] Instance credit_CreateAccount cmd : Respects credit (CreateAccount cfg cmd).
Proof. intros w. apply credit_action; [apply act_create|apply (respects (R:=claims_nothing))]. Qed.

Lemma credit_external s k h req :
  Respects credit (runExternalIdempotent cfg s k h (replay_work req)).
Proof.
  intros w. apply credit_action; [|apply tame_external; unfold replay_work; respects_tac].
  destruct (runExternalIdempotent cfg s k h (replay_work req) w) as [o w'] eqn:E.
  destruct (runExternalIdempotent_effect cfg s k h (replay_work req) ltac:(apply _) w o w' E)
    as [[Hd|Hm] _]; simpl; [rewrite Hd; constructor|by eapply act_mark].
Qed.

#[export] Instance credit_or_error {A} r (m : M A) k :
  Respects credit m → (∀ a, Respects credit (k a)) → Respects credit (or_error r m k).
Proof. apply respects_or_error; apply _. Qed.
#[export] Instance credit_or_refuse {A} r (res : Error + A) k :
  (∀ a, Respects credit (k a)) → Respects credit (or_refuse r res k).
Proof. apply respects_or_refuse; apply _. Qed.
#[export] Instance credit_run_command r s k h m :
  Respects credit m → Respects credit (run_command cfg r s k h m).
Proof.
  intros Hm. unfold run_command, finishIdempotent. apply respects_bind; [apply _..|].
  intros []; [apply _|]. apply credit_or_error; [done|intros res; respects_tac].
Qed.

Lemma credit_serve e r : Respects credit (serve cfg e r).
Proof.
  assert (Respects credit (modify (set_resp new_response))) as Hnew by (intros w; unfold credit, successes; simpl; lia).
  unfold serve. apply respects_bind; [apply _..|]. intros _. apply respects_bind; [apply _| |intros; apply _].
  apply respects_withRecovery; try apply _. apply respects_mux; try apply _; intros r1.
  - rewrite handleReplay_eq. apply credit_or_refuse; intros key. apply credit_or_refuse; intros req.
    destruct (ValidateReplay req); [apply _|]. apply respects_bind; [apply _..|]. intros []; [apply _|].
    apply credit_or_error; [apply credit_external|]. intros [status b]. respects_tac.
  - unfold handleArmFailpoint, write_active. apply credit_or_refuse; intros req.
    assert (Respects credit (Arm_failpoint req.1 req.2)).
    { intros w. unfold Arm_failpoint. destruct (Arm _ _ _). unfold credit, successes. simpl. lia. }
    respects_tac.
Qed.
End credits.

(** C19. The success counters claim nothing that the ledger does not hold: whatever
    call is made and however it ends (a retry, a replay, an error or a crash after
    the commit, an acknowledgement that was lost), it adds at least as many
    transactions to the ledger as successful transfers and reversals to the
    counters. *)
Theorem successes_are_transactions `{Ext} w w' :
  call w w' →
  (successes w' + transactions (w_db w) ≤ successes w + transactions (w_db w'))%nat.
Proof.
  intros Hc. assert (credit w w') as Hg; [|exact Hg].
  assert (ledger_transactions (w_db w) ⊆ ledger_transactions (w_db w')) as Hsub
    by (by apply step_extends, step_call).
  destruct Hc; try (by apply credit_grows; [|apply (respects (R:=claims_nothing))]).
  - apply (respects (R:=credit)).
  - apply (respects (R:=credit)).
  - apply credit_serve.
Qed.

Lemma successes_are_transactions_witness :
  let w := demo2 (H:=demo_ext) in let w' := demo3 (H:=demo_ext) in
  (successes w' + transactions (w_db w) ≤ successes w + transactions (w_db w'))%nat ∧
  successes w' = 1%nat ∧ transactions (w_db w') = 1%nat.
Proof.
  intros w w'. split; [|split; vm_compute; reflexivity].
  apply (successes_are_transactions (H:=demo_ext) w w'), call_Transfer.
Defined.
