(* ===== verification/Receiver.v ===== *)
(** [cmd/example-webhook/main.go]: the demonstration receiver of webhooks, which
    processes each event once and can be told to fail. Its mutex makes every
    handler one atomic step. *)
From S2P Require Import Prelude GoStrings GoTime Json Apperr Monad World Config Http.
Local Open Scope Z_scope.

(** [processed] counts the acknowledged deliveries of each event. *)
Record receiver := mkReceiver {
  processed : gmap string Z;
  rcv_order : list string;
  failNext : Z;
  failAlways : bool;
}.

Definition new_receiver : receiver := mkReceiver ∅ [] 0 false.

Record reply := mkReply {
  rp_status : Z;
  rp_body : json;
}.

(** * Decoding with [json.Unmarshal]: unknown fields are skipped *)

Fixpoint decode_known {S} (fs : list (struct_field S)) (o : list (string * json)) (s : S)
    (saved : option string) : string + S :=
  match o with
  | [] => match saved with Some err => inl err | None => inr s end
  | (k, v) :: o =>
      match find_field k fs with
      | None => decode_known fs o s saved
      | Some set =>
          match set v s with
          | Stored s' => decode_known fs o s' saved
          | Saved err => decode_known fs o s (Some (default err saved))
          | Fatal err => inl err
          end
      end
  end.

Record replay_part := mkReplayPart {
  RpIsReplay : bool;
  RpReplayID : string;
}.

Record webhook_envelope := mkEnvelope {
  WhEventID : string;
  WhEventType : string;
  WhTransactionID : string;
  WhReplay : option replay_part;
}.

Definition replay_part_fields : list (struct_field replay_part) :=
  [bool_field "" "is_replay" (λ v r, mkReplayPart v (RpReplayID r));
   string_field "" "replay_id" (λ v r, mkReplayPart (RpIsReplay r) v)].

(** A pointer to a struct: null clears it, an object is decoded into it. *)
Definition replay_field : struct_field webhook_envelope :=
  ("replay", λ j e,
     let set r := mkEnvelope (WhEventID e) (WhEventType e) (WhTransactionID e) r in
     match j with
     | JNull => Stored (set None)
     | JObj o =>
         match decode_known replay_part_fields o (default (mkReplayPart false "") (WhReplay e)) None with
         | inr r => Stored (set (Some r))
         | inl err => Saved err
         end
     | _ => mismatch "" "replay" j "struct"
     end).

Definition webhook_envelope_fields : list (struct_field webhook_envelope) :=
  [string_field "" "event_id" (λ v e, mkEnvelope v (WhEventType e) (WhTransactionID e) (WhReplay e));
   string_field "" "event_type" (λ v e, mkEnvelope (WhEventID e) v (WhTransactionID e) (WhReplay e));
   string_field "" "transaction_id" (λ v e, mkEnvelope (WhEventID e) (WhEventType e) v (WhReplay e));
   replay_field].

Definition unmarshal_webhook (j : json) : string + webhook_envelope :=
  let zero := mkEnvelope "" "" "" None in
  match j with
  | JNull => inr zero
  | JObj o => decode_known webhook_envelope_fields o zero None
  | _ => inl "json: cannot unmarshal into Go value of type struct"
  end.

(** * The handlers *)

Definition text_reply (status : Z) (key value : string) : reply :=
  mkReply status (JObj [(key, JStr value)]).

(** The keys of a Go map are written in order. *)
Definition ack_reply (id outcome : string) : reply :=
  mkReply 200 (JObj [("event_id", JStr id); ("status", JStr outcome)]).

(** The part under the mutex, for an event with an identifier. *)
Definition deliver_event (id : string) : ST receiver reply := λ r,
  if failAlways r || (0 <? failNext r) then
    (Ok (text_reply 500 "error" "simulated failure"),
     mkReceiver (processed r) (rcv_order r)
       (if 0 <? failNext r then failNext r - 1 else failNext r) (failAlways r))
  else
    let count := default 0 (processed r !! id) in
    (Ok (ack_reply id (if 0 <? count then "duplicate_ignored" else "processed")),
     mkReceiver (<[id := wrap64 (count + 1)]> (processed r))
       (if count =? 0 then rcv_order r ++ [id] else rcv_order r) (failNext r) (failAlways r)).

Definition handleWebhook (req : Request) : ST receiver reply :=
  match RqBody req with
  | BodyUnreadable => mret (text_reply 400 "error" "unreadable body")
  | BodyMalformed _ => mret (text_reply 400 "error" "missing event_id")
  | BodyJSON j =>
      match unmarshal_webhook j with
      | inl _ => mret (text_reply 400 "error" "missing event_id")
      | inr envelope =>
          if String.eqb (WhEventID envelope) "" then mret (text_reply 400 "error" "missing event_id")
          else deliver_event (WhEventID envelope)
      end
  end.

Definition handleEvents (_ : Request) : ST receiver reply := λ r,
  (Ok (mkReply 200 (JObj
     [("events", JArr (map (λ id, JObj [("deliveries", JNum (default 0 (processed r !! id)));
                                        ("event_id", JStr id)]) (rcv_order r)));
      ("unique_events", JNum (Z.of_nat (length (rcv_order r))))])), r).

(** The errors of [Atoi] and [ParseBool] are dropped, their values kept. *)
Definition handleFail (req : Request) : ST receiver reply := λ r,
  let count := Atoi_value (QueryGet req "count") in
  let always := default false (ParseBool (QueryGet req "always")) in
  (Ok (mkReply 200 (JObj [("fail_always", JBool always); ("fail_next", JNum count)])),
   mkReceiver (processed r) (rcv_order r) count always).

Definition handleReset (_ : Request) : ST receiver reply := λ _,
  (Ok (text_reply 200 "status" "reset"), new_receiver).

Inductive rcv_endpoint := RcvWebhook | RcvEvents | RcvFail | RcvReset | RcvLive.
#[export] Instance rcv_endpoint_eq_dec : EqDecision rcv_endpoint.
Proof. solve_decision. Defined.

(** The routing table of [main], and the handlers it leads to. *)
Definition rcv_routes : list (string * rcv_endpoint) :=
  [("POST /webhook", RcvWebhook); ("GET /events", RcvEvents); ("POST /fail", RcvFail);
   ("POST /reset", RcvReset); ("GET /health/live", RcvLive)].

Definition rcv_serve (e : rcv_endpoint) (req : Request) : ST receiver reply :=
  match e with
  | RcvWebhook => handleWebhook req
  | RcvEvents => handleEvents req
  | RcvFail => handleFail req
  | RcvReset => handleReset req
  | RcvLive => mret (text_reply 200 "status" "ok")
  end.

(** Requests in the order in which they take the mutex. *)
Fixpoint rcv_serve_all (calls : list (rcv_endpoint * Request)) : ST receiver (list reply) :=
  match calls with
  | [] => mret []
  | (e, req) :: calls =>
      rp ← rcv_serve e req; rps ← rcv_serve_all calls; mret (rp :: rps)
  end.
