(* ===== verification/ReceiverTheorems.v ===== *)
(** The webhook receiver: repeated deliveries do no new work, and armed failures
    happen exactly as often as asked. *)
From S2P Require Import Prelude GoStrings Json Apperr Monad World Http HttpFacts Receiver.
Local Open Scope Z_scope.

(** The event a delivery carries, when its body is accepted. *)
Definition event_of (req : Request) : option string :=
  match RqBody req with
  | BodyJSON j =>
      match unmarshal_webhook j with
      | inr e => if String.eqb (WhEventID e) "" then None else Some (WhEventID e)
      | inl _ => None
      end
  | _ => None
  end.

(** The event a reply acknowledges, and as what. *)
Definition ack_of (rp : reply) : option (string * string) :=
  match rp_body rp with
  | JObj [(k1, JStr id); (k2, JStr outcome)] =>
      if String.eqb k1 "event_id" && String.eqb k2 "status" && (rp_status rp =? 200)
      then Some (id, outcome) else None
  | _ => None
  end.

(** The event a reply says was processed now. *)
Definition processed_now (rp : reply) : option string :=
  '(id, outcome) ← ack_of rp; if String.eqb outcome "processed" then Some id else None.

Definition acks (id : string) (rps : list reply) : list reply :=
  filter (λ rp, fst <$> ack_of rp = Some id) rps.

Lemma handleWebhook_event req r :
  handleWebhook req r =
  match event_of req with
  | Some id => deliver_event id r
  | None => (Ok (text_reply 400 "error"
                   (match RqBody req with BodyUnreadable => "unreadable body" | _ => "missing event_id" end)), r)
  end.
Proof.
  unfold handleWebhook, event_of. destruct (RqBody req) as [|err|j]; [done..|].
  destruct (unmarshal_webhook j) as [|e]; [done|]. by destruct (String.eqb _ _).
Qed.

(** What the receiver remembers of the replies [seen] it has sent. *)
Definition remembers (seen : list reply) (r : receiver) : Prop :=
  rcv_order r = omap processed_now seen ∧ NoDup (rcv_order r) ∧
  (∀ id, default 0 (processed r !! id) = Z.of_nat (length (acks id seen))) ∧
  (∀ id, id ∈ rcv_order r ↔ acks id seen ≠ []).

Lemma remembers_quiet seen r rp r' :
  remembers seen r → ack_of rp = None → processed r' = processed r → rcv_order r' = rcv_order r →
  remembers (seen ++ [rp]) r'.
Proof.
  intros (Ho & Hnd & Hc & Hin) Hrp Ep Eo.
  assert (∀ id, acks id (seen ++ [rp]) = acks id seen) as Ha.
  { intros id. unfold acks. rewrite filter_app, filter_cons, Hrp, filter_nil. simpl. apply app_nil_r. }
  unfold remembers. setoid_rewrite Ha. rewrite Ep, Eo, omap_app. simpl.
  unfold processed_now at 2. rewrite Hrp. simpl. rewrite app_nil_r. done.
Qed.

Lemma remembers_ack seen r id :
  remembers seen r → Z.of_nat (length seen) < int64_max →
  let count := default 0 (processed r !! id) in
  remembers (seen ++ [ack_reply id (if 0 <? count then "duplicate_ignored" else "processed")])
    (mkReceiver (<[id := wrap64 (count + 1)]> (processed r))
       (if count =? 0 then rcv_order r ++ [id] else rcv_order r) (failNext r) (failAlways r)).
Proof.
  intros (Ho & Hnd & Hc & Hin) Hlen count. set (rp := ack_reply _ _).
  assert (ack_of rp = Some (id, if 0 <? count then "duplicate_ignored" else "processed")) as Hrp by done.
  assert (∀ id', acks id' (seen ++ [rp]) = acks id' seen ++ (if decide (id' = id) then [rp] else [])) as Ha.
  { intros id'. unfold acks. rewrite filter_app, filter_cons, filter_nil. f_equal. rewrite Hrp. simpl.
    destruct (decide (id' = id)) as [->|Hne]; [by rewrite decide_True|].
    rewrite decide_False; [done|]. congruence. }
  assert (count = Z.of_nat (length (acks id seen))) as Hcount by apply Hc.
  assert (length (acks id seen) ≤ length seen)%nat as Hle by apply length_filter.
  assert (wrap64 (count + 1) = count + 1) as Hw
    by (apply wrap64_id; unfold int64_min, int64_max in *; lia).
  unfold remembers. simpl. rewrite Hw, omap_app. simpl. unfold processed_now at 2. rewrite Hrp. simpl.
  destruct (0 <? count) eqn:Hpos; simpl.
  - rewrite (proj2 (Z.eqb_neq count 0)) by lia. rewrite app_nil_r. split_and!; [done..| |].
    + intros id'. rewrite Ha. destruct (decide (id' = id)) as [->|]; simpl.
      * rewrite lookup_insert_eq, length_app. simpl. lia.
      * by rewrite lookup_insert_ne, app_nil_r.
    + intros id'. rewrite Ha, Hin. destruct (decide (id' = id)) as [->|]; [|by rewrite app_nil_r].
      destruct (acks id seen); [simpl in Hcount; lia|done].
  - assert (count = 0) as Hz by lia. rewrite Hz in *. simpl. split_and!.
    + by rewrite Ho.
    + apply NoDup_app. split_and!; [done| |apply NoDup_singleton].
      intros id' Hid ->%list_elem_of_singleton. apply Hin in Hid. apply Hid, nil_length_inv. lia.
    + intros id'. rewrite Ha. destruct (decide (id' = id)) as [->|]; simpl.
      * rewrite lookup_insert_eq, length_app. simpl. lia.
      * by rewrite lookup_insert_ne, app_nil_r.
    + intros id'. rewrite Ha, elem_of_app, list_elem_of_singleton, Hin.
      destruct (decide (id' = id)) as [->|]; [|rewrite app_nil_r; naive_solver].
      destruct (acks id seen); naive_solver.
Qed.

Lemma rcv_step e req seen r :
  e ≠ RcvReset → remembers seen r → Z.of_nat (length seen) < int64_max →
  ∃ rp r', rcv_serve e req r = (Ok rp, r') ∧ remembers (seen ++ [rp]) r'.
Proof.
  intros He Hr Hlen.
  assert (∀ rp r', ack_of rp = None → processed r' = processed r → rcv_order r' = rcv_order r →
    ∃ rp' r'', (Ok rp, r') = (Ok rp', r'') ∧ remembers (seen ++ [rp']) r'') as Hq
    by (intros rp r' ???; exists rp, r'; split; [done|by eapply remembers_quiet]).
  destruct e; [|by apply Hq..|done|by apply Hq].
  simpl. rewrite handleWebhook_event. destruct (event_of req) as [id|]; [|by apply Hq].
  unfold deliver_event. destruct (_ || _); [by apply Hq|].
  eexists _, _. split; [done|]. by apply remembers_ack.
Qed.

Lemma rcv_steps calls : ∀ seen r,
  Forall (λ c, c.1 ≠ RcvReset) calls → remembers seen r →
  Z.of_nat (length seen + length calls) ≤ int64_max →
  ∃ rps r', rcv_serve_all calls r = (Ok rps, r') ∧ length rps = length calls ∧ remembers (seen ++ rps) r'.
Proof.
  induction calls as [|[e req] calls IH]; intros seen r Hc Hr Hlen.
  { exists [], r. rewrite app_nil_r. done. }
  apply Forall_cons in Hc as [He Hc]. simpl in Hlen.
  destruct (rcv_step e req seen r He Hr) as (rp & r1 & E1 & Hr1); [lia|].
  destruct (IH (seen ++ [rp]) r1 Hc Hr1) as (rps & r' & E2 & El & Hr'); [rewrite length_app; simpl; lia|].
  exists (rp :: rps), r'. rewrite <-app_assoc in Hr'. simpl. unfold mbind, ST_bind, mret, ST_ret.
  rewrite E1, E2. by rewrite El.
Qed.

Lemma remembers_nothing : remembers [] new_receiver.
Proof. split_and!; [done|constructor|done|]. intros id. by rewrite elem_of_nil. Qed.

(** The receiver is idempotent: in any sequence of requests after a start or a
    reset, deliveries, failures and listings in any order, each event is
    reported as processed exactly once if it is acknowledged at all, the list of
    events is the order in which that happened, without repetition, and the
    count of an event is the number of its deliveries that were acknowledged. *)
Theorem events_are_processed_once calls :
  Forall (λ c, c.1 ≠ RcvReset) calls → Z.of_nat (length calls) ≤ int64_max →
  ∃ rps r, rcv_serve_all calls new_receiver = (Ok rps, r) ∧ length rps = length calls ∧
    rcv_order r = omap processed_now rps ∧ NoDup (omap processed_now rps) ∧
    (∀ id, default 0 (processed r !! id) = Z.of_nat (length (acks id rps))) ∧
    (∀ id, id ∈ omap processed_now rps ↔ acks id rps ≠ []).
Proof.
  intros Hc Hlen. destruct (rcv_steps calls [] new_receiver Hc remembers_nothing Hlen)
    as (rps & r & E & El & Ho & Hnd & Hcount & Hin). exists rps, r. simpl in *. rewrite <-Ho.
  by split_and!.
Qed.

(** A receiver that fails once, and a client that retries. *)
Definition rcv_request (id : string) : Request :=
  mkRequest "POST" (λ _, "") (λ _, "") (λ k, if String.eqb k "count" then "1" else "") 0
    (BodyJSON (JObj [("event_id", JStr id); ("replay", JObj [("is_replay", JBool true)])]))
    "" Background.

Definition rcv_calls : list (rcv_endpoint * Request) :=
  [(RcvFail, rcv_request ""); (RcvWebhook, rcv_request "e1"); (RcvWebhook, rcv_request "e1");
   (RcvWebhook, rcv_request "e1"); (RcvWebhook, rcv_request "e2"); (RcvEvents, rcv_request "")].

Lemma events_are_processed_once_witness :
  ∃ rps r, rcv_serve_all rcv_calls new_receiver = (Ok rps, r) ∧ rcv_order r = ["e1"; "e2"].
Proof.
  destruct (events_are_processed_once rcv_calls) as (rps & r & E & _ & Ho & _).
  - by repeat constructor.
  - by vm_compute.
  - exists rps, r. split; [exact E|]. revert E. vm_compute. by intros [= <- <-].
Defined.

(** * Armed failures *)

Definition armed (n : Z) (r : receiver) : receiver :=
  mkReceiver (processed r) (rcv_order r) n false.

Definition failure : reply := text_reply 500 "error" "simulated failure".

Lemma rcv_serve_Ok e req r : ∃ rp r', rcv_serve e req r = (Ok rp, r').
Proof.
  destruct e; try by eexists _, _. simpl. rewrite handleWebhook_event.
  destruct (event_of req); [unfold deliver_event; destruct (_ || _)|]; by eexists _, _.
Qed.

Lemma rcv_serve_all_Ok calls r : ∃ rps r', rcv_serve_all calls r = (Ok rps, r').
Proof.
  revert r. induction calls as [|[e req] calls IH]; intros r; [by exists [], r|]. simpl.
  unfold mbind, ST_bind. destruct (rcv_serve_Ok e req r) as (rp & r1 & ->).
  destruct (IH r1) as (rps & r' & ->). by eexists _, _.
Qed.

Lemma armed_once n r req :
  is_Some (event_of req) →
  rcv_serve RcvWebhook req (armed (Z.of_nat (S n)) r) = (Ok failure, armed (Z.of_nat n) r).
Proof.
  intros [id Hid]. simpl. rewrite handleWebhook_event, Hid. unfold deliver_event, armed. cbn [failAlways failNext].
  rewrite (proj2 (Z.ltb_lt 0 (Z.of_nat (S n)))) by lia. simpl. do 2 f_equal. lia.
Qed.

Lemma armed_run n : ∀ reqs r,
  (n ≤ length reqs)%nat → Forall (λ req, is_Some (event_of req)) reqs →
  ∃ rps r', rcv_serve_all (map (pair RcvWebhook) (drop n reqs)) (armed 0 r) = (Ok rps, r') ∧
    rcv_serve_all (map (pair RcvWebhook) reqs) (armed (Z.of_nat n) r) = (Ok (replicate n failure ++ rps), r').
Proof.
  induction n as [|n IH]; intros reqs r Hn Hreqs.
  { destruct (rcv_serve_all_Ok (map (pair RcvWebhook) reqs) (armed 0 r)) as (rps & r' & E).
    exists rps, r'. by split. }
  destruct reqs as [|req reqs]; simpl in Hn; [lia|]. apply Forall_cons in Hreqs as [Hreq Hreqs].
  destruct (IH reqs r) as (rps & r' & E1 & E2); [lia|done|]. exists rps, r'. split; [done|].
  cbn [map rcv_serve_all]. rewrite (bind_run _ _ _ _ _ (armed_once n r req Hreq)).
  by rewrite (bind_run _ _ _ _ _ E2).
Qed.

(** Arming [n] failures fails exactly the next [n] deliveries of well-formed
    events: they are answered 500 and leave no trace, and the deliveries after
    them are answered as if none had been armed. *)
Theorem armed_failures_are_exact r reqs n :
  0 ≤ n ≤ Z.of_nat (length reqs) → Forall (λ req, is_Some (event_of req)) reqs →
  let deliveries := map (pair RcvWebhook) in
  ∃ rps r', rcv_serve_all (deliveries (drop (Z.to_nat n) reqs)) (armed 0 r) = (Ok rps, r') ∧
    rcv_serve_all (deliveries reqs) (armed n r) = (Ok (replicate (Z.to_nat n) failure ++ rps), r').
Proof.
  intros Hn Hreqs deliveries. destruct (armed_run (Z.to_nat n) reqs r) as (rps & r' & E1 & E2);
    [lia|done|]. exists rps, r'. split; [done|]. by rewrite Z2Nat.id in E2 by lia.
Qed.

Lemma armed_failures_are_exact_witness :
  ∃ r', rcv_serve_all [(RcvWebhook, rcv_request "e1"); (RcvWebhook, rcv_request "e1")]
          (armed 1 new_receiver) = (Ok [failure; ack_reply "e1" "processed"], r').
Proof.
  destruct (armed_failures_are_exact new_receiver [rcv_request "e1"; rcv_request "e1"] 1)
    as (rps & r' & E1 & E2).
  - simpl. lia.
  - repeat constructor; by eexists.
  - assert (rps = [ack_reply "e1" "processed"]) as ->; [|by exists r'].
    revert E1. vm_compute. by intros [= <- <-].
Defined.

(** * Routing *)

(** Each endpoint is reached under its pattern, and only there. *)
Lemma rcv_routes_reach i p e :
  rcv_routes !! i = Some (p, e) → dispatch rcv_routes (parsePattern p).1 (url_of p "-") = RoutedTo e [].
Proof.
  intros Hi. assert (path_values (parsePattern p).2 "-" = []) as Hv.
  { do 5 (destruct i as [|i]; [by injection Hi as <- _|]). done. }
  rewrite <-Hv. eapply dispatch_reaches; [by vm_compute|exact Hi|set_solver].
Qed.
