(* ===== verification/MigrateTheorems.v ===== *)
(** The migrations runner: what loading the scripts guarantees, how far the
    bookkeeping table tells what was applied, and that going down undoes going
    up. *)
From S2P Require Import Prelude GoStrings Json Apperr Monad Migrate.
Local Open Scope Z_scope.

(** * Loading *)

(** [name] is a file of version [version] with the suffix [dir], and holds [body]. *)
Definition script_file (fs : FS) (dir : string) (version : Z) (body name : string) : Prop :=
  ∃ versionStr rest, Cut "_" name = Some (versionStr, rest) ∧ Atoi versionStr = Some version ∧
    HasSuffix rest dir = true ∧ ReadFile fs name = inr body.

(** A migration as far as the files [names] give it. *)
Definition from_files (fs : FS) (names : list string) (v : Z) (m : Migration) : Prop :=
  Version m = v ∧
  (Up m ≠ "" → ∃ f, f ∈ names ∧ script_file fs ".up.sql" v (Up m) f) ∧
  (Down m ≠ "" → ∃ f, f ∈ names ∧ script_file fs ".down.sql" v (Down m) f).

Definition has_version (bv : gmap Z Migration) (f : string) : Prop :=
  HasSuffix f ".sql" = true →
  ∃ versionStr rest v, Cut "_" f = Some (versionStr, rest) ∧ Atoi versionStr = Some v ∧ is_Some (bv !! v).

Section loading.
Context (fs : FS).

Lemma from_files_mono names names' v m :
  names ⊆ names' → from_files fs names v m → from_files fs names' v m.
Proof. intros Hs (? & Hu & Hd). split_and!; [done|..]; naive_solver. Qed.

Lemma load_file_spec bv name bv' names :
  load_file fs bv name = inr bv' →
  map_Forall (from_files fs names) bv →
  map_Forall (from_files fs (name :: names)) bv' ∧ has_version bv' name ∧ dom bv ⊆ dom bv'.
Proof.
  unfold load_file. intros E Hbv.
  assert (map_Forall (from_files fs (name :: names)) bv) as Hbv'
    by (eapply map_Forall_impl; [exact Hbv|]; intros v m; apply from_files_mono; set_solver).
  destruct (HasSuffix name ".sql") eqn:Es; simpl in E;
    [|simplify_eq; split_and!; [done|by intros ?; congruence|done]].
  destruct (Cut "_" name) as [[vs rest]|] eqn:Ec; [|done].
  destruct (Atoi vs) as [v|] eqn:Ev; [|done].
  destruct (ReadFile fs name) as [|body] eqn:Er; [done|].
  assert (from_files fs (name :: names) v (migration_at bv v)) as (Hm & Hu & Hd).
  { unfold migration_at. destruct (bv !! v) as [m|] eqn:Em; [by apply Hbv' in Em|done]. }
  destruct (HasSuffix rest ".up.sql") eqn:Eu; [|destruct (HasSuffix rest ".down.sql") eqn:Ed; [|done]];
    simplify_eq; (split_and!; [apply map_Forall_insert_2; [|done]|
      intros _; exists vs, rest, v; rewrite lookup_insert_eq; split_and!; [done..|by eexists]|set_solver]);
    split_and!; simpl; try done.
  - intros _. exists name. split; [left|]. by exists vs, rest.
  - intros _. exists name. split; [left|]. by exists vs, rest.
Qed.

Lemma load_files_spec names : ∀ bv bv' seen,
  load_files fs bv names = inr bv' →
  map_Forall (from_files fs seen) bv → Forall (has_version bv) seen →
  map_Forall (from_files fs (names ++ seen)) bv' ∧ Forall (has_version bv') (names ++ seen).
Proof.
  induction names as [|name names IH]; intros bv bv' seen E Hbv Hseen; simpl in *; [by simplify_eq|].
  destruct (load_file fs bv name) as [|bv1] eqn:E1; [done|].
  destruct (load_file_spec _ _ _ _ E1 Hbv) as (Hbv1 & Hv & Hdom).
  destruct (IH _ _ (name :: seen) E Hbv1) as [H1 H2].
  { constructor; [done|]. eapply Forall_impl; [exact Hseen|].
    intros f Hf Hs. destruct (Hf Hs) as (vs & rest & v & ? & ? & Hin).
    exists vs, rest, v. split_and!; [done..|]. apply elem_of_dom, Hdom. by apply elem_of_dom. }
  assert (name :: names ++ seen ≡ₚ names ++ name :: seen) as Hp by apply Permutation_middle.
  split; [|by rewrite Hp]. eapply map_Forall_impl; [exact H1|]. intros v m. apply from_files_mono.
  intros x. by rewrite <-Hp.
Qed.

Lemma check_files_spec ms out :
  check_files ms = inr out → out = ms ∧ Forall (λ m, Up m ≠ "" ∧ Down m ≠ "") ms.
Proof.
  revert out. induction ms as [|m ms IH]; intros out; simpl; [by intros [= <-]|].
  destruct (String.eqb_spec (Up m) ""); [done|]. destruct (String.eqb_spec (Down m) ""); [done|].
  destruct (check_files ms) as [|out']; [done|]. intros [= <-].
  destruct (IH out') as [-> ?]; [done|]. by split; [|constructor].
Qed.

Lemma check_files_intro ms : Forall (λ m, Up m ≠ "" ∧ Down m ≠ "") ms → check_files ms = inr ms.
Proof.
  induction 1 as [|m ms [Hu Hd] _ IH]; [done|]. simpl.
  apply String.eqb_neq in Hu as ->. apply String.eqb_neq in Hd as ->. by rewrite IH.
Qed.
End loading.

(** [range] over a map yields its entries in some order. *)
Definition permutes (order : list Migration → list Migration) : Prop := ∀ l, order l ≡ₚ l.

#[local] Instance version_le_trans : Transitive version_le.
Proof. intros m1 m2 m3. unfold version_le. lia. Qed.
#[local] Instance version_le_total : Total version_le.
Proof. intros m1 m2. unfold version_le. lia. Qed.

Section loaded.
Context (fs : FS) (order : list Migration → list Migration) (Hord : permutes order).

Lemma versions_of_map (bv : gmap Z Migration) :
  map_Forall (λ v m, Version m = v) bv → Version <$> (map_to_list bv).*2 = (map_to_list bv).*1.
Proof.
  intros Hv. assert (∀ v m, (v, m) ∈ map_to_list bv → Version m = v) as Hl
    by (intros v m ?%elem_of_map_to_list; by apply Hv).
  clear Hv. induction (map_to_list bv) as [|[v m] l IH]; [done|]. simpl. f_equal; [apply Hl; left|].
  apply IH. intros v' m' ?. apply Hl. by right.
Qed.

Lemma LoadMigrations_inv ms :
  LoadMigrations fs order = inr ms →
  ∃ names bv, ReadDir fs = inr names ∧ load_files fs ∅ names = inr bv ∧
    ms ≡ₚ (map_to_list bv).*2 ∧ StronglySorted version_le ms ∧ NoDup (Version <$> ms) ∧
    map_Forall (from_files fs names) bv ∧ Forall (has_version bv) names ∧
    Forall (λ m, Up m ≠ "" ∧ Down m ≠ "") ms.
Proof using Hord.
  unfold LoadMigrations. destruct (ReadDir fs) as [|names] eqn:Er; [done|].
  destruct (load_files fs ∅ names) as [|bv] eqn:El; [done|].
  destruct (check_files _) as [|out] eqn:Ec; [done|]. intros [= <-].
  apply check_files_spec in Ec as [-> Hne].
  destruct (load_files_spec fs names ∅ bv [] El) as [Hbv Hn]; [by apply map_Forall_empty|done|].
  rewrite app_nil_r in Hbv, Hn. set (l := (map_to_list bv).*2) in *.
  assert (merge_sort version_le (order l) ≡ₚ l) as Hp by (rewrite merge_sort_Permutation; apply Hord).
  exists names, bv. split_and!; try done.
  - apply StronglySorted_merge_sort; apply _.
  - rewrite Hp. unfold l. rewrite versions_of_map; [apply NoDup_fst_map_to_list|].
    eapply map_Forall_impl; [exact Hbv|]. by intros v m [? _].
  - by rewrite merge_sort_Permutation.
Qed.

Lemma version_le_anti (ms : list Migration) m1 m2 :
  NoDup (Version <$> ms) → m1 ∈ ms → m2 ∈ ms → version_le m1 m2 → version_le m2 m1 → m1 = m2.
Proof.
  unfold version_le. intros Hnd [i Hi]%list_elem_of_lookup [j Hj]%list_elem_of_lookup ??.
  assert (i = j) as ->; [|congruence].
  eapply NoDup_lookup; [exact Hnd|..]; rewrite list_lookup_fmap; [rewrite Hi|rewrite Hj]; simpl;
    [done|f_equal; lia].
Qed.

Lemma strictly_sorted (ms : list Migration) :
  StronglySorted version_le ms → NoDup (Version <$> ms) → StronglySorted Z.lt (Version <$> ms).
Proof.
  induction 1 as [|m ms _ IH Hm]; simpl; [constructor|]. intros [Hn Hnd]%NoDup_cons.
  constructor; [by apply IH|]. apply Forall_fmap. eapply Forall_forall. intros m' Hm'.
  eapply Forall_forall in Hm; [|exact Hm']. unfold version_le in Hm. simpl.
  assert (Version m ≠ Version m') by (intros E; apply Hn; rewrite E; by apply list_elem_of_fmap_2). lia.
Qed.
End loaded.

(** Loading is sound, complete and deterministic: the migrations come out in
    strictly ascending versions, each with the contents of an up file and of a
    down file of that version; every SQL file belongs to one of them; and the
    order in which the program walks its map makes no difference. *)
Theorem LoadMigrations_loads_the_directory fs order names ms :
  permutes order → ReadDir fs = inr names → LoadMigrations fs order = inr ms →
  StronglySorted Z.lt (Version <$> ms) ∧
  (∀ m, m ∈ ms → (∃ f, f ∈ names ∧ script_file fs ".up.sql" (Version m) (Up m) f) ∧
                 (∃ f, f ∈ names ∧ script_file fs ".down.sql" (Version m) (Down m) f)) ∧
  (∀ f, f ∈ names → HasSuffix f ".sql" = true →
     ∃ versionStr rest v, Cut "_" f = Some (versionStr, rest) ∧ Atoi versionStr = Some v ∧
       v ∈ Version <$> ms) ∧
  (∀ order', permutes order' → LoadMigrations fs order' = inr ms).
Proof.
  intros Hord Hr E. destruct (LoadMigrations_inv fs order Hord ms E)
    as (names' & bv & Hr' & El & Hp & Hs & Hnd & Hbv & Hn & Hne). rewrite Hr in Hr'. simplify_eq.
  assert (∀ m, m ∈ ms → from_files fs names' (Version m) m) as Hfrom.
  { intros m Hm. rewrite Hp in Hm. apply list_elem_of_fmap in Hm as ([v m'] & -> & Hm).
    apply elem_of_map_to_list in Hm. simpl. pose proof (Hbv _ _ Hm) as Hf. by rewrite (proj1 Hf). }
  split_and!; [by apply strictly_sorted|..].
  - intros m Hm. destruct (Hfrom m Hm) as (_ & Hu & Hd).
    eapply Forall_forall in Hne as [??]; [|exact Hm]. auto.
  - intros f Hf Hsql. eapply Forall_forall in Hn; [|exact Hf].
    destruct (Hn Hsql) as (vs & rest & v & ? & ? & m & Hm). exists vs, rest, v. split_and!; [done..|].
    apply list_elem_of_fmap. exists m. split; [symmetry; apply (Hbv _ _ Hm)|].
    rewrite Hp. apply list_elem_of_fmap. exists (v, m). by split; [|apply elem_of_map_to_list].
  - intros order' Hord'. unfold permutes in Hord'. unfold LoadMigrations. rewrite Hr, El.
    rewrite check_files_intro by (rewrite Hord', <-Hp; done). f_equal.
    eapply StronglySorted_unique_strong with (R := version_le);
      [|apply StronglySorted_merge_sort; apply _|done|by rewrite merge_sort_Permutation, Hord'].
    intros m1 m2. rewrite merge_sort_Permutation, Hord', <-Hp. by apply version_le_anti.
Qed.

(** The repository's own directory: one version, up and down, and each script a
    transaction of its own. *)
Definition up_script : string := "BEGIN; CREATE; COMMIT;".
Definition down_script : string := "BEGIN; DROP; COMMIT;".
Definition repo_fs : FS := {|
  ReadDir := inr ["0001_init.down.sql"; "0001_init.up.sql"; "embed.go"];
  ReadFile f := if String.eqb f "0001_init.up.sql" then inr up_script else inr down_script;
|}.

Lemma LoadMigrations_loads_the_directory_witness :
  LoadMigrations repo_fs (@rev Migration) = inr [mkMigration 1 "init" up_script down_script].
Proof.
  apply (LoadMigrations_loads_the_directory repo_fs id ["0001_init.down.sql"; "0001_init.up.sql"; "embed.go"]).
  - by intros l.
  - reflexivity.
  - vm_compute. reflexivity.
  - intros l. symmetry. apply Permutation_rev.
Defined.

(** * What a run does to the database *)

Section runs.
Context `{Engine}.

(** What COMMIT makes durable. *)
Definition durable : Type := Contents * gmap Z string.

Definition holds (s : Target) (d : durable) : Prop :=
  contents s = d.1 ∧ schema_migrations s = Some d.2.

(** The bookkeeping, seen from outside: a missing table is an empty one. *)
Definition durable_of (s : Target) : durable := (contents s, default ∅ (schema_migrations s)).

(** A migration applied together with its row. *)
Definition applies (m : Migration) (d d' : durable) : Prop :=
  d.2 !! Version m = None ∧ exec_script (Up m) d.1 = inr d'.1 ∧
  d'.2 = <[Version m := MgName m]> d.2.

Definition reverts (m : Migration) (d d' : durable) : Prop :=
  exec_script (Down m) d.1 = inr d'.1 ∧ d'.2 = delete (Version m) d.2.

(** One after the other. *)
Inductive in_turn (R : Migration → durable → durable → Prop)
    : list Migration → durable → durable → Prop :=
  | in_turn_nil d : in_turn R [] d d
  | in_turn_cons m ms d1 d2 d3 : R m d1 d2 → in_turn R ms d2 d3 → in_turn R (m :: ms) d1 d3.

Lemma in_turn_app R ms1 ms2 d1 d3 :
  in_turn R (ms1 ++ ms2) d1 d3 ↔ ∃ d2, in_turn R ms1 d1 d2 ∧ in_turn R ms2 d2 d3.
Proof.
  split.
  - revert d1. induction ms1 as [|m ms1 IH]; intros d1 Ht; [exists d1; by split; [constructor|]|].
    inversion Ht; subst. destruct (IH _ ltac:(eassumption)) as (d' & ? & ?).
    exists d'. by split; [econstructor|].
  - intros (d2 & Ht & ?). induction Ht; [done|]. econstructor; eauto.
Qed.

Lemma in_turn_one R m d1 d2 : in_turn R [m] d1 d2 ↔ R m d1 d2.
Proof.
  split; [|intros ?; econstructor; [done|constructor]].
  inversion 1 as [|????? ? Ht]; subst. by inversion Ht; subst.
Qed.

(** The script of [m] alone took effect: it committed by itself, and its row did not
    follow. *)
Definition unrecorded (sql : string) (d d' : durable) : Prop :=
  ends_transaction sql = true ∧ exec_script sql d.1 = inr d'.1 ∧ d'.2 = d.2.

(** A transaction of the script [sql] and its bookkeeping, which together do [R]:
    whatever fails, all of it, nothing, or a script that committed by itself; and no
    error only when it is done. *)
Definition transacts (R : durable → durable → Prop) (sql : string) (fn : ST Target unit) : Prop :=
  ∀ s d, holds s d →
    ∃ r s', fn s = (r, s') ∧
      ((r = Ok tt ∧ ∃ d', holds s' d' ∧ R d d') ∨
       (∃ e, r = Err e ∧ (holds s' d ∨ ∃ d', holds s' d' ∧ (R d d' ∨ unrecorded sql d d')))).

(** What a step leaves: what it holds, inside or outside a transaction. *)
Definition inside (s : Target) (d0 d : durable) : Prop :=
  holds s d ∧ mg_begun s = Some (d0.1, Some d0.2).
Definition outside (s : Target) (d : durable) : Prop := holds s d ∧ mg_begun s = None.

(** A bookkeeping statement that does [B] to the table: inside a transaction, or by
    itself. *)
Definition books (B : gmap Z string → gmap Z string → Prop) (fn : ST Target unit) : Prop :=
  (∀ s d0 d, inside s d0 d → ∃ r s', fn s = (r, s') ∧ mg_begun s' = mg_begun s ∧
     ((r = Ok tt ∧ ∃ t, B d.2 t ∧ holds s' (d.1, t)) ∨ ∃ e, r = Err e)) ∧
  (∀ s d, outside s d → ∃ r s', fn s = (r, s') ∧ mg_begun s' = None ∧
     ((r = Ok tt ∧ ∃ t, B d.2 t ∧ holds s' (d.1, t)) ∨
      ∃ e, r = Err e ∧ (holds s' d ∨ ∃ t, B d.2 t ∧ holds s' (d.1, t)))).

Lemma begin_tx_ends s d : holds s d →
  ∃ r s', begin_tx s = (r, s') ∧
    ((r = Ok tt ∧ inside s' d d) ∨ ∃ e, r = Err e ∧ holds s' d).
Proof.
  intros [Hc Ht]. unfold begin_tx, tick, mbind, ST_bind. simpl.
  destruct (mg_begin_fault _) as [e|]; (eexists _, _; split; [reflexivity|]);
    [right; by exists e|left; split; [done|]; split; [done|]]. simpl. by rewrite Hc, Ht.
Qed.

Lemma commit_tx_inside s d0 d : inside s d0 d →
  ∃ r s', commit_tx s = (r, s') ∧
    ((r = Ok tt ∧ outside s' d) ∨ ∃ e, r = Err e ∧ (outside s' d ∨ outside s' d0)).
Proof.
  intros [[Hc Ht] Hb]. unfold commit_tx, tick, mbind, ST_bind, modify, committed, rolled_back. simpl. rewrite Hb.
  destruct (mg_commit_fault _) as [[[] e]|]; (eexists _, _; split; [reflexivity|]);
    [right; eexists; split; [done|by left]|right; eexists; split; [done|by right]|by left].
Qed.

Lemma commit_tx_outside s d : outside s d →
  ∃ r s', commit_tx s = (r, s') ∧ outside s' d ∧ (r = Ok tt ∨ ∃ e, r = Err e).
Proof.
  intros [[Hc Ht] Hb]. unfold commit_tx, tick, mbind, ST_bind, modify, committed, rolled_back. simpl. rewrite Hb.
  destruct (mg_commit_fault _) as [[[] e]|]; (eexists _, _; split; [reflexivity|]); split; eauto; done.
Qed.

Lemma rolled_back_inside s d0 d : mg_begun s = Some (d0.1, Some d0.2) → d = d0 → holds (rolled_back s) d.
Proof. unfold rolled_back. by intros -> ->. Qed.

Lemma run_script_ends sql s d : inside s d d →
  ∃ r s', run_script sql s = (r, s') ∧
    ((r = Ok tt ∧ ∃ c, exec_script sql d.1 = inr c ∧
        if ends_transaction sql then outside s' (c, d.2) else inside s' d (c, d.2)) ∨
     (∃ e, r = Err e ∧ (mg_begun s' = Some (d.1, Some d.2) ∨ outside s' d ∨
        ∃ d', outside s' d' ∧ unrecorded sql d d'))).
Proof.
  intros [[Hc Ht] Hb]. unfold run_script, tx_exec, tick, gets, mbind, ST_bind. simpl. rewrite Hb. simpl.
  destruct (tx_fault _) as [e|]; [eexists _, _; split; [reflexivity|]; right; eauto|].
  simpl. rewrite Hc. destruct (exec_script sql d.1) as [e|c] eqn:Es;
    [eexists _, _; split; [reflexivity|]; right; eauto|].
  set (s1 := mkTarget c _ _ _). assert (inside s1 d (c, d.2)) as Hin by done.
  destruct (ends_transaction sql) eqn:Eend; [|eexists _, _; split; [reflexivity|]; left; eauto].
  destruct (commit_tx_inside s1 _ _ Hin) as (r & s' & E & Hr). exists r, s'. split; [exact E|].
  destruct Hr as [[-> Ho]|(e & -> & [Ho|Ho])]; [left; eauto|right|right; eauto].
  exists e. split; [done|]. right. right. by exists (c, d.2).
Qed.

Lemma withTx_transacts sql f B fn :
  books B fn →
  transacts (λ d d', exec_script sql d.1 = inr d'.1 ∧ B d.2 d'.2) sql
    (withTx (map_err f (run_script sql);; fn)).
Proof.
  intros [Hin Hout] s d Hs. unfold withTx.
  destruct (begin_tx_ends s d Hs) as (r & s0 & E0 & [[-> H0]|(e & -> & H0)]);
    unfold in_tx, mbind, ST_bind, map_err; rewrite E0; [|by eexists _, _; eauto 6].
  destruct (run_script_ends sql s0 d H0) as (r & s1 & -> & [(-> & c & Es & H1)|(e & -> & H1)]).
  2: { eexists _, _. split; [reflexivity|]. right. eexists. split; [done|].
       destruct H1 as [Hb|[[H1 Hb]|(d' & [H1 Hb] & Hu)]]; [left; by eapply rolled_back_inside| |];
         unfold rolled_back; rewrite Hb; eauto. }
  destruct (ends_transaction sql) eqn:Eend.
  - destruct (Hout s1 _ H1) as (r & s2 & -> & Hb & Hr). simpl in Hr.
    assert (unrecorded sql d (c, d.2)) as Hu by done.
    destruct Hr as [(-> & t & HB & H2)|(e & -> & Hr)].
    + destruct (commit_tx_outside s2 (c, t)) as (r & s3 & -> & [H3 _] & Hr); [done|].
      eexists _, _. split; [reflexivity|]. destruct Hr as [->|[e ->]]; [left|right]; eauto 8.
    + eexists _, _. split; [reflexivity|]. right. eexists. split; [done|]. right.
      unfold rolled_back. rewrite Hb. destruct Hr as [?|(t & HB & ?)]; eauto 8.
  - destruct (Hin s1 _ _ H1) as (r & s2 & -> & Hb & Hr). simpl in Hr. destruct H1 as [_ Hb1].
    rewrite Hb1 in Hb. destruct Hr as [(-> & t & HB & H2)|(e & ->)].
    + destruct (commit_tx_inside s2 d (c, t)) as (r & s3 & -> & Hr); [done|].
      eexists _, _. split; [reflexivity|]. destruct Hr as [[-> [H3 _]]|(e & -> & [[H3 _]|[H3 _]])]; [left| |]; eauto 8.
      right. eauto 8.
    + eexists _, _. split; [reflexivity|]. right. eexists. split; [done|]. left. by eapply rolled_back_inside.
Qed.

(** A statement on the bookkeeping table, given what it does to the table. *)
Lemma tx_exec_books B (m : ST Target unit) :
  (∀ s d, holds s d → (∃ e, m s = (Err e, s)) ∨
     ∃ t, B d.2 t ∧ m s = (Ok tt, mkTarget (contents s) (Some t) (mg_tick s) (mg_begun s))) →
  books B (tx_exec m).
Proof.
  intros Hm. split.
  - intros s d0 d [[Hc Ht] Hb]. unfold tx_exec, tick, gets, mbind, ST_bind. simpl. rewrite Hb. simpl.
    destruct (tx_fault _); [eexists _, _; split; [reflexivity|]; eauto|]. simpl.
    match goal with |- context [m ?s1] => destruct (Hm s1 d) as [[e ->]|(t & HB & ->)] end; [done|..];
      (eexists _, _; split; [reflexivity|]); split; [done|eauto|done|]. left. split; [done|]. by exists t.
  - intros s d [[Hc Ht] Hb]. unfold tx_exec, on_its_own, tick, gets, mbind, ST_bind. simpl. rewrite Hb. simpl.
    set (s1 := mkTarget (contents s) (schema_migrations s) (S (mg_tick s)) None).
    destruct (Hm s1 d) as [[e Em]|(t & HB & Em)]; [done|..];
      (destruct (pool_fault _) as [[[] ?]|]; unfold mbind, ST_bind; try rewrite Em); (eexists _, _; split; [reflexivity|]);
      (split; [done|]); try (right; eexists; split; [done|]; by left);
      try (right; eexists; split; [done|]; right; by exists t); left; split; [done|]; by exists t.
Qed.

Lemma insert_version_books v name :
  books (λ t t', t !! v = None ∧ t' = <[v := name]> t) (insert_version v name).
Proof.
  apply tx_exec_books. intros s d [Hc Ht]. unfold the_table, gets, mbind, ST_bind. rewrite Ht. simpl.
  destruct (negb _); [by left; eexists|]. destruct (d.2 !! v) eqn:Ev; [by left; eexists|].
  right. by eexists.
Qed.

Lemma delete_version_books v : books (λ t t', t' = delete v t) (delete_version v).
Proof.
  apply tx_exec_books. intros s d [Hc Ht]. unfold the_table, gets, mbind, ST_bind. rewrite Ht. simpl.
  right. by eexists.
Qed.

Lemma transacts_mono (R R' : durable → durable → Prop) sql fn :
  (∀ d d', R d d' → R' d d') → transacts R sql fn → transacts R' sql fn.
Proof.
  intros Hsub Hfn s d Hs. destruct (Hfn s d Hs) as (r & s' & E & Hr). exists r, s'. split; [done|].
  naive_solver.
Qed.

Lemma apply_one_transacts m : transacts (applies m) (Up m) (apply_one m).
Proof.
  eapply transacts_mono; [|apply withTx_transacts, insert_version_books]. unfold applies. naive_solver.
Qed.

Lemma revert_one_transacts m : transacts (reverts m) (Down m) (revert_one m).
Proof.
  eapply transacts_mono; [|apply withTx_transacts, delete_version_books]. unfold reverts. naive_solver.
Qed.

(** ** The loops *)

(** Both loops are this one, over the migrations that are to be handled. *)
Fixpoint each (one : Migration → ST Target unit) (wrap : error → error) (todo : list Migration)
    (ran : list Z) : ST Target ran_result :=
  match todo with
  | [] => mret (ran, None)
  | m :: todo =>
      r ← try (one m);
      match r with
      | inl err => mret (ran, Some (wrap err))
      | inr _ => each one wrap todo (ran ++ [Version m])
      end
  end.

Lemma try_bind_ext {A} (m : ST Target unit) (f g : error + unit → ST Target A) s :
  (∀ r s1, f r s1 = g r s1) → (r ← try m; f r) s = (r ← try m; g r) s.
Proof. intros Hfg. unfold mbind, ST_bind, try. by destruct (m s) as [[]]. Qed.

Definition unapplied (applied : gmap Z string) (m : Migration) : Prop := applied !! Version m = None.
#[export] Instance unapplied_dec applied m : Decision (unapplied applied m).
Proof. unfold unapplied. apply _. Defined.

Definition up_err (err : error) : error := EFmt "storage: migrate up: " (Some err) "".
Definition down_err (err : error) : error := EFmt "storage: migrate down: " (Some err) "".

Lemma up_loop_each applied ms : ∀ ran s,
  up_loop applied ms ran s = each apply_one up_err (filter (unapplied applied) ms) ran s.
Proof.
  induction ms as [|m ms IH]; intros ran s; [done|]. rewrite filter_cons. simpl.
  case_decide as Hu; unfold unapplied in Hu.
  - rewrite Hu. apply try_bind_ext. by intros [] s1.
  - destruct (applied !! Version m); [apply IH|done].
Qed.

(** At most [steps] of them, all of them for [steps <= 0]. *)
Definition first_steps (steps : Z) (done : nat) (l : list Migration) : list Migration :=
  if 0 <? steps then take (Z.to_nat steps - done) l else l.

Lemma down_loop_each steps applied ms : ∀ reverted s,
  down_loop steps applied ms reverted s =
  each revert_one down_err
    (first_steps steps (length reverted) (filter (λ m, ¬ unapplied applied m) ms)) reverted s.
Proof.
  unfold first_steps. induction ms as [|m ms IH]; intros reverted s; simpl.
  { rewrite filter_nil, take_nil. by destruct (0 <? steps). }
  destruct (0 <? steps) eqn:Es; simpl.
  - destruct (steps <=? Z.of_nat (length reverted)) eqn:El.
    { assert (Z.to_nat steps - length reverted = 0)%nat as -> by lia. done. }
    rewrite filter_cons. destruct (applied !! Version m) as [n|] eqn:E;
      [rewrite decide_True by (unfold unapplied; by rewrite E)
      |rewrite decide_False by (intros Hn; by apply Hn); apply IH].
    replace (Z.to_nat steps - length reverted)%nat with (S (Z.to_nat steps - length (reverted ++ [Version m])))
      by (rewrite length_app; simpl; lia).
    simpl. apply try_bind_ext. by intros [] s1.
  - rewrite filter_cons. destruct (applied !! Version m) as [n|] eqn:E;
      [rewrite decide_True by (unfold unapplied; by rewrite E)
      |rewrite decide_False by (intros Hn; by apply Hn); apply IH].
    apply try_bind_ext. by intros [] s1.
Qed.

(** Where a run is left in front of [rest]: as it was, or with the next one done, or
    with the script of the next one done and not its row. *)
Definition left_at (R : Migration → durable → durable → Prop) (dir : Migration → string)
    (rest : list Migration) (d d' : durable) : Prop :=
  d' = d ∨ ∃ m, head rest = Some m ∧ (R m d d' ∨ unrecorded (dir m) d d').

Lemma each_spec R dir one wrap todo : (∀ m, transacts (R m) (dir m) (one m)) → ∀ ran s d, holds s d →
  ∃ done rest err s' d1 d2, todo = done ++ rest ∧
    each one wrap todo ran s = (Ok (ran ++ (Version <$> done), err), s') ∧ holds s' d2 ∧
    in_turn R done d d1 ∧ left_at R dir rest d1 d2 ∧ (err = None → rest = []).
Proof.
  intros Hone. induction todo as [|m todo IH]; intros ran s d Hs.
  { exists [], [], None, s, d, d. simpl. rewrite app_nil_r. split_and!; [done..|by constructor|by left|done]. }
  simpl. unfold mbind, ST_bind, try. destruct (Hone m s d Hs) as (r & s1 & -> & Hr).
  destruct Hr as [(-> & d1 & Hs1 & HR)|(e & -> & Hr)].
  - destruct (IH (ran ++ [Version m]) s1 d1 Hs1) as (dn & rest & err & s' & d2 & d' & -> & E & Hs' & Ht & Hl & Herr).
    exists (m :: dn), rest, err, s', d2, d'. rewrite <-app_assoc in E.
    split_and!; [done..|by econstructor|done|done].
  - assert (∃ d', holds s1 d' ∧ left_at R dir (m :: todo) d d') as (d' & Hs1 & Hl).
    { destruct Hr as [Hs1|(d' & Hs1 & HR)]; [exists d|exists d']; (split; [done|]); [by left|right; by exists m]. }
    exists [], (m :: todo), (Some (wrap e)), s1, d, d'. simpl. rewrite app_nil_r.
    split_and!; [done..|constructor|done|done].
Qed.

(** A run without an error went all the way. *)
Lemma each_all R dir one wrap todo ran s d vs s' :
  (∀ m, transacts (R m) (dir m) (one m)) → holds s d →
  each one wrap todo ran s = (Ok (vs, None), s') →
  vs = ran ++ (Version <$> todo) ∧ ∃ d', holds s' d' ∧ in_turn R todo d d'.
Proof.
  intros Hone Hs E.
  destruct (each_spec R dir one wrap todo Hone ran s d Hs) as (dn & rest & err & s1 & d1 & d2 & -> & E1 & Hs1 & Ht & Hl & Herr).
  rewrite E1 in E. simplify_eq. specialize (Herr eq_refl). subst rest. rewrite app_nil_r. split; [done|].
  exists d2. split; [done|]. by destruct Hl as [->|(m & Hm & _)].
Qed.

(** ** The start of both directions *)

Lemma prepare_cases fs order k s :
  (∃ err s', prepare fs order k s = (Ok ([], Some err), s') ∧ durable_of s' = durable_of s) ∨
  ∃ ms s1, LoadMigrations fs order = inr ms ∧ holds s1 (durable_of s) ∧
    prepare fs order k s = k ms (durable_of s).2 s1.
Proof.
  unfold prepare. destruct (LoadMigrations fs order) as [err|ms]; [left; by exists err, s|].
  destruct s as [c t n b].
  unfold create_table, on_its_own, appliedVersions, the_table, tick, try, map_err, mbind, ST_bind.
  simpl. destruct (pool_fault n) as [[[] e]|]; simpl; [left; by eexists _, _..|].
  destruct (pool_fault (S n)) as [[? e]|]; simpl; [left; by eexists _, _|].
  destruct (pool_fault (S (S n))) as [[? e]|]; simpl; [left; by eexists _, _|].
  right. eexists ms, _. split; [done|]. split; [|reflexivity]. done.
Qed.

Lemma holds_durable s d : holds s d → durable_of s = d.
Proof. intros [Hc Ht]. unfold durable_of. rewrite Hc, Ht. by destruct d. Qed.
End runs.

Lemma versions_filter (P : Migration → Prop) `{∀ m, Decision (P m)} ms :
  StronglySorted Z.lt (Version <$> ms) → StronglySorted Z.lt (Version <$> filter P ms).
Proof.
  induction ms as [|m ms IH]; [done|]. simpl. intros [Hs Hm]%StronglySorted_inv. rewrite filter_cons.
  case_decide; [|by apply IH]. simpl. constructor; [by apply IH|].
  rewrite Forall_fmap, Forall_forall in Hm. rewrite Forall_fmap, Forall_forall.
  intros x [_ Hx]%list_elem_of_filter. by apply Hm.
Qed.

Lemma migrations_filter_none (P : Migration → Prop) `{∀ m, Decision (P m)} ms :
  (∀ m, m ∈ ms → ¬ P m) → filter P ms = [].
Proof.
  induction ms as [|m ms IH]; intros Hn; [done|]. rewrite filter_cons, decide_False by (apply Hn; left).
  apply IH. intros m' ?. apply Hn. by right.
Qed.

Lemma migrations_filter_all (P : Migration → Prop) `{∀ m, Decision (P m)} (ms : list Migration) :
  (∀ m, m ∈ ms → P m) → filter P ms = ms.
Proof.
  induction ms as [|m ms IH]; intros Hn; [done|]. rewrite filter_cons, decide_True by (apply Hn; left).
  f_equal. apply IH. intros m' ?. apply Hn. by right.
Qed.

(** ** Runs without failures *)

Section quiet.
Context `{Engine}.

Definition quiet_engine : Prop :=
  (∀ n, pool_fault n = None) ∧ (∀ n, tx_fault n = None) ∧
  (∀ n, mg_begin_fault n = None) ∧ (∀ n, mg_commit_fault n = None).

Lemma prepare_quiet fs order k s ms :
  (∀ n, pool_fault n = None) → LoadMigrations fs order = inr ms →
  ∃ s1, holds s1 (durable_of s) ∧ prepare fs order k s = k ms (durable_of s).2 s1.
Proof.
  intros Hq Hl. unfold prepare. rewrite Hl. destruct s as [c t n b].
  unfold create_table, on_its_own, appliedVersions, the_table, tick, try, map_err, mbind, ST_bind. simpl.
  rewrite (Hq n). simpl. rewrite (Hq (S n)). simpl. rewrite (Hq (S (S n))). simpl.
  eexists. split; [|reflexivity]. done.
Qed.

Lemma applies_versions ms d d' :
  in_turn applies ms d d' →
  (∀ v, is_Some (d.2 !! v) → is_Some (d'.2 !! v)) ∧
  (∀ m, m ∈ ms → is_Some (d'.2 !! Version m)).
Proof.
  induction 1 as [d|m ms d1 d2 d3 (Hn & _ & E) _ [IH1 IH2]]; [split; [done|by intros m ?%not_elem_of_nil]|].
  split.
  - intros v Hv. apply IH1. rewrite E. destruct (decide (v = Version m)) as [->|];
      [rewrite lookup_insert_eq; by eexists|by rewrite lookup_insert_ne].
  - intros m' [->|?]%elem_of_cons; [|by apply IH2]. apply IH1. rewrite E, lookup_insert_eq. by eexists.
Qed.

(** A rollback script undoes its migration. *)
Definition reversible (m : Migration) : Prop :=
  ∀ c c', exec_script (Up m) c = inr c' → exec_script (Down m) c' = inr c.

Lemma revert_one_runs m d d' s :
  quiet_engine → reversible m → applies m d d' → holds s d' →
  ∃ s', revert_one m s = (Ok tt, s') ∧ holds s' d.
Proof.
  intros (Hp & Htx & Hb & Hc) Hrev (Hn & E & T) [Hs Ht]. destruct s as [c t n b]. simpl in Hs, Ht. subst c t.
  unfold revert_one, withTx, begin_tx, in_tx, run_script, commit_tx, delete_version, tx_exec, on_its_own, the_table,
    set_table, tick, gets, modify, map_err, mbind, ST_bind. rewrite Hb. simpl. rewrite Htx. simpl. rewrite (Hrev _ _ E).
  assert (∀ n b, holds (mkTarget d.1 (Some (delete (Version m) d'.2)) n b) d) as Hd
    by (intros n' b'; split; [done|]; simpl; by rewrite T, delete_insert_id).
  destruct (ends_transaction _); simpl; rewrite ?Hc; simpl; rewrite ?Hp, ?Htx; simpl; rewrite ?Hc;
    (eexists; split; [reflexivity|]); apply Hd.
Qed.

Lemma each_reverts ms : ∀ d d' ran s,
  quiet_engine → Forall reversible ms → in_turn applies ms d d' → holds s d' →
  ∃ s', each revert_one down_err (rev ms) ran s = (Ok (ran ++ (Version <$> rev ms), None), s') ∧ holds s' d.
Proof.
  induction ms as [|m ms IH] using rev_ind; intros d d' ran s Hq Hrev Ht Hs.
  { inversion Ht; subst. exists s. by rewrite app_nil_r. }
  rewrite rev_app_distr. simpl. apply Forall_app in Hrev as [Hrev [Hm _]%Forall_cons].
  apply in_turn_app in Ht as (d1 & Ht & Hone%in_turn_one).
  destruct (revert_one_runs m d1 d' s Hq Hm Hone Hs) as (s1 & E1 & Hs1).
  destruct (IH d d1 (ran ++ [Version m]) s1 Hq Hrev Ht Hs1) as (s' & E & Hs').
  exists s'. split; [|done]. unfold mbind, ST_bind, try. rewrite E1, E. by rewrite <-app_assoc.
Qed.
End quiet.

(** * Properties *)

(** The migrations of the directory. *)
Definition loaded (fs : FS) (order : list Migration → list Migration) : list Migration :=
  match LoadMigrations fs order with inl _ => [] | inr ms => ms end.

(** The run moved through the migrations it returns, in turn; if it failed, the next
    one may have been done too, or its script alone. *)
Definition moves `{Engine} (R : Migration → durable → durable → Prop) (dir : Migration → string)
    (fs : FS) (order : list Migration → list Migration) (s s' : Target)
    (ran : list Z) (err : option error) : Prop :=
  ∃ ms rest d, ran = Version <$> ms ∧ ms ++ rest ⊆ loaded fs order ∧ (err = None → rest = []) ∧
    in_turn R ms (durable_of s) d ∧ left_at R dir rest d (durable_of s').

Lemma moves_not `{Engine} R dir fs order s s' err :
  durable_of s' = durable_of s → moves R dir fs order s s' [] err.
Proof.
  intros Ed. exists [], [], (durable_of s). rewrite Ed.
  split_and!; [done|apply list_subseteq_nil|done|constructor|by left].
Qed.

Lemma MigrateUp_moves `{Engine} fs order s :
  ∃ ran err s', MigrateUp fs order s = (Ok (ran, err), s') ∧ moves applies Up fs order s s' ran err.
Proof.
  unfold MigrateUp.
  destruct (prepare_cases fs order (λ ms applied, up_loop applied ms []) s)
    as [(err & s' & E & Ed)|(ms & s1 & Hl & Hs1 & ->)].
  { exists [], (Some err), s'. split; [done|by apply moves_not]. }
  rewrite up_loop_each.
  destruct (each_spec applies Up apply_one up_err (filter (unapplied (durable_of s).2) ms)
              apply_one_transacts [] s1 _ Hs1)
    as (dn & rest & err & s' & d1 & d2 & Etodo & E & Hs' & Ht & Hleft & Herr).
  eexists _, _, s'. split; [exact E|]. exists dn, rest, d1. rewrite (holds_durable _ _ Hs'), <-Etodo.
  split_and!; try done. unfold loaded. rewrite Hl. by intros m [_ Hm]%list_elem_of_filter.
Qed.

Lemma first_steps_incl steps n l : first_steps steps n l ⊆ l.
Proof.
  unfold first_steps. destruct (0 <? steps); [|done]. intros m Hm. rewrite <-(take_drop (Z.to_nat steps - n) l).
  apply elem_of_app. by left.
Qed.

Lemma MigrateDown_moves `{Engine} fs order steps s :
  ∃ reverted err s', MigrateDown fs order steps s = (Ok (reverted, err), s') ∧
    (0 < steps → Z.of_nat (length reverted) ≤ steps) ∧ moves reverts Down fs order s s' reverted err.
Proof.
  unfold MigrateDown.
  destruct (prepare_cases fs order (λ ms applied, down_loop steps applied (rev ms) []) s)
    as [(err & s' & E & Ed)|(ms & s1 & Hl & Hs1 & ->)].
  { exists [], (Some err), s'. split_and!; [done|simpl; lia|by apply moves_not]. }
  rewrite down_loop_each. set (todo := first_steps _ _ _).
  destruct (each_spec reverts Down revert_one down_err todo revert_one_transacts [] s1 _ Hs1)
    as (dn & rest & err & s' & d1 & d2 & Etodo & E & Hs' & Ht & Hleft & Herr).
  eexists _, _, s'. split; [exact E|]. split.
  - intros Hpos. simpl. rewrite length_fmap. assert (length todo ≤ Z.to_nat steps)%nat as Hle.
    { unfold todo, first_steps. rewrite (proj2 (Z.ltb_lt 0 steps)) by done. simpl.
      rewrite length_take. lia. }
    rewrite Etodo, length_app in Hle. lia.
  - exists dn, rest, d1. rewrite (holds_durable _ _ Hs'), <-Etodo. split_and!; try done.
    unfold loaded. rewrite Hl. intros m [_ Hm]%first_steps_incl%list_elem_of_filter.
    rewrite list_elem_of_In in Hm |- *. by apply in_rev.
Qed.

(** A run up without an error went through the missing migrations. *)
Lemma MigrateUp_ran `{Engine} fs order s ran s' :
  MigrateUp fs order s = (Ok (ran, None), s') →
  ∃ ms, LoadMigrations fs order = inr ms ∧
    let missing := filter (unapplied (durable_of s).2) ms in
    ran = Version <$> missing ∧ in_turn applies missing (durable_of s) (durable_of s') ∧
    (∀ m, m ∈ ms → is_Some ((durable_of s').2 !! Version m)).
Proof.
  intros Hrun. unfold MigrateUp in Hrun.
  destruct (prepare_cases fs order (λ ms applied, up_loop applied ms []) s)
    as [(err & s1 & E & _)|(ms & s1 & Hl & Hs1 & E)]; rewrite E in Hrun; [done|].
  exists ms. split; [done|]. intros missing. rewrite up_loop_each in Hrun. fold missing in Hrun.
  destruct (each_all applies Up apply_one up_err missing [] s1 _ ran s' apply_one_transacts Hs1 Hrun)
    as (-> & d' & Hs' & Ht).
  rewrite (holds_durable _ _ Hs'). split_and!; [done..|].
  destruct (applies_versions _ _ _ Ht) as [Hkeep Hnew]. intros m Hm.
  destruct ((durable_of s).2 !! Version m) eqn:Em; [apply Hkeep; by eexists|].
  apply Hnew. by apply list_elem_of_filter.
Qed.

(** C35. However a run up or down ends (a script that fails, a lost connection, a
    COMMIT whose acknowledgement is lost), the database and the bookkeeping table
    have moved together, one migration after the other, through the versions the
    run returns. Only a run that reports an error can have gone further, by the
    next migration with its row, or by the script of the next migration without
    its row, and the latter only if that script ends the transaction it runs in,
    as the repository's do ([schema_moves_without_its_row]): the bookkeeping is off
    by at most that one script, and exact for scripts without a COMMIT of their own.
    A run down stops after the requested steps. *)
Theorem bookkeeping_follows_the_schema `{Engine} fs order s :
  (∃ ran err s', MigrateUp fs order s = (Ok (ran, err), s') ∧ moves applies Up fs order s s' ran err) ∧
  (∀ steps, ∃ reverted err s', MigrateDown fs order steps s = (Ok (reverted, err), s') ∧
     (0 < steps → Z.of_nat (length reverted) ≤ steps) ∧ moves reverts Down fs order s s' reverted err).
Proof. split; [apply MigrateUp_moves|intros steps; apply MigrateDown_moves]. Qed.

(** C36. A run up that reports no error has applied exactly the migrations that were
    missing, in ascending order of their versions, and has recorded every
    migration of the directory; running it again changes nothing. *)
Theorem MigrateUp_completes `{Engine} fs order s ran s' :
  permutes order → MigrateUp fs order s = (Ok (ran, None), s') →
  ∃ ms, LoadMigrations fs order = inr ms ∧
    let missing := filter (unapplied (durable_of s).2) ms in
    ran = Version <$> missing ∧ StronglySorted Z.lt ran ∧
    in_turn applies missing (durable_of s) (durable_of s') ∧
    (∀ m, m ∈ ms → is_Some ((durable_of s').2 !! Version m)) ∧
    ((∀ n, pool_fault n = None) →
       ∃ s'', MigrateUp fs order s' = (Ok ([], None), s'') ∧ durable_of s'' = durable_of s').
Proof.
  intros Hord Hrun. destruct (MigrateUp_ran fs order s ran s' Hrun) as (ms & Hl & Hran). cbv zeta in Hran.
  destruct Hran as (-> & Ht & Hall). exists ms. split; [done|]. intros missing.
  destruct (LoadMigrations_inv fs order Hord ms Hl) as (_ & _ & _ & _ & _ & Hsort & Hnd & _).
  split_and!; [done|by apply versions_filter, strictly_sorted|done..|].
  intros Hq. destruct (prepare_quiet fs order (λ ms applied, up_loop applied ms []) s' ms Hq Hl)
    as (s3 & Hs3 & E3).
  exists s3. unfold MigrateUp. rewrite E3, up_loop_each.
  rewrite migrations_filter_none; [by split; [|apply holds_durable]|].
  intros m Hm Hn. destruct (Hall m Hm) as [x Hx]. unfold unapplied in Hn. congruence.
Qed.

(** C37. Down undoes up: when every rollback script undoes its migration, running all
    migrations on a database without any, and then rolling all of them back,
    reverts them in the opposite order and leaves the database as it was, with
    an empty bookkeeping table. *)
Theorem MigrateDown_undoes_MigrateUp `{Engine} fs order s ran s' ms steps :
  quiet_engine → permutes order → LoadMigrations fs order = inr ms → Forall reversible ms →
  default ∅ (schema_migrations s) = ∅ → steps ≤ 0 →
  MigrateUp fs order s = (Ok (ran, None), s') →
  ran = Version <$> ms ∧
  ∃ s'', MigrateDown fs order steps s' = (Ok (rev ran, None), s'') ∧
    contents s'' = contents s ∧ schema_migrations s'' = Some ∅.
Proof.
  intros Hq Hord Hl Hrev Hempty Hsteps Hrun. unfold MigrateUp in Hrun.
  destruct (prepare_quiet fs order (λ ms applied, up_loop applied ms []) s ms (proj1 Hq) Hl)
    as (s1 & Hs1 & E). rewrite E, up_loop_each in Hrun. clear E.
  assert (filter (unapplied (durable_of s).2) ms = ms) as Hall.
  { apply migrations_filter_all. intros m _. unfold unapplied, durable_of. simpl. by rewrite Hempty. }
  rewrite Hall in Hrun.
  destruct (each_all applies Up apply_one up_err ms [] s1 _ ran s' apply_one_transacts Hs1 Hrun)
    as (-> & d' & Hs' & Ht). simpl.
  split; [done|]. unfold MigrateDown.
  destruct (prepare_quiet fs order (λ ms applied, down_loop steps applied (rev ms) []) s' ms (proj1 Hq) Hl)
    as (s3 & Hs3 & ->).
  rewrite down_loop_each. unfold first_steps. rewrite (proj2 (Z.ltb_ge 0 steps)) by done.
  rewrite (holds_durable _ _ Hs') in *.
  destruct (applies_versions _ _ _ Ht) as [_ Hnew]. rewrite migrations_filter_all.
  2: { intros m Hm Hn. destruct (Hnew m) as [x Hx]; [|unfold unapplied in Hn; congruence].
       rewrite list_elem_of_In in Hm |- *. by apply in_rev. }
  destruct (each_reverts ms (durable_of s) d' [] s3 Hq Hrev Ht Hs3) as (s4 & -> & Hc & Htbl).
  exists s4. split_and!; [|done|].
  - do 2 f_equal. simpl. by rewrite <-!map_rev.
  - rewrite Htbl. simpl. by rewrite Hempty.
Qed.

(** ** A concrete engine *)

(** Scripts are logged; a DROP takes the last one back. *)
Definition log_engine : Engine := {|
  Contents := list string;
  exec_script sql c :=
    if String.eqb sql down_script then match c with [] => inl (EText "nothing to drop") | _ :: c => inr c end
    else inr (sql :: c);
  pool_fault _ := None;
  tx_fault _ := None;
  mg_begin_fault _ := None;
  mg_commit_fault _ := None;
|}.

Definition fresh : @Target log_engine := @mkTarget log_engine ([] : list string) None 0 None.

Lemma id_permutes : permutes id.
Proof. by intros l. Qed.

Lemma MigrateUp_completes_witness :
  ∃ s'', MigrateUp (H := log_engine) repo_fs id (MigrateUp (H := log_engine) repo_fs id fresh).2 =
           (Ok ([], None), s'').
Proof.
  destruct (MigrateUp_completes (H := log_engine) repo_fs id fresh [1]
              (MigrateUp (H := log_engine) repo_fs id fresh).2) as (ms & _ & _ & _ & _ & _ & Hagain).
  - apply id_permutes.
  - vm_compute. reflexivity.
  - destruct Hagain as (s'' & E & _); [reflexivity|]. by exists s''.
Defined.

Lemma MigrateDown_undoes_MigrateUp_witness :
  ∃ s'', MigrateDown (H := log_engine) repo_fs id 0 (MigrateUp (H := log_engine) repo_fs id fresh).2 =
           (Ok ([1], None), s'') ∧
         contents s'' = contents fresh ∧ schema_migrations s'' = Some ∅.
Proof.
  destruct (MigrateDown_undoes_MigrateUp (H := log_engine) repo_fs id fresh [1]
              (MigrateUp (H := log_engine) repo_fs id fresh).2 [mkMigration 1 "init" up_script down_script] 0)
    as (_ & Hdown).
  - split_and!; reflexivity.
  - apply id_permutes.
  - vm_compute. reflexivity.
  - constructor; [|constructor]. intros c c' E. simpl in E. by injection E as <-.
  - reflexivity.
  - lia.
  - vm_compute. reflexivity.
  - exact Hdown.
Defined.

(** The INSERT of the row is lost, after the script has committed: the schema is there
    and its row is not, and the next run starts with the same script again. *)
Definition lost_row_engine : Engine := {|
  Contents := list string;
  exec_script sql c :=
    if bool_decide (sql ∈ c) then inl (EText "relation already exists") else inr (sql :: c);
  pool_fault n := if (n =? 6)%nat then Some (false, EText "connection lost") else None;
  tx_fault _ := None;
  mg_begin_fault _ := None;
  mg_commit_fault _ := None;
|}.

Lemma schema_moves_without_its_row :
  let run := MigrateUp (H := lost_row_engine) repo_fs id in
  let s1 := (run (@mkTarget lost_row_engine ([] : list string) None 0 None)).2 in
  durable_of s1 = ([up_script], ∅) ∧
  ∃ cause s2, run s1 = (Ok ([], Some (EFmt "storage: migrate up: " (Some
      (EFmt "apply 1_init: " (Some cause) "")) "")), s2) ∧
    cause = EText "relation already exists" ∧ durable_of s2 = ([up_script], ∅).
Proof. vm_compute. split; [reflexivity|]. by eexists _, _. Qed.

(** Two scripts of one version: the second one read replaces the first, without an
    error. *)
Definition clashing_fs : FS := {|
  ReadDir := inr ["0002_accounts.up.sql"; "0002_refunds.down.sql"; "0002_refunds.up.sql"];
  ReadFile f := inr f;
|}.

Example clashing_version_is_lost :
  LoadMigrations clashing_fs id =
    inr [mkMigration 2 "refunds" "0002_refunds.up.sql" "0002_refunds.down.sql"].
Proof. vm_compute. reflexivity. Qed.
