(* ===== verification/Pipeline.v ===== *)
(** The path of an event through the whole system: recorded with its transaction,
    sent to Kafka, handed to the webhook worker, posted to the receiver. What is
    found anywhere on the path stems from the ledger. *)
From S2P Require Import Prelude GoStrings Json Apperr Failpoint Receiver ReceiverTheorems Schema SchemaFacts Monad World Metrics Storage Idempotency Event Config Outbox LedgerModel LedgerRepo LedgerService LedgerFacts LedgerEffects Once Kafka Publisher Replay Reconciliation Cache Http Handlers Server ApiEffects Webhook Writers LedgerInvariant System OutboxFacts WorkerTheorems WebhookFacts Delivery Tame HttpFacts.
Local Open Scope Z_scope.

(** ** What a document says *)

(** Whoever decodes the document, the worker or the receiver, reads the event [e] of
    the transaction [tx]. *)
Definition carries (e tx : string) (v : json) : Prop :=
  (∀ env, decode (A:=Envelope) v = Some env → EventID env = e ∧ EnvTransactionID env = tx) ∧
  (∀ wh, unmarshal_webhook v = inr wh → WhEventID wh = e ∧ WhTransactionID wh = tx).

Lemma carries_envelope env : carries (EventID env) (EnvTransactionID env) (marshal_Envelope env).
Proof.
  destruct env as [e ty v tx at_ cid rp data]. simpl. split.
  - intros env. unfold marshal_Envelope, omit_str. simpl.
    destruct (String.eqb_spec cid "") as [->|]; destruct rp as [m|];
      cbv -[in_int64 unmarshal_ReplayMeta marshal_ReplayMeta];
      repeat (case_match; try done); intros [= <-]; done.
  - intros wh. unfold marshal_Envelope, omit_str. simpl.
    destruct (String.eqb_spec cid "") as [->|]; destruct rp as [m|];
      try (destruct m as [a b c d f]; unfold marshal_ReplayMeta, omit_str, omit_int; simpl;
           destruct (String.eqb d ""), (f =? 0));
      cbv; intros [= <-]; done.
Qed.

Lemma carries_dead_letter `{Ext} rec cause now :
  carries (ID rec) (AggregateID rec) (dlq_payload rec cause now).
Proof.
  split.
  - intros env. unfold dlq_payload. cbv -[err_text]. repeat (case_match; try done); by intros [= <-].
  - intros wh. unfold dlq_payload. cbv -[err_text]. by intros [= <-].
Qed.

(** ** What is on the path *)

(** The event is recorded, with its transaction. *)
Definition genuine (d : DB) (e tx : string) : Prop :=
  ∃ o, outbox_events d !! e = Some o ∧ o_aggregate_id o = tx.

Definition bears (d : DB) (v : json) : Prop := ∃ e tx, genuine d e tx ∧ carries e tx v.
Definition bearing (d : DB) (msg : KafkaMessage) : Prop := ∀ v, Value msg = Some v → bears d v.

(** The recorded events say what they are. *)
Definition rows_ok `{Ext} (d : DB) : Prop := ∀ e o, outbox_events d !! e = Some o →
  uuid_in e = Some e ∧ carries e (o_aggregate_id o) (o_payload o).

Definition deliveries_ok `{Ext} (d : DB) : Prop := ∀ id x, webhook_deliveries d !! id = Some x →
  uuid_in id = Some id ∧ genuine d (d_event_id x) (d_transaction_id x) ∧
  carries (d_event_id x) (d_transaction_id x) (d_payload x).

Definition post_ok (d : DB) (p : HttpPost) : Prop :=
  genuine d (post_event_id p) (post_transaction_id p) ∧
  carries (post_event_id p) (post_transaction_id p) (post_payload p).

Record on_the_path `{Ext} (w : World) : Prop := {
  path_rows : rows_ok (w_db w);
  path_kafka : Forall (bearing (w_db w)) (w_kafka w);
  path_deliveries : deliveries_ok (w_db w);
  path_posts : Forall (post_ok (w_db w)) (w_posts w);
}.

(** Events stay, with what is written once. *)
Definition grows (d d' : DB) : Prop := event_view d ⊆ event_view d'.

#[export] Instance grows_preorder : PreOrder grows.
Proof. unfold grows. split; [intros d; reflexivity|]. intros ??? H1 H2. by etrans. Qed.

Lemma grows_same d d' : event_view d' = event_view d → grows d d'.
Proof. unfold grows. by intros ->. Qed.

Lemma grows_row d d' e o : grows d d' → outbox_events d !! e = Some o →
  ∃ o', outbox_events d' !! e = Some o' ∧ event_core o' = event_core o.
Proof.
  intros Hg Ho. assert (event_view d !! e = Some (event_core o)) as Hv
    by (unfold event_view; by rewrite lookup_fmap, Ho).
  eapply lookup_weaken in Hv; [|exact Hg]. unfold event_view in Hv. rewrite lookup_fmap in Hv.
  destruct (outbox_events d' !! e) as [o'|]; [|done]. exists o'. split; [done|]. simpl in Hv. congruence.
Qed.

Lemma genuine_grows d d' e tx : grows d d' → genuine d e tx → genuine d' e tx.
Proof.
  intros Hg (o & Ho & <-). destruct (grows_row _ _ _ _ Hg Ho) as (o' & Ho' & Hc). exists o'.
  split; [done|]. unfold event_core in Hc. congruence.
Qed.

Lemma bearing_grows d d' msg : grows d d' → bearing d msg → bearing d' msg.
Proof.
  intros Hg Hb v Hv. destruct (Hb v Hv) as (e & tx & Hgen & Hc). exists e, tx.
  split; [by eapply genuine_grows|done].
Qed.

Lemma post_ok_grows d d' p : grows d d' → post_ok d p → post_ok d' p.
Proof. intros Hg [H1 H2]. split; [by eapply genuine_grows|done]. Qed.

Lemma deliveries_ok_grows `{Ext} d d' :
  grows d d' → webhook_deliveries d' = webhook_deliveries d → deliveries_ok d → deliveries_ok d'.
Proof.
  intros Hg E Hd id x Hx. rewrite E in Hx. destruct (Hd id x Hx) as (H1 & H2 & H3).
  split_and!; [done|by eapply genuine_grows|done].
Qed.

(** A table whose events are those of before. *)
Lemma rows_ok_same `{Ext} d d' : event_view d' = event_view d → rows_ok d → rows_ok d'.
Proof.
  intros E Hr e o' Ho'. assert (grows d' d) as Hg by (by apply grows_same).
  destruct (grows_row _ _ _ _ Hg Ho') as (o & Ho & Hc). destruct (Hr e o Ho) as [Hu Hca].
  split; [done|]. unfold event_core in Hc. injection Hc as _ _ <- _ <- _ _. done.
Qed.

Section path.
Context `{Ext}.

(** The message of an event, and its dead letter. *)
Lemma event_bearing d e o :
  rows_ok d → outbox_events d !! e = Some o → bearing d (message_of e o).
Proof.
  intros Hr Ho v [= <-]. exists e, (o_aggregate_id o). split; [by exists o|]. by apply Hr.
Qed.

Lemma rightful_bearing dlq d msg : rows_ok d → rightful dlq d msg → bearing d msg.
Proof.
  intros Hr [(e & o & Ho & ->)|(rec & cause & now & (o & Ho & Hc) & ->)]; [by apply event_bearing|].
  intros v [= <-]. exists (ID rec), (AggregateID rec). split; [|apply carries_dead_letter].
  exists o. split; [done|]. unfold record_core, event_core in Hc. congruence.
Qed.

Lemma republishes_bearing d e o msg :
  rows_ok d → outbox_events d !! e = Some o → republishes (scanRecord e o) msg → bearing d msg.
Proof.
  intros Hr Ho (_ & _ & _ & _ & env & meta & Hd & _ & Hv) v Hv'. rewrite Hv in Hv'. injection Hv' as <-.
  destruct (Hr e o Ho) as [_ [Hc _]]. destruct (Hc env Hd) as [Ee Et]. eexists _, _. split; [|apply carries_envelope].
  simpl. rewrite Ee, Et. by exists o.
Qed.
End path.

(** ** The commands of the API *)

(** [uuid.NewString] writes UUIDs the way PostgreSQL does. *)
Class NewUuidLaw `{Ext} : Prop :=
  NewString_canonical : ∀ n c, uuid_in (NewString_nth n) = Some c → c = NewString_nth n.

Section commands.
Context `{NewUuidLaw} (cfg : Config).

(** The database side of a command: events are only added, well-formed ones, and no
    delivery is touched. *)
Definition records_events (d d' : DB) : Prop :=
  grows d d' ∧ webhook_deliveries d' = webhook_deliveries d ∧ (rows_ok d → rows_ok d').

Lemma event_added_records ctx txn ty data now d d' :
  event_added cfg ctx txn ty data now d d' → webhook_deliveries d' = webhook_deliveries d →
  records_events d d'.
Proof.
  intros (evid & o & Hfresh & Hev & Ho) Hd. split_and!; [|done|].
  - unfold grows, event_view. rewrite Ho, fmap_insert. apply insert_subseteq.
    by rewrite lookup_fmap, Hfresh.
  - intros Hr e x Hx. rewrite Ho in Hx.
    apply lookup_insert_Some in Hx as [[<- <-]|[_ Hx]]; [|by apply Hr].
    destruct Hev as (eid & _ & _ & Hagg & _ & Hp & _ & _ & _ & Hu & n & ->).
    apply NewString_canonical in Hu as Heq. subst evid. split; [done|].
    rewrite Hagg, Hp. apply (carries_envelope (mkEnvelope _ _ _ _ _ _ _ _)).
Qed.

Lemma same_records d d' :
  outbox_events d' = outbox_events d → webhook_deliveries d' = webhook_deliveries d → records_events d d'.
Proof.
  intros E Hd. assert (event_view d' = event_view d) as Ev by (unfold event_view; by rewrite E).
  split_and!; [by apply grows_same|done|by apply rows_ok_same].
Qed.

Lemma action_records d d' : db_action cfg d d' → records_events d d'.
Proof.
  intros [|cmd w|ctx cmd w|ctx cmd w|scope key hash d0 d1 Hm]; [by apply same_records|..].
  - destruct (CreateAccount_once cfg cmd w) as [->|(_ & _ & (a & (_ & He) & _))]; [by apply same_records|].
    destruct He as (now & _ & _ & _ & ->). by apply same_records.
  - destruct (Transfer_once cfg ctx cmd w)
      as [->|(_ & _ & _ & txID & a & (t & _ & He) & _)]; [by apply same_records|].
    destruct He as (? & ? & ? & ? & ? & ? & ? & ? & _ & _ & _ & Hp & _ & Hev).
    eapply event_added_records; [exact Hev|apply Hp].
  - destruct (Reverse_once cfg ctx cmd w)
      as [->|(_ & _ & rid & a & (t & _ & He) & _)]; [by apply same_records|].
    destruct He as (? & ? & ? & ? & ? & ? & ? & ? & _ & _ & _ & _ & ? & _ & Hp & _ & _ & Hev).
    eapply event_added_records; [exact Hev|apply Hp].
  - apply marked_row in Hm as (row & _ & _ & _ & _ & ->). by apply same_records.
Qed.

(** ** Messages of the API *)

(** Events are added, and what is sent bears recorded events. *)
Definition relays (w w' : World) : Prop :=
  grows (w_db w) (w_db w') ∧
  (rows_ok (w_db w) → rows_ok (w_db w') ∧
     ∃ msgs, w_kafka w' = w_kafka w ++ msgs ∧ Forall (bearing (w_db w')) msgs).

#[export] Instance relays_preorder : PreOrder relays.
Proof.
  split.
  - intros w. split; [reflexivity|]. intros Hr. split; [done|]. exists []. by rewrite app_nil_r.
  - intros w1 w2 w3 [G1 H1] [G2 H2]. split; [by etrans|]. intros Hr.
    destruct (H1 Hr) as (Hr2 & m1 & K1 & B1). destruct (H2 Hr2) as (Hr3 & m2 & K2 & B2).
    split; [done|]. exists (m1 ++ m2). rewrite K2, K1, app_assoc. split; [done|].
    apply Forall_app_2; [|done]. eapply Forall_impl; [exact B1|]. intros msg. by apply bearing_grows.
Qed.

Lemma relays_silent w w' : records_events (w_db w) (w_db w') → w_kafka w' = w_kafka w → relays w w'.
Proof.
  intros (Hg & _ & Hr) Hk. split; [done|]. intros H1. split; [auto|]. exists [].
  rewrite Hk, app_nil_r. by split; [|constructor].
Qed.

#[export] Instance relays_still {A} (m : M A) :
  Respects (keeps id) m → Respects keeps_kafka m → Respects relays m.
Proof.
  intros Hd Hk w. apply relays_silent; [|apply Hk]. specialize (Hd w). unfold keeps, id in Hd.
  apply same_records; by rewrite Hd.
Qed.

Lemma relays_action {A} (m : M A) :
  (∀ w, db_action cfg (w_db w) (w_db (m w).2)) → Respects keeps_kafka m → Respects relays m.
Proof. intros Ha Hk w. apply relays_silent; [by apply action_records|apply Hk]. Qed.

#[export] Instance relays_CreateAccount cmd : Respects relays (CreateAccount cfg cmd).
Proof. apply relays_action; [intros; apply act_create|apply _]. Qed.
#[export] Instance relays_Transfer ctx cmd : Respects relays (Transfer cfg ctx cmd).
Proof. apply relays_action; [intros; apply act_transfer|apply _]. Qed.
#[export] Instance relays_Reverse ctx cmd : Respects relays (Reverse cfg ctx cmd).
Proof. apply relays_action; [intros; apply act_reverse|apply _]. Qed.

(** ** Replays *)

Lemma relays_Publish msg w :
  (rows_ok (w_db w) → bearing (w_db w) msg) → relays w (Publish msg w).2.
Proof.
  intros Hb. destruct (Publish_effect msg w) as [Hd Hk]. split; [by rewrite Hd|]. rewrite Hd.
  intros Hr. split; [done|]. destruct Hk as [->| ->]; [exists []; by rewrite app_nil_r|].
  exists [msg]. split; [done|]. repeat constructor. by apply Hb.
Qed.

Lemma markReplayed_bearing d rec rid meta payload :
  rows_ok d → records d rec → markReplayed (Payload rec) meta = Some payload →
  bearing d (replay_message rec rid payload).
Proof.
  intros Hr (o & Ho & Hc) (env & Hd & [= <-])%bind_Some v [= <-].
  destruct (Hr _ o Ho) as [_ [Hcar _]]. unfold record_core, event_core in Hc.
  injection Hc as _ _ Hagg _ Hp _ _. rewrite Hp in Hd. destruct (Hcar env Hd) as [Ee Et].
  eexists _, _. split; [|apply (carries_envelope (mkEnvelope _ _ _ _ _ _ _ _))]. simpl. rewrite Ee, Et. by exists o.
Qed.

Lemma relays_replay_loop req rid at_ recs i r w :
  Forall (records (w_db w)) recs → relays w (replay_loop req rid at_ recs i r w).2.
Proof.
  revert i r w. induction recs as [|rec recs IH]; intros i r w Hall; simpl; [reflexivity|].
  apply Forall_cons in Hall as [Hrec Hall]. destruct (DryRun req); [by apply IH|].
  destruct (markReplayed _ _) as [payload|] eqn:Em.
  - apply (respects_bind_at relays).
    { rewrite try_state. apply relays_Publish. intros Hr. by eapply markReplayed_bearing. }
    intros res w1 E1. pose proof (keeps_Publish id (replay_message rec rid payload) w) as Hd.
    rewrite <-(try_state (Publish _)), E1 in Hd. unfold keeps, id in Hd. simpl in Hd. rewrite <-Hd in Hall.
    destruct res; (apply (respects_bind_at relays); [respects_here|]); intros [] w2 [= <-]; by apply IH.
  - apply (respects_bind_at relays); [respects_here|]. intros [] w1 [= <-]. by apply IH.
Qed.

#[export] Instance relays_RunReplay req : Respects relays (RunReplay req).
Proof.
  unfold RunReplay. destruct (ValidateReplay req); [apply _|]. intros w.
  apply (respects_bind_at relays); [respects_here|]. intros recs w1 E1.
  apply ListForReplay_Ok in E1 as (Hd & _ & Hrecs).
  assert (Forall (records (w_db w1)) recs) as Hall.
  { rewrite Hd, Hrecs. apply Forall_forall. intros rec ([e o] & -> & Hin)%list_elem_of_fmap.
    assert ((e, o) ∈ by_created (map_to_list (filter (λ p, replay_match (RrTransactionID req)
      (RrFrom req) (RrTo req) p.2 = true) (outbox_events (w_db w))))) as Hin'.
    { eapply elem_of_submseteq; [exact Hin|]. apply sublist_submseteq, sublist_take. }
    unfold by_created in Hin'. rewrite merge_sort_Permutation, elem_of_map_to_list in Hin'.
    apply map_lookup_filter_Some in Hin' as [Ho _]. by exists o. }
  apply (respects_bind_at relays); [respects_here|]. intros rid w2 [= <- <-].
  apply (respects_bind_at relays); [respects_here|]. intros at_ w3 [= <- <-].
  by apply relays_replay_loop.
Qed.

(** The idempotency records are no events. *)
Lemma relays_marks {A} (m : M A) :
  Respects (keeps event_view) m → Respects keeps_kafka m → Respects relays m.
Proof.
  intros Hd Hk w. specialize (Hd w). unfold keeps in Hd. split; [by apply grows_same|].
  intros Hr. split; [by eapply rows_ok_same|]. exists []. rewrite app_nil_r. split; [apply Hk|constructor].
Qed.

#[local] Instance events_Complete s k st b t : Respects (keeps event_view) (Complete s k st b t).
Proof.
  unfold Complete. apply respects_map_err, keeps_sql. intros now d x d'. unfold sql_complete.
  intros (c & _ & Hs)%pg_bind_Ok. destruct (_ !! _) as [row|] eqn:Er; [|by injection Hs as _ <-].
  apply pg_bind_Ok in Hs as (d1 & Hd & [= _ <-]). simpl in Hd. unfold update_idem in Hd.
  rewrite Er in Hd. by pg_inv.
Qed.
#[local] Instance events_Discard s k : Respects (keeps event_view) (Discard s k).
Proof.
  unfold Discard. apply respects_map_err, keeps_pool_sql. intros now d x d'. unfold sql_discard.
  destruct (_ !! _); [|by intros [= _ <-]]. destruct (decide _); [|by intros [= _ <-]].
  intros (d1 & Hd & [= _ <-])%pg_bind_Ok. simpl in Hd. unfold delete_idem in Hd. by pg_inv.
Qed.

(** A transaction that leaves the events alone. *)
Definition same_events (d d' : DB) : Prop := event_view d' = event_view d.
#[local] Instance same_events_preorder : PreOrder same_events.
Proof. unfold same_events. split; [done|intros ???; congruence]. Qed.

#[local] Instance events_InTx {A} n (m : M A) :
  Respects (keeps event_view) m → Respects (keeps event_view) (InTx_result n m).
Proof.
  intros Hm w. apply (InTx_result_rel same_events). intros w1 a w2 E _. specialize (Hm w1). by rewrite E in Hm.
Qed.
#[local] Instance events_claim n s k h l :
  Respects (keeps event_view) (InTx_vars pause n (claim_closure s k h) l).
Proof.
  intros w. unfold InTx_vars. fold (InTx n (claim_closure s k h)).
  assert (keeps event_view w (InTx n (claim_closure s k h) l w).2) as HI.
  { apply (InTx_rel same_events).
    intros l1 w1 l2 w2 E _. unfold claim_closure in E.
    destruct (claim_external s k h w1) as [[[[st b]|]|e|p] w3] eqn:Ec; simplify_eq;
      apply claim_external_Ok in Ec.
    - by destruct Ec as [-> _].
    - destruct Ec as (_ & _ & row & _ & _ & _ & _ & ->). done. }
  by destruct (InTx _ _ _ w) as [[[] ?] ?].
Qed.

#[export] Instance relays_external s k h req :
  Respects relays (runExternalIdempotent cfg s k h (replay_work req)).
Proof.
  assert (Respects relays (InTx_vars pause (DBMaxTxRetries cfg) (claim_closure s k h) (false, 0, None)))
    by (apply relays_marks; apply _).
  assert (∀ status b, Respects relays (InTx_result (DBMaxTxRetries cfg) (Complete s k status b None)))
    by (intros; apply relays_marks; apply _).
  assert (Respects relays (Discard s k)) by (apply relays_marks; unfold Discard; apply _).
  rewrite runExternalIdempotent_eq. unfold replay_work. respects_tac.
Qed.

#[export] Instance relays_or_error {A} r (m : M A) k :
  Respects relays m → (∀ a, Respects relays (k a)) → Respects relays (or_error r m k).
Proof. apply respects_or_error; apply _. Qed.
#[export] Instance relays_or_refuse {A} r (res : Error + A) k :
  (∀ a, Respects relays (k a)) → Respects relays (or_refuse r res k).
Proof. apply respects_or_refuse; apply _. Qed.
#[export] Instance relays_run_command r s k h m :
  Respects relays m → Respects relays (run_command cfg r s k h m).
Proof.
  intros Hm. unfold run_command, finishIdempotent. apply respects_bind; [apply _..|].
  intros []; [apply _|]. apply relays_or_error; [done|intros res; respects_tac].
Qed.

Lemma relays_serve e r : Respects relays (serve cfg e r).
Proof.
  assert (Respects relays (modify (set_resp new_response))) as Hnew
    by (intros w; by apply relays_silent; [apply same_records|]).
  unfold serve. apply respects_bind; [apply _..|]. intros _. apply respects_bind; [apply _| |intros; apply _].
  apply respects_withRecovery; try apply _. apply respects_mux; try apply _; intros r1.
  - rewrite handleReplay_eq. apply relays_or_refuse; intros key. apply relays_or_refuse; intros req.
    respects_tac.
  - unfold handleArmFailpoint, write_active. apply relays_or_refuse; intros req.
    assert (Respects relays (Arm_failpoint req.1 req.2)).
    { intros w. unfold Arm_failpoint. destruct (Arm _ _ _). by apply relays_silent; [apply same_records|]. }
    respects_tac.
Qed.
End commands.

(** ** The workers *)

Section workers.
Context `{NewUuidLaw} (cfg : Config).

(** The step takes a state on the path to one on the path. *)
Definition traces (w w' : World) : Prop :=
  wf (w_db w) → on_the_path w → grows (w_db w) (w_db w') ∧ on_the_path w'.

(** Nothing is said or recorded that was not. *)
Lemma traces_less w w' :
  event_view (w_db w') = event_view (w_db w) →
  webhook_deliveries (w_db w') = webhook_deliveries (w_db w) →
  w_kafka w' ⊆ w_kafka w → w_posts w' ⊆ w_posts w → traces w w'.
Proof.
  intros Ev Ed Hk Hp _ [Hr Hka Hd Hpo]. assert (grows (w_db w) (w_db w')) as Hg by (by apply grows_same).
  split; [done|]. split.
  - by eapply rows_ok_same.
  - rewrite Forall_forall in Hka |- *. intros msg Hin. eapply bearing_grows; [done|]. by apply Hka, Hk.
  - by eapply deliveries_ok_grows.
  - rewrite Forall_forall in Hpo |- *. intros q Hin. eapply post_ok_grows; [done|]. by apply Hpo, Hp.
Qed.

(** What an API request or a command does. *)
Lemma traces_relays w w' :
  relays w w' → webhook_deliveries (w_db w') = webhook_deliveries (w_db w) → w_posts w' = w_posts w →
  traces w w'.
Proof.
  intros [Hg Hk] Ed Hp _ [Hr Hka Hd Hpo]. split; [done|]. destruct (Hk Hr) as (Hr' & msgs & Ek & Hb). split.
  - done.
  - rewrite Ek. apply Forall_app_2; [|done]. eapply Forall_impl; [exact Hka|]. intros msg. by apply bearing_grows.
  - by eapply deliveries_ok_grows.
  - rewrite Hp. eapply Forall_impl; [exact Hpo|]. intros q. by apply post_ok_grows.
Qed.

(** *** The publisher *)

Lemma claim_all_deliveries wid now ids d d' :
  claim_all wid now ids d = PgOk d' → webhook_deliveries d' = webhook_deliveries d.
Proof.
  revert d. induction ids as [|id ids IH]; intros d; simpl; [by intros [= <-]|].
  destruct (outbox_events d !! id) as [o|] eqn:Eo; [|apply IH].
  intros (d1 & Hd & Hr)%pg_bind_Ok. rewrite (IH _ Hr). simpl in Hd. unfold update_outbox in Hd.
  rewrite Eo in Hd. by pg_inv.
Qed.

#[local] Instance deliveries_ClaimBatch wid n ttl : Respects (keeps webhook_deliveries) (ClaimBatch wid n ttl).
Proof.
  unfold ClaimBatch. apply respects_bind; [apply _..|]. intros tick. apply respects_map_err, keeps_pool_sql.
  intros now d x d' Hs. unfold sql_claim_batch in Hs. apply pg_bind_Ok in Hs as (ids & _ & Hs).
  apply pg_bind_Ok in Hs as (d1 & Hd & [= _ <-]). by eapply claim_all_deliveries.
Qed.
#[local] Instance deliveries_MarkPublished id : Respects (keeps webhook_deliveries) (MarkPublished id).
Proof.
  unfold MarkPublished. apply respects_map_err, keeps_pool_sql. intros now d x d' Hs.
  unfold sql_mark_published in Hs. apply pg_bind_Ok in Hs as (i & _ & Hs).
  destruct (outbox_events d !! i) as [o|] eqn:Eo; [|by injection Hs as _ <-].
  destruct (decide _); [by injection Hs as _ <-|]. apply pg_bind_Ok in Hs as (d1 & Hd & [= _ <-]).
  simpl in Hd. unfold update_outbox in Hd. rewrite Eo in Hd. by pg_inv.
Qed.
#[local] Instance deliveries_MarkFailed id c b m : Respects (keeps webhook_deliveries) (MarkFailed id c b m).
Proof.
  unfold MarkFailed. apply respects_map_err, respects_bind; [apply _| |respects_tac].
  apply keeps_pool_sql. intros now d x d' Hs. unfold sql_mark_failed in Hs.
  apply pg_bind_Ok in Hs as (i & _ & Hs).
  destruct (outbox_events d !! i) as [o|] eqn:Eo; [|by injection Hs as _ <-].
  apply pg_bind_Ok in Hs as (d1 & Hd & [= _ <-]).
  simpl in Hd. unfold update_outbox in Hd. rewrite Eo in Hd. by pg_inv.
Qed.
#[local] Instance deliveries_publish_batch ctx batch n :
  Respects (keeps webhook_deliveries) (publish_batch cfg ctx batch n).
Proof.
  revert n. induction batch as [|rec batch IH]; intros n; simpl; [apply _|].
  unfold publishOne, fail, publishToDLQ. respects_tac.
Qed.
#[local] Instance deliveries_RunOnce ctx : Respects (keeps webhook_deliveries) (RunOnce cfg ctx).
Proof. unfold RunOnce, Backlog. respects_tac. Qed.

Lemma traces_RunOnce ctx w : traces w (RunOnce cfg ctx w).2.
Proof.
  intros Hwf Hpath. pose proof (path_rows _ Hpath) as Hr.
  assert (canonical_keys (w_db w)) as Hcan by (intros e [o Ho]; by apply (Hr e o)).
  destruct (sends_RunOnce cfg ctx w Hcan Hwf Hwf) as (_ & _ & msgs & Hk & Hright & _).
  pose proof (respects (R:=aside) (m:=RunOnce cfg ctx) w) as (_ & _ & Ev).
  pose proof (respects (R:=keeps webhook_deliveries) (m:=RunOnce cfg ctx) w) as Ed.
  pose proof (respects (R:=keeps_posts) (m:=RunOnce cfg ctx) w) as Hp.
  revert Hwf Hpath. apply traces_relays; [|done..]. split; [by apply grows_same|]. intros _.
  assert (rows_ok (w_db (RunOnce cfg ctx w).2)) as Hr' by (by eapply rows_ok_same).
  split; [done|]. exists msgs. split; [done|]. eapply Forall_impl; [exact Hright|].
  intros msg. by apply rightful_bearing.
Qed.

(** *** The webhook worker *)

Lemma Enqueue_path d n w :
  DID d = NewString_nth n → genuine (w_db w) (DEventID d) (DTransactionID d) →
  carries (DEventID d) (DTransactionID d) (DPayload d) → uuid_in (DEventID d) = Some (DEventID d) →
  deliveries_ok (w_db w) → deliveries_ok (w_db (Enqueue d w).2).
Proof.
  intros Hid Hg Hc Hu Hd. unfold Enqueue. rewrite map_err_state.
  destruct (pool_sql_end (sql_enqueue d) w) as [_ [->|[b Hs]]]; [done|]. unfold sql_enqueue in Hs at 1.
  apply pg_bind_Ok in Hs as (i & Hi & Hs). apply pg_bind_Ok in Hs as (ev & Hev & Hs). uuid_inv.
  assert (ev = DEventID d) as -> by congruence. rewrite Hid in Hi. apply NewString_canonical in Hi as Ei. subst i.
  destruct (event_endpoint_exists _ _ _); [by injection Hs as _ <-|].
  apply pg_bind_Ok in Hs as (d' & He & [= _ Ed]). rewrite <-Ed. simpl in He. unfold insert_delivery in He.
  pg_inv. intros id x Hx. simpl in Hx. apply lookup_insert_Some in Hx as [[<- <-]|[_ Hx]]; simpl; [done|].
  by apply Hd.
Qed.

Lemma enqueue_all_path env value es w :
  genuine (w_db w) (EventID env) (EnvTransactionID env) →
  carries (EventID env) (EnvTransactionID env) value → uuid_in (EventID env) = Some (EventID env) →
  deliveries_ok (w_db w) → deliveries_ok (w_db (enqueue_all env value es w).2).
Proof.
  intros Hg Hc Hu. revert w Hg. induction es as [|endpoint es IH]; intros w Hg Hd; simpl; [done|].
  unfold mbind at 1, ST_bind at 1, NewString. set (w1 := set_uuid _ w).
  set (d := pending_delivery _ endpoint env value).
  pose proof (Enqueue_path d (w_uuid w) w1 eq_refl Hg Hc Hu Hd) as Hd2.
  pose proof (respects (R:=aside) (m:=Enqueue d) w1) as (_ & _ & Ev).
  unfold mbind at 1, ST_bind at 1. destruct (Enqueue d w1) as [[b|e|p] w2]; simpl in Hd2, Ev |- *; [|done..].
  assert (genuine (w_db w2) (EventID env) (EnvTransactionID env)) as Hg2
    by (eapply genuine_grows; [by apply grows_same|exact Hg]).
  unfold mbind at 1, ST_bind at 1. destruct b; apply IH; done.
Qed.

Lemma HandleEvent_path ctx msg w :
  rows_ok (w_db w) → bearing (w_db w) msg → deliveries_ok (w_db w) →
  deliveries_ok (w_db (HandleEvent cfg ctx msg w).2).
Proof.
  intros Hr Hb Hd. unfold HandleEvent. destruct (Value msg) as [value|] eqn:Ev; [|done].
  destruct (decode value) as [env|] eqn:Ed; [|done]. destruct (String.eqb _ _); [done|].
  destruct (Hb value Ev) as (e & tx & Hg & Hc). destruct Hc as [Hc1 Hc2].
  destruct (Hc1 env Ed) as [Ee Et]. subst e tx.
  set (ctx' := if String.eqb _ _ then _ else _). unfold mbind, ST_bind.
  pose proof (respects (R:=aloof) (m:=EvalFailpoint ctx' BeforeWebhookPersist) w) as [Hd1 _].
  unfold failpoint, mbind, ST_bind.
  destruct (EvalFailpoint ctx' BeforeWebhookPersist w) as [[[err|]|err|p] w1]; simpl in Hd1 |- *; rewrite ?Hd1; [done| |done..].
  apply enqueue_all_path; rewrite ?Hd1; [done|done| |done].
  destruct Hg as (o & Ho & _). by destruct (Hr _ o Ho).
Qed.

Lemma traces_HandleEvent ctx msg w : msg ∈ w_kafka w → traces w (HandleEvent cfg ctx msg w).2.
Proof.
  intros Hin _ [Hr Hka Hd Hpo]. pose proof (respects (R:=aside) (m:=HandleEvent cfg ctx msg) w) as (_ & _ & Ev).
  pose proof (respects (R:=keeps_kafka) (m:=HandleEvent cfg ctx msg) w) as Hk.
  pose proof (respects (R:=keeps_posts) (m:=HandleEvent cfg ctx msg) w) as Hp.
  apply grows_same in Ev as Hg. split; [done|]. rewrite Forall_forall in Hka. split.
  - by eapply rows_ok_same.
  - rewrite Hk. apply Forall_forall. intros m Hm. eapply bearing_grows; [done|by apply Hka].
  - by apply HandleEvent_path; [|apply Hka|].
  - rewrite Hp. eapply Forall_impl; [exact Hpo|]. intros q. by apply post_ok_grows.
Qed.

Lemma traces_DeliverOnce ctx w : traces w (DeliverOnce cfg ctx w).2.
Proof.
  intros _ [Hr Hka Hd Hpo].
  destruct (DeliverOnce_tries cfg ctx w) as (batch & Hb & posts & Hp & Hs & Hrows).
  { intros id [x Hx]. by apply (Hd id x). }
  pose proof (respects (R:=aside) (m:=DeliverOnce cfg ctx) w) as (_ & _ & Ev).
  pose proof (respects (R:=keeps_kafka) (m:=DeliverOnce cfg ctx) w) as Hk.
  apply grows_same in Ev as Hg. split; [done|]. split.
  - by eapply rows_ok_same.
  - rewrite Hk. eapply Forall_impl; [exact Hka|]. intros m. by apply bearing_grows.
  - intros id x' Hx'. specialize (Hrows id). rewrite Hx' in Hrows.
    destruct (webhook_deliveries (w_db w) !! id) as [x|] eqn:Ex; [|done]. destruct Hrows as [Hc _].
    unfold delivery_core in Hc. injection Hc as -> _ _ -> -> _. destruct (Hd id x Ex) as (? & ? & ?).
    split_and!; [done|by eapply genuine_grows|done].
  - rewrite Hp. apply Forall_app_2.
    { eapply Forall_impl; [exact Hpo|]. intros q. by apply post_ok_grows. }
    apply Forall_forall. intros q Hq. eapply elem_of_submseteq in Hq; [|by apply sublist_submseteq].
    apply list_elem_of_fmap in Hq as (rec & -> & Hin).
    destruct Hb as [->|Hb]; [by apply not_elem_of_nil in Hin|].
    destruct (due_deliveries_row _ _ _ _ _ Hb Hin) as (x & Hx & _ & ->).
    destruct (Hd _ x Hx) as (_ & Hgen & Hc). split; simpl; [by eapply genuine_grows|done].
Qed.
End workers.
