(* ===== verification/EndToEnd.v ===== *)
(** The whole path as one system: the processes, Kafka, and the receiver of the
    webhooks. Kafka and the network may lose, repeat and reorder; they do not
    invent. *)
From S2P Require Import Prelude GoStrings Json Apperr Failpoint Receiver ReceiverTheorems Schema SchemaFacts Monad World Metrics Storage Idempotency Event Config Outbox LedgerModel LedgerRepo LedgerService Kafka Publisher Replay Reconciliation Cache Http Handlers Server ApiEffects Webhook Writers LedgerInvariant System Demo OutboxFacts Tame HttpFacts Pipeline.
Local Open Scope Z_scope.

(** The processes with what they share, the receiver, and its replies since it was
    last reset. *)
Record Pipe := mkPipe {
  p_world : World;
  p_receiver : receiver;
  p_replies : list reply;
}.

Section pipe.
Context `{Ext}.

(** A call of the program other than the handling of a message. *)
Inductive own_call : World → World → Prop :=
  | own_CreateAccount cfg cmd w : own_call w (CreateAccount cfg cmd w).2
  | own_Transfer cfg ctx cmd w : own_call w (Transfer cfg ctx cmd w).2
  | own_Reverse cfg ctx cmd w : own_call w (Reverse cfg ctx cmd w).2
  | own_GetTransaction id w : own_call w (GetTransaction id w).2
  | own_request cfg e r w : own_call w (serve cfg e r w).2
  | own_publisher cfg ctx w : own_call w (RunOnce cfg ctx w).2
  | own_replay req w : own_call w (RunReplay req w).2
  | own_deliver cfg ctx w : own_call w (DeliverOnce cfg ctx w).2
  | own_reconcile w : own_call w (Reconciliation.Run w).2.

(** A request that brings a post: its body reads like what was posted, or cannot
    be read. *)
Definition conveys (p : HttpPost) (req : Request) : Prop :=
  match RqBody req with
  | BodyJSON j => unmarshal_webhook j = unmarshal_webhook (post_payload p)
  | _ => True
  end.

Inductive pipe_step : Pipe → Pipe → Prop :=
  | pipe_call w w' r l : own_call w w' → pipe_step (mkPipe w r l) (mkPipe w' r l)
  (* the worker is handed a message that Kafka holds, at any time, any number of times *)
  | pipe_consume cfg ctx msg w r l : msg ∈ w_kafka w →
      pipe_step (mkPipe w r l) (mkPipe (HandleEvent cfg ctx msg w).2 r l)
  (* a call that was made reaches the receiver, at any time, any number of times *)
  | pipe_receive p req w r rp r' l : p ∈ w_posts w → conveys p req →
      rcv_serve RcvWebhook req r = (Ok rp, r') →
      pipe_step (mkPipe w r l) (mkPipe w r' (l ++ [rp]))
  | pipe_operate e req w r rp r' l : e ≠ RcvWebhook → e ≠ RcvReset →
      rcv_serve e req r = (Ok rp, r') → pipe_step (mkPipe w r l) (mkPipe w r' (l ++ [rp]))
  | pipe_reset w r l : pipe_step (mkPipe w r l) (mkPipe w new_receiver [])
  (* anything else happens; messages and calls may get lost *)
  | pipe_environment w w' r l : w_db w' = w_db w → w_kafka w' ⊆ w_kafka w → w_posts w' ⊆ w_posts w →
      pipe_step (mkPipe w r l) (mkPipe w' r l).

Definition pipe_initial (s : Pipe) : Prop :=
  initial (p_world s) ∧ w_kafka (p_world s) = [] ∧ w_posts (p_world s) = [] ∧
  p_receiver s = new_receiver ∧ p_replies s = [].

Definition pipe_reachable (s : Pipe) : Prop := ∃ s0, pipe_initial s0 ∧ rtc pipe_step s0 s.

Lemma own_call_step w w' : own_call w w' → step w w'.
Proof. intros []; apply step_call; constructor. Qed.

(** ** The invariant *)

Record pipe_inv (s : Pipe) : Prop := {
  pi_ledger : ledger_inv (w_db (p_world s));
  pi_path : on_the_path (p_world s);
  pi_receiver : Z.of_nat (length (p_replies s)) ≤ int64_max →
    remembers (p_replies s) (p_receiver s);
  pi_processed : ∀ ev, ev ∈ omap processed_now (p_replies s) →
    ∃ tx, genuine (w_db (p_world s)) ev tx;
}.

Context `{!UuidLaw, !NewUuidLaw}.

#[local] Instance posts_serve cfg e r : Respects keeps_posts (serve cfg e r).
Proof. by apply tame_serve; try apply _. Qed.

Lemma own_call_traces w w' : own_call w w' → traces w w'.
Proof.
  intros [cfg cmd w0|cfg ctx cmd w0|cfg ctx cmd w0|tid w0|cfg e r w0|cfg ctx w0|req w0|cfg ctx w0|w0];
    [| | | | |by apply traces_RunOnce| |by apply traces_DeliverOnce|]; (apply traces_relays; [| |apply (respects (R:=keeps_posts))]).
  - apply (respects (R:=relays)).
  - apply (action_records cfg), act_create.
  - apply (respects (R:=relays)).
  - apply (action_records cfg), act_transfer.
  - apply (respects (R:=relays)).
  - apply (action_records cfg), act_reverse.
  - apply (respects (R:=relays)).
  - pose proof (respects (R:=keeps id) (m:=GetTransaction tid) w0) as E. unfold keeps, id in E. by rewrite E.
  - apply relays_serve.
  - apply (action_records cfg), serve_action.
  - apply (respects (R:=relays)).
  - pose proof (respects (R:=keeps id) (m:=RunReplay req) w0) as E. unfold keeps, id in E. by rewrite E.
  - apply (respects (R:=relays)).
  - pose proof (respects (R:=keeps id) (m:=Reconciliation.Run) w0) as E. unfold keeps, id in E. by rewrite E.
Qed.

Lemma path_initial s : pipe_initial s → pipe_inv s.
Proof.
  intros (Hi & Hk & Hp & Hr & Hl). split.
  - rewrite Hi. apply ledger_inv_empty.
  - split; rewrite ?Hi, ?Hk, ?Hp; try apply Forall_nil_2; [intros e o|intros i x]; simpl;
      by intros ?%lookup_empty_Some.
  - rewrite Hr, Hl. intros _. apply remembers_nothing.
  - rewrite Hl. intros ev. by rewrite elem_of_nil.
Qed.

(** A step of the processes, the receiver standing still. *)
Lemma world_step w w' r l :
  step w w' → traces w w' → pipe_inv (mkPipe w r l) → pipe_inv (mkPipe w' r l).
Proof.
  intros Hst Ht [Hl Hpath Hr Hproc]. simpl in *.
  assert (wf (w_db w)) as Hwf by apply (written_safe _ (li_written _ Hl)).
  destruct (Ht Hwf Hpath) as [Hg Hpath']. split; simpl; [by eapply step_inv|done|done|].
  intros ev (tx & Hev)%Hproc. exists tx. by eapply genuine_grows.
Qed.

(** What the receiver reports as processed is what it was sent. *)
Lemma processed_event req r rp r' ev :
  rcv_serve RcvWebhook req r = (Ok rp, r') → processed_now rp = Some ev →
  ReceiverTheorems.event_of req = Some ev.
Proof.
  simpl. rewrite handleWebhook_event. destruct (ReceiverTheorems.event_of req) as [id|].
  - unfold deliver_event. destruct (_ || _); intros [= <- _]; [done|].
    cbn. by destruct (0 <? _); simpl; intros [= <-].
  - by destruct (RqBody req); intros [= <- _].
Qed.

Lemma conveyed_event p req ev d :
  conveys p req → post_ok d p → ReceiverTheorems.event_of req = Some ev → ev = post_event_id p.
Proof.
  unfold conveys, ReceiverTheorems.event_of. intros Hc [_ [_ Hcar]].
  destruct (RqBody req) as [| |j]; [done..|]. rewrite Hc.
  destruct (unmarshal_webhook (post_payload p)) as [|wh]; [done|].
  destruct (Hcar wh eq_refl) as [<- _]. by destruct (String.eqb _ _); [|intros [= <-]].
Qed.

Lemma quiet_reply e req r rp r' :
  e ≠ RcvWebhook → rcv_serve e req r = (Ok rp, r') → processed_now rp = None.
Proof. destruct e; [done|..]; intros _; simpl; by intros [= <- _]. Qed.

(** A reply of the receiver. *)
Lemma receiver_step e req w r rp r' l :
  e ≠ RcvReset → rcv_serve e req r = (Ok rp, r') →
  (∀ ev, processed_now rp = Some ev → ∃ tx, genuine (w_db w) ev tx) →
  pipe_inv (mkPipe w r l) → pipe_inv (mkPipe w r' (l ++ [rp])).
Proof.
  intros He E Hev [Hl Hpath Hr Hproc]. simpl in *. split; simpl; [done|done| |].
  - rewrite length_app. simpl. intros Hlen. destruct (rcv_step e req l r He) as (rp' & r'' & E' & Hr');
      [apply Hr; lia|lia|]. rewrite E in E'. by injection E' as <- <-.
  - intros ev. rewrite omap_app, elem_of_app. intros [?|Hin]; [by apply Hproc|].
    simpl in Hin. destruct (processed_now rp) as [x|]; [|by apply not_elem_of_nil in Hin].
    apply list_elem_of_singleton in Hin as ->. by apply Hev.
Qed.

Lemma pipe_step_inv s s' : pipe_step s s' → pipe_inv s → pipe_inv s'.
Proof.
  intros [w w' r l Hc|cfg ctx msg w r l Hin|p req w r rp r' l Hin Hc E|e req w r rp r' l He1 He2 E|w r l|w w' r l Ed Hk Hp]
    Hinv.
  - eapply world_step; [by apply own_call_step|by apply own_call_traces|done].
  - eapply world_step; [apply step_call, call_event|by apply traces_HandleEvent|done].
  - pose proof (path_posts _ (pi_path _ Hinv)) as Hpo. rewrite Forall_forall in Hpo.
    destruct (Hpo p Hin) as [Hg Hcar] eqn:Ep; clear Ep.
    eapply receiver_step; [|exact E| |exact Hinv]; [done|]. intros ev Hev.
    apply (processed_event _ _ _ _ _ E) in Hev.
    rewrite (conveyed_event p req ev (w_db w) Hc (conj Hg Hcar) Hev). by eexists.
  - eapply receiver_step; [done|exact E| |exact Hinv]. intros ev.
    by rewrite (quiet_reply _ _ _ _ _ He1 E).
  - destruct Hinv as [Hl Hpath Hr Hproc]. split; simpl; [done|done| |].
    + intros _. apply remembers_nothing.
    + intros ev. by rewrite elem_of_nil.
  - eapply world_step; [by apply step_environment| |done].
    apply traces_less; [by rewrite Ed|by rewrite Ed|done|done].
Qed.

Lemma pipe_reachable_inv s : pipe_reachable s → pipe_inv s.
Proof.
  intros (s0 & Hi & Hs). apply path_initial in Hi. induction Hs as [|s1 s2 s3 Hst _ IH]; [done|].
  by eapply IH, pipe_step_inv.
Qed.
End pipe.

(** C18. End to end: however the processes are interleaved, whatever fails, and
    however often Kafka and the network repeat, delay or lose what they carry, the
    receiver processes no event twice (between two resets), every event it processes
    is one the ledger recorded together with a committed transaction, and no
    transaction is processed under two events. *)
Theorem webhooks_follow_the_ledger `{Ext, !UuidLaw, !NewUuidLaw} s :
  pipe_reachable s → Z.of_nat (length (p_replies s)) ≤ int64_max →
  let processed := omap processed_now (p_replies s) in
  let d := w_db (p_world s) in
  rcv_order (p_receiver s) = processed ∧ NoDup processed ∧
  (∀ ev, ev ∈ processed → ∃ o id t, outbox_events d !! ev = Some o ∧
     uuid_in (o_aggregate_id o) = Some id ∧ ledger_transactions d !! id = Some t) ∧
  (∀ ev1 ev2 o1 o2 id, ev1 ∈ processed → ev2 ∈ processed →
     outbox_events d !! ev1 = Some o1 → outbox_events d !! ev2 = Some o2 →
     uuid_in (o_aggregate_id o1) = Some id → uuid_in (o_aggregate_id o2) = Some id → ev1 = ev2).
Proof.
  intros Hs Hlen processed d. destruct (pipe_reachable_inv s Hs) as [Hl Hpath Hr Hproc].
  destruct (Hr Hlen) as (Ho & Hnd & _ & _). split_and!; [done|unfold processed; by rewrite <-Ho| |].
  - intros ev (tx & o & Hev & _)%Hproc.
    destruct (li_event_tx _ Hl ev o Hev) as (id & Hid & [t Ht]). by exists o, id, t.
  - intros ev1 ev2 o1 o2 id _ _. apply (li_event_unique _ Hl).
Qed.

(** The funding of the demonstration, from the transfer to the receiver, which is
    called twice. *)
Definition e2e_sent : World := (RunOnce (H:=demo_ext) cfg Background (demo3 (H:=demo_ext))).2.
Definition e2e_message : KafkaMessage := default (mkMessage "" "" None ∅) (head (w_kafka e2e_sent)).
Definition e2e_queued : World := (HandleEvent (H:=demo_ext) cfg Background e2e_message e2e_sent).2.
Definition e2e_posted : World := (DeliverOnce (H:=demo_ext) cfg Background e2e_queued).2.
Definition e2e_post : HttpPost :=
  default (mkPost "" "" "" "" 0 JNull None) (head (w_posts e2e_posted)).
Definition e2e_request : Request :=
  mkRequest "POST" (λ _, "") (λ _, "") (λ _, "") 0 (BodyJSON (post_payload e2e_post)) "" Background.
Definition e2e_once : receiver := (rcv_serve RcvWebhook e2e_request new_receiver).2.
Definition e2e_twice : receiver := (rcv_serve RcvWebhook e2e_request e2e_once).2.
Definition e2e_replies : list reply :=
  [ack_reply "uuid-3" "processed"; ack_reply "uuid-3" "duplicate_ignored"].

Lemma default_head {A} (x : A) l : (0 <? length l)%nat = true → default x (head l) ∈ l.
Proof. destruct l; [done|]. intros _. left. Qed.

Lemma demo_new_uuid : NewUuidLaw (H:=demo_ext).
Proof. intros n c E. by injection E. Qed.

Lemma e2e_first : rcv_serve RcvWebhook e2e_request new_receiver = (Ok (ack_reply "uuid-3" "processed"), e2e_once).
Proof. vm_compute. reflexivity. Qed.
Lemma e2e_second : rcv_serve RcvWebhook e2e_request e2e_once = (Ok (ack_reply "uuid-3" "duplicate_ignored"), e2e_twice).
Proof. vm_compute. reflexivity. Qed.
Lemma e2e_message_sent : e2e_message ∈ w_kafka e2e_sent.
Proof. apply default_head. vm_compute. reflexivity. Qed.
Lemma e2e_post_made : e2e_post ∈ w_posts e2e_posted.
Proof. apply default_head. vm_compute. reflexivity. Qed.

Lemma e2e_reachable : pipe_reachable (H:=demo_ext) (mkPipe e2e_posted e2e_twice e2e_replies).
Proof.
  exists (mkPipe demo_world new_receiver []). split; [by split_and!|].
  apply (rtc_l _ _ (mkPipe (demo1 (H:=demo_ext)) new_receiver []));
    [apply pipe_call, (own_CreateAccount (H:=demo_ext) cfg open_bank demo_world)|].
  apply (rtc_l _ _ (mkPipe (demo2 (H:=demo_ext)) new_receiver []));
    [apply pipe_call, (own_CreateAccount (H:=demo_ext) cfg open_alice demo1)|].
  apply (rtc_l _ _ (mkPipe (demo3 (H:=demo_ext)) new_receiver []));
    [apply pipe_call, (own_Transfer (H:=demo_ext) cfg Background fund_alice demo2)|].
  apply (rtc_l _ _ (mkPipe e2e_sent new_receiver []));
    [apply pipe_call, (own_publisher (H:=demo_ext) cfg Background demo3)|].
  apply (rtc_l _ _ (mkPipe e2e_queued new_receiver []));
    [apply (pipe_consume (H:=demo_ext) cfg Background e2e_message e2e_sent), e2e_message_sent|].
  apply (rtc_l _ _ (mkPipe e2e_posted new_receiver []));
    [apply pipe_call, (own_deliver (H:=demo_ext) cfg Background e2e_queued)|].
  apply (rtc_l _ _ (mkPipe e2e_posted e2e_once [ack_reply "uuid-3" "processed"])).
  - by apply (pipe_receive (H:=demo_ext) e2e_post e2e_request _ _ _ _ [] e2e_post_made); [|exact e2e_first].
  - apply rtc_once. by apply (pipe_receive (H:=demo_ext) e2e_post e2e_request _ _ _ _
      [ack_reply "uuid-3" "processed"] e2e_post_made); [|exact e2e_second].
Qed.

Lemma webhooks_follow_the_ledger_witness :
  rcv_order e2e_twice = ["uuid-3"] ∧
  ∃ o id t, outbox_events (w_db e2e_posted) !! "uuid-3" = Some o ∧
    @uuid_in demo_ext (o_aggregate_id o) = Some id ∧ ledger_transactions (w_db e2e_posted) !! id = Some t.
Proof.
  destruct (webhooks_follow_the_ledger (H:=demo_ext) (H0:=demo_uuid) (H1:=demo_new_uuid)
    (mkPipe e2e_posted e2e_twice e2e_replies) e2e_reachable) as (Ho & _ & Hall & _);
    [vm_compute; discriminate|].
  split; [exact Ho|]. apply (Hall "uuid-3"). left.
Defined.
