(* ===== verification/Seed.v ===== *)
(** [cmd/seed/main.go]: the demonstration accounts, created and funded over the HTTP
    API. The program is a client of [Server]; the network between them is outside
    the repository. *)
From S2P Require Import Prelude GoStrings GoTime Json Apperr Failpoint Schema Monad World Storage Config Http Handlers Server.
Local Open Scope Z_scope.

Definition systemAccount := "system:issuance:usd".
Definition accountA := "account-a".
Definition accountB := "account-b".

(** What [http.Client.Do] comes to: how often the server handled the request (the
    client may send one with an idempotency key again), and the error that came
    back instead of the last response. *)
Class Network := {
  deliveries_of : nat → nat;
  network_error : nat → option error;
  peer : string;
}.

(** A line of the output. *)
Inductive seed_line :=
  | Posted (key : string) (status : Z)
  | AlreadyExists (key : string) (status : Z) (body : list json)
  | Seeded (system a b : string) (amount : Z).

Section seed.
Context `{Ext} `{Network} (cfg : Config).

(** ** Requests *)

Definition get_ready : Request :=
  mkRequest "GET" (λ _, "") (λ _, "") (λ _, "") 0 BodyUnreadable peer Background.

(** The body of a [map[string]any], its keys in order. *)
Definition json_post (idempotencyKey : string) (b : list (string * json)) : Request :=
  mkRequest "POST"
    (λ h, if String.eqb h "Content-Type" then "application/json"
          else if String.eqb h "Idempotency-Key" then idempotencyKey else "")
    (λ _, "") (λ _, "") (Z.of_nat (String.length (json_text (JObj b)))) (BodyJSON (JObj b)) peer Background.

Fixpoint handled (times : nat) (e : endpoint) (r : Request) : M unit :=
  match times with
  | O => mret tt
  | S times => serve cfg e r;; handled times e r
  end.

(** [client.Do]: the status and the body of the response, or an error. *)
Definition Do (e : endpoint) (r : Request) : M (error + Z * list json) :=
  n ← next_tick;
  match network_error n with
  | Some err => handled (deliveries_of n) e r;; mret (inl err)
  | None =>
      handled (S (deliveries_of n)) e r;;
      resp ← gets w_resp;
      mret (inr (default 200 (rw_status resp), rw_body resp))
  end.

(** ** Readiness *)

(** The loop with at most [fuel] rounds; did it come to an end? *)
Fixpoint ready_loop (fuel : nat) (deadline : Z) (lastErr : option error) : M bool :=
  match fuel with
  | O => mret false
  | S fuel =>
      now ← Now;
      if now <? deadline then
        resp ← Do ReadyEndpoint get_ready;
        match resp with
        | inr (status, _) =>
            if status =? 200 then mret true
            else
              Sleep Second;;
              ready_loop fuel deadline (Some (EText (Sprintf "readiness returned %d" [AInt status])))
        | inl err => Sleep Second;; ready_loop fuel deadline (Some err)
        end
      else throw (EFmt "api never became ready: " lastErr "")
  end.

(** Sixty rounds of a second each reach the deadline. *)
Definition waitForReady : M bool :=
  now ← Now; ready_loop 61 (now + 60 * Second) None.

(** ** Posting *)

Definition api_path (e : endpoint) : string :=
  match e with
  | CreateAccountEndpoint => "/v1/accounts"
  | TransferEndpoint => "/v1/transfers"
  | _ => ""
  end.

(** [fail] ends the process. *)
Definition mustPost (baseURL : string) (e : endpoint) (idempotencyKey : string)
    (b : list (string * json)) : M seed_line :=
  resp ← Do e (json_post idempotencyKey b);
  match resp with
  | inl err => throw err
  | inr (status, respBody) =>
      if status <? 300 then mret (Posted idempotencyKey status)
      else if status =? 409 then mret (AlreadyExists idempotencyKey status respBody)
      else
        throw (EText (Sprintf "%s returned %d: %s"
          [AStr (baseURL +:+ api_path e); AInt status; AStr (String.concat "" (map json_text respBody))]))
  end.

Definition system_body : list (string * json) :=
  [("allow_overdraft", JBool true); ("currency", JStr "USD"); ("id", JStr systemAccount);
   ("kind", JStr "system")].

Definition user_body (id : string) : list (string * json) :=
  [("currency", JStr "USD"); ("id", JStr id); ("kind", JStr "user")].

Definition fund_body (id : string) (fundAmount : Z) : list (string * json) :=
  [("amount", JNum fundAmount); ("currency", JStr "USD"); ("description", JStr "Initial funding");
   ("destination_account_id", JStr id); ("external_reference", JStr ("seed-" +:+ id));
   ("source_account_id", JStr systemAccount)].

(** The program, for its two flags: the lines it prints, or the error it exits 1
    with. *)
Definition seed_main (baseURL : string) (fundAmount : Z) : M (list seed_line) :=
  waitForReady;;
  l1 ← mustPost baseURL CreateAccountEndpoint "seed-system-account" system_body;
  l2 ← mustPost baseURL CreateAccountEndpoint ("seed-" +:+ accountA) (user_body accountA);
  l3 ← mustPost baseURL CreateAccountEndpoint ("seed-" +:+ accountB) (user_body accountB);
  l4 ← mustPost baseURL TransferEndpoint ("seed-fund-" +:+ accountA) (fund_body accountA fundAmount);
  l5 ← mustPost baseURL TransferEndpoint ("seed-fund-" +:+ accountB) (fund_body accountB fundAmount);
  mret [l1; l2; l3; l4; l5; Seeded systemAccount accountA accountB fundAmount].
End seed.
