(* ===== verification/SeedTheorems.v ===== *)
(** The seed program against the API: it comes to an end, it can be run any number
    of times, and what it posts takes effect once. *)
From S2P Require Import Prelude GoStrings GoTime Json Apperr Failpoint Schema SchemaFacts Monad World Metrics Storage Idempotency Event Config Cache Outbox LedgerModel Http RateLimit LedgerRepo LedgerService LedgerFacts LedgerEffects Once Kafka Publisher Replay Reconciliation Handlers Server ApiEffects Webhook Writers LedgerInvariant System Demo Tame HttpFacts MetricsTheorems Seed.
Local Open Scope Z_scope.

(** ** A POST takes effect once per key *)

(** [n] transactions more, and one record more, under [k]. *)
Definition posted_under (n : nat) (k : string * string) (d d' : DB) : Prop :=
  transactions d' = (n + transactions d)%nat ∧
  ∃ row, idempotency_records d' = <[k := row]> (idempotency_records d).

Section posting.
Context `{Ext} (cfg : Config).

Lemma posted_posted_under i now txn cid row rows t d d' :
  posted i now txn cid row rows t d d' → posted_under 1 (idem_key i) d d'.
Proof. intros Hp. split; [by eapply posted_transactions|]. eexists. apply Hp. Qed.

#[local] Instance once_CreateAccount cmd :
  Respects (onceW (idem_key (CaIdem cmd)) (posted_under 0 (idem_key (CaIdem cmd)))) (CreateAccount cfg cmd).
Proof.
  intros w. eapply once_mono; [|apply CreateAccount_once].
  intros d d' (a & (_ & now & _ & _ & _ & ->) & _). split; [done|by eexists].
Qed.
#[local] Instance once_Transfer ctx cmd :
  Respects (onceW (idem_key (TrIdem cmd)) (posted_under 1 (idem_key (TrIdem cmd)))) (Transfer cfg ctx cmd).
Proof.
  intros w. eapply once_mono; [|apply Transfer_once].
  intros d d' (_ & txID & a & (t & _ & ? & ? & ? & ? & ? & ? & ? & ? & _ & _ & _ & Hp & _) & _).
  by eapply posted_posted_under.
Qed.

Lemma once_run_command k P r s key h m :
  Respects (onceW k P) m → Respects (onceW k P) (run_command cfg r s key h m).
Proof.
  intros Hm. unfold run_command. apply respects_bind; [apply _..|]. intros []; [apply _|].
  by apply respects_or_error; try apply _.
Qed.

(** The way from the handler to the server. *)
Lemma once_serve k P e p h r :
  mux cfg e = route (server_limiter cfg) p h true →
  (∀ ctx, Respects (onceW k P) (h (WithContext r ctx))) → Respects (onceW k P) (serve cfg e r).
Proof.
  intros He Hh. assert (Respects (onceW k P) (modify (set_resp new_response))) by (by left).
  assert (Respects (onceW k P) (withRecovery (mux cfg e) r)) as Hm.
  { apply respects_withRecovery; try apply _. rewrite He. by apply respects_route; try apply _. }
  unfold serve. respects_tac.
Qed.

Lemma create_once r key :
  idempotencyKey r = inr key →
  Respects (onceW (scopeCreateAccount, key) (posted_under 0 (scopeCreateAccount, key)))
    (serve cfg CreateAccountEndpoint r).
Proof.
  intros Hkey. apply (once_serve _ _ CreateAccountEndpoint "POST /v1/accounts" (handleCreateAccount cfg)); [done|]. intros ctx.
  unfold handleCreateAccount. change (idempotencyKey (WithContext r ctx)) with (idempotencyKey r).
  rewrite Hkey. cbn [or_refuse]. apply respects_or_refuse; try apply _. intros req.
  apply once_run_command. apply (once_CreateAccount (create_command key _ (with_kind req))).
Qed.

Lemma transfer_once r key :
  idempotencyKey r = inr key →
  Respects (onceW (scopeTransfer, key) (posted_under 1 (scopeTransfer, key))) (serve cfg TransferEndpoint r).
Proof.
  intros Hkey. apply (once_serve _ _ TransferEndpoint "POST /v1/transfers" (handleTransfer cfg)); [done|]. intros ctx.
  unfold handleTransfer. change (idempotencyKey (WithContext r ctx)) with (idempotencyKey r).
  rewrite Hkey. cbn [or_refuse]. apply respects_or_refuse; try apply _. intros req.
  apply once_run_command. apply (once_Transfer _ (transfer_command key _ req)).
Qed.
End posting.

(** ** Running the program *)

Definition account_keys : list (string * string) :=
  [(scopeCreateAccount, "seed-system-account"); (scopeCreateAccount, "seed-" +:+ accountA);
   (scopeCreateAccount, "seed-" +:+ accountB)].
Definition funding_a : string * string := (scopeTransfer, "seed-fund-" +:+ accountA).
Definition funding_b : string * string := (scopeTransfer, "seed-fund-" +:+ accountB).
Definition seed_keys : list (string * string) := account_keys ++ [funding_a; funding_b].

Definition taken (d : DB) (k : string * string) : Prop := is_Some (idempotency_records d !! k).

(** How many of the fundings have not been posted. *)
Definition gap (d : DB) (k : string * string) : nat :=
  match idempotency_records d !! k with None => 1 | Some _ => 0 end.
Definition unfunded (d : DB) : nat := gap d funding_a + gap d funding_b.

Definition seeds (w w' : World) : Prop :=
  (transactions (w_db w') + unfunded (w_db w') ≤ transactions (w_db w) + unfunded (w_db w))%nat ∧
  (∀ k, taken (w_db w) k → taken (w_db w') k) ∧
  (Forall (taken (w_db w)) seed_keys → w_db w' = w_db w).

#[export] Instance seeds_preorder : PreOrder seeds.
Proof.
  split; [intros w; split_and!; [lia|done|done]|]. intros w1 w2 w3 (L1 & T1 & K1) (L2 & T2 & K2). split_and!; [lia|auto|].
  intros Hall. rewrite <-(K1 Hall). apply K2. by rewrite (K1 Hall).
Qed.

Lemma seeds_same w w' : w_db w' = w_db w → seeds w w'.
Proof. unfold seeds. intros ->. split_and!; [lia|done|done]. Qed.

Lemma gap_insert d d' k k' row :
  idempotency_records d' = <[k := row]> (idempotency_records d) →
  gap d' k' = if decide (k = k') then 0%nat else gap d k'.
Proof.
  intros E. unfold gap. rewrite E. destruct (decide (k = k')) as [<-|Hne];
    [by rewrite lookup_insert_eq|by rewrite lookup_insert_ne].
Qed.

(** Posting under one of the keys. *)
Lemma once_seeds n k w w' :
  k ∈ seed_keys → n = (if decide (k ∈ [funding_a; funding_b]) then 1%nat else 0%nat) →
  onceW k (posted_under n k) w w' → seeds w w'.
Proof.
  intros Hk Hn [E|(Hfree & _ & Htx & row & Hi)]; [by apply seeds_same|]. split_and!.
  - unfold unfunded. rewrite !(gap_insert _ _ _ _ _ Hi), Htx, Hn.
    assert (gap (w_db w) k = 1%nat) as Hg by (unfold gap; by rewrite Hfree).
    assert (funding_a ≠ funding_b) as Hab by discriminate.
    destruct (decide (k = funding_a)) as [->|Ha].
    + rewrite (decide_False (P:=funding_a = funding_b)) by done.
      rewrite decide_True by left. lia.
    + destruct (decide (k = funding_b)) as [->|Hb]; [rewrite decide_True by (right; left); lia|].
      rewrite decide_False; [lia|]. rewrite !elem_of_cons, elem_of_nil. by intros [?|[?|[]]].
  - intros k' [x Hx]. unfold taken. rewrite Hi. destruct (decide (k = k')) as [<-|Hne];
      [rewrite lookup_insert_eq|rewrite lookup_insert_ne by done]; by eexists.
  - rewrite Forall_forall. intros Hall. destruct (Hall k Hk) as [x Hx]. congruence.
Qed.

Section program.
Context `{Ext} `{Network} (cfg : Config).

#[export] Instance seeds_keeps {A} (m : M A) : Respects (keeps id) m → Respects seeds m.
Proof. intros Hm w. apply seeds_same. specialize (Hm w). unfold keeps, id in Hm. done. Qed.

Lemma seeds_handled times e r : Respects seeds (serve cfg e r) → Respects seeds (handled cfg times e r).
Proof. intros He. induction times as [|times IH]; simpl; respects_tac. Qed.

Lemma seeds_Do e r : Respects seeds (serve cfg e r) → Respects seeds (Do cfg e r).
Proof.
  intros He. assert (∀ n, Respects seeds (handled cfg n e r)) by (intros; by apply seeds_handled).
  unfold Do. respects_tac.
Qed.

#[export] Instance ready_keeps : Respects (keeps id) (serve cfg ReadyEndpoint get_ready).
Proof.
  assert (Respects (keeps id) (modify (set_resp new_response))) by done.
  assert (Respects (keeps id) (withRecovery (mux cfg ReadyEndpoint) get_ready)) as Hm.
  { by apply respects_withRecovery; try apply _. }
  unfold serve. respects_tac.
Qed.

Lemma seeds_mustPost url e key b :
  Respects seeds (serve cfg e (json_post key b)) → Respects seeds (mustPost cfg url e key b).
Proof. intros He. assert (Respects seeds (Do cfg e (json_post key b))) by (by apply seeds_Do). unfold mustPost. respects_tac. Qed.

#[export] Instance seeds_waitForReady : Respects seeds (waitForReady cfg).
Proof.
  assert (Respects seeds (Do cfg ReadyEndpoint get_ready)) by (apply seeds_Do; apply _).
  assert (∀ fuel t err, Respects seeds (ready_loop cfg fuel t err)) as Hl.
  { induction fuel as [|fuel IH]; intros t err; simpl; respects_tac. }
  unfold waitForReady. apply respects_bind; [apply _..|]. intros now. apply Hl.
Qed.

Lemma seeds_main url amount : Respects seeds (seed_main cfg url amount).
Proof.
  assert (∀ key b, (scopeCreateAccount, key) ∈ account_keys → idempotencyKey (json_post key b) = inr key →
    Respects seeds (mustPost cfg url CreateAccountEndpoint key b)) as Hc.
  { intros key b Hin Hkey. apply seeds_mustPost. intros w.
    apply (once_seeds 0 (scopeCreateAccount, key)); [by apply elem_of_app; left| |by apply create_once].
    rewrite decide_False; [done|]. by rewrite !elem_of_cons, elem_of_nil; intros [?|[?|[]]]. }
  assert (∀ key b, (scopeTransfer, key) ∈ [funding_a; funding_b] → idempotencyKey (json_post key b) = inr key →
    Respects seeds (mustPost cfg url TransferEndpoint key b)) as Ht.
  { intros key b Hin Hkey. apply seeds_mustPost. intros w.
    apply (once_seeds 1 (scopeTransfer, key)); [by apply elem_of_app; right|by rewrite decide_True|].
    by apply transfer_once. }
  assert (∀ (m : M seed_line) (k : seed_line → M (list seed_line)), Respects seeds m → (∀ l, Respects seeds (k l)) → Respects seeds (m ≫= k)) as Hb.
  { intros m k Hm Hk. apply respects_bind; [apply _|exact Hm|exact Hk]. }
  unfold seed_main. apply respects_bind; [apply _|apply seeds_waitForReady|intros _].
  apply Hb; [apply Hc; [by left|done]|intros l1].
  apply Hb; [apply Hc; [by right; left|done]|intros l2].
  apply Hb; [apply Hc; [by right; right; left|done]|intros l3].
  apply Hb; [apply Ht; [by left|done]|intros l4].
  apply Hb; [apply Ht; [by right; left|done]|intros l5].
  apply respects_ret; apply _.
Qed.
End program.

(** ** The wait for the server comes to an end *)

(** Time goes by. *)
Definition ticking (w w' : World) : Prop := w_clock w ≤ w_clock w'.

#[export] Instance ticking_preorder : PreOrder ticking.
Proof. unfold ticking. split; [intros ?; lia|intros ???; lia]. Qed.

Lemma ticking_still {A} (m : M A) : (∀ w, w_clock (m w).2 = w_clock w) → Respects ticking m.
Proof. intros Hm w. unfold ticking. by rewrite Hm. Qed.

Section wait.
Context `{Ext} `{Network} (cfg : Config).

#[local] Instance ticking_next_tick : Respects ticking next_tick.
Proof. by apply ticking_still. Qed.
#[local] Instance ticking_SetHeader k v : Respects ticking (SetHeader k v).
Proof. by apply ticking_still. Qed.
#[local] Instance ticking_WriteHeader s : Respects ticking (WriteHeader s).
Proof. apply ticking_still. intros w. unfold WriteHeader. by repeat case_match. Qed.
#[local] Instance ticking_Write b : Respects ticking (Write b).
Proof. by apply ticking_still. Qed.

#[local] Instance ticking_ready r : Respects ticking (serve cfg ReadyEndpoint r).
Proof.
  assert (Respects ticking (modify (set_resp new_response))) by (by apply ticking_still).
  assert (∀ c, Respects ticking (record_code c)) by (intros; by apply ticking_still).
  assert (∀ r e, Respects ticking (writeError r e)) by (intros; unfold writeError, writeJSON; respects_tac).
  assert (Respects ticking (withRecovery (mux cfg ReadyEndpoint) r)) as Hm.
  { assert (Respects ticking (handleReady cfg r)) as Hr.
    { unfold handleReady, Ping, redis_ping, writeJSON. respects_tac. }
    intros w. unfold withRecovery, mux. specialize (Hr w). destruct (handleReady cfg r w) as [[u|e|p] w1]; [done..|].
    etrans; [exact Hr|]. apply respects. }
  unfold serve. respects_tac.
Qed.
#[local] Instance ticking_Do : Respects ticking (Do cfg ReadyEndpoint get_ready).
Proof.
  assert (∀ n, Respects ticking (handled cfg n ReadyEndpoint get_ready)) by (intros n; induction n; simpl; respects_tac).
  unfold Do. respects_tac.
Qed.

(** A round takes a second at least. *)
Lemma ready_loop_ends n deadline lastErr w :
  deadline - w_clock w ≤ Z.of_nat n * Second → (ready_loop cfg (S n) deadline lastErr w).1 ≠ Ok false.
Proof.
  revert lastErr w. induction n as [|n IH]; intros lastErr w Hd; cbn [ready_loop];
    rewrite (bind_run _ _ _ (w_clock w) w) by done; destruct (Z.ltb_spec (w_clock w) deadline); [lia|by intros [=]| |by intros [=]].
  pose proof (respects (R:=ticking) (m:=Do cfg ReadyEndpoint get_ready) w) as Ht.
  destruct (Do cfg ReadyEndpoint get_ready w) as [[resp|e|p] w1] eqn:E;
    [rewrite (bind_run _ _ _ _ _ E)|by rewrite (bind_run_Err _ _ _ _ _ E)|];
    [|unfold mbind, ST_bind; by rewrite E].
  assert (∀ err, (ready_loop cfg (S n) deadline err (set_clock (w_clock w1 + Z.max 0 Second) w1)).1 ≠ Ok false) as Hnext.
  { intros err. apply IH. unfold ticking in Ht. unfold Second in *. simpl in *. lia. }
  destruct resp as [err|[status body]]; [apply Hnext|]. destruct (status =? 200); [done|apply Hnext].
Qed.
End wait.

(** The seed program does not wait for ever: with a server that is never ready,
    or a network that fails every request, the sixty-second wait ends in the error
    within sixty-one rounds. *)
Theorem waitForReady_ends `{Ext} `{Network} cfg w : (waitForReady cfg w).1 ≠ Ok false.
Proof.
  unfold waitForReady. rewrite (bind_run _ _ _ (w_clock w) w) by done. apply ready_loop_ends. lia.
Qed.

(** ** Running it again *)

(** Running the seed program once, over any network, with any flags, however it
    ends. *)
Definition seed_run `{Ext} (w w' : World) : Prop :=
  ∃ (net : Network) cfg url amount, w' = (seed_main cfg url amount w).2.

(** C20. Running the seed program again is safe: over any number of runs, however each
    of them ends and whatever the network repeats or loses, each of the two fundings
    is posted at most once, and once the five requests have been recorded no run
    changes the database any more. *)
Theorem seeding_is_idempotent `{Ext} w w' :
  rtc seed_run w w' →
  (transactions (w_db w') + unfunded (w_db w') ≤ transactions (w_db w) + unfunded (w_db w))%nat ∧
  (Forall (taken (w_db w)) seed_keys → w_db w' = w_db w).
Proof.
  intros Hs. assert (seeds w w') as (Hle & _ & Hsame); [|by split].
  induction Hs as [|w1 w2 w3 (net & cfg & url & amount & ->) _ IH]; [reflexivity|].
  etrans; [apply seeds_main|exact IH].
Qed.

(** Twice over a network that loses nothing, from an empty database. *)
Definition still_network : Network :=
  {| deliveries_of _ := 0%nat; network_error _ := None; peer := "10.0.0.1:4000" |}.
Definition seeded (w : World) : World :=
  (seed_main (H:=demo_ext) (H0:=still_network) api_cfg "http://localhost:8080" 100000 w).2.

Lemma seeded_run w : seed_run (H:=demo_ext) w (seeded w).
Proof. by exists still_network, api_cfg, "http://localhost:8080", 100000. Qed.

Lemma all_taken d : forallb (λ k, bool_decide (taken d k)) seed_keys = true → Forall (taken d) seed_keys.
Proof.
  intros Hall%Is_true_eq_left. apply forallb_True in Hall. eapply Forall_impl; [exact Hall|].
  intros k. by rewrite bool_decide_spec.
Qed.

Lemma seeding_is_idempotent_witness :
  let w1 := seeded demo_world in
  Forall (taken (w_db w1)) seed_keys ∧ transactions (w_db w1) = 2%nat ∧
  unfunded (w_db demo_world) = 2%nat ∧ w_db (seeded w1) = w_db w1.
Proof.
  intros w1. assert (Forall (taken (w_db w1)) seed_keys) as Hall by (apply all_taken; vm_compute; reflexivity).
  split_and!; [exact Hall|vm_compute; reflexivity|vm_compute; reflexivity|].
  refine (proj2 (seeding_is_idempotent (H:=demo_ext) w1 (seeded w1) _) Hall).
  apply rtc_once, seeded_run.
Defined.
