(* ===== verification/Startup.v ===== *)
(** How a process comes up: [internal/app] ([Build]), the connection pool of
    [internal/storage] ([Open]), the clients of [internal/kafka] and the loggers of
    [internal/observability]; what the workers start ([cmd/outbox-worker],
    [cmd/webhook-worker]) and what the API serves ([cmd/api]). The database driver and the Kafka client behind them are
    outside the repository. *)
From S2P Require Import Prelude GoStrings GoTime Json Apperr Failpoint Schema Monad World Metrics Storage Idempotency Event Config Outbox LedgerModel LedgerRepo LedgerService Kafka Publisher Replay Reconciliation Cache Http RateLimit Handlers Server.
Local Open Scope Z_scope.

(** * Logging *)

Inductive level := LevelDebug | LevelInfo | LevelWarn | LevelError.

(** A [slog.Logger]: the least level it writes, and its attributes in order. *)
Record Logger := mkLogger {
  lg_level : level;
  lg_attrs : list (string * string);
}.

(** [logger.With(attrs...)]. *)
Definition With (l : Logger) (attrs : list (string * string)) : Logger :=
  mkLogger (lg_level l) (lg_attrs l ++ attrs).

Definition lower_char (c : ascii) : ascii :=
  let n := Ascii.N_of_ascii c in
  if ((65 <=? n) && (n <=? 90))%N then Ascii.ascii_of_N (n + 32) else c.

(** [strings.ToLower], to be compared with ASCII text: no other character has one of
    the letters of the levels as its lower case. *)
Fixpoint ToLower (s : string) : string :=
  match s with
  | EmptyString => EmptyString
  | String c s => String (lower_char c) (ToLower s)
  end.

Definition NewLogger (service level : string) : Logger :=
  let l := ToLower level in
  let lvl :=
    if String.eqb l "debug" then LevelDebug
    else if String.eqb l "warn" then LevelWarn
    else if String.eqb l "error" then LevelError
    else LevelInfo in
  With (mkLogger lvl []) [("service", service)].

(** [Logger(ctx)]: the logger [WithLogger] put on the context or the default one,
    with the identifiers of the context. *)
Definition context_attrs (ctx : Ctx) : list (string * string) :=
  (if String.eqb (RequestID ctx) "" then [] else [("request_id", RequestID ctx)]) ++
  (if String.eqb (CorrelationID ctx) "" then [] else [("correlation_id", CorrelationID ctx)]) ++
  (if String.eqb (TransactionID ctx) "" then [] else [("transaction_id", TransactionID ctx)]).

Definition ContextLogger (stored : option Logger) (Default : Logger) (ctx : Ctx) : Logger :=
  let logger := default Default stored in
  match context_attrs ctx with [] => logger | attrs => With logger attrs end.

(** * The drivers *)

(** A [pgxpool.Config]. [RuntimeParams] may be a nil map. *)
Record PoolConfig := mkPoolConfig {
  ConnString : string;
  MaxConns : Z;
  MinConns : Z;
  MaxConnLifetime : Z;
  HealthCheckPeriod : Z;
  RuntimeParams : option (gmap string string);
}.

Record TopicConfig := mkTopicConfig {
  TcTopic : string;
  NumPartitions : Z;
  ReplicationFactor : Z;
}.

(** [pgxpool.ParseConfig] and [NewWithConfig]; Kafka's [Dial], [Brokers],
    [Controller] and [CreateTopics], at the n-th call. *)
Class Drivers := {
  ParseConfig : string → error + PoolConfig;
  NewWithConfig_err : PoolConfig → option error;
  Dial_err : nat → string → option error;
  Brokers_err : nat → option error;
  Controller : nat → error + (string * Z);
  CreateTopics_err : nat → list TopicConfig → option error;
}.

(** [if err != nil { return err }]. *)
Definition failing (e : option error) : M unit :=
  match e with Some err => throw err | None => mret tt end.
Definition or_fail {A} (r : error + A) : M A :=
  match r with inl err => throw err | inr a => mret a end.

(** * [storage.Open] *)

Record StorageDB := mkStorageDB {
  pool : PoolConfig;
  maxRetries : Z;
}.

(** [d.Milliseconds()] in decimal. *)
Definition msString (d : Z) : string := Sprintf "%d" [AInt (Z.quot d Millisecond)].

(** [params[name] = value]. *)
Definition set_param (name value : string) (params : option (gmap string string))
    : M (option (gmap string string)) :=
  match params with
  | None => panic "assignment to entry in nil map"
  | Some m => mret (Some (<[name := value]> m))
  end.

Section storage.
Context `{Ext} `{Drivers}.

Definition Open (cfg : Config) : M StorageDB :=
  poolCfg ← map_err (λ err, EFmt "storage: parse database url: " (Some err) "")
              (or_fail (ParseConfig (DatabaseURL cfg)));
  let params := match RuntimeParams poolCfg with None => Some ∅ | Some m => Some m end in
  params ← set_param "lock_timeout" (msString (DBLockTimeout cfg)) params;
  params ← set_param "statement_timeout" (msString (DBStatementTime cfg)) params;
  params ← set_param "idle_in_transaction_session_timeout" (msString (30 * Second)) params;
  params ← set_param "application_name" (ServiceName cfg) params;
  let poolCfg := mkPoolConfig (ConnString poolCfg) (DBMaxConns cfg) (DBMinConns cfg) Hour
                   (30 * Second) params in
  map_err (λ err, EFmt "storage: create pool: " (Some err) "") (failing (NewWithConfig_err poolCfg));;
  map_err (λ err, EFmt "storage: ping: " (Some err) "") Ping;;
  mret (mkStorageDB poolCfg (DBMaxTxRetries cfg)).
End storage.

(** * [app.Build] *)

Record RedisOptions := mkRedisOptions {
  Addr : string;
  Password : string;
  RedisDatabase : Z;
  DialTimeout : Z;
  RoReadTimeout : Z;
  RoWriteTimeout : Z;
}.

Record Deps := mkDeps {
  DepsConfig : Config;
  DepsLogger : Logger;
  DepsMetrics : Metrics;
  DepsDB : StorageDB;
  DepsRedis : option RedisOptions;
}.

Section app.
Context `{Ext} `{Prometheus} `{Drivers}.

(** The metrics of a new process, in a registry of their own. *)
Definition fresh_metrics : M Metrics := λ w,
  match (NewMetrics []).1 with
  | Ok m => (Ok m, w)
  | Err e => (Err e, w)
  | Panic p => (Panic p, w)
  end.

Definition redis_options (cfg : Config) : RedisOptions :=
  mkRedisOptions (RedisAddr cfg) (RedisPassword cfg) (RedisDB cfg) (RedisTimeout cfg)
    (RedisTimeout cfg) (RedisTimeout cfg).

(** The registry of failpoints is the process's ([w_fp]). A Redis that does not
    answer is only logged. *)
Definition Build (env : Environ) (serviceName : string) : M Deps :=
  cfg ← or_fail (Load env serviceName);
  let logger := NewLogger (ServiceName cfg) (LogLevel cfg) in
  metrics ← fresh_metrics;
  let '(err, fp) := Parse (NewRegistry (FailpointsEnabled cfg)) (Failpoints cfg) in
  modify (set_fp fp);;
  failing err;;
  db ← map_err (λ err, EFmt "app: postgres: " (Some err) "") (Open cfg);
  rdb ← (if RedisEnabled cfg then try redis_ping;; mret (Some (redis_options cfg)) else mret None);
  mret (mkDeps cfg logger metrics db rdb).
End app.

(** * Kafka's clients *)

(** What the source sets of a [kafka.Writer]; the acknowledgements are of all
    replicas, keys are hashed to partitions. *)
Inductive RequiredAcks := RequireNone | RequireOne | RequireAll.
Inductive Balancer := HashBalancer | RoundRobin.
Record Writer := mkWriter {
  WAddr : list string;
  WBalancer : Balancer;
  WRequiredAcks : RequiredAcks;
  WMaxAttempts : Z;
  WAsync : bool;
  AllowAutoTopicCreation : bool;
  WWriteTimeout : Z;
  WReadTimeout : Z;
  BatchTimeout : Z;
}.

Record Producer := mkProducer {
  writer : Writer;
  timeout : Z;
}.

Definition NewProducer (cfg : Config) : Producer :=
  mkProducer
    (mkWriter (KafkaBrokers cfg) HashBalancer RequireAll 1 false true (KafkaTimeout cfg)
       (KafkaTimeout cfg) (10 * Millisecond))
    (KafkaTimeout cfg).

Inductive StartOffset := FirstOffset | LastOffset.
Record ReaderConfig := mkReaderConfig {
  Brokers : list string;
  GroupID : string;
  GroupTopics : list string;
  MinBytes : Z;
  MaxBytes : Z;
  MaxWait : Z;
  CommitInterval : Z;
  RcStartOffset : StartOffset;
}.

Definition NewConsumer (cfg : Config) (group : string) (topics : list string) : ReaderConfig :=
  mkReaderConfig (KafkaBrokers cfg) group topics 1 (Z.shiftl 10 20) (500 * Millisecond) 0 FirstOffset.

Section kafka.
Context `{Ext} `{Drivers}.

Definition Dial (address : string) : M unit := n ← next_tick; failing (Dial_err n address).

Definition Producer_Ping (brokers : list string) : M unit :=
  match brokers with
  | [] => throw (EText "kafka: no brokers configured")
  | b :: _ =>
      map_err (λ err, EFmt (Sprintf "kafka: dial %s: " [AStr b]) (Some err) "") (Dial b);;
      map_err (λ err, EFmt "kafka: metadata: " (Some err) "") (n ← next_tick; failing (Brokers_err n))
  end.

Definition topic_specs (partitions : Z) (topics : list string) : list TopicConfig :=
  map (λ t, mkTopicConfig t partitions 1) topics.

Definition EnsureTopics (brokers : list string) (partitions : Z) (topics : list string) : M unit :=
  match brokers with
  | [] => throw (EText "kafka: no brokers configured")
  | b :: _ =>
      map_err (λ err, EFmt "kafka: dial: " (Some err) "") (Dial b);;
      '(host, port) ← map_err (λ err, EFmt "kafka: controller: " (Some err) "")
                        (n ← next_tick; or_fail (Controller n));
      map_err (λ err, EFmt "kafka: dial controller: " (Some err) "")
        (Dial (Sprintf "%s:%d" [AStr host; AInt port]));;
      map_err (λ err, EFmt "kafka: create topics: " (Some err) "")
        (n ← next_tick; failing (CreateTopics_err n (topic_specs partitions topics)))
  end.
End kafka.

(** * The workers *)

Definition metricsAddr (env : Environ) : string :=
  let addr := getenv env "LEDGER_METRICS_ADDR" in if String.eqb addr "" then ":8081" else addr.

Definition webhook_metricsAddr (env : Environ) : string :=
  let addr := getenv env "LEDGER_METRICS_ADDR" in if String.eqb addr "" then ":8082" else addr.

(** The pages of [serveMetrics], the same in both mains. *)
Inductive worker_page := WorkerMetrics | WorkerLive.

Definition worker_routes : list (string * worker_page) :=
  [("GET /metrics", WorkerMetrics); ("GET /health/live", WorkerLive)].

Definition worker_handler `{Ext} `{NetHttp} (p : worker_page) : handler :=
  match p with
  | WorkerMetrics => metrics_page
  | WorkerLive => λ _, WriteHeader 200;; Write (JObj [("status", JStr "ok")])
  end.

Definition serveMetrics `{Ext} `{NetHttp} (escaped : string) (r : Request) : M unit :=
  modify (set_resp new_response);;
  routed_handler worker_handler (dispatch worker_routes (Method r) escaped) r;;
  WriteHeader 200;;
  discard_body r.

Section worker.
Context `{Ext} `{Prometheus} `{Drivers}.

(** How both mains begin: an error of [Build] is a panic, a topic that could not be
    created is only logged. *)
Definition worker_start (env : Environ) (serviceName : string) : M Deps :=
  b ← try (Build env serviceName);
  match b with
  | inl err => panic (err_text err)
  | inr deps =>
      let cfg := DepsConfig deps in
      try (EnsureTopics (KafkaBrokers cfg) 3 (AllTopics cfg));;
      mret deps
  end.

(** [cmd/outbox-worker], up to [fuel] passes of the publisher's loop; did it return? *)
Definition outbox_worker (fuel : nat) (env : Environ) : M bool :=
  deps ← worker_start env "outbox-worker";
  RunPublisher (DepsConfig deps) fuel Background.

(** [cmd/webhook-worker], up to the two loops it runs side by side ([ConsumerRun] over
    this reader, and [RunDeliveries]). *)
Definition webhook_topics (cfg : Config) : list string :=
  [TopicPaymentsCreated cfg; TopicPaymentsReversed cfg; TopicPaymentsFailed cfg].

Definition webhook_worker_start (env : Environ) : M (Deps * ReaderConfig) :=
  deps ← worker_start env "webhook-worker";
  let cfg := DepsConfig deps in
  mret (deps, NewConsumer cfg (WebhookConsumerGroup cfg) (webhook_topics cfg)).
End worker.

(** * The API *)

(** The [api.Server] of a process; its ledger, replayer and reconciler are built over
    the same database, producer and configuration, and its cache over the same
    Redis. *)
Record APIServer := mkAPIServer {
  SrvConfig : Config;
  SrvDB : StorageDB;
  SrvRedis : option RedisOptions;
  SrvLimiter : option RateLimiter;
  SrvProducer : Producer;
  SrvMetrics : Metrics;
  SrvLogger : Logger;
}.

(** [NewServer], over the options that [main] gives it. *)
Definition NewServer (deps : Deps) (producer : Producer) : APIServer :=
  let cfg := DepsConfig deps in
  let limiter :=
    if RateLimitEnabled cfg
    then NewRateLimiter (bool_decide (is_Some (DepsRedis deps))) (RateLimitRPS cfg) Second
    else None in
  mkAPIServer cfg (DepsDB deps) (DepsRedis deps) limiter producer (DepsMetrics deps)
    (DepsLogger deps).

(** How [ListenAndServe] ends. *)
Inductive listened := ErrServerClosed | ListenFailed (err : error).

Section api.
Context `{Ext} `{Prometheus} `{Drivers} `{NetHttp}.

Definition api_start (env : Environ) : M APIServer :=
  b ← try (Build env "ledger-api");
  match b with
  | inl err => panic (err_text err)
  | inr deps => mret (NewServer deps (NewProducer (DepsConfig deps)))
  end.

Fixpoint serve_requests (cfg : Config) (requests : list (string * Request)) : M unit :=
  match requests with
  | [] => mret tt
  | (path, r) :: requests => ServeHTTP cfg path r;; serve_requests cfg requests
  end.

(** [cmd/api]: the requests it serves, one after the other, and its exit status. *)
Definition api_main (env : Environ) (requests : list (string * Request)) (end_ : listened) : M Z :=
  server ← api_start env;
  serve_requests (SrvConfig server) requests;;
  mret (match end_ with ErrServerClosed => 0 | ListenFailed _ => 1 end).
End api.
