(* ===== verification/Commands.v ===== *)
(** The command-line tools: [cmd/replay] over [Replay], and [cmd/migrate] over
    [Migrate], with their flags, their exits and the wait for the database. *)
From S2P Require Import Prelude GoStrings GoTime GoTimeParse Json Apperr Failpoint Schema Monad World Metrics Storage Idempotency Event Config Outbox Kafka Publisher Replay Cache Http Handlers Migrate Startup.
Local Open Scope Z_scope.

(** How a process ends: what it printed on standard output, and its exit status;
    an error is printed by [fail], a panic by the runtime. *)
Record exit (A : Type) := mkExit {
  printed : option A;
  status : Z;
}.
Arguments mkExit {_} printed status.
Arguments printed {_} e.
Arguments status {_} e.

(** [main], whose result is what is printed and the status; [fail(err)] is a returned
    error. *)
Definition run_main {S A} (main : ST S (A * Z)) : S → exit A * S := λ s,
  match main s with
  | (Ok (a, code), s') => (mkExit (Some a) code, s')
  | (Err _, s') => (mkExit None 1, s')
  | (Panic _, s') => (mkExit None 2, s')
  end.

(** * [cmd/replay] *)

(** [time.Parse(time.RFC3339, s)] reads what it does for [RFC3339Nano]; the text of
    its error is the library's. *)
Class TimeParse := ParseError_Error : string → string.

Record ReplayFlags := mkReplayFlags {
  FTransaction : string;
  FFrom : string;
  FTo : string;
  FLimit : Z;
  FDryRun : bool;
}.

Section replay.
Context `{Ext} `{Prometheus} `{Drivers} `{TimeParse}.

(** One bound of the time range. *)
Definition time_flag (name value : string) : M (option Z) :=
  if String.eqb value "" then mret None
  else match Parse_RFC3339Nano value with
       | Some t => mret (Some t)
       | None => throw (EFmt ("invalid -" +:+ name +:+ ": ") (Some (EText (ParseError_Error value))) "")
       end.

Definition tool_request (f : ReplayFlags) (from to : option Z) : ReplayRequest :=
  mkReplayRequest (FTransaction f) from to (FLimit f) "cmd/replay" (FDryRun f).

Definition replay_command (env : Environ) (f : ReplayFlags) : M (ReplayResult * Z) :=
  Build env "replay";;
  from ← time_flag "from" (FFrom f);
  to ← time_flag "to" (FTo f);
  match ValidateReplay (tool_request f from to) with
  | Some e => throw (EApp e)
  | None =>
      result ← RunReplay (tool_request f from to);
      mret (result, if 0 <? Failed result then 1 else 0)
  end.

Definition replay_main (env : Environ) (f : ReplayFlags) : World → exit ReplayResult * World :=
  run_main (replay_command env f).
End replay.

(** * [cmd/migrate] *)

Inductive migrate_line :=
  | UpToDate
  | Applied (versions : list Z)
  | Reverted (versions : list Z)
  | AppliedVersionsAre (versions : list Z).

(** The clock and the context of the process, the latter done two minutes after its
    start or never checked, and what a ping of the pool returns. *)
Class Waiting := {
  Ping_err : nat → option error;
  Done_err : nat → option error;
  New_err : string → option error;
}.

Section migrate.
Context `{Engine} `{Waiting}.

(** The database, and the clock. *)
Notation CM := (ST (Target * Z)).

Definition on_target {A} (m : ST Target A) : CM A := λ '(s, t), let '(o, s') := m s in (o, (s', t)).
Definition clock : CM Z := gets snd.
Definition advance (d : Z) : CM unit := modify (λ '(s, t), (s, t + d)).
Definition or_exit {A} (r : error + A) : CM A := match r with inl err => throw err | inr a => mret a end.
Definition exit_on (e : option error) : CM unit :=
  match e with Some err => throw err | None => mret tt end.

(** The loop with at most [fuel] rounds; did it come to an end? The [select] takes the
    context's end before the second is over, or waits for it. *)
Fixpoint wait_loop (fuel : nat) (deadline : Z) (lastErr : option error) : CM bool :=
  match fuel with
  | O => mret false
  | S fuel =>
      now ← clock;
      if now <? deadline then
        n ← on_target tick;
        match Ping_err n with
        | None => mret true
        | Some err =>
            n ← on_target tick;
            match Done_err n with
            | Some done => throw done
            | None => advance Second;; wait_loop fuel deadline (Some err)
            end
        end
      else throw (EFmt "database not reachable: " lastErr "")
  end.

(** Sixty rounds of a second each reach the deadline. *)
Definition waitForDB : CM bool := now ← clock; wait_loop 61 (now + 60 * Second) None.

(** A run up or down, whose error ends the process. *)
Definition ran (m : ST Target ran_result) : CM (list Z) :=
  r ← on_target m; match r with (_, Some err) => throw err | (versions, None) => mret versions end.

Definition migrate_command (env : Environ) (fs : FS) (order : list Migration → list Migration)
    (direction : string) (steps : Z) : CM (migrate_line * Z) :=
  cfg ← or_exit (Load env "migrate");
  match New_err (DatabaseURL cfg) with
  | Some err => throw (EFmt "connect: " (Some err) "")
  | None =>
      waitForDB;;
      if String.eqb direction "up" then
        applied ← ran (MigrateUp fs order);
        mret (match applied with [] => UpToDate | _ => Applied applied end, 0)
      else if String.eqb direction "down" then
        reverted ← ran (MigrateDown fs order steps);
        mret (Reverted reverted, 0)
      else if String.eqb direction "status" then
        versions ← on_target AppliedVersions;
        mret (AppliedVersionsAre versions, 0)
      else
        throw (EText (Sprintf "unknown direction %q (want up, down or status)" [AStr direction]))
  end.

Definition migrate_main (env : Environ) (fs : FS) (order : list Migration → list Migration)
    (direction : string) (steps : Z) : Target * Z → exit migrate_line * (Target * Z) :=
  run_main (migrate_command env fs order direction steps).
End migrate.
