(* ===== verification/StartupTheorems.v ===== *)
(** What starts, and with what settings: the sessions' timeouts, the dependencies
    of a process, the server of the API; and that a run of the API is a run of the
    system. *)
From S2P Require Import Prelude GoStrings GoTime GoTimeParse Json Apperr Failpoint Schema SchemaFacts Monad World Metrics Storage Idempotency Event Config Outbox LedgerModel LedgerRepo LedgerService Kafka Publisher Replay Reconciliation Cache Http RateLimit Handlers Server ApiEffects Webhook LedgerInvariant System Demo WorkerTheorems Tame HttpFacts ApiTheorems MetricsTheorems Startup.
Local Open Scope Z_scope.

(** * Opening the database *)

Lemma map_err_Panic {S A} f (m : ST S A) s p : (map_err f m s).1 = Panic p → (m s).1 = Panic p.
Proof. unfold map_err. by destruct (m s) as [[a|e|q] s']. Qed.

(** Neither the database nor Kafka nor the failpoints are touched. *)
Definition settled (w w' : World) : Prop :=
  w_db w' = w_db w ∧ w_kafka w' = w_kafka w ∧ w_fp w' = w_fp w.

#[export] Instance settled_preorder : PreOrder settled.
Proof. split; [done|]. intros ??? (? & ? & ?) (? & ? & ?). split_and!; congruence. Qed.

Section opening.
Context `{Ext} `{Drivers}.

#[export] Instance settled_next_tick : Respects settled next_tick.
Proof. done. Qed.
#[export] Instance settled_Ping : Respects settled Ping.
Proof. unfold Ping. respects_tac. Qed.
#[export] Instance settled_redis_ping : Respects settled redis_ping.
Proof. unfold redis_ping. respects_tac. Qed.
#[export] Instance settled_Open cfg : Respects settled (Open cfg).
Proof. unfold Open, or_fail, failing, set_param. respects_tac. Qed.

Lemma Open_inv cfg w db w' :
  Open cfg w = (Ok db, w') →
  ∃ parsed, ParseConfig (DatabaseURL cfg) = inr parsed ∧
    db = mkStorageDB (mkPoolConfig (ConnString parsed) (DBMaxConns cfg) (DBMinConns cfg) Hour (30 * Second)
      (Some (<["application_name" := ServiceName cfg]>
        (<["idle_in_transaction_session_timeout" := msString (30 * Second)]>
          (<["statement_timeout" := msString (DBStatementTime cfg)]>
            (<["lock_timeout" := msString (DBLockTimeout cfg)]> (default ∅ (RuntimeParams parsed))))))))
      (DBMaxTxRetries cfg).
Proof.
  unfold Open. intros Ho. apply bind_Ok in Ho as (parsed & w1 & E1%map_err_Ok & Ho).
  unfold or_fail in E1. destruct (ParseConfig _) as [|parsed'] eqn:Ep; [done|]. apply ret_Ok in E1 as [-> ->].
  exists parsed. split; [done|].
  destruct (RuntimeParams parsed) as [m|]; unfold set_param in Ho; cbv zeta in Ho; ok_inv; reflexivity.
Qed.
End opening.

Lemma append_empty s : s +:+ "" = s.
Proof. induction s as [|c s IH]; [done|]. change (String c (s +:+ "") = String c s). by rewrite IH. Qed.

(** The text of a timeout of [d]: its whole milliseconds. *)
Definition bounds_wait (d : Z) (text : string) : Prop :=
  (Millisecond ≤ d → ∃ n, text = Itoa n ∧ 0 < n ∧ n * Millisecond ≤ d < (n + 1) * Millisecond) ∧
  (0 ≤ d < Millisecond → text = "0").

Lemma msString_bounds d : bounds_wait d (msString d).
Proof.
  assert (msString d = Itoa (Z.quot d Millisecond)) as ->.
  { apply append_empty. }
  split; intros Hd.
  - exists (Z.quot d Millisecond). split; [done|]. unfold Millisecond in *.
    rewrite Z.quot_div_nonneg by lia. pose proof (Z.div_mod d 1000000). pose proof (Z.mod_pos_bound d 1000000). lia.
  - by rewrite Z.quot_small.
Qed.

(** Waits are bounded: whatever the database URL says, and although the driver may
    leave the parameters unset (a nil map), every session is opened with the
    configured lock and statement timeouts in whole milliseconds and with thirty
    seconds for a transaction that idles. A timeout below a millisecond becomes
    zero, which PostgreSQL takes for no timeout at all. *)
Theorem Open_bounds_waits `{Ext} `{Drivers} cfg w :
  (∀ p, (Open cfg w).1 ≠ Panic p) ∧
  ∀ db w', Open cfg w = (Ok db, w') →
    w_db w' = w_db w ∧ maxRetries db = DBMaxTxRetries cfg ∧
    ∃ params lock stmt, RuntimeParams (pool db) = Some params ∧
      params !! "lock_timeout" = Some lock ∧ bounds_wait (DBLockTimeout cfg) lock ∧
      params !! "statement_timeout" = Some stmt ∧ bounds_wait (DBStatementTime cfg) stmt ∧
      params !! "idle_in_transaction_session_timeout" = Some "30000".
Proof.
  split.
  - intros p. unfold Open, or_fail, failing, Ping, map_err, mbind, ST_bind.
    destruct (ParseConfig _) as [|parsed]; [done|]. simpl.
    destruct (RuntimeParams parsed); simpl; destruct (NewWithConfig_err _); try done; simpl;
      by destruct (stmt_fault _).
  - intros db w' E. pose proof (respects (R:=settled) (m:=Open cfg) w) as [Hk _]. rewrite E in Hk. split; [exact Hk|].
    destruct (Open_inv _ _ _ _ E) as (parsed & _ & ->). split; [done|].
    eexists _, (msString (DBLockTimeout cfg)), (msString (DBStatementTime cfg)).
    split; [reflexivity|]. split_and!; try apply msString_bounds; by simplify_map_eq.
Qed.

(** * Building the dependencies *)

(** Starting a process leaves the system alone. *)
Definition outside (w w' : World) : Prop := w_db w' = w_db w ∧ w_kafka w' = w_kafka w.

#[export] Instance outside_preorder : PreOrder outside.
Proof. split; [done|]. intros ??? [??] [??]. split; congruence. Qed.
#[export] Instance outside_settled `{Ext} {A} (m : M A) : Respects settled m → Respects outside m.
Proof. intros Hm w. destruct (Hm w) as (? & ? & _). by split. Qed.

#[export] Instance outside_Build `{Ext} `{Prometheus} `{Drivers} env name : Respects outside (Build env name).
Proof.
  assert (Respects outside fresh_metrics) by (intros w; unfold fresh_metrics; by destruct (NewMetrics []).1).
  assert (∀ fp, Respects outside (modify (set_fp fp))) by done.
  unfold Build, or_fail, failing. respects_tac.
Qed.

Lemma bind_ext {S A B} (m m' : ST S A) (f f' : A → ST S B) s :
  m s = m' s → (∀ a s, f a s = f' a s) → (m ≫= f) s = (m' ≫= f') s.
Proof. intros Hm Hf. unfold mbind, ST_bind. rewrite Hm. by destruct (m' s) as [[] ?]. Qed.

(** The same services but for Redis, which fails as [f] says. *)
Definition with_redis (e : Ext) (f : nat → option (bool * error)) : Ext := {|
  NewString_nth := NewString_nth;
  uuid_in := uuid_in;
  PgError_Error := PgError_Error;
  stmt_fault := stmt_fault;
  begin_fault := begin_fault;
  commit_fault := commit_fault;
  sleep_fault := sleep_fault;
  ctx_fault := ctx_fault;
  publish_fault := publish_fault;
  redis_fault := f;
  http_result := http_result;
  time_error_text := time_error_text;
  NewRequest_err := NewRequest_err;
  jsonb_text := jsonb_text;
  Int63n_nth := Int63n_nth;
  Float64_bits := Float64_bits;
  returning_order := returning_order;
|}.

Lemma disabled_parts r parts r' :
  Enabled r = false → Parse_parts r parts = (None, r') → r' = r ∧ Forall (λ p, TrimSpace p = "") parts.
Proof.
  intros Hr. induction parts as [|p parts IH]; simpl; [by intros [= <-]|].
  destruct (String.eqb_spec (TrimSpace p) "") as [Hp|]; [intros [? ?]%IH; by split; [|constructor]|].
  destruct (Cut "=" _) as [[name rhs]|]; [|done]. unfold Arm. by rewrite Hr.
Qed.

(** A process starts whatever Redis does: the result of [Build] is the same for
    every behaviour of Redis. And one that has started runs under a configuration
    that passed the checks of [Load] and under the failpoints of its configuration;
    where injection is not enabled these are none: a specification that names a
    failpoint keeps the process from starting. *)
Theorem Build_starts `{E : Ext} `{Prometheus} `{Drivers} env name w :
  (∀ f, Build (H:=with_redis E f) env name w = Build env name w) ∧
  ∀ deps w', Build env name w = (Ok deps, w') →
    let cfg := DepsConfig deps in
    Load env name = inr cfg ∧ w_db w' = w_db w ∧
    (None, w_fp w') = Parse (NewRegistry (FailpointsEnabled cfg)) (Failpoints cfg) ∧
    (is_Some (DepsRedis deps) ↔ RedisEnabled cfg = true) ∧
    (FailpointsEnabled cfg = false →
       (∀ ctx fp, Eval (w_fp w') ctx fp = (FpNone, w_fp w')) ∧
       (TrimSpace (Failpoints cfg) = "" ∨ Forall (λ p, TrimSpace p = "") (Split "," (Failpoints cfg)))).
Proof.
  split.
  - intros f. unfold Build. apply bind_ext; [done|]. intros cfg w1. apply bind_ext; [done|]. intros m w2.
    destruct (Parse _ _) as [err fp]. do 3 (apply bind_ext; [done|intros ? ?]).
    apply bind_ext; [|done]. destruct (RedisEnabled cfg); [|done].
    unfold redis_ping, try, next_tick, mbind, ST_bind, throw. simpl.
    destruct (f _) as [[? ?]|], (redis_fault _) as [[? ?]|]; reflexivity.
  - intros deps w' Hb. unfold Build in Hb.
    apply bind_Ok in Hb as (cfg & w1 & Hl & Hb). unfold or_fail in Hl.
    destruct (Load env name) as [|cfg'] eqn:El; [done|]. apply ret_Ok in Hl as [-> <-].
    apply bind_Ok in Hb as (m & w1 & Hm & Hb). assert (w1 = w) as ->.
    { unfold fresh_metrics in Hm. destruct (NewMetrics []).1; by simplify_eq. }
    destruct (Parse _ _) as [err fp] eqn:Ep.
    apply bind_Ok in Hb as ([] & w2 & [= <-] & Hb).
    apply bind_Ok in Hb as ([] & w3 & Herr & Hb). destruct err as [|]; [done|].
    apply ret_Ok in Herr as [_ <-].
    apply bind_Ok in Hb as (db & w3 & Ho%map_err_Ok & Hb).
    destruct (respects (R:=settled) (m:=Open cfg) (set_fp fp w)) as (Hd & _ & Hf).
    apply bind_Ok in Hb as (rdb & w4 & Hr & Hb).
    assert (settled w3 w4 ∧ (is_Some rdb ↔ RedisEnabled cfg = true)) as [(Hd4 & _ & Hf4) Hrdb].
    { destruct (RedisEnabled cfg); [|by apply ret_Ok in Hr as [<- <-]; split; [|split; [intros []|]]].
      apply bind_Ok in Hr as (x & w5 & Ht & Hr). apply ret_Ok in Hr as [<- <-].
      pose proof (respects (R:=settled) (m:=try redis_ping) w3) as Hs. rewrite Ht in Hs. by split. }
    apply ret_Ok in Hb as [<- <-]. simpl. rewrite Ho in Hd, Hf. simpl in Hd, Hf.
    split_and!; [done|congruence|by rewrite Hf4, Hf, <-Ep|apply Hrdb..|]. intros Hoff.
    assert (fp = NewRegistry false ∧ (TrimSpace (Failpoints cfg) = "" ∨
      Forall (λ p, TrimSpace p = "") (Split "," (Failpoints cfg)))) as [-> Hblank].
    { rewrite Hoff in Ep. unfold Parse, NewRegistry in Ep.
      destruct (String.eqb_spec (TrimSpace (Failpoints cfg)) ""); [injection Ep as <-; auto|].
      apply disabled_parts in Ep as [-> ?]; auto. }
    split; [|exact Hblank]. intros ctx fp'. by rewrite Hf4, Hf.
Qed.

(** * The workers *)

(** A topic that the ledger writes to is one that the webhook worker reads, from its
    beginning and with commits by hand, and one that was asked for at the start. *)
Lemma events_have_a_reader `{Ext} `{Prometheus} `{Drivers} env w deps reader w' :
  webhook_worker_start env w = (Ok (deps, reader), w') →
  ∀ eventType, TopicForEvent (DepsConfig deps) eventType ∈ GroupTopics reader ∧
    TopicForEvent (DepsConfig deps) eventType ∈ TcTopic <$> topic_specs 3 (AllTopics (DepsConfig deps)) ∧
    CommitInterval reader = 0 ∧ RcStartOffset reader = FirstOffset.
Proof.
  unfold webhook_worker_start. intros Hr ty. apply bind_Ok in Hr as (deps' & w1 & _ & Hr).
  apply ret_Ok in Hr as [[= -> <-] _]. unfold TopicForEvent. simpl. repeat case_match; set_solver.
Qed.

(** The pages of the workers: the table is in order, and asking for them leaves the
    system alone. *)
Lemma worker_routes_ok : table_ok worker_routes.*1 = true.
Proof. by vm_compute. Qed.

#[export] Instance settled_answering `{Ext} : Answering settled.
Proof.
  split; try done. intros s w. unfold WriteHeader. destruct (rw_status _); [done|]. by destruct (_ || _).
Qed.
#[export] Instance outside_serveMetrics `{Ext} `{NetHttp} path r : Respects outside (serveMetrics path r).
Proof.
  assert (Respects settled (modify (set_resp new_response)) ∧ ∀ f, Respects settled (on_resp f)) as [? ?]
    by done.
  apply outside_settled. unfold serveMetrics, routed_handler, worker_handler, redirect, metrics_page,
    http_error, NotFound, discard_body. respects_tac.
Qed.

(** * The API *)

(** The limiter that the routes use is the server's, for which Redis is there exactly
    when the configuration asks for it; and the server is up without Redis. *)
Lemma api_start_server `{Ext} `{Prometheus} `{Drivers} env w server w' :
  api_start env w = (Ok server, w') →
  Load env "ledger-api" = inr (SrvConfig server) ∧
  SrvLimiter server = server_limiter (SrvConfig server) ∧ outside w w'.
Proof.
  unfold api_start. intros Hs. apply bind_Ok in Hs as (b & w1 & Hb & Hs).
  destruct b as [err|deps]; [done|]. apply ret_Ok in Hs as [<- <-].
  apply try_Ok_inr in Hb. pose proof (respects (R:=outside) (m:=Build env "ledger-api") w) as Ho.
  rewrite Hb in Ho. destruct (proj2 (Build_starts env "ledger-api" w) deps w1 Hb) as (Hl & _ & _ & Hr & _).
  split_and!; [exact Hl| |apply Ho..]. unfold NewServer, server_limiter. simpl.
  destruct (RateLimitEnabled (DepsConfig deps)); [|done]. f_equal.
  destruct (RedisEnabled (DepsConfig deps)); [apply bool_decide_eq_true, Hr; done|].
  apply bool_decide_eq_false. by intros ?%Hr.
Qed.

(** A run of the API, whatever it is asked and whatever fails, is a run of the
    system. *)
Lemma api_main_steps `{Ext} `{Prometheus} `{Drivers} `{NetHttp} env requests e w :
  rtc step w (api_main env requests e w).2.
Proof.
  assert (∀ cfg w, rtc step w (serve_requests cfg requests w).2 ∧
                   ∃ o, serve_requests cfg requests w = (Ok o, (serve_requests cfg requests w).2)) as Hserve.
  { intros cfg. induction requests as [|[path r] requests IH]; intros w0; simpl; [by eauto using rtc_refl|].
    destruct (every_request_runs cfg path r w0) as [w1 E]. rewrite (bind_run _ _ _ tt w1) by done.
    destruct (IH w1) as [Hs Ho]. split; [|done]. etrans; [|exact Hs].
    pose proof (ServeHTTP_steps cfg path r w0) as Hstep. by rewrite E in Hstep. }
  unfold api_main, mbind at 1, ST_bind. destruct (api_start env w) as [o w1] eqn:E.
  assert (step w w1) as Hstart.
  { apply step_environment. assert (Respects outside (api_start env)) as Ho
      by (unfold api_start; respects_tac).
    specialize (Ho w). rewrite E in Ho. apply Ho. }
  destruct o as [server|err|p]; [|by apply rtc_once..].
  eapply rtc_l; [exact Hstart|]. destruct (Hserve (SrvConfig server) w1) as [Hs [u Eu]].
  by rewrite (bind_run _ _ _ u _ Eu).
Qed.

(** ** A driver that opens everything *)

Definition demo_drivers : Drivers := {|
  ParseConfig url := inr (mkPoolConfig url 4 0 0 0 None);
  NewWithConfig_err _ := None;
  Dial_err _ _ := None;
  Brokers_err _ := None;
  Controller _ := inr ("broker", 9092);
  CreateTopics_err _ _ := None;
|}.
Definition bare_environ : Environ := mkEnviron (λ _, "") (Some "host") 1.

Lemma Open_bounds_waits_witness :
  ∃ db w' params, Open (H:=demo_ext) (H0:=demo_drivers) cfg demo_world = (Ok db, w') ∧
    RuntimeParams (pool db) = Some params ∧ params !! "lock_timeout" = Some "3000" ∧
    bounds_wait (DBLockTimeout cfg) "3000".
Proof.
  destruct (run_Ok (Open (H:=demo_ext) (H0:=demo_drivers) cfg demo_world) ltac:(vm_compute; reflexivity)) as [db E].
  destruct (proj2 (Open_bounds_waits (H:=demo_ext) (H0:=demo_drivers) cfg demo_world) db _ E)
    as (_ & _ & params & lock & stmt & Hp & Hl & Hb & _).
  assert (lock = "3000") as ->.
  { assert (RuntimeParams (pool db) ≫= (λ m, m !! "lock_timeout") = Some "3000") as Hlock.
    { transitivity (match (Open (H:=demo_ext) (H0:=demo_drivers) cfg demo_world).1 with
                    | Ok db => RuntimeParams (pool db) ≫= (λ m, m !! "lock_timeout") | _ => None end);
        [by rewrite E|vm_compute; reflexivity]. }
    rewrite Hp in Hlock. simpl in Hlock. congruence. }
  eexists db, _, params. split_and!; [exact E|exact Hp|exact Hl|exact Hb].
Defined.

(** A service that starts with Redis down. *)
Definition no_redis : Ext := with_redis demo_ext (λ _, Some (false, EText "dial tcp: connection refused")).

Lemma Build_starts_witness :
  ∃ deps w', Build (H:=no_redis) (H0:=demo_register) (H1:=demo_drivers) bare_environ "ledger-api" demo_world = (Ok deps, w') ∧
    is_Some (DepsRedis deps) ∧ ∀ ctx fp, Eval (w_fp w') ctx fp = (FpNone, w_fp w').
Proof.
  destruct (run_Ok (Build (H:=no_redis) (H0:=demo_register) (H1:=demo_drivers) bare_environ "ledger-api" demo_world)
              ltac:(vm_compute; reflexivity)) as [deps E].
  destruct (proj2 (Build_starts (E:=no_redis) (H:=demo_register) (H0:=demo_drivers) bare_environ "ledger-api" demo_world)
              deps _ E) as (Hl & _ & _ & Hr & Hoff).
  assert (RedisEnabled (DepsConfig deps) = true ∧ FailpointsEnabled (DepsConfig deps) = false) as [Hon Hfp].
  { injection Hl as <-. split; reflexivity. }
  exists deps. eexists. split; [exact E|]. split; [by apply Hr|]. apply (Hoff Hfp).
Defined.
