(* ===== verification/CommandTheorems.v ===== *)
(** The command-line tools: what their exits say. *)
From S2P Require Import Prelude GoStrings GoTime GoTimeParse Json Apperr Failpoint Schema SchemaFacts Monad World Metrics Storage Idempotency Event Config Outbox LedgerModel LedgerRepo LedgerService Kafka Publisher Replay Reconciliation Cache Http Handlers ApiEffects Webhook LedgerInvariant System Demo WorkerTheorems Tame HttpFacts ApiTheorems MetricsTheorems Migrate MigrateTheorems Startup Commands StartupTheorems.
Local Open Scope Z_scope.

(** * The replay tool *)

(** A bound of the time range: absent, or the time the text denotes. *)
Definition denotes (text : string) (bound : option Z) : Prop :=
  if String.eqb text "" then bound = None else is_Some bound ∧ bound = Parse_RFC3339Nano text.

Section replay.
Context `{Ext} `{Prometheus} `{Drivers} `{TimeParse}.

#[export] Instance settled_time_flag name v : Respects settled (time_flag name v).
Proof. unfold time_flag. respects_tac. Qed.

Lemma time_flag_Ok name v w t w' : time_flag name v w = (Ok t, w') → denotes v t.
Proof.
  unfold time_flag, denotes. destruct (String.eqb v ""); [by intros [<- _]%ret_Ok|].
  destruct (Parse_RFC3339Nano v); [intros [<- _]%ret_Ok; eauto|done].
Qed.

Lemma replays_outside req w w1 res w' : outside w w1 → replays req w1 res w' → replays req w res w'.
Proof. intros [Hd Hk]. unfold replays. by rewrite Hd, Hk. Qed.

(** The request that the flags describe. *)
Definition asks (f : ReplayFlags) (req : ReplayRequest) : Prop :=
  ∃ from to, denotes (FFrom f) from ∧ denotes (FTo f) to ∧
    req = tool_request f from to.

(** A call that changes something only when it returns. *)
Definition fails_outside {A} (m : M A) : Prop := ∀ w, is_Ok (m w).1 = false → outside w (m w).2.

Lemma fails_outside_bind {A B} (m : M A) (k : A → M B) :
  Respects outside m → (∀ a, fails_outside (k a)) → fails_outside (m ≫= k).
Proof.
  intros Hm Hk w. unfold mbind, ST_bind. specialize (Hm w). destruct (m w) as [[a|e|p] w1]; [|done..].
  intros Hf. etrans; [exact Hm|by apply Hk].
Qed.

Lemma fails_outside_RunReplay req : fails_outside (RunReplay req).
Proof.
  intros w. pose proof (respects (R:=keeps id) (m:=RunReplay req) w) as Hd. unfold keeps, id in Hd.
  destruct (RunReplay req w) as [[res|e|p] w1] eqn:E; [done|..]; intros _;
    (split; [exact Hd|]); eapply RunReplay_fails; eauto.
Qed.

Lemma fails_outside_replay env f : fails_outside (replay_command env f).
Proof.
  apply fails_outside_bind; [apply _|intros _]. apply fails_outside_bind; [apply _|intros from].
  apply fails_outside_bind; [apply _|intros to]. destruct (ValidateReplay (tool_request f from to)); [by intros w _|].
  intros w. unfold mbind, ST_bind. pose proof (fails_outside_RunReplay (tool_request f from to) w) as Hf. by destruct (RunReplay _ w) as [[res|e|p] w1].
Qed.

Lemma replay_command_Ok env f w res code w' :
  replay_command env f w = (Ok (res, code), w') →
  (∃ req, asks f req ∧ ValidateReplay req = None ∧ replays req w res w') ∧ code = if 0 <? Failed res then 1 else 0.
Proof.
  unfold replay_command. intros Hr. apply bind_Ok in Hr as (deps & w1 & E1 & Hr).
  apply bind_Ok in Hr as (from & w2 & E2 & Hr). apply bind_Ok in Hr as (to & w3 & E3 & Hr).
  assert (outside w w3) as Hout.
  { transitivity w1; [pose proof (outside_Build env "replay" w) as Ho; by rewrite E1 in Ho|].
    transitivity w2; [pose proof (settled_time_flag "from" (FFrom f) w1) as (Hd & Hk & _)
      |pose proof (settled_time_flag "to" (FTo f) w2) as (Hd & Hk & _)]; [rewrite E2 in Hd, Hk|rewrite E3 in Hd, Hk]; by split. }
  apply time_flag_Ok in E2, E3. destruct (ValidateReplay (tool_request f from to)) eqn:Ev; [done|].
  apply bind_Ok in Hr as (res' & w4 & E4 & Hr). apply ret_Ok in Hr as [[= <- <-] <-]. split; [|done].
  eexists. split; [by exists from, to|]. split; [exact Ev|]. eapply replays_outside; [exact Hout|by apply RunReplay_Ok].
Qed.
End replay.

(** C31. The exit of the replay tool can be trusted. It prints a result exactly when
    it went through the recorded events its flags select, and exits 0 then exactly
    when no publish was reported as failed: then every selected event was
    republished, in order, unless the run was a dry one, which publishes nothing. (A
    publish whose acknowledgement is lost counts as failed, although the event may
    be there.) Whenever it prints no
    result (a configuration or a flag that is refused, a database that does not
    answer) it exits with another status and has sent nothing; and in no case does
    it change the database. *)
Theorem replay_exit_status `{Ext} `{Prometheus} `{Drivers} `{TimeParse} env f w :
  let e := (replay_main env f w).1 in let w' := (replay_main env f w).2 in
  w_db w' = w_db w ∧
  match printed e with
  | None => status e ≠ 0 ∧ w_kafka w' = w_kafka w
  | Some res =>
      (∃ req, asks f req ∧ ValidateReplay req = None ∧ replays req w res w') ∧
      (status e = 0 ↔ Failed res = 0)
  end.
Proof.
  unfold replay_main, run_main. pose proof (fails_outside_replay env f w) as Hf.
  destruct (replay_command env f w) as [[[res code]|e|p] w'] eqn:E; simpl in Hf |- *.
  2, 3: by destruct Hf as [Hd Hk].
  apply replay_command_Ok in E as [(req & Ha & Hv & Hr) ->].
  split; [apply Hr|]. split; [by exists req|].
  destruct Hr as (_ & _ & _ & _ & Hpos & _). destruct (Z.ltb_spec 0 (Failed res)); lia.
Qed.

(** The tool on the demonstration run: an event is sent again; a bad time is refused. *)
Definition demo_tool (f : ReplayFlags) : exit ReplayResult * World :=
  replay_main (H:=demo_ext) (H0:=demo_register) (H1:=demo_drivers) (H2:=λ s, "cannot parse " +:+ s)
    bare_environ f (demo3 (H:=demo_ext)).

Example replay_tool_publishes :
  let r := demo_tool (mkReplayFlags "uuid-0" "" "" 10 false) in
  status r.1 = 0 ∧ Published <$> printed r.1 = Some 1 ∧
  length (w_kafka r.2) = S (length (w_kafka (demo3 (H:=demo_ext)))).
Proof. vm_compute. by split_and!. Qed.
Example replay_tool_refuses :
  (demo_tool (mkReplayFlags "" "yesterday" "" 10 false)).1 = mkExit None 1.
Proof. vm_compute. reflexivity. Qed.

(** * The migrate tool *)

Section migrate.
Context `{Engine} `{Waiting}.

(** The wait changes nothing, and comes to an end: a round takes a second. *)
Lemma wait_loop_ends n deadline lastErr s t :
  deadline - t ≤ Z.of_nat n * Second →
  ∃ o s' t', wait_loop (S n) deadline lastErr (s, t) = (o, (s', t')) ∧ durable_of s' = durable_of s ∧
    (o = Ok true ∨ ∃ err, o = Err err).
Proof.
  revert lastErr s t. induction n as [|n IH]; intros lastErr s t Hd; cbn [wait_loop];
    rewrite (bind_run _ _ _ t (s, t)) by done; (destruct (Z.ltb_spec t deadline); [|by eexists _, s, t; eauto]); [lia|].
  rewrite (bind_run _ _ _ (mg_tick s) (mkTarget (contents s) (schema_migrations s) (S (mg_tick s)) (mg_begun s), t)) by done.
  destruct (Ping_err _); [|by eexists _, _, t; eauto].
  erewrite bind_run by reflexivity. destruct (Done_err _); [by eexists _, _, t; eauto|].
  erewrite bind_run by reflexivity. cbn [mg_tick contents schema_migrations].
  edestruct (IH (Some e)) as (o & s' & t' & E & Hs & Ho); [|by exists o, s', t'].
  unfold Second in *. lia.
Qed.

Lemma waitForDB_ends s t :
  ∃ o s' t', waitForDB (s, t) = (o, (s', t')) ∧ durable_of s' = durable_of s ∧
    (o = Ok true ∨ ∃ err, o = Err err).
Proof.
  unfold waitForDB. rewrite (bind_run _ _ _ t (s, t)) by done. apply wait_loop_ends. unfold Second. lia.
Qed.

Lemma AppliedVersions_cases s :
  ∃ o s', AppliedVersions s = (o, s') ∧ durable_of s' = durable_of s ∧
    ((∃ err, o = Err err) ∨ o = Ok (merge_sort Z.le (map_to_list (durable_of s).2).*1)).
Proof.
  destruct s as [c tbl n b]. unfold AppliedVersions, create_table, on_its_own, appliedVersions, the_table, tick, map_err, mbind, ST_bind.
  simpl. destruct (pool_fault n) as [[[] e]|]; simpl; [by eexists _, _; eauto..|].
  destruct (pool_fault (S n)) as [[? e]|]; simpl; [by eexists _, _; eauto|].
  destruct (pool_fault (S (S n))) as [[? e]|]; simpl; eexists _, _; eauto.
Qed.

(** What a line that [main] prints says of the run from [s] to [s']. *)
Definition says (fs : FS) (order : list Migration → list Migration) (direction : string) (steps : Z)
    (s s' : Target) (line : migrate_line) : Prop :=
  match line with
  | UpToDate => direction = "up" ∧ durable_of s' = durable_of s ∧
      ∃ ms, LoadMigrations fs order = inr ms ∧ ∀ m, m ∈ ms → is_Some ((durable_of s').2 !! Version m)
  | Applied vs => direction = "up" ∧ vs ≠ [] ∧ moves applies Up fs order s s' vs None ∧
      ∃ ms, LoadMigrations fs order = inr ms ∧ ∀ m, m ∈ ms → is_Some ((durable_of s').2 !! Version m)
  | Reverted vs => direction = "down" ∧ (0 < steps → Z.of_nat (length vs) ≤ steps) ∧
      moves reverts Down fs order s s' vs None
  | AppliedVersionsAre vs => direction = "status" ∧ durable_of s' = durable_of s ∧
      vs = merge_sort Z.le (map_to_list (durable_of s').2).*1
  end.

(** A run that ends in an error has moved no further than its migrations went. *)
Definition stops_short (fs : FS) (order : list Migration → list Migration) (direction : string)
    (s s' : Target) : Prop :=
  durable_of s' = durable_of s ∨
  (direction = "up" ∧ ∃ ran err, moves applies Up fs order s s' ran err) ∨
  (direction = "down" ∧ ∃ ran err, moves reverts Down fs order s s' ran err).

Lemma ran_cases (m : ST Target ran_result) s t vs err s' :
  m s = (Ok (vs, err), s') →
  ran m (s, t) = (match err with Some e => Err e | None => Ok vs end, (s', t)).
Proof. unfold ran, on_target, mbind, ST_bind. intros ->. by destruct err. Qed.

Lemma moves_durable R dir fs order s1 s s' ran err :
  durable_of s1 = durable_of s → moves R dir fs order s1 s' ran err → moves R dir fs order s s' ran err.
Proof. unfold moves. by intros ->. Qed.

Lemma in_turn_nil_inv R d d' : in_turn R [] d d' → d' = d.
Proof. remember [] as ms. by destruct 1. Qed.

Lemma run_up_says fs order steps s s1 t :
  durable_of s1 = durable_of s →
  ∃ o s', (applied ← ran (MigrateUp fs order);
           mret (match applied with [] => UpToDate | _ => Applied applied end, 0)) (s1, t) = (o, (s', t)) ∧
    ((∃ line, o = Ok (line, 0) ∧ says fs order "up" steps s s' line) ∨
     (∃ e, o = Err e) ∧ stops_short fs order "up" s s').
Proof.
  intros Hs. destruct (MigrateUp_moves fs order s1) as (vs & err & s' & E & Hm).
  unfold mbind at 1, ST_bind at 1. rewrite (ran_cases _ _ t _ _ _ E).
  apply (moves_durable _ _ _ _ _ _ _ _ _ Hs) in Hm.
  destruct err as [e|]; [eexists _, s'; split; [reflexivity|]; right; split; [eauto|right; left; eauto]|].
  eexists _, s'. split; [reflexivity|]. left. eexists. split; [reflexivity|].
  destruct (MigrateUp_ran _ _ _ _ _ E) as (ms & Hl & Hran). cbv zeta in Hran. destruct Hran as (Ev & Ht & Hall).
  destruct vs as [|v vs]; simpl; [|by split_and!; eauto].
  split_and!; [done| |eauto]. rewrite <-Hs. symmetry in Ev. apply fmap_nil_inv in Ev. rewrite Ev in Ht.
  by apply in_turn_nil_inv in Ht.
Qed.

Lemma run_down_says fs order steps s s1 t :
  durable_of s1 = durable_of s →
  ∃ o s', (reverted ← ran (MigrateDown fs order steps); mret (Reverted reverted, 0)) (s1, t) = (o, (s', t)) ∧
    ((∃ line, o = Ok (line, 0) ∧ says fs order "down" steps s s' line) ∨
     (∃ e, o = Err e) ∧ stops_short fs order "down" s s').
Proof.
  intros Hs. destruct (MigrateDown_moves fs order steps s1) as (vs & err & s' & E & Hn & Hm).
  unfold mbind at 1, ST_bind at 1. rewrite (ran_cases _ _ t _ _ _ E).
  apply (moves_durable _ _ _ _ _ _ _ _ _ Hs) in Hm.
  destruct err as [e|]; eexists _, s'; (split; [reflexivity|]);
    [right; split; [eauto|right; right; eauto]|left; eexists; by split].
Qed.
End migrate.

(** The migrate tool does what its direction says and its exit tells: it exits 0
    exactly when it prints a line, and then "up to date" and "applied" mean that
    every migration of the directory is recorded, "reverted" that at most the
    requested number was rolled back, and the versions it lists are those of the
    bookkeeping table. Any other exit is 1, with the database moved no further
    than the migrations that took effect; for a direction it does not know, or a
    database that never answers, not at all. *)
Theorem migrate_exit_status `{Engine} `{Waiting} env fs order direction steps s t :
  let e := (migrate_main env fs order direction steps (s, t)).1 in
  let s' := (migrate_main env fs order direction steps (s, t)).2.1 in
  match printed e with
  | Some line => status e = 0 ∧ says fs order direction steps s s' line
  | None => status e = 1 ∧ stops_short fs order direction s s' ∧
      (direction ∉ ["up"; "down"] → durable_of s' = durable_of s)
  end.
Proof.
  unfold migrate_main, run_main, migrate_command.
  destruct (Load env "migrate") as [err|c];
    [rewrite (bind_run_Err _ _ _ err (s, t)) by done; by split_and!; [|left|]|rewrite (bind_run _ _ _ c (s, t)) by done].
  destruct (New_err (DatabaseURL c)); [by split_and!; [|left|]|].
  destruct (waitForDB_ends s t) as (o & s1 & t1 & E & Hs & Ho).
  destruct Ho as [-> |[err ->]];
    [rewrite (bind_run _ _ _ _ _ E)|rewrite (bind_run_Err _ _ _ _ _ E); by split_and!; [|left|]].
  destruct (String.eqb_spec direction "up") as [->|Hup].
  { destruct (run_up_says fs order steps s s1 t1 Hs) as (o & s' & -> & [(l & -> & Hl)|[[e ->] Hst]]); [done|].
    simpl. split_and!; [done..|set_solver]. }
  destruct (String.eqb_spec direction "down") as [->|Hdown].
  { destruct (run_down_says fs order steps s s1 t1 Hs) as (o & s' & -> & [(l & -> & Hl)|[[e ->] Hst]]); [done|].
    simpl. split_and!; [done..|set_solver]. }
  destruct (String.eqb_spec direction "status") as [->|Hst]; [|by split_and!; [|left|]].
  destruct (AppliedVersions_cases s1) as (o & s' & Ea & Hd & Ho).
  unfold mbind, ST_bind, on_target. rewrite Ea. rewrite <-Hd in Ho. rewrite Hs in Hd.
  destruct Ho as [[e ->]| ->]; simpl; [by split_and!; [|left|]|]. by split_and!.
Qed.

(** The tool on an empty database that answers the third ping. *)
Definition demo_waiting : Waiting := {|
  Ping_err n := if (n <? 4)%nat then Some (EText "connection refused") else None;
  Done_err _ := None;
  New_err _ := None;
|}.
Definition demo_migrate (direction : string) : exit migrate_line * (@Target log_engine * Z) :=
  migrate_main (H:=log_engine) (H0:=demo_waiting) bare_environ repo_fs id direction 0 (fresh, 0).

Example migrate_tool_applies : printed (demo_migrate "up").1 = Some (Applied [1]).
Proof. vm_compute. reflexivity. Qed.
Example migrate_tool_refuses :
  (demo_migrate "sideways").1 = mkExit None 1 ∧ durable_of (demo_migrate "sideways").2.1 = durable_of fresh.
Proof. by vm_compute. Qed.
